(* ===== verification/_CoqProject ===== *)
-Q . S2P
Prelude.v
Float32.v
Rand.v
Congestion.v
Bytes.v
Errors.v
Reader.v
SeqNum.v
BitQueue.v
Types.v
PackType.v
Unconnected.v
AckNack.v
FrameSet.v
FrameBody.v
Packet.v
WireTypes.v
Format.v
Stream.v
Tracing.v
Dedup.v
Collections.v
DeFragment.v
Order.v
TestsDecoder.v
Decoder.v
Rest.v
Reassembly.v
Channels.v
Reactor.v
ReactorLoop.v
Link.v
Sink.v
Encoder.v
Estimator.v
SendBuffer.v
Resend.v
Opts.v
Reliable.v
Recovery.v
Body.v
State.v
Framed.v
ServerOffline.v
TestsSender.v
ClientOffline.v
Online.v
Incoming.v
Connect.v
Tokio.v
TestsNet.v
Delivery.v
Session.v
Settle.v
Bench.v
SimNet.v
Inet.v
Xdp.v
HeaderFields.v
Umem.v
UmemMem.v
XdpSocket.v
