(* ===== verification/Prelude.v ===== *)
(** * raknet-rs: a verification of the RakNet transport

    The crate under [src/src] carries ordered and reliable messages over UDP.  A
    connection has two halves.  What a peer sends travels through
    [Framed] (datagram to packet) -> the offline handler (is the sender known?) ->
    [Route] (acknowledge, note gaps) -> deduplication -> reassembly -> ordering ->
    body decoding -> the end of the stream -> the online handler -> the user, and
    what the user sends through the state manager -> body encoding -> fragmentation
    -> the reliable layer -> [Framed].  The two halves meet in the [TransferLink]:
    the receiving half leaves acknowledgements and replies in it, which the
    sending half takes out.

    ** Files, in the order in which they build on each other

    - Prelude (this file): outcomes of Rust code ([Ok], [Err], [Panic]), polls, the
      build profile, machine integers as [Z] with their overflow, tactics.
    - Float32, Rand, Congestion ([congestion/]): arithmetic of [f32] with its rounding,
      the crate rand, and the congestion controller that computes in [f32].
    - Bytes, Errors, Reader: the [bytes] crate as an interface with a reference
      instance, [src/errors.rs], and the reader monad of the codecs.
    - SeqNum ([utils/seq_num.rs]), BitQueue ([utils/bit_queue.rs]), Types
      ([lib.rs]).
    - PackType, Unconnected, AckNack, FrameSet, FrameBody, Packet ([packet/]): the wire
      format, one definition per reader and writer; WireTypes: the types of what is
      read; Format: how some of it is printed in logs.
    - Stream, Sink: how polled streams and sinks are modelled, and the
      contracts [ReadySink] and [returning] of a sink; Sink also has the logging
      layer ([utils/log.rs]); Tracing: the tracing streams ([utils/fastrace.rs],
      [codec/decoder/mod.rs]).
    - Dedup, DeFragment, Order, Decoder ([codec/decoder/], [codec/mod.rs]): the layers
      of the receiving half; Rest, Reassembly: what every layer does to the end of a
      stream, to its errors and to what is never completed; TestsDecoder: the unit
      tests of these files.
    - Collections, Channels: [BinaryHeap], [HashMap] iteration, the [lru],
      [concurrent_queue] and [async_channel] crates as interfaces with reference
      instances.
    - Reactor ([utils/reactor.rs], [utils/hash.rs]), ReactorLoop (its thread, as a
      step relation with the threads that insert timers), Link ([link.rs]).
    - Encoder, Body ([codec/encoder/], [opts.rs]): fragmentation, body encoding and the
      connection information.
    - Estimator ([estimator.rs]), SendBuffer, Resend, Opts, Reliable ([reliable.rs],
      [opts.rs]): the reliable layer, from its buffers to its polls; Recovery: what is
      sent again, and when.
    - State ([state.rs]): the life of a connection and its close.
    - Framed ([codec/frame.rs]): packets over a socket.
    - ServerOffline, ClientOffline, Online ([server/handler/], [client/handler/]): the
      handshakes, each end and both ends together; TestsSender: the unit tests of the
      sending half and of the handlers.
    - Incoming ([server/incoming/mod.rs]), Connect ([client/conn/mod.rs]): the server
      and the client as they stack all of this; Tokio: the adapters of tokio's sockets
      ([codec/tokio.rs], [server/incoming/tokio.rs], [client/conn/tokio.rs]);
      TestsNet: the configurations and the echo server of the integration tests
      ([tests.rs], [utils/tests/]).
    - Delivery: the encoder of one peer and the decoding pipeline of the other, end to
      end; Session: the same with the reliable layer, the datagrams and any network in
      between; Settle: the way back of the acknowledgements; Bench: the benchmark of
      the pipeline ([codec/mod.rs]); SimNet: the simulated network of the tests
      ([utils/tests/sim_net.rs]), which is such a network.
    - Inet, Xdp, HeaderFields ([xdp/ebpf/src]): the network headers, the kernel program
      that picks the datagrams of the RakNet ports, and the accessors of the headers;
      Umem, UmemMem, XdpSocket ([xdp/raknet-xdp/src]): the packet memory of its sockets,
      the layout of their rings and the system calls, the contents of the memory, and
      the shared handles with what they release when dropped.

    ** How the code is modelled

    A state is a record with the fields of the source, an operation a function that
    returns the new state in an [outcome]: [Err] where the source returns an error,
    [Panic] where it panics ([unwrap], [expect], [assert!], indexing, overflow in a
    debug build).  A theorem without a hypothesis on the profile [Build] holds in debug
    and release builds.  Integers are [Z] within the bounds of their type; time is an
    argument, in nanoseconds (milliseconds for [timestamp]).

    A stream that a layer polls is the list of its answers, its tape; a layer takes
    answers off the tape and gives one of its own, and [polls] makes successive polls.
    A sink is a class of four operations on a state.  Theorems about a layer over a
    sink are stated for any sink, for any sink whose calls return, or for a sink that
    keeps the contract [ReadySink]; [Framed] over an open socket discharges it.

    What several parts share is explicit: the link of a connection is a value that the
    operations thread, and the server keeps the links of its connections in a store;
    the queue of close events is threaded through the state managers and the server.
    Every operation is atomic, so an interleaving of tasks is a sequence of operations.

    Third-party code is an interface: a class of the operations that the source uses
    with their documented behaviour as laws, and a concrete instance that shows that
    the laws can hold ([bytes_reference], [heap_sorted], [lru_reference],
    [queue_reference], [channel_reference], [hash_iter_reference],
    [rand_reference], [deque_reference], [zerocopy_reference], [sample_maps], [sample_libc]).

    ** Loops and fuel

    Loops over a tape, a list or a queue recurse on it.  The others have fuel:
    [empty_loop] the number of things that wait to be sent, of which every round
    sends one; [close_rounds] five, one per state; [client_rounds] six more than the
    packets at hand, since a round leaves a state behind or takes a packet;
    [incoming_loop] and [receive_loop] one more than the packets at hand; [bodies_loop]
    the bodies in the link; [read_frames] the bytes of the datagram; [pack_loop] twice
    the frames and one more.  The theorems
    show that the fuel is never exhausted; the one loop of the source that can fail to
    end, [poll_close] of the reliable layer, takes the instants of its rounds as an
    argument and answers [OutOfFuel] when they are used up.

    ** What the theorems show

    - End to end: whatever order the application sends, polls and flushes in, and
      whatever the network does to the datagrams, every reliable message comes out of
      the other peer's pipeline once, those of a channel in order, if each of its
      frames arrives in some datagram, and an unreliable one as often as it arrives
      ([session_delivers], [messages_delivered], [bench_passes]); a flush sends again
      exactly what is reported lost or found expired by a scan ([flush_recovers]),
      and the acknowledgements that come back let the close complete
      ([session_settles]).  These hold for messages that are not sequenced, and within
      the limits of the numbers, of the MTU and of the receiver's configuration, which
      each theorem states.  The simulated network of the tests only loses, delays and
      reorders ([sim_net_faithful]) and is a network for the sessions
      ([sim_net_delivers]).
    - The wire format: every packet that an end may send is read back as it was
      written ([Packet_roundtrip_frame_set], [FrameBody_roundtrip],
      [Framed_transfers]); decoding untrusted bytes does not panic except for the
      acknowledgements of [Packet_read_ack_panics], and gives values of their types
      ([read_typed]).
    - The receiving half: each reliable frame is delivered once ([Dedup_delivers_once],
      [DuplicateWindow_exact]), fragments are put together again
      ([DeFragment_reassembles], [fragment_then_defragment]) within bounds
      ([DeFragment_bounded]), ordered channels are in order and complete
      ([Order_delivers_in_order]), and the whole pipeline survives any peer whose
      numbers stay below the last one ([frame_decoded_no_panic]).
    - The sending half: messages are split and numbered
      ([Fragment_start_send_splits]); frame sets are filled by priority
      ([SendBuffer_pop_by_priority]); emptying the reliable layer sends everything
      that waits, ends, and loses no reliable frame ([try_empty_flushes],
      [try_empty_safe]); acknowledgements retire and negative ones re-queue exactly
      what they name ([on_ack_retires], [on_nack_conserves]); replies leave the link
      ([Body_poll_empty_sends]); numbers are compressed without loss
      ([extend_from_compresses]); what is owed is accounted for
      ([Route_accounting_exact]).
    - The life of a connection: nothing passes before the handshake
      ([Offline_admits], [Offline_serves]), the handshakes complete
      ([handshake_completes], [online_handshake_completes]) and are exact
      ([ServerOnline_exact], [ClientOnline_exact]); the close follows its protocol and
      completes ([Outgoing_follows_protocol], [Outgoing_close_completes],
      [poll_close_completes]), and the server survives the closes of its connections
      ([Server_reaches_safe]); every timer that is not replaced fires
      ([reactor_fires_timers]).
    - Around it: over tokio's sockets, with a read buffer of its own capacity, the
      framing does what [Framed] does as long as there is room for the datagrams
      ([tokio_framed_refines]), tracing changes nothing ([tracing_transparent]), the
      congestion window stays open ([legacy_window_open]), the echo server of the tests
      echoes ([echo_exact]), log texts can be read back ([fmt_reads_back]), and the unit
      tests of the crate pass in the model ([unit_tests_pass]).
    - The XDP crates: the kernel program redirects exactly the packets that carry a
      datagram for a known port, fragments and UDP-Lite apart, where it does not
      ([raknet_xdp_exact]), the fields of the headers are
      independent ([Vtcfl_fields_independent] and its siblings), and the packet memory is
      cut into frames that are disjoint, in bounds and cover it
      ([Umem_frames_partition]) and hold their data separately
      ([umem_frames_separate], as the fields of the headers do, [fields_independent]), and
      every descriptor and mapping is released once,
      when its last handle is gone ([xdp_resources_exact]), although the memory of a
      socket can be gone before the socket ([attached_memory_unmapped]).
    - Where the code falls short: [poll_close_spins], [Packet_read_ack_panics],
      [Offline_poisoned] and others that are not numbered.

    ** Not modelled

    Waking of tasks other than through the reactor's timers and the shared links; the
    log messages and the formats that the compiler derives; the runtime of tokio, and
    with it the bodies of the integration tests, the collection of their traces, the
    examples and the harness of the benchmarks; and of the XDP crates the build script,
    the bindings it generates and the modules for sending and receiving, which are
    empty. *)
From stdpp Require Export base list gmap strings pretty numbers sorting.

Declare Scope rust_scope.
Delimit Scope rust_scope with rust.

(** ** Outcomes of Rust code

    A fallible Rust function returns [Ok]/[Err]; any Rust function may also
    panic.  [outcome] keeps the three apart. *)
Inductive outcome (E A : Type) : Type :=
| Ok (a : A)
| Err (e : E)
| Panic.
Arguments Ok {E A} a.
Arguments Err {E A} e.
Arguments Panic {E A}.

Global Instance outcome_ret E : MRet (outcome E) := λ A a, Ok a.
Global Instance outcome_bind E : MBind (outcome E) := λ A B f m,
  match m with
  | Ok a => f a
  | Err e => Err e
  | Panic => Panic
  end.

Lemma outcome_bind_Ok {E A B} (f : A → outcome E B) m b :
  (m ≫= f) = Ok b ↔ ∃ a, m = Ok a ∧ f a = Ok b.
Proof. destruct m; cbn; naive_solver. Qed.

(** The same in the other direction, to replay a computation. *)
Lemma outcome_bind_via {E A B} (m : outcome E A) (a : A) (f : A → outcome E B) : m = Ok a → m ≫= f = f a.
Proof. by intros ->. Qed.

Lemma outcome_bind_no_panic {E A B} (f : A → outcome E B) m :
  m ≠ Panic → (∀ a, m = Ok a → f a ≠ Panic) → (m ≫= f) ≠ Panic.
Proof. destruct m; cbn; naive_solver. Qed.

(** [opt.unwrap()], and indexing *)
Definition unwrap {E A} (o : option A) : outcome E A := match o with Some a => mret a | None => Panic end.

(** The result of polling a future, a stream or a sink. *)
Inductive poll (A : Type) : Type :=
| Ready (a : A)
| Pending.
Arguments Ready {A} a.
Arguments Pending {A}.

(** ** Build profile

    Arithmetic overflow and [debug_assert!] panic in a debug build only; every
    definition that depends on it takes the profile as an argument, and a
    theorem without a hypothesis on it holds in both. *)
Class Build := debug_assertions : bool.

Definition assert_ {E} (b : bool) : outcome E unit :=
  if b then Ok tt else Panic.

Definition debug_assert {E} {B : Build} (b : bool) : outcome E unit :=
  if debug_assertions then assert_ b else Ok tt.

(** ** Machine integers

    A [w]-bit unsigned integer is a [Z] in [0 .. 2^w). *)
Definition uint (w x : Z) : Prop := (0 ≤ x < 2 ^ w)%Z.
Definition sint (w x : Z) : Prop := (- 2 ^ (w - 1) ≤ x < 2 ^ (w - 1))%Z.

(** [x as uN] *)
Definition wrap (w x : Z) : Z := (x mod 2 ^ w)%Z.

(** [a + b], [a - b] and [a * b] on [w]-bit unsigned integers. *)
Definition uadd {E} {B : Build} (w a b : Z) : outcome E Z :=
  if (a + b <? 2 ^ w)%Z then Ok (a + b)%Z
  else if debug_assertions then Panic else Ok (wrap w (a + b)).

Definition usub {E} {B : Build} (w a b : Z) : outcome E Z :=
  if (b <=? a)%Z then Ok (a - b)%Z
  else if debug_assertions then Panic else Ok (wrap w (a - b)).

Global Instance uint_dec w x : Decision (uint w x).
Proof. unfold uint. apply _. Defined.

Global Instance sint_dec w x : Decision (sint w x).
Proof. unfold sint. apply _. Defined.

(** [a + b] on [w]-bit signed integers. *)
Definition iadd {E} {B : Build} (w a b : Z) : outcome E Z :=
  if decide (sint w (a + b)) then Ok (a + b)%Z
  else if debug_assertions then Panic else Ok ((a + b + 2 ^ (w - 1)) mod 2 ^ w - 2 ^ (w - 1))%Z.

Lemma wrap_small w x : uint w x → wrap w x = x.
Proof. intros Hx. unfold wrap. by apply Z.mod_small. Qed.

Lemma wrap_uint w x : (0 ≤ w)%Z → uint w (wrap w x).
Proof. intros. apply Z.mod_pos_bound. lia. Qed.

Lemma uadd_Ok {E} {B : Build} w a b :
  (a + b < 2 ^ w)%Z → uadd (E:=E) w a b = Ok (a + b)%Z.
Proof. intros. unfold uadd. by rewrite (proj2 (Z.ltb_lt _ _)). Qed.

Lemma usub_Ok {E} {B : Build} w a b :
  (b ≤ a)%Z → usub (E:=E) w a b = Ok (a - b)%Z.
Proof. intros. unfold usub. by rewrite (proj2 (Z.leb_le _ _)). Qed.

Lemma iadd_Ok {E} {B : Build} w a b :
  sint w (a + b) → iadd (E:=E) w a b = Ok (a + b)%Z.
Proof. intros. unfold iadd. by rewrite decide_True. Qed.

(** ** Lists *)

Lemma filter_all {A} (P : A → Prop) `{∀ x, Decision (P x)} l : Forall P l → filter P l = l.
Proof. induction 1 as [|x l Hx _ IH]; [done|]. by rewrite filter_cons_True, IH. Qed.

Lemma filter_none {A} (P : A → Prop) `{∀ x, Decision (P x)} l : Forall (λ x, ¬ P x) l → filter P l = [].
Proof. induction 1 as [|x l Hx _ IH]; [done|]. by rewrite filter_cons_False. Qed.

Lemma elem_of_take_elem {A} (x : A) n l : x ∈ take n l → x ∈ l.
Proof. intros Hx. rewrite <-(take_drop n l). apply elem_of_app. by left. Qed.

(** Replace the elements from [off] on: writes at places that do not overlap commute
    and do not disturb what is read elsewhere. *)
Section splice.
Context {A : Type}.
Implicit Types (v l : list A).

Definition splice (off : nat) v l : list A := take off l ++ v ++ drop (off + length v) l.

Lemma splice_length off v l : (off + length v ≤ length l)%nat → length (splice off v l) = length l.
Proof. intros. unfold splice. rewrite !length_app, length_take, length_drop. lia. Qed.

Lemma lookup_splice off v l i :
  (off + length v ≤ length l)%nat →
  splice off v l !! i = if decide (off ≤ i < off + length v)%nat then v !! (i - off)%nat else l !! i.
Proof.
  intros Hl. unfold splice. destruct (decide (i < off)%nat).
  - rewrite lookup_app_l by (rewrite length_take; lia). rewrite lookup_take_lt by lia. by rewrite decide_False by lia.
  - rewrite lookup_app_r by (rewrite length_take; lia). rewrite length_take, Nat.min_l by lia. case_decide.
    + by rewrite lookup_app_l by lia.
    + rewrite lookup_app_r, lookup_drop by lia. f_equal. lia.
Qed.

Lemma splice_comm off v off' v' l :
  (off + length v ≤ off' ∨ off' + length v' ≤ off)%nat → (off + length v ≤ length l)%nat → (off' + length v' ≤ length l)%nat →
  splice off v (splice off' v' l) = splice off' v' (splice off v l).
Proof.
  intros Hd Hl Hl'. apply list_eq. intros i. rewrite !lookup_splice by (rewrite ?splice_length; lia).
  repeat case_decide; try done; lia.
Qed.

Lemma splice_slice off v off' len l :
  (off + length v ≤ off' ∨ off' + len ≤ off)%nat → (off + length v ≤ length l)%nat →
  take len (drop off' (splice off v l)) = take len (drop off' l).
Proof.
  intros Hd Hl. apply list_eq. intros i. destruct (decide (i < len)%nat) as [Hi|Hi].
  - rewrite !lookup_take_lt, !lookup_drop, lookup_splice by lia. by rewrite decide_False by lia.
  - by rewrite !lookup_take_ge by lia.
Qed.

Lemma slice_splice off v l : (off + length v ≤ length l)%nat → take (length v) (drop off (splice off v l)) = v.
Proof.
  intros Hl. apply list_eq. intros i. destruct (decide (i < length v)%nat) as [Hi|Hi].
  - rewrite !lookup_take_lt, !lookup_drop, lookup_splice by lia. rewrite decide_True by lia. f_equal. lia.
  - rewrite lookup_take_ge by lia. symmetry. apply lookup_ge_None. lia.
Qed.
End splice.

(** Lists compared key by key: the elements with each key, in order. *)
Section keyed.
Context {A K : Type} `{!EqDecision K} (key : A → K).

Definition with_key (k : K) (l : list A) : list A := filter (λ x, key x = k) l.

Lemma elem_of_with_key k l x : x ∈ with_key k l ↔ key x = k ∧ x ∈ l.
Proof. unfold with_key. by rewrite list_elem_of_filter. Qed.

Lemma with_key_app k l l' : with_key k (l ++ l') = with_key k l ++ with_key k l'.
Proof. apply filter_app. Qed.

Lemma with_key_Permutation k l l' : l ≡ₚ l' → with_key k l ≡ₚ with_key k l'.
Proof. unfold with_key. by intros ->. Qed.

Lemma keyed_submseteq l l' : (∀ k, with_key k l ⊆+ with_key k l') → l ⊆+ l'.
Proof.
  revert l'. induction l as [|x l IH]; intros l' H; [apply submseteq_nil_l|].
  pose proof (H (key x)) as Hx. unfold with_key in Hx. rewrite filter_cons_True in Hx by done.
  assert (x ∈ l') as [k Hk]%elem_of_Permutation.
  { apply (elem_of_with_key (key x)). unfold with_key. eapply elem_of_submseteq; [left|exact Hx]. }
  rewrite Hk. apply submseteq_skip, IH. intros y. specialize (H y). unfold with_key in *. rewrite Hk in H.
  destruct (decide (key x = y)) as [Hxy|Hxy].
  - rewrite !filter_cons_True in H by done.
    by apply (submseteq_app_inv_l _ _ [x]).
  - by rewrite !filter_cons_False in H.
Qed.

Lemma keyed_Permutation l l' : (∀ k, with_key k l ≡ₚ with_key k l') → l ≡ₚ l'.
Proof.
  intros H. apply submseteq_length_Permutation.
  - apply keyed_submseteq. intros k. by rewrite (H k).
  - apply submseteq_length, keyed_submseteq. intros k. by rewrite (H k).
Qed.
End keyed.

(** Lists that a function tells apart are equal when their images are. *)
Lemma fmap_eq_inj {A B} (f : A → B) l l' : f <$> l = f <$> l' → NoDup (f <$> l') → l ⊆ l' → l = l'.
Proof.
  intros He Hnd Hsub. apply list_eq_same_length with (n:=length l').
  - done.
  - by rewrite <-(length_fmap f l), He, length_fmap.
  - intros i x y _ Hx Hy.
    assert (x ∈ l') as [j Hj]%list_elem_of_lookup_1 by (apply Hsub; by eapply list_elem_of_lookup_2).
    assert ((f <$> l') !! i = Some (f x)) as Hi by (rewrite <-He, list_lookup_fmap, Hx; done).
    assert ((f <$> l') !! j = Some (f x)) as Hj' by (by rewrite list_lookup_fmap, Hj).
    rewrite (NoDup_lookup _ _ _ _ Hnd Hi Hj') in Hy. congruence.
Qed.

(** ** Tactics *)

(** Reduce [decide]/boolean tests of the goal one by one. *)
Ltac case_bool H :=
  match goal with
  | |- context [if ?b then _ else _] =>
      lazymatch type of b with bool => destruct b eqn:H end
  end.

(** Decompose a monadic computation known to succeed. *)
Ltac bind_inv :=
  repeat match goal with
  | H : (_ ≫= _) = Ok _ |- _ =>
      let a := fresh "v" in let Hm := fresh "Hm" in
      apply outcome_bind_Ok in H as (a & Hm & H)
  | H : mret _ = Ok _ |- _ => injection H as H
  | H : Ok _ = Ok _ |- _ => injection H as H
  | H : Err _ = Ok _ |- _ => discriminate H
  | H : Panic = Ok _ |- _ => discriminate H
  end.

Ltac zlia := unfold uint, sint in *; Z.to_euclidean_division_equations; lia.
