(* ===== verification/Float32.v ===== *)
(** * Single precision arithmetic (f32)

    The [f32] of the language over the standard library's [spec_float] at precision
    24 and exponent bound 128: what its operations round to, as far as the
    congestion controller relies on it.  [mag] is the position of the leading bit,
    so that a positive float is at least [2 ^ k] when its [mag] exceeds [k]. *)
From Stdlib Require Import SpecFloat.
From S2P Require Import Prelude.
Open Scope Z_scope.

Definition f32 : Type := spec_float.

(** [n as f32] *)
Definition f32_of_usize (n : Z) : f32 := binary_normalize 24 128 n 0 false.
Definition f32_add : f32 → f32 → f32 := SFadd 24 128.
Definition f32_div : f32 → f32 → f32 := SFdiv 24 128.
Definition f32_ge (x y : f32) : bool := SFleb y x.
Definition f32_two : f32 := S754_finite false 8388608 (-22).
Definition f32_mul : f32 → f32 → f32 := SFmul 24 128.
Definition f32_gt (x y : f32) : bool := SFltb y x.
Definition f32_zero : f32 := S754_zero false.
Definition f32_one : f32 := S754_finite false 8388608 (-23).
Definition f32_hundred : f32 := S754_finite false 13107200 (-17).

(** [x as usize]: towards zero, saturating, and zero for what is not a number. *)
Definition f32_to_usize (x : f32) : Z :=
  match x with
  | S754_finite false m e => Z.min (if e <? 0 then Z.shiftr (Zpos m) (- e) else Z.shiftl (Zpos m) e) (2 ^ 64 - 1)
  | S754_infinity false => 2 ^ 64 - 1
  | _ => 0
  end.

(** [x as u32] *)
Definition f32_to_u32 (x : f32) : Z := Z.min (f32_to_usize x) (2 ^ 32 - 1).

(** ** Leading bits *)

Lemma digits_log2 p : Zpos (digits2_pos p) = Z.log2 (Zpos p) + 1.
Proof.
  induction p as [p IH|p IH|]; cbn [digits2_pos]; [..|done].
  - rewrite Pos2Z.inj_succ, IH, (Pos2Z.inj_xI p), Z.log2_succ_double by lia. lia.
  - rewrite Pos2Z.inj_succ, IH, (Pos2Z.inj_xO p), Z.log2_double by lia. lia.
Qed.

Definition mag (m e : Z) : Z := Z.log2 m + 1 + e.

Lemma mag_digits m e : 0 < m → Zdigits2 m + e = mag m e.
Proof. destruct m as [|p|p]; [lia| |lia]. intros _. cbn [Zdigits2]. by rewrite digits_log2. Qed.

Lemma mag_mono m m' e : m ≤ m' → mag m e ≤ mag m' e.
Proof. intros. unfold mag. pose proof (Z.log2_le_mono m m'). lia. Qed.

Lemma mag_shiftl m n e : 0 < m → 0 ≤ n → mag (m * 2 ^ n) (e - n) = mag m e.
Proof. intros. unfold mag. rewrite Z.log2_mul_pow2 by lia. lia. Qed.

Lemma pow2_pos n : 0 ≤ n → 0 < 2 ^ n.
Proof. intros. apply Z.pow_pos_nonneg; lia. Qed.

(** Dividing by a power of two that leaves a digit moves the leading bit. *)
Lemma mag_div m n e : 0 < m → 0 ≤ n ≤ Z.log2 m → 0 < m / 2 ^ n ∧ mag (m / 2 ^ n) (e + n) = mag m e.
Proof.
  intros Hm Hn. pose proof (Z.log2_spec m Hm) as [Hlo Hhi]. pose proof (pow2_pos n ltac:(lia)).
  assert (2 ^ (Z.log2 m - n) ≤ m / 2 ^ n) as Hge.
  { apply Z.div_le_lower_bound; [lia|]. rewrite <- Z.pow_add_r by lia. by replace (n + (Z.log2 m - n)) with (Z.log2 m) by lia. }
  pose proof (pow2_pos (Z.log2 m - n) ltac:(lia)). split; [lia|].
  unfold mag. rewrite <- Z.shiftr_div_pow2, Z.log2_shiftr by lia. lia.
Qed.

(** ** Shifting and rounding *)

Lemma iter_pos_nat {A} (f : A → A) p x : SpecFloat.iter_pos f p x = Nat.iter (Pos.to_nat p) f x.
Proof.
  revert x. induction p as [p IH|p IH|]; intros x; cbn [SpecFloat.iter_pos]; [..|done].
  - rewrite !IH, Pos2Nat.inj_xI. rewrite <- Nat.iter_add, <- Nat.iter_succ_r.
    f_equal. lia.
  - rewrite !IH, Pos2Nat.inj_xO, <- Nat.iter_add. f_equal. lia.
Qed.

Lemma shr_1_m r : 0 ≤ shr_m r → shr_m (shr_1 r) = shr_m r / 2.
Proof.
  destruct r as [m r s]. cbn [shr_m]. intros Hm. destruct m as [|p|p]; [done| |lia].
  destruct p as [p|p|]; cbn [shr_1 shr_m]; [| |done].
  - rewrite Pos2Z.inj_xI, Z.mul_comm, Z.div_add_l by lia. by rewrite Z.add_0_r.
  - rewrite Pos2Z.inj_xO, Z.mul_comm, Z.div_mul by lia. done.
Qed.

Lemma shr_iter_m n r : 0 ≤ shr_m r → shr_m (Nat.iter n shr_1 r) = shr_m r / 2 ^ Z.of_nat n.
Proof.
  intros Hr. induction n as [|n IH]; [cbn; by rewrite Z.div_1_r|].
  rewrite Nat.iter_succ. assert (0 ≤ shr_m r / 2 ^ Z.of_nat n) by (apply Z.div_pos; [done|apply pow2_pos; lia]).
  rewrite shr_1_m, IH by (rewrite IH; lia).
  rewrite Z.div_div by (try apply Z.lt_gt; try apply pow2_pos; try apply Z.neq_sym, Z.lt_neq, pow2_pos; lia).
  f_equal. rewrite Nat2Z.inj_succ, Z.pow_succ_r by lia. lia.
Qed.

(** What a right shift leaves: the quotient, at the exponent it has moved to. *)
Lemma shr_spec r e n : 0 ≤ shr_m r →
  shr_m (shr r e n).1 = shr_m r / 2 ^ Z.max 0 n ∧ (shr r e n).2 = e + Z.max 0 n.
Proof.
  intros Hr. destruct n as [|p|p]; cbn [shr fst snd].
  - rewrite Z.max_id, Z.div_1_r. split; lia.
  - rewrite iter_pos_nat, shr_iter_m by done. rewrite positive_nat_Z, Z.max_r by lia. done.
  - rewrite Z.max_l, Z.div_1_r by lia. split; lia.
Qed.

Lemma shr_record_of_loc_m m l : shr_m (shr_record_of_loc m l) = m.
Proof. by destruct l as [|[]]. Qed.

Lemma shr_fexp_pos m e l : 0 ≤ m → 0 ≤ shr_m (shr_fexp 24 128 m e l).1.
Proof.
  intros Hm. unfold shr_fexp.
  edestruct shr_spec as [-> _]; rewrite shr_record_of_loc_m; [done|].
  apply Z.div_pos; [done|]. apply pow2_pos. lia.
Qed.

(** A shift to the precision keeps the leading bit of a normal number. *)
Lemma shr_fexp_mag m e l : 0 < m → -125 ≤ mag m e →
  let '(r, e') := shr_fexp 24 128 m e l in 0 < shr_m r ∧ mag (shr_m r) e' = mag m e.
Proof.
  intros Hm Hmag. unfold shr_fexp. rewrite mag_digits by done. destruct (shr _ e _) as [r e'] eqn:Hr.
  pose proof (shr_spec (shr_record_of_loc m l) e (fexp 24 128 (mag m e) - e)) as Hs.
  rewrite Hr, shr_record_of_loc_m in Hs. cbn [fst snd] in Hs. destruct Hs as [-> ->]; [lia|].
  apply mag_div; [done|]. unfold fexp, emin. pose proof (Z.log2_nonneg m). unfold mag in *. lia.
Qed.

Lemma round_nearest_even_ge m l : m ≤ round_nearest_even m l.
Proof. destruct l as [|[]]; cbn; [lia| |lia|lia]. destruct (Z.even m); lia. Qed.

(** ** What is rounded *)

(** A float of this sign, not a number apart. *)
Definition signed (s : bool) (x : f32) : Prop :=
  match x with
  | S754_nan => False
  | S754_zero s' | S754_infinity s' => s' = s
  | S754_finite s' m e => s' = s
  end.

(** A positive float of at least [2 ^ k]. *)
Definition at_least (k : Z) (x : f32) : Prop :=
  match x with
  | S754_infinity false => True
  | S754_finite false m e => k < mag (Zpos m) e
  | _ => False
  end.

Lemma round_signed s m e l : 0 ≤ m → signed s (binary_round_aux 24 128 s m e l).
Proof.
  intros Hm. unfold binary_round_aux.
  pose proof (shr_fexp_pos m e l Hm) as Hr. destruct (shr_fexp 24 128 m e l) as [r e']. cbn [fst] in Hr.
  set (m' := round_nearest_even _ _).
  assert (0 ≤ m') as Hm' by (pose proof (round_nearest_even_ge (shr_m r) (loc_of_shr_record r)); lia).
  pose proof (shr_fexp_pos m' e' loc_Exact Hm') as Hr2.
  destruct (shr_fexp 24 128 m' e' loc_Exact) as [r2 e2]. cbn [fst] in Hr2.
  destruct (shr_m r2) as [|p|p]; [done| |lia]. by destruct (e2 <=? 128 - 24).
Qed.

(** Rounding a normal number never crosses a power of two downwards. *)
Lemma round_at_least k m e l : 0 < m → -125 ≤ mag m e → k < mag m e →
  at_least k (binary_round_aux 24 128 false m e l).
Proof.
  intros Hm Hmag Hk. unfold binary_round_aux.
  pose proof (shr_fexp_mag m e l Hm Hmag) as Hr. destruct (shr_fexp 24 128 m e l) as [r e'].
  destruct Hr as [Hr Hmr]. set (m' := round_nearest_even _ _).
  assert (shr_m r ≤ m') as Hm' by apply round_nearest_even_ge.
  pose proof (mag_mono _ _ e' Hm') as Hmono.
  pose proof (shr_fexp_mag m' e' loc_Exact ltac:(lia) ltac:(lia)) as Hr2.
  destruct (shr_fexp 24 128 m' e' loc_Exact) as [r2 e2]. destruct Hr2 as [Hr2 Hmr2].
  destruct (shr_m r2) as [|p|p] eqn:Hp; [lia| |lia].
  destruct (e2 <=? 128 - 24); [|done]. cbn. lia.
Qed.

Lemma round_nearest_even_le m l : round_nearest_even m l ≤ m + 1.
Proof. destruct l as [|[]]; cbn; [lia| |lia|lia]. destruct (Z.even m); lia. Qed.

(** A normal number well below the bound of the exponent does not overflow. *)
Lemma round_finite s m e l : 0 < m → -125 ≤ mag m e ≤ 100 → e ≤ 100 →
  binary_round_aux 24 128 s m e l ≠ S754_infinity s.
Proof.
  intros Hm Hmag He. unfold binary_round_aux.
  pose proof (shr_fexp_mag m e l Hm ltac:(lia)) as Hr.
  pose proof (shr_spec (shr_record_of_loc m l) e (fexp 24 128 (Zdigits2 m + e) - e)) as Hs.
  change (shr _ e _) with (shr_fexp 24 128 m e l) in Hs. rewrite mag_digits, shr_record_of_loc_m in Hs by done.
  destruct (shr_fexp 24 128 m e l) as [r e']. cbn [fst snd] in Hs. destruct Hs as [_ He']; [lia|].
  destruct Hr as [Hr Hmr]. set (m' := round_nearest_even _ _).
  assert (shr_m r ≤ m' ≤ shr_m r + 1) as Hm' by (split; [apply round_nearest_even_ge|apply round_nearest_even_le]).
  assert (mag m' e' ≤ mag m e + 1) as Hmag'.
  { pose proof (mag_mono m' (Z.succ (shr_m r)) e' ltac:(lia)). unfold mag in *.
    pose proof (Z.log2_succ_le (shr_m r)). lia. }
  pose proof (shr_spec (shr_record_of_loc m' loc_Exact) e' (fexp 24 128 (Zdigits2 m' + e') - e')) as Hs.
  change (shr _ e' _) with (shr_fexp 24 128 m' e' loc_Exact) in Hs. rewrite mag_digits, shr_record_of_loc_m in Hs by lia.
  destruct (shr_fexp 24 128 m' e' loc_Exact) as [r2 e2]. cbn [fst snd] in Hs. destruct Hs as [_ He2]; [lia|].
  destruct (shr_m r2) as [|p|p]; [done| |done].
  replace (e2 <=? 128 - 24) with true; [done|]. symmetry. apply Z.leb_le. unfold fexp, emin in *. lia.
Qed.

(** ** Operations *)

Lemma shl_align_spec m e e' :
  Zpos (shl_align m e e').1 = Zpos m * 2 ^ Z.max 0 (e - e') ∧ (shl_align m e e').2 = Z.min e e'.
Proof.
  unfold shl_align. destruct (e' - e) as [|d|d] eqn:Hd; cbn [fst snd].
  - rewrite Z.max_l by lia. split; lia.
  - rewrite Z.max_l by lia. split; lia.
  - rewrite Z.max_r by lia. replace (e - e') with (Zpos d) by lia. split; [|lia].
    clear. induction d as [|d IH] using Pos.peano_ind; [cbn; lia|].
    rewrite Pos.iter_succ, Pos2Z.inj_xO, IH, Pos2Z.inj_succ, Z.pow_succ_r by lia. lia.
Qed.

(** A positive number is rounded at an exponent that suits it. *)
Lemma binary_normalize_pos m e z : 0 < m →
  ∃ j, 0 ≤ j ∧ j = Z.max 0 (e - fexp 24 128 (mag m e)) ∧
    binary_normalize 24 128 m e z = binary_round_aux 24 128 false (m * 2 ^ j) (e - j) loc_Exact.
Proof.
  intros Hm. exists (Z.max 0 (e - fexp 24 128 (mag m e))). split_and!; [lia|done|].
  destruct m as [|p|p]; [lia| |lia]. cbn [binary_normalize]. unfold binary_round.
  rewrite <- (mag_digits (Zpos p)) by done. cbn [Zdigits2].
  destruct (shl_align_spec p e (fexp 24 128 (Zpos (digits2_pos p) + e))) as [H1 H2].
  destruct (shl_align _ _ _) as [mz ez]. cbn [fst snd] in *. subst ez. rewrite H1. f_equal. lia.
Qed.

Lemma normalize_at_least k m e z : 0 < m → -125 ≤ mag m e → k < mag m e → at_least k (binary_normalize 24 128 m e z).
Proof.
  intros Hm Hmag Hk. destruct (binary_normalize_pos m e z Hm) as (j & Hj & _ & ->).
  pose proof (pow2_pos j Hj). apply round_at_least; [lia|rewrite mag_shiftl by lia; lia..].
Qed.

Lemma normalize_signed m e : 0 ≤ m → signed false (binary_normalize 24 128 m e false).
Proof.
  intros Hm. destruct (decide (m = 0)) as [->|]; [done|].
  destruct (binary_normalize_pos m e false ltac:(lia)) as (j & Hj & _ & ->).
  pose proof (pow2_pos j Hj). apply round_signed. lia.
Qed.

(** The counts of the machine are finite floats. *)
Lemma f32_of_usize_spec n : 0 ≤ n < 2 ^ 64 →
  signed false (f32_of_usize n) ∧ f32_of_usize n ≠ S754_infinity false ∧ (1 ≤ n → at_least 0 (f32_of_usize n)).
Proof.
  intros Hn. unfold f32_of_usize. split; [apply normalize_signed; lia|].
  destruct (decide (n = 0)) as [->|]; [split; [done|lia]|].
  assert (1 ≤ mag n 0 ≤ 64) as Hmag.
  { unfold mag. pose proof (Z.log2_nonneg n). pose proof (Z.log2_lt_pow2 n 64 ltac:(lia)). lia. }
  split; [|intros _; apply normalize_at_least; lia].
  destruct (binary_normalize_pos n 0 false ltac:(lia)) as (j & Hj & _ & ->).
  pose proof (pow2_pos j Hj). apply round_finite; [lia|rewrite mag_shiftl by lia; lia|lia].
Qed.

Lemma at_least_mono k k' x : k' ≤ k → at_least k x → at_least k' x.
Proof. intros Hk. destruct x as [|[]| |[]]; cbn; try done; lia. Qed.

Lemma at_least_signed k x : at_least k x → signed false x.
Proof. by destruct x as [|[]| |[]]. Qed.

(** Two positive floats are aligned and added as integers. *)
Lemma f32_add_finite m1 e1 m2 e2 :
  ∃ a b e, 0 < a ∧ 0 < b ∧ mag a e = mag (Zpos m1) e1 ∧ mag b e = mag (Zpos m2) e2 ∧
    f32_add (S754_finite false m1 e1) (S754_finite false m2 e2) = binary_normalize 24 128 (a + b) e false.
Proof.
  destruct (shl_align_spec m1 e1 (Z.min e1 e2)) as [H1 _]. destruct (shl_align_spec m2 e2 (Z.min e1 e2)) as [H2 _].
  eexists _, _, (Z.min e1 e2). split_and!; [..|reflexivity]; [done|done|..].
  - rewrite H1. rewrite <- (mag_shiftl (Zpos m1) (Z.max 0 (e1 - Z.min e1 e2)) e1) by lia. f_equal. lia.
  - rewrite H2. rewrite <- (mag_shiftl (Zpos m2) (Z.max 0 (e2 - Z.min e1 e2)) e2) by lia. f_equal. lia.
Qed.

(** Adding a positive float does not make less. *)
Lemma add_at_least k x y : -126 ≤ k → at_least k x → signed false y → at_least k (f32_add x y).
Proof.
  intros Hk Hx Hy. destruct x as [|[]| |[] m1 e1]; try done; [by destruct y as [|[]| |[]]|].
  destruct y as [|[]| |[] m2 e2]; try done. cbn [at_least] in Hx.
  destruct (f32_add_finite m1 e1 m2 e2) as (a & b & e & Ha & Hb & Hma & Hmb & ->).
  pose proof (mag_mono a (a + b) e ltac:(lia)). apply normalize_at_least; lia.
Qed.

(** Two floats of at least [2 ^ k] make [2 ^ (k + 1)]. *)
Lemma add_carry k x y : -126 ≤ k → at_least k x → at_least k y → at_least (k + 1) (f32_add x y).
Proof.
  intros Hk Hx Hy. destruct x as [|[]| |[] m1 e1]; try done; [by destruct y as [|[]| |[]]|].
  destruct y as [|[]| |[] m2 e2]; try done. cbn [at_least] in Hx, Hy.
  destruct (f32_add_finite m1 e1 m2 e2) as (a & b & e & Ha & Hb & Hma & Hmb & ->).
  enough (k + 1 < mag (a + b) e) by (apply normalize_at_least; lia).
  rewrite <- Hma in Hx. rewrite <- Hmb in Hy. unfold mag in *.
  pose proof (Z.log2_spec a Ha) as [Ha' _]. pose proof (Z.log2_spec b Hb) as [Hb' _].
  enough (Z.max 0 (k - e) + 1 ≤ Z.log2 (a + b)) by lia.
  apply Z.log2_le_pow2; [lia|]. rewrite Z.pow_add_r by lia.
  pose proof (Z.pow_le_mono_r 2 (Z.max 0 (k - e)) (Z.log2 a) ltac:(lia)).
  pose proof (Z.pow_le_mono_r 2 (Z.max 0 (k - e)) (Z.log2 b) ltac:(lia)).
  pose proof (Z.log2_nonneg a). pose proof (Z.log2_nonneg b). lia.
Qed.


(** What a quotient is rounded from. *)
Lemma SFdiv_core_spec m1 e1 m2 e2 : 0 < m1 → 0 < m2 →
  ∃ s l, 0 ≤ s ∧ e1 - e2 - s ≤ fexp 24 128 (mag m1 e1 - mag m2 e2) ∧
    SFdiv_core_binary 24 128 m1 e1 m2 e2 = (m1 * 2 ^ s / m2, e1 - e2 - s, l).
Proof.
  intros H1 H2. unfold SFdiv_core_binary. rewrite !mag_digits by done.
  set (e := Z.min _ _). set (s := e1 - e2 - e).
  assert (match s with 0 => m1 | Z.pos _ => Z.shiftl m1 s | Z.neg _ => 0 end = m1 * 2 ^ s) as ->.
  { assert (0 ≤ s) by lia. destruct s as [|p|p]; [cbn; lia|by rewrite Z.shiftl_mul_pow2|lia]. }
  exists s. unfold Z.div. destruct (Z.div_eucl _ _) as [q r]. eexists. split_and!; [lia|lia|].
  do 2 f_equal. lia.
Qed.

Lemma div_signed x y k : signed false x → x ≠ S754_infinity false → at_least k y → signed false (f32_div x y).
Proof.
  intros Hx Hfin Hy. destruct x as [[]|[]| |[] m1 e1]; try done; destruct y as [|[]| |[] m2 e2]; try done.
  unfold f32_div, SFdiv. destruct (SFdiv_core_spec (Zpos m1) e1 (Zpos m2) e2) as (s & l & Hs & _ & ->); [done|done|].
  apply round_signed. apply Z.div_pos; [|done]. pose proof (pow2_pos s Hs). lia.
Qed.

(** Half of a normal number. *)
Lemma div_two_at_least k x : -125 ≤ k → at_least (k + 1) x → at_least k (f32_div x f32_two).
Proof.
  intros Hk Hx. destruct x as [|[]| |[] m e]; try done. cbn [at_least] in Hx.
  unfold f32_div, SFdiv, f32_two. destruct (SFdiv_core_spec (Zpos m) e 8388608 (-22)) as (s & l & Hs & He & ->); [done|done|].
  pose proof (pow2_pos s Hs). change 8388608 with (2 ^ 23) at 1.
  assert (23 ≤ Z.log2 (Zpos m * 2 ^ s)) as Hlog.
  { rewrite Z.log2_mul_pow2 by lia. unfold fexp, emin, mag in *. change (Z.log2 8388608) with 23 in He. lia. }
  destruct (mag_div (Zpos m * 2 ^ s) 23 (e - s - 1) ltac:(lia) ltac:(lia)) as [Hpos Hmag].
  replace (e - s - 1 + 23) with (e - -22 - s) in Hmag by lia.
  assert (mag (Zpos m * 2 ^ s) (e - s - 1) = mag (Zpos m) e - 1) as Hm.
  { replace (e - s - 1) with ((e - 1) - s) by lia. rewrite mag_shiftl by lia. unfold mag. lia. }
  apply round_at_least; [lia|lia|lia].
Qed.

Lemma to_usize_at_least k x : 0 ≤ k < 64 → at_least k x → 2 ^ k ≤ f32_to_usize x.
Proof.
  intros Hk Hx. assert (2 ^ k ≤ 2 ^ 64 - 1) as Hb by (pose proof (Z.pow_lt_mono_r 2 k 64); lia).
  destruct x as [|[]| |[] m e]; try done. cbn [at_least f32_to_usize] in *. apply Z.min_glb; [|done].
  unfold mag in Hx. destruct (e <? 0) eqn:He.
  - apply Z.ltb_lt in He. rewrite Z.shiftr_div_pow2 by lia. apply Z.div_le_lower_bound; [apply pow2_pos; lia|].
    rewrite <- Z.pow_add_r by lia. apply Z.log2_le_pow2; lia.
  - apply Z.ltb_ge in He. rewrite Z.shiftl_mul_pow2 by lia. apply Z.log2_le_pow2; [pose proof (pow2_pos e He); lia|].
    rewrite Z.log2_mul_pow2 by lia. lia.
Qed.

(** ** Small integers are exact *)

(** The float of [0 < n < 2 ^ 24]. *)
Definition f32_int (n : Z) : f32 := S754_finite false (Z.to_pos (n * 2 ^ (23 - Z.log2 n))) (Z.log2 n - 23).

Lemma shr_1_double m : 0 < m → shr_1 (Build_shr_record (2 * m) false false) = Build_shr_record m false false.
Proof. by destruct m. Qed.

Lemma shr_iter_exact n m : 0 < m →
  Nat.iter n shr_1 (Build_shr_record (m * 2 ^ Z.of_nat n) false false) = Build_shr_record m false false.
Proof.
  induction n as [|n IH]; intros Hm; [cbn; by rewrite Z.mul_1_r|].
  rewrite Nat.iter_succ_r, Nat2Z.inj_succ, Z.pow_succ_r by lia.
  replace (m * (2 * 2 ^ Z.of_nat n)) with (2 * (m * 2 ^ Z.of_nat n)) by lia.
  rewrite shr_1_double by (apply Z.mul_pos_pos; [done|apply pow2_pos; lia]). by apply IH.
Qed.

Lemma shr_exact m e k : 0 < m → 0 ≤ k →
  shr (Build_shr_record (m * 2 ^ k) false false) e k = (Build_shr_record m false false, e + k).
Proof.
  intros Hm Hk. destruct k as [|p|p]; [cbn; f_equal; [f_equal; lia|lia]| |lia].
  cbn [shr]. rewrite iter_pos_nat. rewrite <- (positive_nat_Z p) at 1. by rewrite shr_iter_exact.
Qed.

(** A mantissa of at most 24 digits, with zeros behind it, is rounded to itself. *)
Lemma normalize_exact n j : 0 < n < 2 ^ 24 → 0 ≤ j → binary_normalize 24 128 (n * 2 ^ j) (- j) false = f32_int n.
Proof.
  intros Hn Hj. pose proof (pow2_pos j Hj). pose proof (Z.log2_nonneg n).
  assert (Z.log2 n ≤ 23) as Hlog by (pose proof (Z.log2_lt_pow2 n 24 ltac:(lia)); lia).
  destruct (binary_normalize_pos (n * 2 ^ j) (- j) false ltac:(lia)) as (i & Hi & Heq & ->).
  replace (- j) with (0 - j) in Heq at 2 by lia. rewrite mag_shiftl in Heq by lia.
  assert (fexp 24 128 (mag n 0) = Z.log2 n - 23) as Hf by (unfold fexp, emin, mag; lia). rewrite Hf in Heq.
  set (f := Z.log2 n - 23) in *. set (t := j + i).
  replace (n * 2 ^ j * 2 ^ i) with (n * 2 ^ t) by (unfold t; rewrite Z.pow_add_r by lia; lia).
  replace (- j - i) with (0 - t) by lia.
  assert (0 ≤ t + f) by lia. pose proof (pow2_pos (- f) ltac:(lia)).
  assert (n * 2 ^ t = n * 2 ^ (- f) * 2 ^ (t + f)) as Ht.
  { rewrite <- Z.mul_assoc, <- Z.pow_add_r by lia. do 2 f_equal. lia. }
  unfold binary_round_aux, shr_fexp at 1. rewrite mag_digits, mag_shiftl, Hf by (rewrite ?Ht; lia).
  replace (f - (0 - t)) with (t + f) by lia. cbn [shr_record_of_loc]. rewrite Ht, shr_exact by lia.
  cbn [shr_m loc_of_shr_record round_nearest_even]. unfold shr_fexp.
  replace (0 - t + (t + f)) with (0 - - f) by lia. rewrite mag_digits, mag_shiftl, Hf by lia.
  replace (f - (0 - - f)) with 0 by lia. cbn [shr shr_record_of_loc shr_m].
  unfold f32_int. replace (23 - Z.log2 n) with (- f) by lia.
  destruct (n * 2 ^ (- f)) as [|p|p]; [lia| |lia]. fold f. replace (0 - - f) with f by lia.
  replace (f <=? 128 - 24) with true; [done|]. symmetry. apply Z.leb_le. lia.
Qed.

Lemma f32_of_usize_exact n : 0 < n < 2 ^ 24 → f32_of_usize n = f32_int n.
Proof. intros Hn. rewrite <- (normalize_exact n 0) by lia. unfold f32_of_usize. by rewrite Z.mul_1_r. Qed.

Lemma f32_int_pos n : 0 < n < 2 ^ 24 → Zpos (Z.to_pos (n * 2 ^ (23 - Z.log2 n))) = n * 2 ^ (23 - Z.log2 n).
Proof.
  intros Hn. apply Z2Pos.id. apply Z.mul_pos_pos; [lia|]. apply pow2_pos.
  pose proof (Z.log2_lt_pow2 n 24 ltac:(lia)). lia.
Qed.

Lemma f32_add_exact a b : 0 < a → 0 < b → a + b < 2 ^ 24 → f32_add (f32_int a) (f32_int b) = f32_int (a + b).
Proof.
  intros Ha Hb Hab. unfold f32_int at 1 2. cbn [f32_add SFadd cond_Zopp].
  set (ea := Z.log2 a - 23). set (eb := Z.log2 b - 23).
  assert (ea ≤ 0) by (pose proof (Z.log2_lt_pow2 a 24 ltac:(lia)); lia).
  assert (eb ≤ 0) by (pose proof (Z.log2_lt_pow2 b 24 ltac:(lia)); lia).
  destruct (shl_align_spec (Z.to_pos (a * 2 ^ (23 - Z.log2 a))) ea (Z.min ea eb)) as [-> _].
  destruct (shl_align_spec (Z.to_pos (b * 2 ^ (23 - Z.log2 b))) eb (Z.min ea eb)) as [-> _].
  rewrite !f32_int_pos by lia. rewrite <- (normalize_exact (a + b) (- Z.min ea eb)) by lia.
  f_equal; [|lia]. rewrite Z.mul_add_distr_r, <- !Z.mul_assoc, <- !Z.pow_add_r by lia. f_equal; f_equal; f_equal; lia.
Qed.

Lemma f32_to_usize_exact n : 0 < n < 2 ^ 24 → f32_to_usize (f32_int n) = n.
Proof.
  intros Hn. unfold f32_int. cbn [f32_to_usize]. rewrite f32_int_pos by done.
  pose proof (Z.log2_lt_pow2 n 24 ltac:(lia)).
  assert (n < 2 ^ 64) by (pose proof (Z.pow_lt_mono_r 2 24 64); lia).
  destruct (_ <? 0) eqn:He.
  - rewrite Z.shiftr_div_pow2 by lia. replace (- (Z.log2 n - 23)) with (23 - Z.log2 n) by lia.
    rewrite Z.div_mul by (pose proof (pow2_pos (23 - Z.log2 n)); lia). lia.
  - apply Z.ltb_ge in He. replace (Z.log2 n) with 23 by lia. change (23 - 23) with 0. rewrite Z.shiftl_0_r, Z.pow_0_r. lia.
Qed.
