(* ===== verification/Rand.v ===== *)
(** * Random numbers

    What the benchmark and the simulated network use of the crate rand. *)
From Stdlib Require Import SpecFloat.
From S2P Require Import Prelude Float32.
Open Scope Z_scope.

(** A generator is its state.  [gen_ratio] panics unless the ratio is at most one,
    [gen] of an [f32] is in [0, 1), and [partial_shuffle] only moves elements. *)
Class RandCrate := {
  StdRng : Type;
  seed_from_u64 : Z → StdRng;
  draw_ratio : Z → Z → StdRng → bool * StdRng;
  gen_f32 : StdRng → f32 * StdRng;
  partial_shuffle : ∀ {A}, list A → Z → StdRng → list A * StdRng;
  gen_f32_range r : f32_ge (gen_f32 r).1 f32_zero = true ∧ f32_ge (gen_f32 r).1 f32_one = false;
  partial_shuffle_perm {A} (l : list A) n r : (partial_shuffle l n r).1 ≡ₚ l;
}.

Definition gen_ratio {RC : RandCrate} {E} (numerator denominator : Z) (rng : StdRng) : outcome E (bool * StdRng) :=
  if (denominator =? 0) || (denominator <? numerator) then Panic else mret (draw_ratio numerator denominator rng).

(** Random numbers that always repeat a frame set, a float that is alternately 0
    and 1/2, and a shuffle that reverses. *)
Program Definition rand_reference : RandCrate := {|
  StdRng := Z;
  seed_from_u64 s := s;
  draw_ratio _ _ r := (true, r + 1);
  gen_f32 r := (if Z.even r then f32_zero else S754_finite false 8388608 (-24), r + 1);
  partial_shuffle A l _ r := (reverse l, r + 1);
|}.
Next Obligation. intros r. cbn. by destruct (Z.even r). Qed.
Next Obligation. intros A l n r. cbn. apply reverse_Permutation. Qed.
