(* ===== verification/Congestion.v ===== *)
(** * Congestion control (src/congestion/mod.rs, src/congestion/legacy.rs)

    The interface of a congestion controller and the legacy one, which computes its
    window in single precision.  Nothing of the sending path uses them. *)
From Stdlib Require Import SpecFloat.
From S2P Require Import Prelude Float32.
Open Scope Z_scope.

(** [trait CongestionController] *)
Class CongestionController (C : Type) := {
  congestion_window : C → Z;
  cc_on_ack : Z → C → C;
  cc_on_nack : Z → C → C;
  cc_on_timeout : C → C;
}.

Inductive CongestionState := SlowStart | CongestionAvoidance.

Record LegacyCongester := mkLegacy {
  lc_state : CongestionState;
  lc_cwnd : f32;
  lc_ssthresh : f32;
}.

Definition INITIAL_CWND : f32 := f32_two.

Definition Legacy_new : LegacyCongester := mkLegacy SlowStart INITIAL_CWND (S754_infinity false).

Definition Legacy_window (c : LegacyCongester) : Z := f32_to_usize (lc_cwnd c).

Definition Legacy_on_ack (cnt : Z) (c : LegacyCongester) : LegacyCongester :=
  match lc_state c with
  | SlowStart =>
      let cwnd := f32_add (lc_cwnd c) (f32_of_usize cnt) in
      mkLegacy (if f32_ge cwnd (lc_ssthresh c) then CongestionAvoidance else SlowStart) cwnd (lc_ssthresh c)
  | CongestionAvoidance =>
      mkLegacy CongestionAvoidance (f32_add (lc_cwnd c) (f32_div (f32_of_usize cnt) (lc_cwnd c))) (lc_ssthresh c)
  end.

Definition Legacy_on_nack (cnt : Z) (c : LegacyCongester) : LegacyCongester :=
  let ssthresh := f32_div (lc_cwnd c) f32_two in
  mkLegacy CongestionAvoidance (f32_add ssthresh (f32_of_usize cnt)) ssthresh.

Definition Legacy_on_timeout (c : LegacyCongester) : LegacyCongester :=
  mkLegacy SlowStart INITIAL_CWND (f32_div (lc_cwnd c) f32_two).

#[export] Instance Legacy_controller : CongestionController LegacyCongester := {
  congestion_window := Legacy_window;
  cc_on_ack := Legacy_on_ack;
  cc_on_nack := Legacy_on_nack;
  cc_on_timeout := Legacy_on_timeout;
}.

(** What a controller is told, with the number of frames. *)
Inductive congestion_event :=
| Acked (cnt : Z)
| Nacked (cnt : Z)
| TimedOut.

Definition congestion_step {C} `{!CongestionController C} (c : C) (ev : congestion_event) : C :=
  match ev with
  | Acked cnt => cc_on_ack cnt c
  | Nacked cnt => cc_on_nack cnt c
  | TimedOut => cc_on_timeout c
  end.

Definition congestion_run {C} `{!CongestionController C} (c : C) (evs : list congestion_event) : C :=
  fold_left congestion_step evs c.

(** Counts are of the machine's width, and a negative acknowledgement is about at
    least one frame. *)
Definition congestion_event_ok (ev : congestion_event) : Prop :=
  match ev with
  | Acked cnt => 0 ≤ cnt < 2 ^ 64
  | Nacked cnt => 1 ≤ cnt < 2 ^ 64
  | TimedOut => True
  end.

(** ** The window *)

(** A window of at least two frames and a threshold of at least one. *)
Definition legacy_ok (c : LegacyCongester) : Prop := at_least 1 (lc_cwnd c) ∧ at_least 0 (lc_ssthresh c).

Lemma legacy_step_ok c ev : congestion_event_ok ev → legacy_ok c → legacy_ok (congestion_step c ev).
Proof.
  intros Hev [Hc Hs]. pose proof (div_two_at_least 0 (lc_cwnd c) ltac:(lia) Hc) as Hhalf.
  destruct ev as [cnt|cnt|]; cbn -[f32_div f32_add f32_of_usize] in *; [| |by split].
  - destruct (f32_of_usize_spec cnt Hev) as (Hsign & Hfin & _). unfold Legacy_on_ack.
    destruct (lc_state c); (split; [|done]); apply add_at_least; try done. by eapply div_signed.
  - destruct (f32_of_usize_spec cnt ltac:(lia)) as (_ & _ & Hone). split; [|done].
    apply (add_carry 0); [lia|done|apply Hone; lia].
Qed.

Lemma legacy_run_ok evs c : Forall congestion_event_ok evs → legacy_ok c → legacy_ok (congestion_run c evs).
Proof.
  intros Hevs. revert c. induction Hevs as [|ev evs Hev _ IH]; intros c Hc; [done|].
  apply IH. by apply legacy_step_ok.
Qed.

(** The legacy controller never closes its window: whatever acknowledgements,
    negative acknowledgements of at least one frame and timeouts it is told of, its
    window is a positive number of at least two frames, not a NaN, and the slow
    start threshold at least one frame. *)
Theorem legacy_window_open evs :
  Forall congestion_event_ok evs →
  let c := congestion_run Legacy_new evs in
  2 ≤ congestion_window c ∧ at_least 1 (lc_cwnd c) ∧ at_least 0 (lc_ssthresh c).
Proof.
  intros Hevs. destruct (legacy_run_ok evs Legacy_new Hevs) as [Hc Hs]; [by split|].
  split; [|done]. by apply (to_usize_at_least 1).
Qed.

Definition sample_events : list congestion_event := [Acked 5; Nacked 1; Acked 3; TimedOut; Nacked 1; Nacked 1].

Lemma legacy_window_open_witness :
  Legacy_window (congestion_run Legacy_new sample_events) = 2 ∧
  2 ≤ congestion_window (congestion_run Legacy_new sample_events).
Proof.
  split; [vm_compute; reflexivity|].
  refine (proj1 (legacy_window_open sample_events _)).
  repeat constructor; cbn; lia.
Defined.

(** ** Slow start *)

Lemma slow_start_step n cnt : 0 < n → 0 ≤ cnt → n + cnt < 2 ^ 24 →
  Legacy_on_ack cnt (mkLegacy SlowStart (f32_int n) (S754_infinity false)) =
  mkLegacy SlowStart (f32_int (n + cnt)) (S754_infinity false).
Proof.
  intros Hn Hcnt Hlt. unfold Legacy_on_ack. cbn [lc_state lc_cwnd lc_ssthresh].
  destruct (decide (cnt = 0)) as [->|].
  - rewrite Z.add_0_r. done.
  - rewrite f32_of_usize_exact, f32_add_exact by lia. done.
Qed.

(** In slow start the window grows by one for every frame that is acknowledged, as
    long as the sum is below the precision of the float. *)
Theorem slow_start_counts cnts :
  Forall (λ cnt, 0 ≤ cnt) cnts → 2 + foldr Z.add 0 cnts < 2 ^ 24 →
  let c := congestion_run Legacy_new (Acked <$> cnts) in
  lc_state c = SlowStart ∧ congestion_window c = 2 + foldr Z.add 0 cnts.
Proof.
  intros Hcnts Hsum.
  assert (∀ n, 0 < n → n + foldr Z.add 0 cnts < 2 ^ 24 →
    congestion_run (mkLegacy SlowStart (f32_int n) (S754_infinity false)) (Acked <$> cnts) =
    mkLegacy SlowStart (f32_int (n + foldr Z.add 0 cnts)) (S754_infinity false)) as H.
  { clear Hsum. induction Hcnts as [|cnt cnts Hcnt Hrest IH]; intros n Hn Hsum; cbn [foldr] in *; [by rewrite Z.add_0_r|].
    assert (0 ≤ foldr Z.add 0 cnts) by (clear -Hrest; induction Hrest; cbn; lia).
    rewrite fmap_cons. unfold congestion_run. cbn [fold_left congestion_step cc_on_ack Legacy_controller].
    rewrite slow_start_step by lia. unfold congestion_run in IH. rewrite IH by lia. by rewrite Z.add_assoc. }
  change Legacy_new with (mkLegacy SlowStart (f32_int 2) (S754_infinity false)). cbv zeta. rewrite H by lia.
  split; [done|]. cbn [congestion_window Legacy_controller Legacy_window lc_cwnd]. apply f32_to_usize_exact.
  assert (0 ≤ foldr Z.add 0 cnts) by (clear -Hcnts; induction Hcnts; cbn; lia). lia.
Qed.

(** At the precision of the float, acknowledgements of one frame are lost. *)
Example slow_start_stalls :
  congestion_window (congestion_run Legacy_new [Acked (2 ^ 24 - 2); Acked 1; Acked 1; Acked 1]) = 2 ^ 24.
Proof. reflexivity. Qed.

(** A negative acknowledgement of no frames would shrink the window below its start. *)
Example nack_of_nothing_shrinks :
  congestion_window (congestion_run Legacy_new [Nacked 0; Nacked 0]) = 0.
Proof. reflexivity. Qed.
