(* ===== verification/Bytes.v ===== *)
(** * Byte buffers

    Integers as byte lists, the interface of the [bytes] crate ([Buf] and
    [BufMut] on the contiguous buffers [Bytes] and [BytesMut]) as a class of
    operations with their documented behaviour, a concrete instance of it, and
    the reader monad in which the packet decoders are written. *)
From S2P Require Import Prelude.
Open Scope Z_scope.

(** ** Integers as byte lists *)

Fixpoint le_bytes (n : nat) (v : Z) : list Z :=
  match n with
  | O => []
  | S n => v mod 256 :: le_bytes n (v / 256)
  end.

Fixpoint le_value (l : list Z) : Z :=
  match l with
  | [] => 0
  | b :: l => b + 256 * le_value l
  end.

Definition be_bytes (n : nat) (v : Z) : list Z := reverse (le_bytes n v).
Definition be_value (l : list Z) : Z := le_value (reverse l).

(** The value of an unsigned [w]-bit pattern read as two's complement. *)
Definition to_signed (w v : Z) : Z := if v <? 2 ^ (w - 1) then v else v - 2 ^ w.

Abbreviation is_byte := (uint 8).
Abbreviation bytes_ok := (Forall (uint 8)).

Lemma length_le_bytes n v : length (le_bytes n v) = n.
Proof. revert v; induction n; intros; cbn; auto. Qed.

Lemma length_be_bytes n v : length (be_bytes n v) = n.
Proof. unfold be_bytes. by rewrite length_reverse, length_le_bytes. Qed.

Lemma le_bytes_ok n v : bytes_ok (le_bytes n v).
Proof.
  revert v; induction n; intros; cbn; constructor; auto.
  unfold uint. change (2 ^ 8) with 256. apply Z.mod_pos_bound; lia.
Qed.

Lemma be_bytes_ok n v : bytes_ok (be_bytes n v).
Proof. apply Forall_reverse, le_bytes_ok. Qed.

Lemma pow256_succ n : 256 ^ Z.of_nat (S n) = 256 * 256 ^ Z.of_nat n.
Proof. rewrite Nat2Z.inj_succ, Z.pow_succ_r; lia. Qed.

Lemma le_value_bytes n v : le_value (le_bytes n v) = v mod 256 ^ Z.of_nat n.
Proof.
  revert v; induction n as [|n IH]; intros v; cbn [le_bytes le_value].
  - by rewrite Z.mod_1_r.
  - rewrite IH, pow256_succ.
    rewrite Z.rem_mul_r by (try apply Z.pow_nonzero; try apply Z.pow_pos_nonneg; lia).
    lia.
Qed.

Lemma be_value_bytes n v : be_value (be_bytes n v) = v mod 256 ^ Z.of_nat n.
Proof. unfold be_value, be_bytes. by rewrite reverse_involutive, le_value_bytes. Qed.

Lemma le_value_bound l : bytes_ok l → 0 ≤ le_value l < 256 ^ Z.of_nat (length l).
Proof.
  induction 1 as [|b l Hb _ IH]; cbn [le_value length]; [cbn; lia|].
  rewrite pow256_succ. unfold uint in Hb. change (2 ^ 8) with 256 in Hb. lia.
Qed.

Lemma be_value_bound l : bytes_ok l → 0 ≤ be_value l < 256 ^ Z.of_nat (length l).
Proof.
  intros H. unfold be_value. rewrite <-(length_reverse l).
  by apply le_value_bound, Forall_reverse.
Qed.

Lemma le_bytes_value l : bytes_ok l → le_bytes (length l) (le_value l) = l.
Proof.
  induction 1 as [|b l Hb _ IH]; cbn [le_value le_bytes length]; [done|].
  unfold uint in Hb. change (2 ^ 8) with 256 in Hb.
  replace ((b + 256 * le_value l) mod 256) with b by zlia.
  replace ((b + 256 * le_value l) / 256) with (le_value l) by zlia.
  by rewrite IH.
Qed.

Lemma be_bytes_value l : bytes_ok l → be_bytes (length l) (be_value l) = l.
Proof.
  intros H. unfold be_bytes, be_value. rewrite <-(length_reverse l).
  rewrite le_bytes_value by (by apply Forall_reverse). apply reverse_involutive.
Qed.

Lemma to_signed_mod w v : 0 < w → sint w v → to_signed w (v mod 2 ^ w) = v.
Proof.
  intros Hw [H1 H2]. unfold to_signed.
  assert (2 ^ w = 2 * 2 ^ (w - 1)) as Hp.
  { rewrite <-Z.pow_succ_r by lia. f_equal; lia. }
  assert (0 < 2 ^ (w - 1)) by (apply Z.pow_pos_nonneg; lia).
  destruct (Z.ltb_spec (v mod 2 ^ w) (2 ^ (w - 1))) as [Hc|Hc];
    destruct (Z.le_gt_cases 0 v) as [Hv|Hv];
    rewrite Hp in *.
  - by rewrite Z.mod_small by lia.
  - rewrite <-(Z.mod_add _ 1) in Hc by lia. rewrite Z.mod_small in Hc; lia.
  - rewrite Z.mod_small in Hc; lia.
  - rewrite <-(Z.mod_add _ 1) by lia. rewrite Z.mod_small; lia.
Qed.

(** ** The [bytes] crate

    A [Bytes]/[BytesMut] value is its content; [remaining()] is its length and
    [chunk()] the content itself, both buffers being contiguous.  A read
    returns [None] where the crate documents a panic (not enough bytes left).
    Reads and writes of [u8, u16, u32, u64, u128] differ in their width only. *)
Class BytesCrate := {
  buf_get_uint : nat → list Z → option (Z * list Z);
  buf_get_int : nat → list Z → option (Z * list Z);
  buf_get_uint_le : nat → list Z → option (Z * list Z);
  buf_advance : nat → list Z → option (list Z);
  buf_split_to : nat → list Z → option (list Z * list Z);
  buf_put_uint : nat → Z → list Z → list Z;
  buf_put_int : nat → Z → list Z → list Z;
  buf_put_uint_le : nat → Z → list Z → list Z;
  buf_put_slice : list Z → list Z → list Z;
  buf_get_uint_spec n l :
    buf_get_uint n l =
      if decide (n ≤ length l)%nat then Some (be_value (take n l), drop n l) else None;
  buf_get_int_spec n l :
    buf_get_int n l =
      if decide (n ≤ length l)%nat
      then Some (to_signed (8 * Z.of_nat n) (be_value (take n l)), drop n l) else None;
  buf_get_uint_le_spec n l :
    buf_get_uint_le n l =
      if decide (n ≤ length l)%nat then Some (le_value (take n l), drop n l) else None;
  buf_advance_spec n l :
    buf_advance n l = if decide (n ≤ length l)%nat then Some (drop n l) else None;
  buf_split_to_spec n l :
    buf_split_to n l =
      if decide (n ≤ length l)%nat then Some (take n l, drop n l) else None;
  buf_put_uint_spec n v l : buf_put_uint n v l = l ++ be_bytes n v;
  buf_put_int_spec n v l : buf_put_int n v l = l ++ be_bytes n v;
  buf_put_uint_le_spec n v l : buf_put_uint_le n v l = l ++ le_bytes n v;
  buf_put_slice_spec s l : buf_put_slice s l = l ++ s;
}.

(** A concrete implementation of the documented behaviour, used by the
    witnesses to evaluate the model. *)
Program Definition bytes_reference : BytesCrate := {|
  buf_get_uint n l :=
    if decide (n ≤ length l)%nat then Some (be_value (take n l), drop n l) else None;
  buf_get_int n l :=
    if decide (n ≤ length l)%nat
    then Some (to_signed (8 * Z.of_nat n) (be_value (take n l)), drop n l) else None;
  buf_get_uint_le n l :=
    if decide (n ≤ length l)%nat then Some (le_value (take n l), drop n l) else None;
  buf_advance n l := if decide (n ≤ length l)%nat then Some (drop n l) else None;
  buf_split_to n l :=
    if decide (n ≤ length l)%nat then Some (take n l, drop n l) else None;
  buf_put_uint n v l := l ++ be_bytes n v;
  buf_put_int n v l := l ++ be_bytes n v;
  buf_put_uint_le n v l := l ++ le_bytes n v;
  buf_put_slice s l := l ++ s;
|}.
Solve Obligations with done.

#[global] Arguments be_bytes : simpl never.
#[global] Arguments le_bytes : simpl never.
#[global] Arguments be_value : simpl never.
#[global] Arguments le_value : simpl never.
