(* ===== verification/Errors.v ===== *)
(** * Errors (src/errors.rs)

    [std::io::Error] as its kind and message, and the decoder's error type with
    the constructors and payloads of the source. *)
From S2P Require Import Prelude.
Open Scope Z_scope.

(** [std::io::ErrorKind]: the kinds the source constructs, and [OsError] for a
    kind reported by the operating system through the socket. *)
Inductive ErrorKind :=
| Other
| NotConnected
| AddrNotAvailable
| ConnectionReset
| OsError (code : Z).

Record io_error := IoError { io_kind : ErrorKind; io_message : string }.

Inductive CodecError :=
| IO (e : io_error)
| InvalidIPVer (ver : Z)
| InvalidIPV6Family (family : Z)
| InvalidPacketLength (what : string)
| InvalidRecordType (record_type : Z)
| InvalidPacketType (id : Z)
| PartedFrame (reason : string)
| OrderedFrame (reason : string)
| AckCountExceed (cnt : Z)
| MagicNotMatched (pos byte : Z).

Global Instance ErrorKind_eq_dec : EqDecision ErrorKind.
Proof. solve_decision. Defined.
Global Instance io_error_eq_dec : EqDecision io_error.
Proof. solve_decision. Defined.
Global Instance CodecError_eq_dec : EqDecision CodecError.
Proof. solve_decision. Defined.
