(* ===== verification/Reader.v ===== *)
(** * Reading and writing packets

    The state monad over a byte buffer in which every decoder of
    [src/packet] is written, the accessors of the [bytes] crate lifted to it,
    the [read_buf!] macro, and the two predicates the decoder proofs use:
    [fixed n m] (a reader that takes exactly [n] bytes) and [safe m] (a reader
    that never panics). *)
From S2P Require Import Prelude Bytes Errors.
Open Scope Z_scope.

Definition reader (A : Type) : Type := list Z → outcome CodecError (A * list Z).

Global Instance reader_ret : MRet reader := λ A a l, Ok (a, l).
Global Instance reader_bind : MBind reader := λ A B f m l,
  match m l with
  | Ok (a, l') => f a l'
  | Err e => Err e
  | Panic => Panic
  end.

Definition throw {A} (e : CodecError) : reader A := λ _, Err e.
Definition lift {A} (m : outcome CodecError A) : reader A := λ l,
  match m with Ok a => Ok (a, l) | Err e => Err e | Panic => Panic end.
Definition of_option {A} (o : list Z → option (A * list Z)) : reader A := λ l,
  match o l with Some r => Ok r | None => Panic end.

(** [read_buf!(buf, len, exp)] *)
Definition read_buf {A} (len : nat) (exp : reader A) : reader A := λ l,
  if decide (length l < len)%nat
  then Err (InvalidPacketLength "certain sized pack")
  else exp l.

Section accessors.
Context {BC : BytesCrate}.

Definition get_u8 : reader Z := of_option (buf_get_uint 1).
Definition get_u16 : reader Z := of_option (buf_get_uint 2).
Definition get_u32 : reader Z := of_option (buf_get_uint 4).
Definition get_u64 : reader Z := of_option (buf_get_uint 8).
Definition get_u128 : reader Z := of_option (buf_get_uint 16).
Definition get_i64 : reader Z := of_option (buf_get_int 8).
Definition get_uint_le (n : nat) : reader Z := of_option (buf_get_uint_le n).
Definition advance (n : nat) : reader unit :=
  of_option (λ l, pair tt <$> buf_advance n l).
Definition split_to (n : nat) : reader (list Z) := of_option (buf_split_to n).

Definition put_u8 : Z → list Z → list Z := buf_put_uint 1.
Definition put_u16 : Z → list Z → list Z := buf_put_uint 2.
Definition put_u32 : Z → list Z → list Z := buf_put_uint 4.
Definition put_u64 : Z → list Z → list Z := buf_put_uint 8.
Definition put_i64 : Z → list Z → list Z := buf_put_int 8.
Definition put_uint_le (n : nat) : Z → list Z → list Z := buf_put_uint_le n.
Definition put_slice : list Z → list Z → list Z := buf_put_slice.

(** ** What a read of freshly written bytes returns *)

Lemma get_uint_app n v l :
  uint (8 * Z.of_nat n) v →
  of_option (buf_get_uint n) (be_bytes n v ++ l) = Ok (v, l).
Proof.
  intros Hv. unfold of_option. rewrite buf_get_uint_spec.
  rewrite decide_True by (rewrite length_app, length_be_bytes; lia).
  rewrite take_app_length' by (by rewrite length_be_bytes).
  rewrite drop_app_length' by (by rewrite length_be_bytes).
  rewrite be_value_bytes. unfold uint in Hv.
  replace (256 ^ Z.of_nat n) with (2 ^ (8 * Z.of_nat n)) by (by rewrite Z.pow_mul_r by lia).
  by rewrite Z.mod_small.
Qed.

Lemma get_u8_app v l : uint 8 v → get_u8 (be_bytes 1 v ++ l) = Ok (v, l).
Proof. apply (get_uint_app 1). Qed.
Lemma get_u16_app v l : uint 16 v → get_u16 (be_bytes 2 v ++ l) = Ok (v, l).
Proof. apply (get_uint_app 2). Qed.
Lemma get_u32_app v l : uint 32 v → get_u32 (be_bytes 4 v ++ l) = Ok (v, l).
Proof. apply (get_uint_app 4). Qed.
Lemma get_u64_app v l : uint 64 v → get_u64 (be_bytes 8 v ++ l) = Ok (v, l).
Proof. apply (get_uint_app 8). Qed.
Lemma get_u128_app v l : uint 128 v → get_u128 (be_bytes 16 v ++ l) = Ok (v, l).
Proof. apply (get_uint_app 16). Qed.

Lemma get_i64_app v l : sint 64 v → get_i64 (be_bytes 8 v ++ l) = Ok (v, l).
Proof.
  intros Hv. unfold get_i64, of_option. rewrite buf_get_int_spec.
  rewrite decide_True by (rewrite length_app, length_be_bytes; lia).
  rewrite take_app_length' by (by rewrite length_be_bytes).
  rewrite drop_app_length' by (by rewrite length_be_bytes).
  rewrite be_value_bytes. change (256 ^ Z.of_nat 8) with (2 ^ 64).
  change (8 * Z.of_nat 8) with 64. by rewrite to_signed_mod.
Qed.

Lemma get_uint_le_app n v l :
  uint (8 * Z.of_nat n) v →
  get_uint_le n (le_bytes n v ++ l) = Ok (v, l).
Proof.
  intros Hv. unfold get_uint_le, of_option. rewrite buf_get_uint_le_spec.
  rewrite decide_True by (rewrite length_app, length_le_bytes; lia).
  rewrite take_app_length' by (by rewrite length_le_bytes).
  rewrite drop_app_length' by (by rewrite length_le_bytes).
  rewrite le_value_bytes. unfold uint in Hv.
  replace (256 ^ Z.of_nat n) with (2 ^ (8 * Z.of_nat n)) by (by rewrite Z.pow_mul_r by lia).
  by rewrite Z.mod_small.
Qed.

Lemma split_to_app n b l : length b = n → split_to n (b ++ l) = Ok (b, l).
Proof.
  intros <-. unfold split_to, of_option. rewrite buf_split_to_spec.
  rewrite decide_True by (rewrite length_app; lia).
  by rewrite take_app_length, drop_app_length.
Qed.

Lemma advance_app n b l : length b = n → advance n (b ++ l) = Ok (tt, l).
Proof.
  intros <-. unfold advance, of_option. rewrite buf_advance_spec.
  rewrite decide_True by (rewrite length_app; lia). cbn. by rewrite drop_app_length.
Qed.

Lemma read_buf_Ok {A} n (m : reader A) l : (n ≤ length l)%nat → read_buf n m l = m l.
Proof. intros. unfold read_buf. rewrite decide_False by lia. done. Qed.

Lemma reader_bind_Ok {A B} (f : A → reader B) m l a l' :
  m l = Ok (a, l') → (m ≫= f) l = f a l'.
Proof. intros Hm. unfold mbind, reader_bind. by rewrite Hm. Qed.

Lemma reader_bind_inv {A B} (f : A → reader B) m l b l'' :
  (m ≫= f) l = Ok (b, l'') → ∃ a l', m l = Ok (a, l') ∧ f a l' = Ok (b, l'').
Proof.
  unfold mbind, reader_bind. destruct (m l) as [[a l']| |]; naive_solver.
Qed.

Lemma reader_bind_run {A B} (f : A → reader B) m l a l' r :
  m l = Ok (a, l') → f a l' = r → (m ≫= f) l = r.
Proof. intros Hm <-. by apply reader_bind_Ok. Qed.

Lemma read_buf_run {A} n (m : reader A) l r :
  (n ≤ length l)%nat → m l = r → read_buf n m l = r.
Proof. intros ? <-. by apply read_buf_Ok. Qed.

(** ** Readers of a fixed size, and readers that never panic *)

Definition fixed {A} (n : nat) (m : reader A) : Prop := ∀ l, (n ≤ length l)%nat →
  (∃ a l', m l = Ok (a, l') ∧ (length l' + n = length l)%nat) ∨ ∃ e, m l = Err e.

Definition safe {A} (m : reader A) : Prop := ∀ l, m l ≠ Panic.

Lemma fixed_ret {A} (a : A) : fixed 0 (mret a).
Proof. intros l _. left. exists a, l. split; [done|lia]. Qed.

Lemma fixed_throw {A} e : fixed 0 (throw (A:=A) e).
Proof. intros l _. right. by exists e. Qed.

Lemma fixed_bind {A B} n k (m : reader A) (f : A → reader B) :
  fixed n m → (∀ a, fixed k (f a)) → fixed (n + k) (m ≫= f).
Proof.
  intros Hm Hf l Hl. unfold mbind, reader_bind.
  destruct (Hm l) as [(a & l' & -> & Hlen)|[e ->]]; [lia| |by right; exists e].
  destruct (Hf a l') as [(b & l2 & -> & Hlen2)|[e ->]]; [lia| |by right; exists e].
  left. exists b, l2. split; [done|lia].
Qed.

Lemma fixed_eq {A} n k (m : reader A) : fixed k m → k = n → fixed n m.
Proof. by intros ? ->. Qed.

Lemma fixed_uint n : fixed n (of_option (buf_get_uint n)).
Proof.
  intros l Hl. left. unfold of_option. rewrite buf_get_uint_spec, decide_True by done.
  eexists _, _. split; [done|]. rewrite length_drop; lia.
Qed.

Lemma fixed_u8 : fixed 1 get_u8.
Proof. apply fixed_uint. Qed.
Lemma fixed_u16 : fixed 2 get_u16.
Proof. apply fixed_uint. Qed.
Lemma fixed_u32 : fixed 4 get_u32.
Proof. apply fixed_uint. Qed.
Lemma fixed_u64 : fixed 8 get_u64.
Proof. apply fixed_uint. Qed.
Lemma fixed_u128 : fixed 16 get_u128.
Proof. apply fixed_uint. Qed.

Lemma fixed_i64 : fixed 8 get_i64.
Proof.
  intros l Hl. left. unfold get_i64, of_option. rewrite buf_get_int_spec, decide_True by done.
  eexists _, _. split; [done|]. rewrite length_drop; lia.
Qed.

Lemma fixed_uint_le n : fixed n (get_uint_le n).
Proof.
  intros l Hl. left. unfold get_uint_le, of_option.
  rewrite buf_get_uint_le_spec, decide_True by done.
  eexists _, _. split; [done|]. rewrite length_drop; lia.
Qed.

Lemma fixed_advance n : fixed n (advance n).
Proof.
  intros l Hl. left. unfold advance, of_option. rewrite buf_advance_spec, decide_True by done.
  eexists _, _. split; [done|]. rewrite length_drop; lia.
Qed.

Lemma fixed_split_to n : fixed n (split_to n).
Proof.
  intros l Hl. left. unfold split_to, of_option. rewrite buf_split_to_spec, decide_True by done.
  eexists _, _. split; [done|]. rewrite length_drop; lia.
Qed.

Lemma fixed_safe {A} n (m : reader A) : fixed n m → safe (read_buf n m).
Proof.
  intros Hm l. unfold read_buf. case_decide as Hd; [done|].
  destruct (Hm l) as [(a & l' & -> & _)|[e ->]]; [lia|done|done].
Qed.

Lemma safe_ret {A} (a : A) : safe (mret a).
Proof. done. Qed.

Lemma safe_throw {A} e : safe (throw (A:=A) e).
Proof. done. Qed.

Lemma safe_bind {A B} (m : reader A) (f : A → reader B) :
  safe m → (∀ a, safe (f a)) → safe (m ≫= f).
Proof.
  intros Hm Hf l. unfold mbind, reader_bind. specialize (Hm l).
  destruct (m l) as [[a l']| |]; [apply Hf|done|done].
Qed.

(** A [read_buf!] whose body goes on reading after the bytes it checked. *)
Lemma read_buf_fixed_bind {A B} n k (m : reader A) (f : A → reader B) :
  fixed n m → (n ≤ k)%nat → (∀ a, safe (f a)) → safe (read_buf k (m ≫= f)).
Proof.
  intros Hm Hk Hf l. unfold read_buf. case_decide; [done|].
  unfold mbind, reader_bind.
  destruct (Hm l) as [(a & l' & -> & _)|[e ->]]; [lia|apply Hf|done].
Qed.
(** ** Readers with a postcondition

    On a buffer of bytes, [takes n m Q] is [fixed n m] with the value read in [Q],
    and [yields n m Q]: [m] never panics, takes at least [n] bytes and what it
    returns is in [Q]. *)

Definition takes {A} (n : nat) (m : reader A) (Q : A → Prop) : Prop :=
  ∀ l, bytes_ok l → (n ≤ length l)%nat →
  match m l with
  | Ok (a, l') => Q a ∧ bytes_ok l' ∧ (length l' + n = length l)%nat
  | Err _ => True
  | Panic => False
  end.

Definition yields {A} (n : nat) (m : reader A) (Q : A → Prop) : Prop :=
  ∀ l, bytes_ok l →
  match m l with
  | Ok (a, l') => Q a ∧ bytes_ok l' ∧ (length l' + n ≤ length l)%nat
  | Err _ => True
  | Panic => False
  end.

Lemma takes_ret {A} (a : A) (Q : A → Prop) : Q a → takes 0 (mret a) Q.
Proof. intros HQ l Hl _. cbn. split_and!; [done|done|lia]. Qed.

Lemma takes_bind {A B} n k (m : reader A) (f : A → reader B) Q R :
  takes n m Q → (∀ a, Q a → takes k (f a) R) → takes (n + k) (m ≫= f) R.
Proof.
  intros Hm Hf l Hl Hn. unfold mbind, reader_bind. specialize (Hm l Hl ltac:(lia)).
  destruct (m l) as [[a l']| |]; [|done..]. destruct Hm as (HQ & Hl' & Hlen).
  specialize (Hf a HQ l' Hl' ltac:(lia)). destruct (f a l') as [[b l2]| |]; [|done..].
  destruct Hf as (? & ? & ?). split_and!; [done|done|lia].
Qed.

Lemma takes_uint n : takes n (of_option (buf_get_uint n)) (uint (8 * Z.of_nat n)).
Proof.
  intros l Hl Hn. unfold of_option. rewrite buf_get_uint_spec, decide_True by done.
  split_and!; [|by apply Forall_drop|rewrite length_drop; lia].
  pose proof (be_value_bound (take n l) (Forall_take _ _ _ Hl)) as Hb.
  rewrite length_take_le in Hb by done. unfold uint. by rewrite Z.pow_mul_r by lia.
Qed.

Lemma takes_uint_le n : takes n (get_uint_le n) (uint (8 * Z.of_nat n)).
Proof.
  intros l Hl Hn. unfold get_uint_le, of_option. rewrite buf_get_uint_le_spec, decide_True by done.
  split_and!; [|by apply Forall_drop|rewrite length_drop; lia].
  pose proof (le_value_bound (take n l) (Forall_take _ _ _ Hl)) as Hb.
  rewrite length_take_le in Hb by done. unfold uint. by rewrite Z.pow_mul_r by lia.
Qed.

Lemma takes_split_to n : takes n (split_to n) (λ b, bytes_ok b ∧ length b = n).
Proof.
  intros l Hl Hn. unfold split_to, of_option. rewrite buf_split_to_spec, decide_True by done.
  split_and!; [by apply Forall_take|by apply length_take_le|by apply Forall_drop|].
  rewrite length_drop; lia.
Qed.

Lemma yields_read_buf {A} n (m : reader A) Q : takes n m Q → yields n (read_buf n m) Q.
Proof.
  intros Hm l Hl. unfold read_buf. case_decide as Hd; [done|].
  specialize (Hm l Hl ltac:(lia)). destruct (m l) as [[a l']| |]; [|done..].
  destruct Hm as (? & ? & ?). split_and!; [done|done|lia].
Qed.

Lemma yields_ret {A} (a : A) (Q : A → Prop) : Q a → yields 0 (mret a) Q.
Proof. intros HQ l Hl. cbn. split_and!; [done|done|lia]. Qed.

Lemma yields_bind {A B} n k (m : reader A) (f : A → reader B) Q R :
  yields n m Q → (∀ a, Q a → yields k (f a) R) → yields (n + k) (m ≫= f) R.
Proof.
  intros Hm Hf l Hl. unfold mbind, reader_bind. specialize (Hm l Hl).
  destruct (m l) as [[a l']| |]; [|done..]. destruct Hm as (HQ & Hl' & Hlen).
  specialize (Hf a HQ l' Hl'). destruct (f a l') as [[b l2]| |]; [|done..].
  destruct Hf as (? & ? & ?). split_and!; [done|done|lia].
Qed.

Lemma yields_le {A} n k (m : reader A) Q : (k ≤ n)%nat → yields n m Q → yields k m Q.
Proof.
  intros Hk Hm l Hl. specialize (Hm l Hl). destruct (m l) as [[a l']| |]; [|done..].
  destruct Hm as (? & ? & ?). split_and!; [done|done|lia].
Qed.
End accessors.

Create HintDb readapp discriminated.
#[export] Hint Constants Opaque : readapp.
#[export] Hint Resolve get_u8_app get_u16_app get_u32_app get_u64_app get_u128_app get_i64_app
  get_uint_le_app split_to_app advance_app : readapp.

Create HintDb fixed discriminated.
#[export] Hint Constants Opaque : fixed.
#[export] Hint Resolve fixed_ret fixed_throw fixed_u8 fixed_u16 fixed_u32 fixed_u64 fixed_u128
  fixed_i64 fixed_uint_le fixed_advance fixed_split_to : fixed.

Create HintDb safe discriminated.
#[export] Hint Constants Opaque : safe.
#[export] Hint Resolve safe_ret safe_throw : safe.

(** [fixed_tac] proves [fixed n m] for a straight-line reader; the size of each
    primitive comes from the hints and the sum is checked at the end. *)
Ltac fixed_open :=
  lazymatch goal with
  | |- fixed _ (_ ≫= _) =>
      eapply fixed_bind; [solve [eauto with fixed] | intros; fixed_open ]
  | |- _ => solve [eauto with fixed]
  end.

Ltac fixed_tac := eapply fixed_eq; [fixed_open | reflexivity].

(** One step of the safety of a reader. *)
Ltac safe_tac :=
  repeat match goal with
  | |- safe (_ ≫= _) => apply safe_bind; [|intros ?]
  | |- safe (if ?b then _ else _) => destruct b
  | |- safe (let (_, _) := ?p in _) => destruct p
  | |- safe (match ?x with _ => _ end) => destruct x
  | |- safe (read_buf _ _) => solve [eapply fixed_safe; fixed_tac]
  | |- safe _ => solve [eauto with safe]
  end.

Ltac to_safe :=
  lazymatch goal with
  | |- ?m ?l ≠ Panic => let H := fresh in enough (safe m) as H by apply H
  end.

(** The shape [buf ++ bytes] of a chain of writes, right-nested. *)
Ltac put_norm :=
  unfold put_u8, put_u16, put_u32, put_u64, put_i64, put_uint_le, put_slice in *;
  rewrite ?buf_put_uint_spec, ?buf_put_int_spec, ?buf_put_uint_le_spec, ?buf_put_slice_spec;
  rewrite <-?app_assoc; cbn [app].

Ltac solve_len :=
  cbn [length app]; repeat rewrite ?length_app, ?length_be_bytes, ?length_le_bytes; cbn; lia.

#[export] Hint Extern 2 (_ ≤ length _)%nat => solve_len : readapp.
#[export] Hint Extern 2 (uint _ _) => (assumption || (unfold uint; lia) || (by vm_compute)) : readapp.
#[export] Hint Extern 2 (sint _ _) => assumption : readapp.
#[export] Hint Resolve read_buf_run : readapp.

(** Run a reader on bytes written before: one primitive per step. *)
Ltac read_tac :=
  repeat first
  [ eapply read_buf_run; [solve_len|]
  | eapply reader_bind_run; [solve [eauto with readapp]|]; cbn beta iota ];
  try reflexivity.
