(* ===== verification/SeqNum.v ===== *)
(** * 24-bit sequence numbers (src/utils/seq_num.rs)

    [u24] is a wrapper of a [u32]; the model keeps the inner [u32] as a [Z], so
    that what the operators do outside of 24 bits stays visible.  The four
    reference/value variants of each operator and the macro-generated ones for
    the primitive integers have one body each, which is what is modelled. *)
From S2P Require Import Prelude Bytes Errors Reader.
Open Scope Z_scope.

(** The inner [u32] of [struct u24(u32)]. *)
Abbreviation u24 := Z (only parsing).

(** What every [u24] is meant to satisfy. *)
Definition u24_valid (x : u24) : Prop := uint 24 x.

Section u24.
Context {B : Build} {BC : BytesCrate}.

Definition u24_to_u32 (x : u24) : Z := x.
Definition u24_to_usize (x : u24) : Z := x.

(** [impl From<u24> for $t] for a [w]-bit unsigned [t]: [value.0 as $t]. *)
Definition u24_into (w : Z) (x : u24) : Z := wrap w x.

(** [impl From<$t> for u24]: the assertion is a [debug_assert!]. *)
Definition u24_from {E} (value : Z) : outcome E u24 :=
  debug_assert (Z.shiftr (wrap 32 value) 24 =? 0);; mret (wrap 32 value).

Definition get_u24_le : reader u24 :=
  v ← get_uint_le 3; mret (wrap 32 v).

Definition put_u24_le (v : u24) (buf : list Z) : list Z := put_uint_le 3 v buf.

Definition checked_add {E} (a b : Z) : outcome E u24 :=
  value ← uadd 32 a b;
  assert_ (Z.shiftr value 24 =? 0);;
  mret value.

(** [impl Add] *)
Definition u24_add {E} (x : u24) (rhs : Z) : outcome E u24 := checked_add x rhs.

(** [impl AddAssign] *)
Definition u24_add_assign {E} (x : u24) (rhs : Z) : outcome E u24 :=
  value ← uadd 32 x rhs;
  assert_ (Z.shiftr value 24 =? 0);;
  mret value.

(** [impl Sub] and [impl SubAssign]: no assertion beyond the overflow check. *)
Definition u24_sub {E} (x : u24) (rhs : Z) : outcome E u24 := usub 32 x rhs.
Definition u24_sub_assign {E} (x : u24) (rhs : Z) : outcome E u24 := usub 32 x rhs.

(** [for n in a..b] over the inner values. *)
Definition u24_range (a b : Z) : list Z := (λ i, a + Z.of_nat i) <$> seq 0 (Z.to_nat (b - a)).

Lemma u24_range_cons a b : a < b → u24_range a b = a :: u24_range (a + 1) b.
Proof.
  intros. unfold u24_range. replace (Z.to_nat (b - a)) with (S (Z.to_nat (b - (a + 1)))) by lia.
  cbn [seq fmap list_fmap]. f_equal; [lia|].
  rewrite <-fmap_S_seq, <-list_fmap_compose. apply list_fmap_ext. intros; cbn; lia.
Qed.

Lemma u24_range_snoc a b : a ≤ b → u24_range a (b + 1) = u24_range a b ++ [b].
Proof.
  intros. unfold u24_range. replace (Z.to_nat (b + 1 - a)) with (S (Z.to_nat (b - a))) by lia.
  rewrite seq_S, fmap_app. cbn. do 2 f_equal. lia.
Qed.

Lemma u24_range_nil a : u24_range a a = [].
Proof. unfold u24_range. by rewrite Z.sub_diag. Qed.

Lemma u24_range_app a b c : a ≤ b → b ≤ c → u24_range a c = u24_range a b ++ u24_range b c.
Proof.
  intros Hab Hbc. unfold u24_range. replace (Z.to_nat (c - a)) with (Z.to_nat (b - a) + Z.to_nat (c - b))%nat by lia.
  rewrite seq_app, fmap_app. f_equal. cbn. rewrite <-(Nat.add_0_r (Z.to_nat (b - a))) at 1.
  rewrite <-fmap_add_seq, <-list_fmap_compose. apply list_fmap_ext. intros ? x ?. cbn. lia.
Qed.

Lemma length_u24_range a b : length (u24_range a b) = Z.to_nat (b - a).
Proof. unfold u24_range. by rewrite length_fmap, length_seq. Qed.

Lemma elem_of_u24_range a b x : x ∈ u24_range a b ↔ a ≤ x < b.
Proof.
  unfold u24_range. rewrite list_elem_of_fmap. split.
  - intros (i & -> & Hi%elem_of_seq). lia.
  - intros. exists (Z.to_nat (x - a)). rewrite elem_of_seq. lia.
Qed.

Lemma NoDup_u24_range a b : NoDup (u24_range a b).
Proof. unfold u24_range. apply NoDup_fmap_2; [intros x y; lia|apply NoDup_seq]. Qed.

Lemma shiftr24 x : 0 ≤ x → (Z.shiftr x 24 =? 0) = (x <? 2 ^ 24).
Proof.
  intros Hx. rewrite Z.shiftr_div_pow2 by lia.
  destruct (Z.eqb_spec (x / 2 ^ 24) 0), (Z.ltb_spec x (2 ^ 24)); zlia.
Qed.

Lemma u24_add_spec {E} x y :
  u24_valid x → u24_valid y →
  u24_add (E:=E) x y = if x + y <? 2 ^ 24 then Ok (x + y) else Panic.
Proof.
  unfold u24_valid, uint. intros. unfold u24_add, checked_add.
  rewrite uadd_Ok by lia. unfold mbind, outcome_bind, assert_.
  rewrite shiftr24 by lia. by destruct (x + y <? 2 ^ 24).
Qed.

Lemma u24_add_Ok {E} x y :
  0 ≤ x → 0 ≤ y → x + y < 2 ^ 24 → u24_add (E:=E) x y = Ok (x + y).
Proof.
  intros. rewrite u24_add_spec by (unfold u24_valid, uint; lia).
  by rewrite (proj2 (Z.ltb_lt _ _)).
Qed.

Lemma u24_add_assign_eq {E} x y : u24_add_assign (E:=E) x y = u24_add x y.
Proof. done. Qed.

Lemma u24_sub_Ok {E} x y : y ≤ x → u24_sub (E:=E) x y = Ok (x - y).
Proof. intros. by apply usub_Ok. Qed.

Lemma u24_from_Ok {E} x : u24_valid x → u24_from (E:=E) x = Ok x.
Proof.
  intros Hx. unfold u24_from. rewrite wrap_small by (unfold u24_valid, uint in *; lia).
  unfold u24_valid, uint in Hx. rewrite shiftr24 by lia.
  rewrite (proj2 (Z.ltb_lt _ _)) by lia. unfold debug_assert. by destruct debug_assertions.
Qed.

Lemma get_u24_le_app v l : u24_valid v → get_u24_le (le_bytes 3 v ++ l) = Ok (v, l).
Proof.
  intros Hv. unfold get_u24_le.
  rewrite (reader_bind_Ok _ _ _ v l) by (by apply get_uint_le_app).
  rewrite wrap_small; [done|]. unfold u24_valid, uint in *. lia.
Qed.

Lemma fixed_u24 : fixed 3 get_u24_le.
Proof. unfold get_u24_le. fixed_tac. Qed.

Lemma get_u24_le_valid l v l' :
  bytes_ok l → get_u24_le l = Ok (v, l') → u24_valid v.
Proof.
  intros Hl Hg. unfold get_u24_le in Hg.
  apply reader_bind_inv in Hg as (a & l1 & Hg & Hr).
  unfold mret, reader_ret in Hr. simplify_eq.
  unfold get_uint_le, of_option in Hg. rewrite buf_get_uint_le_spec in Hg.
  case_decide; simplify_eq.
  pose proof (le_value_bound (take 3 l)) as Hb.
  rewrite length_take_le in Hb by done.
  specialize (Hb (Forall_take _ _ _ Hl)). cbn in Hb.
  unfold u24_valid. rewrite wrap_small; unfold uint; lia.
Qed.

(** Addition of 24-bit sequence numbers is exact or panics, in every build
    profile: it never wraps around, and its result is again a 24-bit number. *)
Theorem u24_add_checked {E} x y :
  u24_valid x → u24_valid y →
  (x + y < 2 ^ 24 ∧ u24_add (E:=E) x y = Ok (x + y) ∧ u24_valid (x + y)) ∨
  (2 ^ 24 ≤ x + y ∧ u24_add (E:=E) x y = Panic).
Proof.
  intros Hx Hy. rewrite u24_add_spec by done. unfold u24_valid, uint in *.
  destruct (Z.ltb_spec (x + y) (2 ^ 24)); [left|right]; split_and!; try done; lia.
Qed.

(** Subtraction is checked in a debug build only: where the result would be
    negative a debug build panics, and a release build silently produces a value
    that is not a 24-bit number at all. *)
Theorem u24_sub_unchecked {E} x y :
  u24_valid x → u24_valid y → x < y →
  (debug_assertions = true → u24_sub (E:=E) x y = Panic) ∧
  (debug_assertions = false → ∃ v, u24_sub (E:=E) x y = Ok v ∧ ¬ u24_valid v).
Proof.
  unfold u24_valid, uint. intros Hx Hy Hlt. unfold u24_sub, usub.
  rewrite (proj2 (Z.leb_gt _ _)) by lia.
  split; intros ->; [done|]. exists (wrap 32 (x - y)). split; [done|].
  unfold wrap. rewrite <-(Z.mod_add _ 1) by lia. rewrite Z.mod_small by lia. lia.
Qed.
End u24.

#[export] Hint Resolve fixed_u24 : fixed.
#[export] Hint Resolve get_u24_le_app : readapp.
#[export] Hint Extern 1 (u24_valid _) => assumption : readapp.

Lemma u24_add_checked_witness :
  u24_valid 16777215 ∧ u24_add (B:=false) (E:=CodecError) 16777215 1 = Panic.
Proof.
  split; [by vm_compute|].
  destruct (u24_add_checked (B:=false) (E:=CodecError) 16777215 1) as [[H _]|[_ H]];
    [by vm_compute..| |exact H]. exfalso. vm_compute in H. discriminate.
Defined.

Lemma u24_sub_unchecked_witness :
  u24_valid 0 ∧ ∃ v, u24_sub (B:=false) (E:=CodecError) 0 1 = Ok v ∧ ¬ u24_valid v.
Proof.
  split; [by vm_compute|].
  by apply (u24_sub_unchecked (B:=false) (E:=CodecError) 0 1); vm_compute.
Defined.
