(* ===== verification/BitQueue.v ===== *)
(** * The bit vector queue (src/utils/bit_queue.rs)

    [BitVecQueue] stores bits in 128-bit words.  The model keeps the words as
    [Z] and the cursors as [nat]; an out-of-range word access panics.  The
    contract is a plain list of booleans; [BitVecQueue_refines] is the
    refinement for every sequence of operations. *)
From S2P Require Import Prelude.
Open Scope Z_scope.

Local Arguments Nat.modulo : simpl never.
Local Arguments Nat.div : simpl never.

Record BitVecQueue := BitVecQueue_mk {
  bq_store : list Z;
  bq_head : nat;
  bq_tail : nat;
}.

(** [!mask] on [u128] *)
Definition not_u128 (m : Z) : Z := Z.lxor m (Z.ones 128).

Definition BitVecQueue_default : BitVecQueue := BitVecQueue_mk [] 0 0.

(** [tail - head] in [usize]: in every reachable queue the head is not past the tail
    ([BitVecQueue_wf]), so the subtraction of [nat], which stops at zero, is the same. *)
Definition BitVecQueue_len (q : BitVecQueue) : nat := bq_tail q - bq_head q.

Definition to_physical_slot (q : BitVecQueue) (idx : nat) : nat * nat :=
  let physical_idx := (idx + bq_head q)%nat in
  (physical_idx / 128, Nat.land physical_idx 127)%nat.

Definition BitVecQueue_get {E} (q : BitVecQueue) (idx : nat) : outcome E (option bool) :=
  if decide (BitVecQueue_len q ≤ idx)%nat then mret None
  else
    let '(idx, slot) := to_physical_slot q idx in
    match bq_store q !! idx with
    | Some word => mret (Some (negb (Z.land word (Z.shiftl 1 (Z.of_nat slot)) =? 0)))
    | None => Panic
    end.

Definition BitVecQueue_set {E} (idx : nat) (v : bool) (q : BitVecQueue) : outcome E BitVecQueue :=
  if decide (BitVecQueue_len q ≤ idx)%nat then mret q
  else
    let '(idx, slot) := to_physical_slot q idx in
    let mask := Z.shiftl 1 (Z.of_nat slot) in
    match bq_store q !! idx with
    | Some word =>
        let word' := if v then Z.lor word mask else Z.land word (not_u128 mask) in
        mret (BitVecQueue_mk (<[idx := word']> (bq_store q)) (bq_head q) (bq_tail q))
    | None => Panic
    end.

Definition BitVecQueue_push_back (v : bool) (q : BitVecQueue) : BitVecQueue :=
  let push := BitVecQueue_mk (bq_store q ++ [if v then 1 else 0]) (bq_head q) (S (bq_tail q)) in
  match last (bq_store q) with
  | Some back =>
      if decide (Nat.land (bq_tail q) 127 ≠ 0%nat) then
        let mask := Z.shiftl 1 (Z.of_nat (Nat.land (bq_tail q) 127)) in
        let back' := if v then Z.lor back mask else Z.land back (not_u128 mask) in
        BitVecQueue_mk (<[pred (length (bq_store q)) := back']> (bq_store q))
          (bq_head q) (S (bq_tail q))
      else push
  | None => push
  end.

Definition BitVecQueue_front (q : BitVecQueue) : option bool :=
  (λ front, negb (Z.land front (Z.shiftl 1 (Z.of_nat (bq_head q))) =? 0)) <$> head (bq_store q).

Definition BitVecQueue_clear (q : BitVecQueue) : BitVecQueue := BitVecQueue_mk [] 0 0.

Definition BitVecQueue_pop_front (q : BitVecQueue) : BitVecQueue :=
  if decide (bq_head q = bq_tail q) then BitVecQueue_clear q
  else if decide (S (bq_head q) = 128%nat)
       then BitVecQueue_mk (tail (bq_store q)) 0 (bq_tail q - 128)
       else BitVecQueue_mk (bq_store q) (S (bq_head q)) (bq_tail q).

(** ** Bits of a list of words *)

Definition wbit (ws : list Z) (i : nat) : bool :=
  Z.testbit (default 0 (ws !! (i / 128)%nat)) (Z.of_nat (i mod 128)).

Lemma land_127 n : Nat.land n 127 = (n mod 128)%nat.
Proof. change 127%nat with (Nat.ones 7). by rewrite Nat.land_ones. Qed.

Lemma land_bit w s : negb (Z.land w (Z.shiftl 1 (Z.of_nat s)) =? 0) = Z.testbit w (Z.of_nat s).
Proof.
  assert (∀ n, Z.testbit (Z.land w (Z.shiftl 1 (Z.of_nat s))) n =
    Z.testbit w (Z.of_nat s) && bool_decide (n = Z.of_nat s)) as Hb.
  { intros n. rewrite Z.land_spec. destruct (decide (n = Z.of_nat s)) as [->|Hn].
    - rewrite bool_decide_true by done.
      rewrite Z.shiftl_spec by lia. rewrite Z.sub_diag. done.
    - rewrite bool_decide_false by done. rewrite andb_false_r.
      destruct (Z.neg_nonneg_cases n) as [Hneg|Hpos].
      { by rewrite !Z.testbit_neg_r by lia. }
      rewrite Z.shiftl_spec by lia.
      destruct (Z.neg_nonneg_cases (n - Z.of_nat s)).
      + rewrite (Z.testbit_neg_r 1) by lia. by rewrite andb_false_r.
      + change 1 with (2 ^ 0). rewrite Z.pow2_bits_false by lia. by rewrite andb_false_r. }
  destruct (Z.eqb_spec (Z.land w (Z.shiftl 1 (Z.of_nat s))) 0) as [H0|H0]; cbn.
  - specialize (Hb (Z.of_nat s)). rewrite H0, Z.bits_0, bool_decide_true in Hb by done.
    by rewrite andb_true_r in Hb.
  - destruct (Z.testbit w (Z.of_nat s)) eqn:Ht; [done|]. exfalso. apply H0.
    apply Z.bits_inj_0. intros n. by rewrite Hb.
Qed.

Lemma setbit_spec w s (v : bool) j :
  (s < 128)%nat → (j < 128)%nat →
  Z.testbit (if v then Z.lor w (Z.shiftl 1 (Z.of_nat s))
             else Z.land w (not_u128 (Z.shiftl 1 (Z.of_nat s)))) (Z.of_nat j)
  = if decide (j = s) then v else Z.testbit w (Z.of_nat j).
Proof.
  intros Hs Hj.
  assert (Z.testbit (Z.shiftl 1 (Z.of_nat s)) (Z.of_nat j) = bool_decide (j = s)) as Hm.
  { rewrite Z.shiftl_spec by lia. case_bool_decide as Hd.
    - subst. by rewrite Z.sub_diag.
    - destruct (Z.neg_nonneg_cases (Z.of_nat j - Z.of_nat s)).
      + by rewrite Z.testbit_neg_r by lia.
      + change 1 with (2 ^ 0). by rewrite Z.pow2_bits_false by lia. }
  destruct v.
  - rewrite Z.lor_spec, Hm. case_bool_decide; case_decide; try done.
    + by rewrite orb_true_r.
    + by rewrite orb_false_r.
  - rewrite Z.land_spec. unfold not_u128. rewrite Z.lxor_spec, Hm.
    rewrite Z.ones_spec_low by lia. case_bool_decide; case_decide; try done.
    + by rewrite andb_false_r.
    + by rewrite andb_true_r.
Qed.

Lemma wbit_snoc_lt ws w i : (i / 128 < length ws)%nat → wbit (ws ++ [w]) i = wbit ws i.
Proof. intros. unfold wbit. by rewrite lookup_app_l. Qed.

Lemma wbit_insert ws k w i : (k < length ws)%nat →
  wbit (<[k:=w]> ws) i =
    if decide (i / 128 = k)%nat then Z.testbit w (Z.of_nat (i mod 128)) else wbit ws i.
Proof.
  intros. unfold wbit. case_decide; subst.
  - by rewrite list_lookup_insert_eq.
  - by rewrite list_lookup_insert_ne.
Qed.

Lemma wbit_tail w ws i : wbit (w :: ws) (i + 128) = wbit ws i.
Proof.
  unfold wbit. replace ((i + 128) / 128)%nat with (S (i / 128)) by
    (replace (i + 128)%nat with (i + 1 * 128)%nat by lia; rewrite Nat.div_add by lia; lia).
  replace ((i + 128) mod 128)%nat with (i mod 128)%nat; [done|].
  replace (i + 128)%nat with (i + 1 * 128)%nat by lia. by rewrite Nat.Div0.mod_add.
Qed.

(** ** Invariant and abstraction *)

(** [ceil (tail / 128)] words are stored, the head is inside the first word, and
    the bits at and after [tail] are zero. *)
Record BitVecQueue_wf (q : BitVecQueue) : Prop := {
  wf_head_tail : (bq_head q ≤ bq_tail q)%nat;
  wf_head : (bq_head q < 128)%nat;
  wf_store : length (bq_store q) = ((bq_tail q + 127) / 128)%nat;
  wf_zero : ∀ i, (bq_tail q ≤ i)%nat → wbit (bq_store q) i = false;
}.

Definition BitVecQueue_bits (q : BitVecQueue) : list bool :=
  wbit (bq_store q) <$> seq (bq_head q) (BitVecQueue_len q).

Lemma length_bits q : length (BitVecQueue_bits q) = BitVecQueue_len q.
Proof. unfold BitVecQueue_bits. by rewrite length_fmap, length_seq. Qed.

Lemma lookup_bits q i : (i < BitVecQueue_len q)%nat →
  BitVecQueue_bits q !! i = Some (wbit (bq_store q) (i + bq_head q)).
Proof.
  intros. unfold BitVecQueue_bits. rewrite list_lookup_fmap, lookup_seq_lt by done.
  cbn. by rewrite Nat.add_comm.
Qed.

Lemma BitVecQueue_default_wf : BitVecQueue_wf BitVecQueue_default.
Proof. split; cbn; [lia|lia|done|]. intros i _. unfold wbit. rewrite lookup_nil. apply Z.bits_0. Qed.

Lemma slot_in_store q i :
  BitVecQueue_wf q → (i < BitVecQueue_len q)%nat →
  ((i + bq_head q) / 128 < length (bq_store q))%nat.
Proof.
  intros [H1 H2 H3 _] Hi. unfold BitVecQueue_len in Hi. rewrite H3.
  apply Nat.Div0.div_lt_upper_bound.
  pose proof (Nat.div_mod_eq (bq_tail q + 127) 128).
  pose proof (Nat.mod_upper_bound (bq_tail q + 127) 128). lia.
Qed.

Lemma BitVecQueue_get_spec {E} q i :
  BitVecQueue_wf q → BitVecQueue_get (E:=E) q i = Ok (BitVecQueue_bits q !! i).
Proof.
  intros Hwf. unfold BitVecQueue_get. case_decide as Hd.
  - by rewrite lookup_ge_None_2 by (by rewrite length_bits).
  - rewrite lookup_bits by lia. unfold to_physical_slot.
    pose proof (slot_in_store q i Hwf ltac:(lia)) as Hs.
    destruct (lookup_lt_is_Some_2 _ _ Hs) as [w Hw]. rewrite Hw, land_bit, land_127.
    unfold wbit. by rewrite Hw.
Qed.

Lemma phys_inj a b : ((a / 128) = (b / 128) → a mod 128 = b mod 128 → a = b)%nat.
Proof.
  intros. rewrite (Nat.div_mod_eq a 128), (Nat.div_mod_eq b 128). congruence.
Qed.

(** Writing the bit of physical position [p] changes that bit only. *)
Lemma wbit_setbit ws p (v : bool) w j :
  ws !! (p / 128)%nat = Some w →
  wbit (<[(p / 128)%nat := if v then Z.lor w (Z.shiftl 1 (Z.of_nat (p mod 128)))
          else Z.land w (not_u128 (Z.shiftl 1 (Z.of_nat (p mod 128))))]> ws) j
  = if decide (j = p) then v else wbit ws j.
Proof.
  intros Hw. rewrite wbit_insert by (by eapply lookup_lt_Some).
  pose proof (Nat.mod_upper_bound p 128). pose proof (Nat.mod_upper_bound j 128).
  destruct (decide (j / 128 = p / 128)%nat) as [Hq|Hq].
  - rewrite setbit_spec by lia.
    destruct (decide (j mod 128 = p mod 128)%nat) as [Hm|Hm].
    + by rewrite decide_True by (by apply phys_inj).
    + rewrite decide_False by congruence. unfold wbit. rewrite Hq.
      by rewrite Hw.
  - by rewrite decide_False by congruence.
Qed.

Lemma BitVecQueue_set_spec {E} q i v :
  BitVecQueue_wf q → ∃ q', BitVecQueue_set (E:=E) i v q = Ok q' ∧
    BitVecQueue_wf q' ∧ BitVecQueue_bits q' = <[i := v]> (BitVecQueue_bits q).
Proof.
  intros Hwf. unfold BitVecQueue_set. case_decide as Hd.
  - exists q. split_and!; [done|done|]. by rewrite list_insert_ge by (by rewrite length_bits).
  - unfold to_physical_slot. rewrite land_127. pose proof (slot_in_store q i Hwf ltac:(lia)) as Hs.
    destruct (lookup_lt_is_Some_2 _ _ Hs) as [w Hw]. rewrite Hw.
    pose proof (wbit_setbit (bq_store q) (i + bq_head q) v w) as Hbit.
    eexists. split; [reflexivity|]. destruct Hwf as [H1 H2 H3 H4].
    unfold BitVecQueue_len in Hd. split.
    + split; cbn; [lia|lia|by rewrite length_insert|].
      intros j Hj. rewrite Hbit by done. rewrite decide_False by lia. by apply H4.
    + apply list_eq. intros j. destruct (decide (j < BitVecQueue_len q)%nat) as [Hj|Hj].
      * rewrite (lookup_bits (BitVecQueue_mk _ _ _) j) by (by cbn). cbn. rewrite Hbit by done.
        destruct (decide (j = i)) as [->|Hne].
        -- rewrite decide_True by done.
           rewrite list_lookup_insert_eq; [done|]. by rewrite length_bits.
        -- rewrite decide_False by lia.
           rewrite list_lookup_insert_ne by done. by rewrite lookup_bits.
      * rewrite !lookup_ge_None_2; [done|..].
        -- rewrite length_insert, length_bits. lia.
        -- rewrite length_bits. unfold BitVecQueue_len in *. cbn. lia.
Qed.

(** The two ways [push_back] stores the bit write the same physical position. *)
Lemma push_back_bits q v :
  BitVecQueue_wf q → ∃ ws, BitVecQueue_push_back v q = BitVecQueue_mk ws (bq_head q) (S (bq_tail q)) ∧
    length ws = ((bq_tail q + 128) / 128)%nat ∧
    ∀ j, wbit ws j = if decide (j = bq_tail q) then v else wbit (bq_store q) j.
Proof.
  intros [H1 H2 H3 H4]. unfold BitVecQueue_push_back. rewrite land_127.
  pose proof (Nat.div_mod_eq (bq_tail q) 128) as Hdm.
  pose proof (Nat.mod_upper_bound (bq_tail q) 128 ltac:(lia)) as Hm.
  assert (length (bq_store q) = if decide (bq_tail q mod 128 = 0)%nat
    then (bq_tail q / 128)%nat else S (bq_tail q / 128)) as Hlen.
  { rewrite H3. pose proof (Nat.div_mod_eq (bq_tail q + 127) 128).
    pose proof (Nat.mod_upper_bound (bq_tail q + 127) 128 ltac:(lia)). case_decide; nia. }
  assert ((bq_tail q + 128) / 128 = S (bq_tail q / 128))%nat as Hlen'.
  { replace (bq_tail q + 128)%nat with (bq_tail q + 1 * 128)%nat by lia.
    rewrite Nat.div_add by lia. lia. }
  rewrite Hlen'.
  destruct (decide (bq_tail q mod 128 = 0)%nat) as [Hz|Hz].
  - exists (bq_store q ++ [if v then 1 else 0]).
    split; [|split].
    + destruct (last (bq_store q)); [|done]. by rewrite decide_False by lia.
    + rewrite length_app, Hlen. cbn. lia.
    + intros j. destruct (decide (j / 128 < length (bq_store q))%nat) as [Hj|Hj].
      { rewrite wbit_snoc_lt by done. case_decide; [|done]. subst. lia. }
      destruct (decide (j / 128 = length (bq_store q))%nat) as [Hj'|Hj'].
      * unfold wbit at 1. rewrite Hj', lookup_app_r, Nat.sub_diag by lia. cbn.
        assert (j = (128 * (bq_tail q / 128) + j mod 128)%nat) as Hje.
        { rewrite (Nat.div_mod_eq j 128) at 1. congruence. }
        case_decide as Hd.
        -- subst j. rewrite Hz. by destruct v.
        -- rewrite H4 by lia. assert (0 < j mod 128)%nat by lia.
           destruct v; [|by rewrite Z.bits_0].
           change 1 with (2 ^ 0). by rewrite Z.pow2_bits_false by lia.
      * rewrite decide_False by (intros ->; lia).
        unfold wbit at 1. rewrite lookup_ge_None_2.
        -- cbn. rewrite Z.bits_0. symmetry. apply H4.
           assert (bq_tail q / 128 < j / 128)%nat by lia.
           apply Nat.lt_le_incl. destruct (decide (bq_tail q < j)%nat); [done|].
           exfalso. pose proof (Nat.Div0.div_le_mono j (bq_tail q) 128 ltac:(lia)). lia.
        -- rewrite length_app. cbn. lia.
  - destruct (last (bq_store q)) as [back|] eqn:Hl.
    2:{ apply last_None in Hl. rewrite Hl in Hlen. cbn in Hlen. lia. }
    rewrite decide_True by lia. rewrite last_lookup in Hl.
    assert (pred (length (bq_store q)) = bq_tail q / 128)%nat as Hp by lia.
    rewrite Hp in *. eexists. split; [reflexivity|split].
    + rewrite length_insert. lia.
    + intros j. by apply wbit_setbit.
Qed.

Lemma BitVecQueue_push_back_spec q v :
  BitVecQueue_wf q →
  BitVecQueue_wf (BitVecQueue_push_back v q) ∧
  BitVecQueue_bits (BitVecQueue_push_back v q) = BitVecQueue_bits q ++ [v].
Proof.
  intros Hwf. destruct (push_back_bits q v Hwf) as (ws & -> & Hlen & Hbit).
  destruct Hwf as [H1 H2 H3 H4]. split.
  - split; cbn; [lia|lia| |].
    + rewrite Hlen. f_equal. lia.
    + intros i Hi. rewrite Hbit, decide_False by lia. apply H4. lia.
  - unfold BitVecQueue_bits, BitVecQueue_len. cbn.
    replace (S (bq_tail q) - bq_head q)%nat with (S (bq_tail q - bq_head q)) by lia.
    rewrite seq_S, fmap_app. cbn. f_equal.
    + apply list_fmap_ext. intros i x Hx%lookup_seq. rewrite Hbit, decide_False; [done|lia].
    + f_equal. rewrite Hbit, decide_True; [done|lia].
Qed.

Lemma BitVecQueue_pop_front_spec q :
  BitVecQueue_wf q →
  BitVecQueue_wf (BitVecQueue_pop_front q) ∧
  BitVecQueue_bits (BitVecQueue_pop_front q) = tail (BitVecQueue_bits q).
Proof.
  intros Hwf. unfold BitVecQueue_pop_front. case_decide as Hd.
  { split; [apply BitVecQueue_default_wf|].
    unfold BitVecQueue_bits at 2. unfold BitVecQueue_len. by rewrite Hd, Nat.sub_diag. }
  destruct Hwf as [H1 H2 H3 H4].
  assert (BitVecQueue_len q = S (bq_tail q - S (bq_head q))) as Hlen.
  { unfold BitVecQueue_len. lia. }
  unfold BitVecQueue_bits at 2. rewrite Hlen. cbn [seq fmap list_fmap tail].
  case_decide as Hw; [|split; [split; cbn; auto; lia|done]].
  destruct (bq_store q) as [|w ws] eqn:Hs.
  { exfalso. cbn in H3. symmetry in H3. apply Nat.div_small_iff in H3; lia. }
  cbn [tail]. assert (128 ≤ bq_tail q)%nat by lia. split.
  - split; cbn; [lia|lia| |].
    + cbn in H3. replace (bq_tail q + 127)%nat with (bq_tail q - 128 + 127 + 1 * 128)%nat in H3 by lia.
      rewrite Nat.div_add in H3 by lia. lia.
    + intros i Hi. rewrite <-(wbit_tail w). apply H4. lia.
  - unfold BitVecQueue_bits, BitVecQueue_len. cbn.
    replace (bq_tail q - 128 - 0)%nat with (bq_tail q - S (bq_head q))%nat by lia.
    rewrite Hw. apply list_eq. intros i. rewrite !list_lookup_fmap.
    destruct (decide (i < bq_tail q - 128)%nat) as [Hi|Hi].
    + rewrite !lookup_seq_lt by lia. cbn. f_equal. rewrite <-(wbit_tail w). f_equal. lia.
    + rewrite !lookup_seq_ge by lia. done.
Qed.

Lemma BitVecQueue_front_spec q :
  BitVecQueue_wf q →
  (BitVecQueue_front q = Some true ↔ head (BitVecQueue_bits q) = Some true) ∧
  (BitVecQueue_bits q ≠ [] → BitVecQueue_front q = head (BitVecQueue_bits q)).
Proof.
  intros Hwf. pose proof Hwf as [H1 H2 H3 H4].
  assert (∀ w ws, bq_store q = w :: ws →
    BitVecQueue_front q = Some (wbit (bq_store q) (bq_head q))) as Hfront.
  { intros w ws Hs. unfold BitVecQueue_front. rewrite Hs. cbn. rewrite land_bit. unfold wbit.
    rewrite Nat.div_small, Nat.mod_small by lia. done. }
  assert (BitVecQueue_bits q = [] ∨ head (BitVecQueue_bits q) = Some (wbit (bq_store q) (bq_head q)))
    as Hb.
  { unfold BitVecQueue_bits. destruct (BitVecQueue_len q); [by left|by right]. }
  destruct (bq_store q) as [|w ws] eqn:Hs.
  - assert (BitVecQueue_bits q = []) as ->.
    { apply nil_length_inv. rewrite length_bits. unfold BitVecQueue_len.
      cbn in H3. symmetry in H3. apply Nat.div_small_iff in H3; lia. }
    unfold BitVecQueue_front. rewrite Hs. cbn. naive_solver.
  - rewrite (Hfront w ws) by done. destruct Hb as [Hnil|Hh]; [|rewrite Hh; naive_solver].
    rewrite Hnil. cbn. split; [|done]. split; [|done].
    rewrite H4; [naive_solver|]. apply nil_length_inv in Hnil || idtac.
    apply (f_equal length) in Hnil. rewrite length_bits in Hnil. unfold BitVecQueue_len in Hnil.
    cbn in Hnil. lia.
Qed.

(** ** Refinement of a list of booleans *)

Inductive bq_op :=
| OpPush (v : bool)
| OpPop
| OpSet (i : nat) (v : bool)
| OpClear.

Definition bq_step {E} (q : BitVecQueue) (o : bq_op) : outcome E BitVecQueue :=
  match o with
  | OpPush v => mret (BitVecQueue_push_back v q)
  | OpPop => mret (BitVecQueue_pop_front q)
  | OpSet i v => BitVecQueue_set i v q
  | OpClear => mret (BitVecQueue_clear q)
  end.

Definition bits_step (l : list bool) (o : bq_op) : list bool :=
  match o with
  | OpPush v => l ++ [v]
  | OpPop => tail l
  | OpSet i v => <[i := v]> l
  | OpClear => []
  end.

Fixpoint bq_run {E} (q : BitVecQueue) (ops : list bq_op) : outcome E BitVecQueue :=
  match ops with
  | [] => mret q
  | o :: ops => q' ← bq_step q o; bq_run q' ops
  end.

Lemma bq_step_refines {E} q o :
  BitVecQueue_wf q → ∃ q', bq_step (E:=E) q o = Ok q' ∧ BitVecQueue_wf q' ∧
    BitVecQueue_bits q' = bits_step (BitVecQueue_bits q) o.
Proof.
  intros Hwf. destruct o as [v| |i v|]; cbn.
  - eexists. split; [done|]. by apply BitVecQueue_push_back_spec.
  - eexists. split; [done|]. by apply BitVecQueue_pop_front_spec.
  - by apply BitVecQueue_set_spec.
  - eexists. split; [done|]. split; [apply BitVecQueue_default_wf|done].
Qed.

Lemma bq_run_refines {E} ops q :
  BitVecQueue_wf q → ∃ q', bq_run (E:=E) q ops = Ok q' ∧ BitVecQueue_wf q' ∧
    BitVecQueue_bits q' = foldl bits_step (BitVecQueue_bits q) ops.
Proof.
  revert q. induction ops as [|o ops IH]; intros q Hwf; cbn; [by exists q|].
  destruct (bq_step_refines (E:=E) q o Hwf) as (q1 & -> & Hwf1 & <-). cbn. by apply IH.
Qed.

(** C24. The 128-bit ring of words is a queue of booleans: after any sequence of
    pushes, pops, writes and clears of a fresh queue nothing has panicked, the
    length and every [get] are those of the list of bits, and [front] answers
    [Some true] exactly when the first bit of the list is set. *)
Theorem BitVecQueue_refines {E} (ops : list bq_op) :
  ∃ q, bq_run (E:=E) BitVecQueue_default ops = Ok q ∧
    BitVecQueue_len q = length (foldl bits_step [] ops) ∧
    (∀ i, BitVecQueue_get (E:=E) q i = Ok (foldl bits_step [] ops !! i)) ∧
    (BitVecQueue_front q = Some true ↔ head (foldl bits_step [] ops) = Some true).
Proof.
  destruct (bq_run_refines (E:=E) ops _ BitVecQueue_default_wf) as (q & Hq & Hwf & Hb).
  cbn in Hb. rewrite <-Hb. exists q. split_and!; [done| | |].
  - by rewrite length_bits.
  - intros i. by apply BitVecQueue_get_spec.
  - by apply BitVecQueue_front_spec.
Qed.
