(* ===== verification/Types.v ===== *)
(** * Crate-level types (src/lib.rs)

    Addresses, roles, peers, the reliability levels with the header sizes they
    imply, priorities and messages. *)
From S2P Require Import Prelude.
Open Scope Z_scope.

(** [std::net::SocketAddr]: the address bits and the port, and for IPv6 the flow
    information and scope id. *)
Inductive SocketAddr :=
| V4 (ip port : Z)
| V6 (ip port flowinfo scope_id : Z).

Definition is_ipv6 (a : SocketAddr) : bool :=
  match a with V4 _ _ => false | V6 _ _ _ _ => true end.

Definition addr_ok (a : SocketAddr) : Prop :=
  match a with
  | V4 ip port => uint 32 ip ∧ uint 16 port
  | V6 ip port flow scope => uint 128 ip ∧ uint 16 port ∧ uint 32 flow ∧ uint 32 scope
  end.

Global Instance SocketAddr_eq_dec : EqDecision SocketAddr.
Proof. solve_decision. Defined.

Global Instance SocketAddr_countable : Countable SocketAddr.
Proof.
  refine (inj_countable'
    (λ a, match a with V4 i p => inl (i, p) | V6 i p f s => inr (i, p, f, s) end)
    (λ x, match x with inl (i, p) => V4 i p | inr (i, p, f, s) => V6 i p f s end) _).
  by intros [].
Defined.

Global Instance addr_ok_dec a : Decision (addr_ok a).
Proof. destruct a; apply _. Defined.

Inductive Role :=
| Client (guid : Z)
| Server (guid : Z).

Definition Role_guid (r : Role) : Z :=
  match r with
  | Client guid => guid
  | Server guid => guid
  end.

Record Peer := mkPeer {
  peer_guid : Z;
  peer_addr : SocketAddr;
  peer_mtu : Z;
}.

Inductive Reliability :=
| Unreliable
| UnreliableSequenced
| Reliable
| ReliableOrdered
| ReliableSequenced
| UnreliableWithAckReceipt
| ReliableWithAckReceipt
| ReliableOrderedWithAckReceipt.

Global Instance Reliability_eq_dec : EqDecision Reliability.
Proof. solve_decision. Defined.

(** [reliability as u8] *)
Definition Reliability_as_u8 (r : Reliability) : Z :=
  match r with
  | Unreliable => 0
  | UnreliableSequenced => 1
  | Reliable => 2
  | ReliableOrdered => 3
  | ReliableSequenced => 4
  | UnreliableWithAckReceipt => 5
  | ReliableWithAckReceipt => 6
  | ReliableOrderedWithAckReceipt => 7
  end.

(** [transmute::<u8, Reliability>]; [None] where it would be undefined. *)
Definition Reliability_transmute (r : Z) : option Reliability :=
  match r with
  | 0 => Some Unreliable
  | 1 => Some UnreliableSequenced
  | 2 => Some Reliable
  | 3 => Some ReliableOrdered
  | 4 => Some ReliableSequenced
  | 5 => Some UnreliableWithAckReceipt
  | 6 => Some ReliableWithAckReceipt
  | 7 => Some ReliableOrderedWithAckReceipt
  | _ => None
  end.

Definition is_reliable (r : Reliability) : bool :=
  match r with
  | Reliable | ReliableSequenced | ReliableOrdered
  | ReliableWithAckReceipt | ReliableOrderedWithAckReceipt => true
  | _ => false
  end.

Definition is_sequenced_or_ordered (r : Reliability) : bool :=
  match r with
  | ReliableSequenced | ReliableOrdered | UnreliableSequenced
  | ReliableOrderedWithAckReceipt => true
  | _ => false
  end.

Definition is_sequenced (r : Reliability) : bool :=
  match r with
  | UnreliableSequenced | ReliableSequenced => true
  | _ => false
  end.

(** The header size (without fragment part) implied from the reliability. *)
Definition Reliability_size (r : Reliability) : Z :=
  let size := 3 in
  let size := if is_reliable r then size + 3 else size in
  let size := if is_sequenced r then size + 3 else size in
  let size := if is_sequenced_or_ordered r then size + 4 else size in
  size.

Lemma Reliability_transmute_as_u8 r : Reliability_transmute (Reliability_as_u8 r) = Some r.
Proof. by destruct r. Qed.

Lemma Reliability_transmute_total v : 0 ≤ v < 8 → is_Some (Reliability_transmute v).
Proof.
  intros H. assert (v = 0 ∨ v = 1 ∨ v = 2 ∨ v = 3 ∨ v = 4 ∨ v = 5 ∨ v = 6 ∨ v = 7) by lia.
  destruct_or?; subst; by eexists.
Qed.

Lemma Reliability_size_bounds r : 3 ≤ Reliability_size r ≤ 13.
Proof. destruct r; cbn; lia. Qed.

Inductive Priority :=
| High (penalty : Z)
| Medium
| Low (penalty : Z).

Definition Priority_default : Priority := Medium.

Record Message := mkMessage {
  msg_reliability : Reliability;
  msg_order_channel : Z;
  msg_priority : Priority;
  msg_data : list Z;
}.

Definition Message_new (data : list Z) : Message :=
  mkMessage ReliableOrdered 0 Priority_default data.

Definition Message_reliability (r : Reliability) (m : Message) : Message :=
  mkMessage r (msg_order_channel m) (msg_priority m) (msg_data m).

Definition Message_order_channel (c : Z) (m : Message) : Message :=
  mkMessage (msg_reliability m) c (msg_priority m) (msg_data m).

Definition Message_priority (p : Priority) (m : Message) : Message :=
  mkMessage (msg_reliability m) (msg_order_channel m) p (msg_data m).
