(* ===== verification/PackType.v ===== *)
(** * Packet types, magic and addresses (src/packet/mod.rs) *)
From S2P Require Import Prelude Bytes Errors Reader Types.
Open Scope Z_scope.

Definition VALID_FLAG : Z := 128.
Definition ACK_FLAG : Z := 192.
Definition NACK_FLAG : Z := 160.
Definition PARTED_FLAG : Z := 16.
Definition CONTINUOUS_SEND_FLAG : Z := 8.
Definition NEEDS_B_AND_AS_FLAG : Z := 4.
Definition FRAME_SET_HEADER_SIZE : Z := 4.
Definition FRAGMENT_PART_SIZE : Z := 10.

Inductive PackType :=
| ConnectedPing | UnconnectedPing1 | UnconnectedPing2 | ConnectedPong
| DetectLostConnections | OpenConnectionRequest1 | OpenConnectionReply1
| OpenConnectionRequest2 | OpenConnectionReply2 | ConnectionRequest
| RemoteSystemRequiresPublicKey | OurSystemRequiresSecurity | PublicKeyMismatch
| OutOfBandInternal | SndReceiptAcked | SndReceiptLoss
| ConnectionRequestAccepted | ConnectionRequestFailed | AlreadyConnected
| NewIncomingConnection | NoFreeIncomingConnections | DisconnectNotification
| ConnectionLost | ConnectionBanned | InvalidPassword | IncompatibleProtocolVersion
| IpRecentlyConnected | Timestamp | UnconnectedPong | AdvertiseSystem
| Ack | Nack | FrameSet.

Global Instance PackType_eq_dec : EqDecision PackType.
Proof. solve_decision. Defined.

(** [pack_type as u8] *)
Definition PackType_as_u8 (p : PackType) : Z :=
  match p with
  | ConnectedPing => 0 | UnconnectedPing1 => 1 | UnconnectedPing2 => 2
  | ConnectedPong => 3 | DetectLostConnections => 4 | OpenConnectionRequest1 => 5
  | OpenConnectionReply1 => 6 | OpenConnectionRequest2 => 7 | OpenConnectionReply2 => 8
  | ConnectionRequest => 9 | RemoteSystemRequiresPublicKey => 10
  | OurSystemRequiresSecurity => 11 | PublicKeyMismatch => 12 | OutOfBandInternal => 13
  | SndReceiptAcked => 14 | SndReceiptLoss => 15 | ConnectionRequestAccepted => 16
  | ConnectionRequestFailed => 17 | AlreadyConnected => 18 | NewIncomingConnection => 19
  | NoFreeIncomingConnections => 20 | DisconnectNotification => 21 | ConnectionLost => 22
  | ConnectionBanned => 23 | InvalidPassword => 24 | IncompatibleProtocolVersion => 25
  | IpRecentlyConnected => 26 | Timestamp => 27 | UnconnectedPong => 28
  | AdvertiseSystem => 29 | Ack => ACK_FLAG | Nack => NACK_FLAG | FrameSet => VALID_FLAG
  end.

(** The last four arms are the range patterns [ACK_FLAG..], [NACK_FLAG..],
    [VALID_FLAG..] and the catch-all, tried in this order. *)
Definition PackType_from_u8 (id : Z) : outcome CodecError PackType :=
  match id with
  | 0 => Ok ConnectedPing
  | 1 => Ok UnconnectedPing1
  | 2 => Ok UnconnectedPing2
  | 3 => Ok ConnectedPong
  | 4 => Ok DetectLostConnections
  | 5 => Ok OpenConnectionRequest1
  | 6 => Ok OpenConnectionReply1
  | 7 => Ok OpenConnectionRequest2
  | 8 => Ok OpenConnectionReply2
  | 9 => Ok ConnectionRequest
  | 16 => Ok ConnectionRequestAccepted
  | 10 => Ok RemoteSystemRequiresPublicKey
  | 11 => Ok OurSystemRequiresSecurity
  | 12 => Ok PublicKeyMismatch
  | 13 => Ok OutOfBandInternal
  | 14 => Ok SndReceiptAcked
  | 15 => Ok SndReceiptLoss
  | 17 => Ok ConnectionRequestFailed
  | 18 => Ok AlreadyConnected
  | 19 => Ok NewIncomingConnection
  | 20 => Ok NoFreeIncomingConnections
  | 21 => Ok DisconnectNotification
  | 22 => Ok ConnectionLost
  | 23 => Ok ConnectionBanned
  | 24 => Ok InvalidPassword
  | 25 => Ok IncompatibleProtocolVersion
  | 26 => Ok IpRecentlyConnected
  | 27 => Ok Timestamp
  | 28 => Ok UnconnectedPong
  | 29 => Ok AdvertiseSystem
  | _ =>
      if ACK_FLAG <=? id then Ok Ack
      else if NACK_FLAG <=? id then Ok Nack
      else if VALID_FLAG <=? id then Ok FrameSet
      else Err (InvalidPacketType id)
  end.

(** An id is recognised as the type it is the number of, but for the three flag
    ranges. *)
Lemma PackType_from_u8_inv b id :
  PackType_from_u8 b = Ok id →
  b = PackType_as_u8 id ∨
  (id = Ack ∧ ACK_FLAG ≤ b) ∨ (id = Nack ∧ NACK_FLAG ≤ b) ∨ (id = FrameSet ∧ VALID_FLAG ≤ b).
Proof.
  unfold PackType_from_u8.
  repeat (case_match; try (intros [= <-]; by left)); try done; intros [= <-]; right.
  all: repeat match goal with H : (_ <=? _) = true |- _ => apply Z.leb_le in H end; tauto.
Qed.

Lemma PackType_from_u8_no_panic b : PackType_from_u8 b ≠ Panic.
Proof. unfold PackType_from_u8. repeat case_match; done. Qed.

Definition is_frame_set (p : PackType) : bool := match p with FrameSet => true | _ => false end.
Definition is_ack (p : PackType) : bool := match p with Ack => true | _ => false end.
Definition is_nack (p : PackType) : bool := match p with Nack => true | _ => false end.

Definition MAGIC : list Z :=
  [0; 255; 255; 0; 254; 254; 254; 254; 253; 253; 253; 253; 18; 52; 86; 120].

Section packet.
Context {BC : BytesCrate}.

(** The loop of [get_checked_magic]; [self.chunk()[i]] panics out of range. *)
Fixpoint magic_loop (i : nat) (magic : list Z) (chunk : list Z) : outcome CodecError unit :=
  match magic with
  | [] => Ok tt
  | m :: magic =>
      match chunk !! i with
      | None => Panic
      | Some byte =>
          if byte =? m then magic_loop (S i) magic chunk
          else Err (MagicNotMatched (Z.of_nat i) byte)
      end
  end.

Definition get_checked_magic : reader unit := λ buf,
  match magic_loop 0 MAGIC buf with
  | Ok _ => advance (length MAGIC) buf
  | Err e => Err e
  | Panic => Panic
  end.

Definition put_magic (buf : list Z) : list Z := put_slice MAGIC buf.

Definition get_socket_addr : reader SocketAddr :=
  ver ← read_buf 1 get_u8;
  match ver with
  | 4 => read_buf 6 (
      ip ← get_u32;
      port ← get_u16;
      mret (V4 ip port))
  | 6 => read_buf 28 (
      family ← get_u16;
      if negb (family =? 23) then throw (InvalidIPV6Family family)
      else
        port ← get_u16;
        flow_info ← get_u32;
        ip ← get_u128;
        scope_ip ← get_u32;
        mret (V6 ip port flow_info scope_ip))
  | _ => throw (InvalidIPVer ver)
  end.

Definition put_socket_addr (addr : SocketAddr) (buf : list Z) : list Z :=
  match addr with
  | V4 ip port =>
      let buf := put_u8 4 buf in
      let buf := put_slice (be_bytes 4 ip) buf in (* v4.ip().octets() *)
      put_u16 port buf
  | V6 ip port flowinfo scope_id =>
      let buf := put_u8 6 buf in
      let buf := put_u16 23 buf in
      let buf := put_u16 port buf in
      let buf := put_u32 flowinfo buf in
      let buf := put_slice (be_bytes 16 ip) buf in (* v6.ip().octets() *)
      put_u32 scope_id buf
  end.

(** ** Lemmas *)

Lemma magic_loop_app m i pre l :
  length pre = i → magic_loop i m (pre ++ m ++ l) = Ok tt.
Proof.
  revert i pre. induction m as [|x m IH]; intros i pre Hi; cbn; [done|].
  rewrite lookup_app_r, Hi, Nat.sub_diag by lia. cbn. rewrite Z.eqb_refl.
  specialize (IH (S i) (pre ++ [x])). rewrite <-app_assoc in IH. cbn in IH.
  apply IH. rewrite length_app. cbn. lia.
Qed.

Lemma get_checked_magic_app l : get_checked_magic (MAGIC ++ l) = Ok (tt, l).
Proof.
  unfold get_checked_magic. rewrite (magic_loop_app MAGIC 0 [] l eq_refl : magic_loop 0 MAGIC (MAGIC ++ l) = _).
  by apply advance_app.
Qed.

Lemma magic_loop_no_panic m i chunk :
  (i + length m ≤ length chunk)%nat → magic_loop i m chunk ≠ Panic.
Proof.
  revert i. induction m as [|x m IH]; intros i Hl; cbn; [done|]. cbn in Hl.
  destruct (lookup_lt_is_Some_2 chunk i) as [b ->]; [lia|].
  case_match; [|done]. apply IH. lia.
Qed.

Lemma fixed_magic : fixed 16 get_checked_magic.
Proof.
  intros l Hl. unfold get_checked_magic.
  pose proof (magic_loop_no_panic MAGIC 0 l Hl) as Hn.
  destruct (magic_loop 0 MAGIC l) as [[]|e|]; [|right; by exists e|done].
  by apply fixed_advance.
Qed.

Lemma get_checked_magic_inv l l' :
  get_checked_magic l = Ok (tt, l') → l = MAGIC ++ l'.
Proof.
  assert (∀ m i, magic_loop i m l = Ok tt → take (length m) (drop i l) = m) as Hloop.
  { induction m as [|x m IH]; intros i; cbn; [done|].
    destruct (l !! i) as [b|] eqn:Hb; [|done].
    destruct (Z.eqb_spec b x) as [->|]; [|done]. intros Hr.
    rewrite (drop_S _ _ _ Hb). cbn. f_equal. by apply IH. }
  unfold get_checked_magic. destruct (magic_loop 0 MAGIC l) as [[]| |] eqn:Hm; [|done..].
  apply Hloop in Hm. rewrite drop_0 in Hm. unfold advance, of_option.
  rewrite buf_advance_spec. case_decide; [|done]. intros [= <-].
  rewrite <-(take_drop (length MAGIC) l) at 1. by rewrite Hm.
Qed.

Lemma get_socket_addr_safe : safe get_socket_addr.
Proof.
  unfold get_socket_addr. apply safe_bind.
  - eapply fixed_safe, fixed_u8.
  - intros ver.
    assert (safe (read_buf 6 (ip ← get_u32; port ← get_u16; mret (V4 ip port)))) as H4.
    { eapply fixed_safe. fixed_tac. }
    assert (safe (read_buf 28 (
      family ← get_u16;
      if negb (family =? 23) then throw (InvalidIPV6Family family)
      else
        port ← get_u16; flow_info ← get_u32; ip ← get_u128; scope_ip ← get_u32;
        mret (V6 ip port flow_info scope_ip)))) as H6.
    { eapply fixed_safe. eapply (fixed_bind 2 26); [apply fixed_u16|]. intros family.
      destruct (negb _); [|fixed_tac]. intros l _. right. by eexists. }
    repeat case_match; first [apply H4|apply H6|apply safe_throw].
Qed.

Lemma put_socket_addr_app a buf : put_socket_addr a buf = buf ++ put_socket_addr a [].
Proof. destruct a; cbn; put_norm; done. Qed.

Lemma get_socket_addr_app a l :
  addr_ok a → get_socket_addr (put_socket_addr a [] ++ l) = Ok (a, l).
Proof.
  intros Ha. unfold get_socket_addr.
  destruct a as [ip port|ip port flow scope]; cbn in Ha; cbn; put_norm; destruct_and? Ha;
    read_tac.
Qed.

Lemma length_put_socket_addr a :
  length (put_socket_addr a []) = if is_ipv6 a then 29%nat else 7%nat.
Proof. destruct a; cbn; put_norm; solve_len. Qed.
End packet.

#[export] Hint Resolve get_checked_magic_app get_socket_addr_app : readapp.
#[export] Hint Resolve fixed_magic : fixed.
#[export] Hint Resolve get_socket_addr_safe : safe.
