(* ===== verification/Unconnected.v ===== *)
(** * Unconnected packets (src/packet/unconnected.rs)

    The nine offline packets; the [magic: ()] field of the source carries no
    information and has no counterpart.  Readers are the source's, one per
    packet, run after the packet id was taken off the buffer. *)
From S2P Require Import Prelude Bytes Errors Reader Types PackType.
Open Scope Z_scope.

Inductive UPacket :=
| UUnconnectedPing (send_timestamp client_guid : Z)
| UUnconnectedPong (send_timestamp server_guid : Z) (data : list Z)
| UOpenConnectionRequest1 (protocol_version mtu : Z)
| UOpenConnectionReply1 (server_guid : Z) (use_encryption : bool) (mtu : Z)
| UOpenConnectionRequest2 (server_address : SocketAddr) (mtu client_guid : Z)
| UOpenConnectionReply2 (server_guid : Z) (client_address : SocketAddr) (mtu : Z)
    (encryption_enabled : bool)
| UIncompatibleProtocol (server_protocol server_guid : Z)
| UAlreadyConnected (server_guid : Z)
| UConnectionRequestFailed (server_guid : Z).

Global Instance UPacket_eq_dec : EqDecision UPacket.
Proof. solve_decision. Defined.

Definition UPacket_pack_type (p : UPacket) : PackType :=
  match p with
  | UUnconnectedPing _ _ => UnconnectedPing1
  | UUnconnectedPong _ _ _ => UnconnectedPong
  | UOpenConnectionRequest1 _ _ => OpenConnectionRequest1
  | UOpenConnectionReply1 _ _ _ => OpenConnectionReply1
  | UOpenConnectionRequest2 _ _ _ => OpenConnectionRequest2
  | UOpenConnectionReply2 _ _ _ _ => OpenConnectionReply2
  | UIncompatibleProtocol _ _ => IncompatibleProtocolVersion
  | UAlreadyConnected _ => AlreadyConnected
  | UConnectionRequestFailed _ => ConnectionRequestFailed
  end.

Section unconnected.
Context {BC : BytesCrate}.

Definition read_unconnected_ping : reader UPacket :=
  send_timestamp ← get_i64;
  get_checked_magic;;
  client_guid ← get_u64;
  mret (UUnconnectedPing send_timestamp client_guid).

Definition read_unconnected_pong : reader UPacket :=
  send_timestamp ← get_i64;
  server_guid ← get_u64;
  get_checked_magic;;
  len ← get_u16;
  let len := Z.to_nat len in
  data ← read_buf len (λ buf,
    let data := take len buf in          (* &buf.chunk()[..len] *)
    (advance len;; mret data) buf);
  mret (UUnconnectedPong send_timestamp server_guid data).

Definition read_open_connection_request1 : reader UPacket :=
  get_checked_magic;;
  protocol_version ← get_u8;
  mtu ← get_u16;
  mret (UOpenConnectionRequest1 protocol_version mtu).

Definition read_open_connection_reply1 : reader UPacket :=
  get_checked_magic;;
  server_guid ← get_u64;
  use_encryption ← get_u8;
  mtu ← get_u16;
  mret (UOpenConnectionReply1 server_guid (negb (use_encryption =? 0)) mtu).

Definition read_open_connection_request2 : reader UPacket :=
  read_buf 16 get_checked_magic;;
  server_address ← get_socket_addr;
  mtu ← read_buf 2 get_u16;
  client_guid ← read_buf 8 get_u64;
  mret (UOpenConnectionRequest2 server_address mtu client_guid).

Definition read_open_connection_reply2 : reader UPacket :=
  read_buf 16 get_checked_magic;;
  server_guid ← read_buf 8 get_u64;
  client_address ← get_socket_addr;
  mtu ← read_buf 2 get_u16;
  encryption_enabled ← read_buf 1 get_u8;
  mret (UOpenConnectionReply2 server_guid client_address mtu (negb (encryption_enabled =? 0))).

Definition read_incompatible_protocol : reader UPacket :=
  server_protocol ← get_u8;
  get_checked_magic;;
  server_guid ← get_u64;
  mret (UIncompatibleProtocol server_protocol server_guid).

Definition read_already_connected : reader UPacket :=
  get_checked_magic;;
  server_guid ← get_u64;
  mret (UAlreadyConnected server_guid).

Definition read_connection_request_failed : reader UPacket :=
  get_checked_magic;;
  server_guid ← get_u64;
  mret (UConnectionRequestFailed server_guid).

Definition UPacket_write (p : UPacket) (buf : list Z) : list Z :=
  let buf := put_u8 (PackType_as_u8 (UPacket_pack_type p)) buf in
  match p with
  | UUnconnectedPing send_timestamp client_guid =>
      put_u64 client_guid (put_magic (put_i64 send_timestamp buf))
  | UUnconnectedPong send_timestamp server_guid data =>
      put_slice data (put_u16 (wrap 16 (Z.of_nat (length data)))
        (put_magic (put_u64 server_guid (put_i64 send_timestamp buf))))
  | UOpenConnectionRequest1 protocol_version mtu =>
      put_u16 mtu (put_u8 protocol_version (put_magic buf))
  | UOpenConnectionReply1 server_guid _use_encryption mtu =>
      put_u16 mtu (put_u8 0 (put_u64 server_guid (put_magic buf)))
  | UOpenConnectionRequest2 server_address mtu client_guid =>
      put_u64 client_guid (put_u16 mtu (put_socket_addr server_address (put_magic buf)))
  | UOpenConnectionReply2 server_guid client_address mtu _encryption_enabled =>
      put_u8 0 (put_u16 mtu (put_socket_addr client_address
        (put_u64 server_guid (put_magic buf))))
  | UIncompatibleProtocol server_protocol server_guid =>
      put_u64 server_guid (put_magic (put_u8 server_protocol buf))
  | UAlreadyConnected server_guid =>
      put_u64 server_guid (put_magic buf)
  | UConnectionRequestFailed server_guid =>
      put_u64 server_guid (put_magic buf)
  end.

(** The values the Rust types of the fields allow. *)
Definition UPacket_ok (p : UPacket) : Prop :=
  match p with
  | UUnconnectedPing ts guid => sint 64 ts ∧ uint 64 guid
  | UUnconnectedPong ts guid data => sint 64 ts ∧ uint 64 guid ∧ bytes_ok data
  | UOpenConnectionRequest1 v mtu => uint 8 v ∧ uint 16 mtu
  | UOpenConnectionReply1 guid _ mtu => uint 64 guid ∧ uint 16 mtu
  | UOpenConnectionRequest2 a mtu guid => addr_ok a ∧ uint 16 mtu ∧ uint 64 guid
  | UOpenConnectionReply2 guid a mtu _ => uint 64 guid ∧ addr_ok a ∧ uint 16 mtu
  | UIncompatibleProtocol v guid => uint 8 v ∧ uint 64 guid
  | UAlreadyConnected guid => uint 64 guid
  | UConnectionRequestFailed guid => uint 64 guid
  end.

(** What the wire format can carry on top of that: the encryption flags are not
    written, and the advertisement length is a [u16]. *)
Definition UPacket_wire (p : UPacket) : Prop :=
  UPacket_ok p ∧
  match p with
  | UUnconnectedPong _ _ data => Z.of_nat (length data) < 2 ^ 16
  | UOpenConnectionReply1 _ enc _ | UOpenConnectionReply2 _ _ _ enc => enc = false
  | _ => True
  end.

Global Instance UPacket_wire_dec p : Decision (UPacket_wire p).
Proof. unfold UPacket_wire. destruct p; cbn; apply _. Defined.

Lemma fixed_read_unconnected_ping : fixed 32 read_unconnected_ping.
Proof. unfold read_unconnected_ping. fixed_tac. Qed.
Lemma fixed_read_open_connection_request1 : fixed 19 read_open_connection_request1.
Proof. unfold read_open_connection_request1. fixed_tac. Qed.
Lemma fixed_read_open_connection_reply1 : fixed 27 read_open_connection_reply1.
Proof. unfold read_open_connection_reply1. fixed_tac. Qed.
Lemma fixed_read_incompatible_protocol : fixed 25 read_incompatible_protocol.
Proof. unfold read_incompatible_protocol. fixed_tac. Qed.
Lemma fixed_read_already_connected : fixed 24 read_already_connected.
Proof. unfold read_already_connected. fixed_tac. Qed.
Lemma fixed_read_connection_request_failed : fixed 24 read_connection_request_failed.
Proof. unfold read_connection_request_failed. fixed_tac. Qed.

Lemma read_unconnected_pong_safe : safe (read_buf 34 read_unconnected_pong).
Proof.
  intros l. unfold read_buf. case_decide as Hd; [done|].
  assert (fixed 34 (ts ← get_i64; g ← get_u64; get_checked_magic;; len ← get_u16;
    mret (ts, g, len))) as Hf by fixed_tac.
  specialize (Hf l ltac:(lia)). revert Hf.
  unfold read_unconnected_pong, mbind, reader_bind, mret, reader_ret.
  destruct (get_i64 l) as [[ts l1]| |]; [|done|naive_solver].
  destruct (get_u64 l1) as [[g l2]| |]; [|done|naive_solver].
  destruct (get_checked_magic l2) as [[? l3]| |]; [|done|naive_solver].
  destruct (get_u16 l3) as [[len l4]| |]; [|done|naive_solver]. intros _.
  unfold read_buf. case_decide; [done|].
  destruct (fixed_advance (Z.to_nat len) l4) as [(? & ? & -> & _)|[? ->]]; [lia|done|done].
Qed.

Lemma read_open_connection_request2_safe : safe read_open_connection_request2.
Proof. unfold read_open_connection_request2. safe_tac. Qed.

Lemma read_open_connection_reply2_safe : safe read_open_connection_reply2.
Proof. unfold read_open_connection_reply2. safe_tac. Qed.

Lemma UPacket_write_app p buf : UPacket_write p buf = buf ++ UPacket_write p [].
Proof.
  destruct p; unfold UPacket_write, put_magic; cbn [UPacket_pack_type]; put_norm;
    rewrite ?(put_socket_addr_app _ (_ ++ _)), <-?app_assoc; cbn [app]; try done.
  all: put_norm; rewrite ?(put_socket_addr_app _ (be_bytes _ _ ++ _)); put_norm; done.
Qed.
End unconnected.

#[export] Hint Resolve read_open_connection_request2_safe read_open_connection_reply2_safe : safe.
