(* ===== verification/AckNack.v ===== *)
(** * ACK and NACK packets (src/packet/connected/ack.rs)

    Sequence number compression ([extend_from]) and the codec of the records.
    An [Iterator] is the list of the items it still yields; [extend_from]
    returns what it leaves in the iterator. *)
From S2P Require Import Prelude Bytes Errors Reader SeqNum.
Open Scope Z_scope.

Inductive Record_ :=
| Range (start end_ : u24)
| Single (idx : u24).

Record AckOrNack := mkAckOrNack { records : list Record_ }.

Global Instance Record_eq_dec : EqDecision Record_.
Proof. solve_decision. Defined.
Global Instance AckOrNack_eq_dec : EqDecision AckOrNack.
Proof. solve_decision. Defined.

Definition RECORD_RANGE : Z := 0.
Definition RECORD_SINGLE : Z := 1.
Definition MAX_ACKNOWLEDGEMENT_PACKETS : Z := 16384.

Section ack.
Context {B : Build} {BC : BytesCrate}.

(** [if first != last { Record::Range(first, last) } else { Record::Single(first) }] *)
Definition close_record (first last : u24) : Record_ :=
  if negb (first =? last) then Range first last else Single first.

Fixpoint extend_loop {E} (mtu : Z) (first last : u24) (upgrade_flag : bool)
    (recs : list Record_) (seq_nums : list u24) :
    outcome E (list Record_ * u24 * u24 * list u24) :=
  if mtu <? 4 then mret (recs, first, last, seq_nums)
  else
    match seq_nums with
    | [] => mret (recs, first, last, [])
    | seq_num :: seq_nums =>
        next ← u24_add last 1;
        if seq_num =? next then
          if upgrade_flag then
            mtu ← usub 16 mtu 3;
            extend_loop mtu first seq_num false recs seq_nums
          else extend_loop mtu first seq_num false recs seq_nums
        else
          mtu ← usub 16 mtu 4;
          extend_loop mtu seq_num seq_num true (recs ++ [close_record first last]) seq_nums
    end.

Definition extend_from {E} (sorted_seq_nums : list u24) (mtu : Z) :
    outcome E (option AckOrNack * list u24) :=
  debug_assert (7 <=? mtu);;
  match sorted_seq_nums with
  | [] => mret (None, [])
  | first :: seq_nums =>
      mtu ← usub 16 mtu 7;
      '(recs, first, last, rest) ← extend_loop mtu first first true [] seq_nums;
      mret (Some (mkAckOrNack (recs ++ [close_record first last])), rest)
  end.

Definition Record_read : reader Record_ :=
  record_type ← read_buf 1 get_u8;
  if record_type =? RECORD_RANGE then
    read_buf 6 (start ← get_u24_le; end_ ← get_u24_le; mret (Range start end_))
  else if record_type =? RECORD_SINGLE then
    read_buf 3 (idx ← get_u24_le; mret (Single idx))
  else throw (InvalidRecordType record_type).

Definition Record_write (r : Record_) (buf : list Z) : list Z :=
  match r with
  | Range start end_ => put_u24_le end_ (put_u24_le start (put_u8 RECORD_RANGE buf))
  | Single idx => put_u24_le idx (put_u8 RECORD_SINGLE buf)
  end.

Definition Record_ack_cnt {E} (r : Record_) : outcome E Z :=
  match r with
  | Range start end_ =>
      d ← u24_sub end_ start;
      n ← u24_add d 1;
      mret (u24_to_usize n)
  | Single _ => mret 1
  end.

Fixpoint read_records (record_cnt : nat) (ack_cnt : Z) : reader (list Record_) :=
  match record_cnt with
  | O => mret []
  | S n =>
      record ← Record_read;
      c ← lift (Record_ack_cnt record);
      let ack_cnt := ack_cnt + c in
      if MAX_ACKNOWLEDGEMENT_PACKETS <? ack_cnt then throw (AckCountExceed ack_cnt)
      else
        recs ← read_records n ack_cnt;
        mret (record :: recs)
  end.

Definition AckOrNack_read : reader AckOrNack :=
  record_cnt ← get_u16;
  recs ← read_records (Z.to_nat record_cnt) 0;
  mret (mkAckOrNack recs).

Definition AckOrNack_write {E} (a : AckOrNack) (buf : list Z) : outcome E (list Z) :=
  debug_assert (Z.of_nat (length (records a)) <? 65535);;
  let buf := put_u16 (wrap 16 (Z.of_nat (length (records a)))) buf in
  mret (foldl (λ buf r, Record_write r buf) buf (records a)).

Fixpoint sum_cnt {E} (rs : list Record_) : outcome E Z :=
  match rs with
  | [] => mret 0
  | r :: rs => c ← Record_ack_cnt r; n ← sum_cnt rs; mret (c + n)
  end.

Definition AckOrNack_total_cnt {E} (a : AckOrNack) : outcome E Z := sum_cnt (records a).

(** ** Meaning of a record *)

(** The sequence numbers a record stands for. *)
Definition expand (r : Record_) : list u24 :=
  match r with
  | Range start end_ => u24_range start (end_ + 1)
  | Single idx => [idx]
  end.

Definition expand_all (rs : list Record_) : list u24 := rs ≫= expand.

(** The bytes a record takes on the wire: 7 for a range and 4 for a single. *)
Definition Record_len (r : Record_) : Z := match r with Range _ _ => 7 | Single _ => 4 end.

Definition records_len (rs : list Record_) : Z := foldr (λ r n, Record_len r + n) 0 rs.

Definition Record_ok (r : Record_) : Prop :=
  match r with
  | Range start end_ => u24_valid start ∧ u24_valid end_ ∧ start ≤ end_ ∧ end_ - start < 2 ^ 24 - 1
  | Single idx => u24_valid idx
  end.

Lemma expand_close first last :
  first ≤ last → expand (close_record first last) = u24_range first (last + 1).
Proof.
  intros. unfold close_record. destruct (Z.eqb_spec first last) as [->|]; [|done].
  cbn. rewrite u24_range_snoc, u24_range_nil by lia. done.
Qed.

Lemma expand_all_snoc rs r : expand_all (rs ++ [r]) = expand_all rs ++ expand r.
Proof. unfold expand_all. by rewrite bind_app, bind_singleton. Qed.

Lemma records_len_snoc rs r : records_len (rs ++ [r]) = records_len rs + Record_len r.
Proof. unfold records_len. induction rs; cbn in *; lia. Qed.

(** Loop invariant: the current record is the run [first..last], its size is
    already taken off the budget, and nothing is lost. *)
Lemma extend_loop_spec {E} seqs mtu first last up recs :
  0 ≤ mtu < 2 ^ 16 → Forall (λ s, 0 ≤ s < 2 ^ 24 - 1) seqs →
  0 ≤ first ≤ last → last < 2 ^ 24 - 1 → (up = true ↔ first = last) →
  Forall Record_ok recs →
  ∃ recs' first' last' rest mtu',
    extend_loop (E:=E) mtu first last up recs seqs = Ok (recs', first', last', rest) ∧
    expand_all recs ++ u24_range first (last + 1) ++ seqs =
      expand_all recs' ++ u24_range first' (last' + 1) ++ rest ∧
    0 ≤ first' ≤ last' ∧ last' < 2 ^ 24 - 1 ∧ Forall Record_ok recs' ∧ 0 ≤ mtu' ∧
    mtu + records_len recs + Record_len (close_record first last) =
      mtu' + records_len recs' + Record_len (close_record first' last') ∧
    (rest = [] ∨ mtu' < 4).
Proof.
  revert mtu first last up recs.
  induction seqs as [|s seqs IH]; intros mtu first last up recs Hm Hs Hf Hl Hup Hr.
  { exists recs, first, last, [], mtu. cbn. rewrite app_nil_r.
    split_and!; try done; try lia; try (by left); by destruct (mtu <? 4). }
  cbn. destruct (Z.ltb_spec mtu 4) as [Hlt|Hge].
  { exists recs, first, last, (s :: seqs), mtu. split_and!; try done; try lia; by right. }
  apply Forall_cons in Hs as [Hs1 Hs].
  rewrite u24_add_Ok by lia. cbn. destruct (Z.eqb_spec s (last + 1)) as [->|Hne].
  - assert (∃ m', (if up then usub (E:=E) 16 mtu 3 else Ok mtu) = Ok m' ∧ 0 ≤ m' < 2 ^ 16 ∧
      m' + Record_len (close_record first (last + 1)) = mtu + Record_len (close_record first last))
      as (m' & Hm' & Hm1 & Hm2).
    { unfold close_record. rewrite (proj2 (Z.eqb_neq first (last + 1))) by lia. cbn.
      destruct up.
      - rewrite usub_Ok by lia. eexists. split; [done|]. rewrite (proj1 Hup eq_refl).
        rewrite Z.eqb_refl. cbn. lia.
      - eexists. split; [done|]. destruct (Z.eqb_spec first last); cbn; [|lia].
        exfalso. assert (false = true) by (by apply Hup). done. }
    destruct (IH m' first (last + 1) false recs) as (r' & f' & l' & rest & m2 & H1 & H2 & H3);
      [lia|done|lia|lia| |done|].
    { split; [done|lia]. }
    exists r', f', l', rest, m2. split_and!; [| |destruct_and! H3; try done; lia..].
    + destruct up; cbn in *; [|congruence].
      destruct (usub 16 mtu 3); [|done..]. cbn. congruence.
    + rewrite <-H2. rewrite (u24_range_snoc first (last + 1)) by lia.
      by rewrite <-!app_assoc.
  - rewrite usub_Ok by lia. cbn.
    destruct (IH (mtu - 4) s s true (recs ++ [close_record first last]))
      as (r' & f' & l' & rest & m2 & H1 & H2 & H3); [lia|done|lia|lia|done| |].
    { apply Forall_app. split; [done|]. apply Forall_singleton. unfold close_record, Record_ok.
      unfold u24_valid, uint. destruct (Z.eqb_spec first last); cbn; lia. }
    exists r', f', l', rest, m2. split_and!; [done| |destruct_and! H3; try done..].
    + rewrite <-H2, expand_all_snoc, expand_close by lia.
      rewrite (u24_range_snoc s s), u24_range_nil by lia. by rewrite <-!app_assoc.
    + rewrite records_len_snoc in *. unfold close_record in *.
      rewrite Z.eqb_refl in *. cbn in *. lia.
Qed.

Lemma Record_ack_cnt_Ok {E} r :
  Record_ok r → Record_ack_cnt (E:=E) r = Ok (Z.of_nat (length (expand r))).
Proof.
  destruct r as [a b|a]; [|done]. cbn. intros (Ha & Hb & Hab & Hn).
  rewrite u24_sub_Ok by lia. cbn. unfold u24_valid, uint in *.
  rewrite u24_add_Ok by lia. cbn. unfold u24_to_usize. rewrite length_u24_range. f_equal. lia.
Qed.

Lemma extend_from_spec {E} seqs mtu :
  seqs ≠ [] → Forall (λ s, 0 ≤ s < 2 ^ 24 - 1) seqs → 7 ≤ mtu < 2 ^ 16 →
  ∃ ack rest, extend_from (E:=E) seqs mtu = Ok (Some ack, rest) ∧
    seqs = expand_all (records ack) ++ rest ∧ Forall Record_ok (records ack) ∧
    records ack ≠ [] ∧
    3 + records_len (records ack) ≤ mtu ∧
    (rest = [] ∨ mtu < 3 + records_len (records ack) + 4).
Proof.
  intros Hne Hs Hm. unfold extend_from. destruct seqs as [|s seqs]; [done|].
  apply Forall_cons in Hs as [Hs1 Hs].
  assert (debug_assert (E:=E) (7 <=? mtu) = Ok tt) as ->.
  { unfold debug_assert. rewrite (proj2 (Z.leb_le _ _)) by lia. by destruct debug_assertions. }
  cbn. rewrite usub_Ok by lia. cbn.
  destruct (extend_loop_spec (E:=E) seqs (mtu - 7) s s true [])
    as (r' & f' & l' & rest & m' & -> & H2 & H3 & H4 & H5 & H6 & H7 & H8);
    [lia|done|lia|lia|done|by constructor|].
  cbn. eexists _, rest. split; [done|]. cbn.
  assert (Record_ok (close_record f' l')) as Hok.
  { unfold close_record, Record_ok, u24_valid, uint. destruct (Z.eqb_spec f' l'); cbn; lia. }
  rewrite records_len_snoc.
  unfold close_record at 1 in H7. rewrite Z.eqb_refl in H7. cbn in H7.
  split_and!.
  - rewrite expand_all_snoc, expand_close, <-app_assoc, <-H2 by lia. cbn.
    by rewrite u24_range_snoc, u24_range_nil by lia.
  - apply Forall_app. split; [done|by apply Forall_singleton].
  - by destruct r'.
  - lia.
  - destruct H8; [by left|right; lia].
Qed.

Lemma records_len_count rs : 4 * Z.of_nat (length rs) ≤ records_len rs.
Proof.
  induction rs as [|r rs IH]; cbn; [lia|]. unfold records_len in IH.
  destruct r; cbn in *; lia.
Qed.

Lemma Record_write_app r buf : Record_write r buf = buf ++ Record_write r [].
Proof. destruct r; unfold Record_write, put_u24_le; put_norm; done. Qed.

Lemma length_Record_write r : Z.of_nat (length (Record_write r [])) = Record_len r.
Proof. destruct r; unfold Record_write, put_u24_le; put_norm; solve_len. Qed.

Lemma Record_read_range_app a b l :
  u24_valid a → u24_valid b → Record_read (Record_write (Range a b) [] ++ l) = Ok (Range a b, l).
Proof. intros Ha Hb. unfold Record_read, Record_write, put_u24_le. put_norm. read_tac. Qed.

Lemma Record_read_app r l :
  Record_ok r → Record_read (Record_write r [] ++ l) = Ok (r, l).
Proof.
  destruct r as [a b|a]; [intros (Ha & Hb & _); by apply Record_read_range_app|].
  intros Hr. cbn in Hr. unfold Record_read, Record_write, put_u24_le. put_norm. read_tac.
Qed.

Lemma write_records_app rs buf :
  foldl (λ buf r, Record_write r buf) buf rs = buf ++ (rs ≫= λ r, Record_write r []).
Proof.
  revert buf. induction rs as [|r rs IH]; intros buf; cbn; [by rewrite app_nil_r|].
  rewrite IH, Record_write_app, <-app_assoc. done.
Qed.

Lemma read_records_app rs cnt l :
  Forall Record_ok rs →
  0 ≤ cnt → cnt + Z.of_nat (length (expand_all rs)) ≤ MAX_ACKNOWLEDGEMENT_PACKETS →
  read_records (length rs) cnt ((rs ≫= λ r, Record_write r []) ++ l) = Ok (rs, l).
Proof.
  intros Hrs. revert cnt. induction Hrs as [|r rs Hr Hrs IH]; intros cnt Hc Hcnt; [done|].
  unfold expand_all in Hcnt. cbn in Hcnt. rewrite length_app in Hcnt.
  cbn. rewrite <-app_assoc.
  eapply reader_bind_run; [by apply Record_read_app|].
  rewrite Record_ack_cnt_Ok by done. eapply reader_bind_run; [done|]. cbn beta zeta.
  unfold expand_all in IH. rewrite (proj2 (Z.ltb_ge _ _)) by lia.
  eapply reader_bind_run; [apply IH; lia|]. done.
Qed.

Lemma total_cnt_Ok {E} a :
  Forall Record_ok (records a) →
  AckOrNack_total_cnt (E:=E) a = Ok (Z.of_nat (length (expand_all (records a)))).
Proof.
  unfold AckOrNack_total_cnt. induction 1 as [|r rs Hr Hrs IH]; [done|]. cbn.
  rewrite Record_ack_cnt_Ok, IH by done. cbn. f_equal. rewrite length_app. unfold expand_all. lia.
Qed.

Lemma expand_all_ne rs : Forall Record_ok rs → rs ≠ [] → expand_all rs ≠ [].
Proof.
  intros [|r rs' Hr _]; [done|]. intros _. destruct r as [a b|a]; cbn; [|done].
  destruct Hr as (_ & _ & ? & _). by rewrite u24_range_cons by lia.
Qed.

Lemma length_records rs : Z.of_nat (length (rs ≫= λ r, Record_write r [])) = records_len rs.
Proof.
  induction rs as [|r rs IH]; [done|]. cbn. rewrite length_app.
  pose proof (length_Record_write r). unfold records_len in IH. lia.
Qed.

(** C21. Sequence number compression loses nothing and respects the MTU: the
    records stand for exactly a non-empty prefix of the pending sequence
    numbers, in order, the rest stays pending, the encoded packet (id, count
    and records) fits into the MTU, and the compression stops only when fewer
    than 4 bytes, the smallest record, are left. *)
Theorem extend_from_compresses {E} seqs mtu :
  seqs ≠ [] → Forall (λ s, 0 ≤ s < 2 ^ 24 - 1) seqs → 7 ≤ mtu < 2 ^ 16 →
  ∃ ack rest bs, extend_from (E:=E) seqs mtu = Ok (Some ack, rest) ∧
    seqs = expand_all (records ack) ++ rest ∧ expand_all (records ack) ≠ [] ∧
    AckOrNack_total_cnt (E:=E) ack = Ok (Z.of_nat (length seqs - length rest)) ∧
    AckOrNack_write (E:=E) ack [] = Ok bs ∧
    1 + Z.of_nat (length bs) ≤ mtu ∧
    (rest = [] ∨ mtu < 1 + Z.of_nat (length bs) + 4).
Proof.
  intros Hne Hs Hm.
  destruct (extend_from_spec (E:=E) seqs mtu Hne Hs Hm) as (ack & rest & H1 & H2 & H3 & H4 & H5 & H6).
  pose proof (records_len_count (records ack)).
  exists ack, rest. eexists. split_and!; [done|done|by apply expand_all_ne| | | |].
  - rewrite total_cnt_Ok by done. f_equal. rewrite H2, length_app. lia.
  - unfold AckOrNack_write, debug_assert.
    rewrite (proj2 (Z.ltb_lt _ _)) by lia. cbn.
    by destruct debug_assertions.
  - rewrite write_records_app, length_app, Nat2Z.inj_add, length_records. put_norm. solve_len.
  - rewrite write_records_app, length_app, Nat2Z.inj_add, length_records. put_norm.
    rewrite length_be_bytes. destruct H6; [by left|right; lia].
Qed.

(** The records that the reader accepts. *)
Definition AckOrNack_wire (a : AckOrNack) : Prop :=
  Forall Record_ok (records a) ∧ Z.of_nat (length (expand_all (records a))) ≤ MAX_ACKNOWLEDGEMENT_PACKETS.

(** What [write] appends. *)
Definition AckOrNack_bytes (a : AckOrNack) : list Z :=
  be_bytes 2 (Z.of_nat (length (records a))) ++ (records a ≫= λ r, Record_write r []).

Lemma records_le_expand rs : Forall Record_ok rs → (length rs ≤ length (expand_all rs))%nat.
Proof.
  induction 1 as [|r rs Hr Hrs IH]; [done|]. cbn. rewrite length_app.
  unfold expand_all in IH. destruct r as [x y|x]; cbn; [|lia].
  destruct Hr as (? & ? & ? & ?). rewrite length_u24_range. lia.
Qed.

Lemma AckOrNack_write_wire {E} a buf :
  AckOrNack_wire a → AckOrNack_write (E:=E) a buf = Ok (buf ++ AckOrNack_bytes a).
Proof.
  intros [Hr Hn]. pose proof (records_le_expand _ Hr) as Hle. unfold MAX_ACKNOWLEDGEMENT_PACKETS in Hn.
  unfold AckOrNack_write, debug_assert. rewrite (proj2 (Z.ltb_lt _ _)) by lia.
  replace (if debug_assertions then assert_ true else Ok tt) with (Ok (E:=E) tt) by (by destruct debug_assertions).
  cbn. rewrite write_records_app. put_norm. by rewrite wrap_small by (unfold uint; lia).
Qed.

Lemma AckOrNack_read_app a l :
  AckOrNack_wire a → AckOrNack_read (AckOrNack_bytes a ++ l) = Ok (a, l).
Proof.
  intros [Hr Hn]. pose proof (records_le_expand _ Hr) as Hle. unfold MAX_ACKNOWLEDGEMENT_PACKETS in Hn.
  unfold AckOrNack_bytes, AckOrNack_read. rewrite <-app_assoc. read_tac.
  rewrite Nat2Z.id. eapply reader_bind_run.
  { apply read_records_app; [done|lia|unfold MAX_ACKNOWLEDGEMENT_PACKETS; lia]. }
  by destruct a.
Qed.

(** Acknowledgements round-trip: what [write] produces, followed by any other
    bytes, is read back as the same records, provided they acknowledge no more
    than [MAX_ACKNOWLEDGEMENT_PACKETS] numbers. *)
Theorem AckOrNack_roundtrip (a : AckOrNack) (l : list Z) :
  Forall Record_ok (records a) →
  Z.of_nat (length (expand_all (records a))) ≤ MAX_ACKNOWLEDGEMENT_PACKETS →
  ∃ bs, AckOrNack_write (E:=CodecError) a [] = Ok bs ∧ AckOrNack_read (bs ++ l) = Ok (a, l).
Proof.
  intros Hr Hn. exists (AckOrNack_bytes a). split; [by apply AckOrNack_write_wire|by apply AckOrNack_read_app].
Qed.

Lemma extend_loop_run {E} (k : nat) mtu first last recs :
  4 ≤ mtu → 0 ≤ last → last + Z.of_nat k < 2 ^ 24 →
  extend_loop (E:=E) mtu first last false recs (u24_range (last + 1) (last + 1 + Z.of_nat k)) =
    Ok (recs, first, last + Z.of_nat k, []).
Proof.
  revert last. induction k as [|k IH]; intros last Hm Hl Hk.
  - rewrite Z.add_0_r, u24_range_nil. cbn. destruct (mtu <? 4); repeat f_equal; lia.
  - rewrite u24_range_cons by lia. cbn [extend_loop].
    rewrite (proj2 (Z.ltb_ge _ _)), u24_add_Ok by lia. cbn. rewrite Z.eqb_refl.
    
    replace (last + 1 + Z.of_nat (S k)) with (last + 1 + 1 + Z.of_nat k) by lia.
    rewrite IH by lia. replace (last + Z.of_nat (S k)) with (last + 1 + Z.of_nat k) by lia. done.
Qed.

(** The compressor can produce a packet its own decoder rejects: [n]
    consecutive pending numbers become one 7-byte range, and when [n] is above
    [MAX_ACKNOWLEDGEMENT_PACKETS] the reader refuses the packet, so that none of
    these numbers is acknowledged. *)
Theorem extend_from_exceeds_reader_limit (n mtu : Z) :
  MAX_ACKNOWLEDGEMENT_PACKETS < n < 2 ^ 24 - 1 → 14 ≤ mtu →
  ∃ ack bs, extend_from (E:=CodecError) (u24_range 0 n) mtu = Ok (Some ack, []) ∧
    AckOrNack_write (E:=CodecError) ack [] = Ok bs ∧
    AckOrNack_read bs = Err (AckCountExceed n).
Proof.
  unfold MAX_ACKNOWLEDGEMENT_PACKETS. intros Hn Hm.
  exists (mkAckOrNack [Range 0 (n - 1)]), (be_bytes 2 1 ++ Record_write (Range 0 (n - 1)) []).
  split_and!.
  - unfold extend_from, debug_assert. rewrite (proj2 (Z.leb_le _ _)) by lia.
    assert ((if debug_assertions then assert_ (E:=CodecError) true else Ok tt) = Ok tt) as ->
      by (by destruct debug_assertions).
    cbn [mbind outcome_bind]. rewrite (u24_range_cons 0), (u24_range_cons (0 + 1)) by lia.
    rewrite usub_Ok by lia. cbn [mbind outcome_bind extend_loop].
    rewrite (proj2 (Z.ltb_ge _ _)), u24_add_Ok by lia. cbn [mbind outcome_bind].
    rewrite Z.eqb_refl, usub_Ok by lia. cbn [mbind outcome_bind].
    pose proof (extend_loop_run (E:=CodecError) (Z.to_nat (n - 2)) (mtu - 7 - 3) 0 (0 + 1) []) as Hr.
    replace (0 + 1 + 1 + Z.of_nat (Z.to_nat (n - 2))) with n in Hr by lia.
    rewrite Hr by lia. cbn. unfold close_record.
    rewrite (proj2 (Z.eqb_neq _ _)) by lia. cbn. repeat f_equal. lia.
  - unfold AckOrNack_write. rewrite write_records_app. put_norm.
    cbn [records list_bind mbind]. rewrite app_nil_r. unfold debug_assert.
    by destruct debug_assertions.
  - assert (Record_ok (Range 0 (n - 1))) as Hok by (cbn; unfold u24_valid, uint; lia).
    pose proof (Record_read_app (Range 0 (n - 1)) [] Hok) as Hrd. rewrite app_nil_r in Hrd.
    unfold AckOrNack_read. read_tac. change (Z.to_nat 1) with 1%nat. cbn [read_records].
    unfold mbind, reader_bind. rewrite Hrd. unfold lift.
    rewrite Record_ack_cnt_Ok by done. cbn. rewrite length_u24_range.
    replace (Z.of_nat (Z.to_nat (n - 1 + 1 - 0))) with n by lia.
    by rewrite (proj2 (Z.ltb_lt _ _)) by (unfold MAX_ACKNOWLEDGEMENT_PACKETS; lia).
Qed.
End ack.

Lemma extend_from_compresses_witness :
  ∃ ack rest bs, extend_from (B:=true) (E:=CodecError) [0; 1; 2; 4; 5; 7; 8] 21 = Ok (Some ack, rest) ∧
    [0; 1; 2; 4; 5; 7; 8] = expand_all (records ack) ++ rest ∧ expand_all (records ack) ≠ [] ∧
    AckOrNack_total_cnt (B:=true) (E:=CodecError) ack =
      Ok (Z.of_nat (length [0; 1; 2; 4; 5; 7; 8] - length rest)) ∧
    AckOrNack_write (B:=true) (BC:=bytes_reference) (E:=CodecError) ack [] = Ok bs ∧
    1 + Z.of_nat (length bs) ≤ 21 ∧
    (rest = [] ∨ 21 < 1 + Z.of_nat (length bs) + 4).
Proof.
  apply (extend_from_compresses (B:=true) (BC:=bytes_reference) (E:=CodecError) [0; 1; 2; 4; 5; 7; 8] 21);
    [done|by repeat constructor|by vm_compute].
Defined.

Lemma AckOrNack_roundtrip_witness :
  ∃ bs, AckOrNack_write (B:=true) (BC:=bytes_reference) (E:=CodecError)
      (mkAckOrNack [Range 0 2; Single 7]) [] = Ok bs ∧
    AckOrNack_read (B:=true) (BC:=bytes_reference) (bs ++ [9]) = Ok (mkAckOrNack [Range 0 2; Single 7], [9]).
Proof.
  apply (AckOrNack_roundtrip (B:=true) (BC:=bytes_reference) (mkAckOrNack [Range 0 2; Single 7]) [9]);
    [by repeat constructor|by vm_compute].
Defined.

Lemma extend_from_exceeds_reader_limit_witness :
  ∃ ack bs, extend_from (B:=false) (E:=CodecError) (u24_range 0 20000) 1400 = Ok (Some ack, []) ∧
    AckOrNack_write (B:=false) (BC:=bytes_reference) (E:=CodecError) ack [] = Ok bs ∧
    AckOrNack_read (B:=false) (BC:=bytes_reference) bs = Err (AckCountExceed 20000).
Proof.
  apply (extend_from_exceeds_reader_limit (B:=false) (BC:=bytes_reference) 20000 1400); by vm_compute.
Defined.
