(* ===== verification/FrameSet.v ===== *)
(** * Frame sets (src/packet/connected/frame_set.rs)

    Frames, their flags and headers, and the codec of a frame set.  [Frame<B>]
    is modelled with its body as a byte list: [Frame<Bytes>] and
    [Frame<BytesMut>] have the same content and [freeze] is the identity on it. *)
From S2P Require Import Prelude Bytes Errors Reader SeqNum Types PackType.
Open Scope Z_scope.

Record Flags := mkFlags {
  raw : Z;
  reliability : Reliability;
  parted : bool;
}.

Record Fragment := mkFragment {
  parted_size : Z;
  parted_id : Z;
  parted_index : Z;
}.

Record Ordered := mkOrdered {
  frame_index : u24;
  channel : Z;
}.

Record Frame := mkFrame {
  flags : Flags;
  reliable_frame_index : option u24;
  seq_frame_index : option u24;
  ordered : option Ordered;
  fragment : option Fragment;
  body : list Z;
}.

Record FrameSet_ := mkFrameSet {
  seq_num : u24;
  set : list Frame;
}.

Global Instance Flags_eq_dec : EqDecision Flags.
Proof. solve_decision. Defined.
Global Instance Fragment_eq_dec : EqDecision Fragment.
Proof. solve_decision. Defined.
Global Instance Ordered_eq_dec : EqDecision Ordered.
Proof. solve_decision. Defined.
Global Instance Frame_eq_dec : EqDecision Frame.
Proof. solve_decision. Defined.
Global Instance FrameSet_eq_dec : EqDecision FrameSet_.
Proof. solve_decision. Defined.

Definition with_body (b : list Z) (f : Frame) : Frame :=
  mkFrame (flags f) (reliable_frame_index f) (seq_frame_index f) (ordered f) (fragment f) b.

(** [(reliability as u8) << 5], then the flag bits. *)
Definition Flags_new (r : Reliability) (parted : bool) : Flags :=
  let raw := Z.shiftl (Reliability_as_u8 r) 5 in
  let raw := Z.lor raw NEEDS_B_AND_AS_FLAG in
  let raw := if parted then Z.lor raw PARTED_FLAG else raw in
  mkFlags raw r parted.

(** A value [transmute] has no meaning for would be undefined behaviour. *)
Definition Flags_parse {E} (raw : Z) : outcome E Flags :=
  match Reliability_transmute (Z.shiftr raw 5) with
  | Some r => Ok (mkFlags raw r (negb (Z.land raw PARTED_FLAG =? 0)))
  | None => Panic
  end.

(** [u8::reverse_bits] *)
Definition reverse_bits (v : Z) : Z :=
  foldl (λ acc i, if Z.testbit v (Z.of_nat i) then Z.lor acc (Z.shiftl 1 (7 - Z.of_nat i)) else acc)
    0 (seq 0 8).

(** The mask is [PARTED_FLAG.reverse_bits()], that is [0b0000_1000]. *)
Definition Frame_reassembled (f : Frame) : Frame :=
  if negb (parted (flags f)) then f
  else
    mkFrame
      (mkFlags (Z.land (raw (flags f)) (reverse_bits PARTED_FLAG)) (reliability (flags f)) false)
      (reliable_frame_index f) (seq_frame_index f) (ordered f) None (body f).

(** The total size of a frame. *)
Definition Frame_size (f : Frame) : Z :=
  let size := Reliability_size (reliability (flags f)) in
  let size := if fragment f is Some _ then size + FRAGMENT_PART_SIZE else size in
  size + Z.of_nat (length (body f)).

Section frame_set.
Context {B : Build} {BC : BytesCrate}.

Definition Flags_read : reader Flags :=
  raw ← get_u8;
  lift (Flags_parse raw).

Definition Flags_write (f : Flags) (buf : list Z) : list Z := put_u8 (raw f) buf.

Definition Fragment_read : reader Fragment :=
  parted_size ← get_u32;
  parted_id ← get_u16;
  parted_index ← get_u32;
  mret (mkFragment parted_size parted_id parted_index).

Definition Fragment_write (f : Fragment) (buf : list Z) : list Z :=
  put_u32 (parted_index f) (put_u16 (parted_id f) (put_u32 (parted_size f) buf)).

Definition Ordered_read : reader Ordered :=
  frame_index ← get_u24_le;
  channel ← get_u8;
  mret (mkOrdered frame_index channel).

Definition Ordered_write (o : Ordered) (buf : list Z) : list Z :=
  put_u8 (channel o) (put_u24_le (frame_index o) buf).

(** [if c { field = read_buf!(buf, n, Some(m)) }] on a field that starts as [None]. *)
Definition read_field {A} (c : bool) (n : nat) (m : reader A) : reader (option A) :=
  if c then read_buf n (v ← m; mret (Some v)) else mret None.

Definition Frame_read : reader Frame :=
  '(flags, length) ← read_buf 3 (
    flags ← Flags_read;
    l ← get_u16;
    let length := Z.shiftr l 3 in
    if length =? 0 then throw (InvalidPacketLength "frame length")
    else mret (flags, Z.to_nat length));
  let r := reliability flags in
  reliable_frame_index ← read_field (is_reliable r) 3 get_u24_le;
  seq_frame_index ← read_field (is_sequenced r) 3 get_u24_le;
  ordered ← read_field (is_sequenced_or_ordered r) 4 Ordered_read;
  fragment ← read_field (parted flags) 10 Fragment_read;
  body ← read_buf length (split_to length);
  mret (mkFrame flags reliable_frame_index seq_frame_index ordered fragment body).

Definition put_field {A} (put : A → list Z → list Z) (o : option A) (buf : list Z) : list Z :=
  match o with Some v => put v buf | None => buf end.

(** [(self.body.remaining() << 3) as u16] *)
Definition Frame_write_ref {E} (f : Frame) (buf : list Z) : outcome E (list Z) :=
  let buf := Flags_write (flags f) buf in
  debug_assert (Z.of_nat (length (body f)) <? Z.shiftr 65535 3);;
  let buf := put_u16 (wrap 16 (Z.shiftl (Z.of_nat (length (body f))) 3)) buf in
  let buf := put_field put_u24_le (reliable_frame_index f) buf in
  let buf := put_field put_u24_le (seq_frame_index f) buf in
  let buf := put_field Ordered_write (ordered f) buf in
  let buf := put_field Fragment_write (fragment f) buf in
  mret (put_slice (body f) buf).

(** [while buf.has_remaining() { frames.push(Frame::read(buf)?) }].  A frame takes
    more than three bytes, so the length of the buffer bounds the iterations;
    [FrameSet_read_no_panic] shows that the bound is never hit. *)
Fixpoint read_frames (fuel : nat) (frames : list Frame) : reader (list Frame) := λ buf,
  match buf with
  | [] => Ok (frames, [])
  | _ =>
      match fuel with
      | O => Panic
      | S fuel => (frame ← Frame_read; read_frames fuel (frames ++ [frame])) buf
      end
  end.

Definition FrameSet_read : reader FrameSet_ :=
  seq_num ← read_buf 3 get_u24_le;
  frames ← (λ buf, read_frames (length buf) [] buf);
  match frames with
  | [] => throw (InvalidPacketLength "frame set")
  | _ => mret (mkFrameSet seq_num frames)
  end.

Fixpoint write_frames {E} (set : list Frame) (buf : list Z) : outcome E (list Z) :=
  match set with
  | [] => mret buf
  | frame :: set => buf ← Frame_write_ref frame buf; write_frames set buf
  end.

Definition FrameSet_write {E} (s : FrameSet_) (buf : list Z) : outcome E (list Z) :=
  write_frames (set s) (put_u24_le (seq_num s) buf).

(** ** Well-formed frames *)

(** The flags are what [Flags::parse] makes of their raw byte. *)
Definition Flags_ok (f : Flags) : Prop :=
  uint 8 (raw f) ∧ Flags_parse (E:=CodecError) (raw f) = Ok f.

Definition field_ok {A} (c : bool) (P : A → Prop) (o : option A) : Prop :=
  match o with Some v => c = true ∧ P v | None => c = false end.

Definition Ordered_ok (o : Ordered) : Prop := u24_valid (frame_index o) ∧ uint 8 (channel o).

Definition Fragment_ok (f : Fragment) : Prop :=
  uint 32 (parted_size f) ∧ uint 16 (parted_id f) ∧ uint 32 (parted_index f).

(** A header field is there exactly when the flags announce it. *)
Definition Frame_ok (f : Frame) : Prop :=
  Flags_ok (flags f) ∧
  field_ok (is_reliable (reliability (flags f))) u24_valid (reliable_frame_index f) ∧
  field_ok (is_sequenced (reliability (flags f))) u24_valid (seq_frame_index f) ∧
  field_ok (is_sequenced_or_ordered (reliability (flags f))) Ordered_ok (ordered f) ∧
  field_ok (parted (flags f)) Fragment_ok (fragment f) ∧
  bytes_ok (body f) ∧ 0 < Z.of_nat (length (body f)) < 2 ^ 13.

(** The bound [Frame::write_ref] asserts on the body. *)
Definition Frame_fits (f : Frame) : Prop := Z.of_nat (length (body f)) < 8191.

Lemma Flags_parse_total {E} v : uint 8 v →
  ∃ f, Flags_parse (E:=E) v = Ok f ∧ raw f = v.
Proof.
  intros Hv. unfold Flags_parse.
  destruct (Reliability_transmute_total (Z.shiftr v 5)) as [r ->]; [|by eexists].
  rewrite Z.shiftr_div_pow2 by lia. unfold uint in Hv. zlia.
Qed.

Lemma Flags_new_ok r p : Flags_ok (Flags_new r p).
Proof. by destruct r, p; vm_compute. Qed.

Lemma Flags_takes : takes 1 Flags_read Flags_ok.
Proof.
  eapply (takes_bind 1 0); [apply (takes_uint 1)|]. intros v Hv l Hl _.
  destruct (Flags_parse_total (E:=CodecError) v Hv) as (f & Hp & Hr).
  unfold lift. rewrite Hp. split_and!; [|done|lia]. split; rewrite Hr; [exact Hv|exact Hp].
Qed.

Lemma u24_takes : takes 3 get_u24_le u24_valid.
Proof.
  unfold get_u24_le. eapply (takes_bind 3 0); [apply takes_uint_le|]. intros v Hv.
  apply takes_ret. rewrite wrap_small; unfold u24_valid, uint in *; lia.
Qed.

Lemma Ordered_takes : takes 4 Ordered_read Ordered_ok.
Proof.
  eapply (takes_bind 3 1); [apply u24_takes|]. intros i Hi.
  eapply (takes_bind 1 0); [apply (takes_uint 1)|]. intros c Hc. by apply takes_ret.
Qed.

Lemma Fragment_takes : takes 10 Fragment_read Fragment_ok.
Proof.
  eapply (takes_bind 4 6); [apply (takes_uint 4)|]. intros s Hs.
  eapply (takes_bind 2 4); [apply (takes_uint 2)|]. intros i Hi.
  eapply (takes_bind 4 0); [apply (takes_uint 4)|]. intros x Hx. by apply takes_ret.
Qed.

Lemma read_field_yields {A} c n (m : reader A) P :
  takes n m P → yields 0 (read_field c n m) (field_ok c P).
Proof.
  intros Hm. unfold read_field. destruct c; [|by apply yields_ret].
  apply (yields_le n); [lia|]. apply yields_read_buf.
  rewrite <-(Nat.add_0_r n). eapply takes_bind; [apply Hm|]. intros a Ha. by apply takes_ret.
Qed.

(** What [Frame::read] accepts: it never panics, takes at least 4 bytes, and
    returns a well-formed frame. *)
Lemma Frame_read_yields : yields 4 Frame_read Frame_ok.
Proof.
  unfold Frame_read.
  eapply (yields_bind 3 1 _ _
    (λ p, Flags_ok p.1 ∧ 0 < Z.of_nat p.2 < 2 ^ 13)).
  { apply yields_read_buf. eapply (takes_bind 1 2); [apply Flags_takes|]. intros f Hf.
    eapply (takes_bind 2 0); [apply (takes_uint 2)|]. intros v Hv. cbn zeta.
    destruct (Z.eqb_spec (Z.shiftr v 3) 0) as [|Hne]; [intros l _ _; exact I|].
    apply takes_ret. cbn. split; [done|]. rewrite Z.shiftr_div_pow2 in * by lia.
    unfold uint in Hv. zlia. }
  intros [f n] [Hf Hn]. cbn in Hf, Hn. cbn zeta.
  eapply (yields_bind 0 1); [apply read_field_yields, u24_takes|]. intros ri Hri.
  eapply (yields_bind 0 1); [apply read_field_yields, u24_takes|]. intros si Hsi.
  eapply (yields_bind 0 1); [apply read_field_yields, Ordered_takes|]. intros o Ho.
  eapply (yields_bind 0 1); [apply read_field_yields, Fragment_takes|]. intros fr Hfr.
  apply (yields_le (n + 0)); [lia|].
  eapply yields_bind; [apply yields_read_buf, takes_split_to|]. intros b [Hb Hbl].
  apply yields_ret. unfold Frame_ok. cbn. rewrite Hbl. split_and!; try done; lia.
Qed.

Lemma read_frames_spec fuel frames l :
  bytes_ok l → (length l ≤ fuel)%nat → Forall Frame_ok frames →
  match read_frames fuel frames l with
  | Ok (frames', l') => Forall Frame_ok frames' ∧ l' = []
  | Err _ => True
  | Panic => False
  end.
Proof.
  revert frames l. induction fuel as [|fuel IH]; intros frames l Hl Hn Hf.
  - destruct l; [done|cbn in Hn; lia].
  - destruct l as [|b l]; [done|]. cbn [read_frames].
    pose proof (Frame_read_yields (b :: l) Hl) as Hr. unfold mbind, reader_bind.
    destruct (Frame_read (b :: l)) as [[f l']| |]; [|done..].
    destruct Hr as (Hfo & Hl' & Hlen). apply IH; [done|cbn in *; lia|].
    apply Forall_app. split; [done|by apply Forall_singleton].
Qed.

(** ** The layout of a frame *)

Definition field_bytes {A} (put : A → list Z → list Z) (o : option A) : list Z :=
  match o with Some v => put v [] | None => [] end.

Definition Frame_bytes (f : Frame) : list Z :=
  be_bytes 1 (raw (flags f)) ++ be_bytes 2 (8 * Z.of_nat (length (body f))) ++
  field_bytes put_u24_le (reliable_frame_index f) ++
  field_bytes put_u24_le (seq_frame_index f) ++
  field_bytes Ordered_write (ordered f) ++
  field_bytes Fragment_write (fragment f) ++ body f.

Lemma put_u24_le_app v buf : put_u24_le v buf = buf ++ put_u24_le v [].
Proof. unfold put_u24_le. by put_norm. Qed.

Lemma Ordered_write_app o buf : Ordered_write o buf = buf ++ Ordered_write o [].
Proof. unfold Ordered_write, put_u24_le. by put_norm. Qed.

Lemma Fragment_write_app o buf : Fragment_write o buf = buf ++ Fragment_write o [].
Proof. unfold Fragment_write. by put_norm. Qed.

Lemma put_field_app {A} (put : A → list Z → list Z) o buf :
  (∀ v buf, put v buf = buf ++ put v []) → put_field put o buf = buf ++ field_bytes put o.
Proof. intros H. destruct o; cbn; [apply H|by rewrite app_nil_r]. Qed.

Lemma Frame_write_ref_Ok {E} f buf :
  Frame_fits f → Frame_write_ref (E:=E) f buf = Ok (buf ++ Frame_bytes f).
Proof.
  intros Hf. unfold Frame_write_ref, Frame_fits in *.
  assert (debug_assert (E:=E) (Z.of_nat (length (body f)) <? Z.shiftr 65535 3) = Ok tt) as ->.
  { unfold debug_assert. change (Z.shiftr 65535 3) with 8191.
    rewrite (proj2 (Z.ltb_lt _ _)) by lia. by destruct debug_assertions. }
  cbn [mbind outcome_bind mret outcome_ret]. f_equal. unfold Frame_bytes, Flags_write.
  rewrite (put_field_app Fragment_write), (put_field_app Ordered_write),
    !(put_field_app put_u24_le)
    by (auto using Fragment_write_app, Ordered_write_app, put_u24_le_app).
  put_norm. do 2 f_equal. f_equal. f_equal. rewrite Z.shiftl_mul_pow2 by lia.
  rewrite wrap_small; [lia|unfold uint; lia].
Qed.

Lemma length_Frame_bytes f :
  Frame_ok f → Z.of_nat (length (Frame_bytes f)) = Frame_size f.
Proof.
  intros (_ & Hr & Hs & Ho & Hf & _). unfold Frame_bytes, Frame_size, Reliability_size.
  repeat rewrite length_app. rewrite !length_be_bytes.
  assert (∀ o c, field_ok c u24_valid o →
    Z.of_nat (length (field_bytes put_u24_le o)) = if c then 3 else 0) as H3.
  { intros [v|] c; cbn; [intros [-> _]|intros ->; done].
    unfold put_u24_le. put_norm. solve_len. }
  assert (Z.of_nat (length (field_bytes Ordered_write (ordered f))) =
    if is_sequenced_or_ordered (reliability (flags f)) then 4 else 0) as H4.
  { destruct (ordered f); cbn in *; [destruct Ho as [-> _]|by rewrite Ho].
    unfold Ordered_write, put_u24_le. put_norm. solve_len. }
  apply H3 in Hr, Hs. unfold FRAGMENT_PART_SIZE.
  destruct (fragment f); cbn [field_bytes]; [unfold Fragment_write; put_norm|];
    repeat rewrite length_app; rewrite ?length_be_bytes; cbn [length];
    repeat case_match; lia.
Qed.

Lemma read_field_app {A} (c : bool) n (m : reader A) P put (o : option A) l :
  field_ok c P o → (∀ v l, P v → m (put v [] ++ l) = Ok (v, l)) →
  (∀ v, length (put v []) = n) →
  read_field c n m (field_bytes put o ++ l) = Ok (o, l).
Proof.
  intros Ho Hm Hn. unfold read_field. destruct o as [v|]; cbn in *; [destruct Ho as [-> Hv]|by rewrite Ho].
  apply read_buf_run; [rewrite length_app, Hn; lia|].
  eapply reader_bind_run; [by apply Hm|done].
Qed.

Lemma read_u24_field_app c o l :
  field_ok c u24_valid o →
  read_field c 3 get_u24_le (field_bytes put_u24_le o ++ l) = Ok (o, l).
Proof.
  intros Ho. eapply read_field_app; [done| |]; intros v; unfold put_u24_le; intros; put_norm.
  - by apply get_u24_le_app.
  - solve_len.
Qed.

Lemma read_Ordered_app c o l :
  field_ok c Ordered_ok o →
  read_field c 4 Ordered_read (field_bytes Ordered_write o ++ l) = Ok (o, l).
Proof.
  intros Ho. eapply read_field_app; [done| |]; intros v; unfold Ordered_write, put_u24_le;
    intros; put_norm; [|solve_len].
  unfold Ordered_read. destruct H. read_tac. by destruct v.
Qed.

Lemma read_Fragment_app c o l :
  field_ok c Fragment_ok o →
  read_field c 10 Fragment_read (field_bytes Fragment_write o ++ l) = Ok (o, l).
Proof.
  intros Ho. eapply read_field_app; [done| |]; intros v; unfold Fragment_write;
    intros; put_norm; [|solve_len].
  unfold Fragment_read. destruct H as (? & ? & ?). read_tac. by destruct v.
Qed.

Lemma Frame_read_app f l : Frame_ok f → Frame_read (Frame_bytes f ++ l) = Ok (f, l).
Proof.
  intros ([Hf0 Hf] & Hr & Hs & Ho & Hg & Hb & Hl). unfold Frame_read, Frame_bytes.
  rewrite <-!app_assoc.
  eapply reader_bind_run.
  { apply read_buf_run; [solve_len|]. eapply reader_bind_run.
    { unfold Flags_read. eapply reader_bind_run; [by apply get_u8_app|]. unfold lift. by rewrite Hf. }
    cbn beta. eapply reader_bind_run; [apply get_u16_app; unfold uint; lia|]. cbn beta zeta.
    rewrite Z.shiftr_div_pow2 by lia.
    replace (8 * Z.of_nat (length (body f)) / 2 ^ 3) with (Z.of_nat (length (body f))) by zlia.
    rewrite (proj2 (Z.eqb_neq _ _)) by lia. done. }
  cbn beta iota zeta. rewrite Nat2Z.id.
  eapply reader_bind_run; [by apply read_u24_field_app|].
  eapply reader_bind_run; [by apply read_u24_field_app|].
  eapply reader_bind_run; [by apply read_Ordered_app|].
  eapply reader_bind_run; [by apply read_Fragment_app|].
  eapply reader_bind_run; [apply read_buf_run; [solve_len|by apply split_to_app]|].
  by destruct f.
Qed.

Lemma Frame_bytes_length f : (3 ≤ length (Frame_bytes f))%nat.
Proof. unfold Frame_bytes. repeat rewrite length_app. rewrite !length_be_bytes. lia. Qed.

Lemma read_frames_app fuel fs acc :
  Forall Frame_ok fs → (length (fs ≫= Frame_bytes) ≤ fuel)%nat →
  read_frames fuel acc (fs ≫= Frame_bytes) = Ok (acc ++ fs, []).
Proof.
  intros Hfs. revert fuel acc. induction Hfs as [|f fs Hf Hfs IH]; intros fuel acc Hn.
  { cbn. rewrite app_nil_r. by destruct fuel. }
  cbn in Hn. rewrite length_app in Hn. pose proof (Frame_bytes_length f) as Hlen.
  destruct (Frame_bytes f) as [|b bs] eqn:Hb; [cbn in Hlen; lia|].
  destruct fuel as [|fuel]; [cbn in Hn; lia|].
  cbn. rewrite Hb. cbn. change (b :: bs ++ ?x) with ((b :: bs) ++ x). rewrite <-Hb.
  eapply reader_bind_run; [by apply Frame_read_app|]. cbn beta.
  rewrite IH by (cbn in Hn; lia). by rewrite <-app_assoc.
Qed.

Lemma write_frames_Ok {E} fs buf :
  Forall Frame_fits fs → write_frames (E:=E) fs buf = Ok (buf ++ (fs ≫= Frame_bytes)).
Proof.
  intros Hfs. revert buf. induction Hfs as [|f fs Hf Hfs IH]; intros buf; cbn.
  - by rewrite app_nil_r.
  - rewrite Frame_write_ref_Ok by done. cbn. by rewrite IH, <-app_assoc.
Qed.

Lemma FrameSet_read_app s :
  u24_valid (seq_num s) → set s ≠ [] → Forall Frame_ok (set s) →
  FrameSet_read (le_bytes 3 (seq_num s) ++ (set s ≫= Frame_bytes)) = Ok (s, []).
Proof.
  intros Hs Hne Hok. unfold FrameSet_read. read_tac.
  eapply reader_bind_run; [by apply read_frames_app|]. cbn.
  destruct s as [n [|f fs]]; done.
Qed.

Lemma FrameSet_read_spec l :
  bytes_ok l →
  match FrameSet_read l with
  | Ok (s, l') => l' = [] ∧ set s ≠ [] ∧ u24_valid (seq_num s) ∧ Forall Frame_ok (set s)
  | Err _ => True
  | Panic => False
  end.
Proof.
  intros Hl. unfold FrameSet_read.
  pose proof (yields_read_buf _ _ _ u24_takes l Hl) as Hs.
  unfold mbind, reader_bind. destruct (read_buf 3 get_u24_le l) as [[n l1]| |]; [|done..].
  destruct Hs as (Hn & Hl1 & _).
  pose proof (read_frames_spec (length l1) [] l1 Hl1 (Nat.le_refl _) (Forall_nil_2 _)) as Hr.
  destruct (read_frames (length l1) [] l1) as [[fs l2]| |]; [|done..].
  destruct Hr as [Hfs ->]. destruct fs; [done|]. by split_and!.
Qed.
End frame_set.
