(* ===== verification/FrameBody.v ===== *)
(** * Frame bodies (src/packet/connected/frame_set.rs, [FrameBody])

    The online messages carried by a frame: their codec, its round trip and when
    decoding one can panic. *)
From S2P Require Import Prelude Bytes Errors Reader Types PackType.
Open Scope Z_scope.

Definition MAX_SYSTEM_ADDRESSES_ENDPOINTS : nat := 20.

(** [system_addresses] is an array of [MAX_SYSTEM_ADDRESSES_ENDPOINTS] addresses. *)
Inductive FrameBody :=
| FConnectedPing (client_timestamp : Z)
| FConnectedPong (client_timestamp server_timestamp : Z)
| FConnectionRequest (client_guid request_timestamp : Z) (use_encryption : bool)
| FConnectionRequestAccepted (client_address : SocketAddr) (system_index : Z)
    (system_addresses : list SocketAddr) (request_timestamp accepted_timestamp : Z)
| FNewIncomingConnection (server_address : SocketAddr) (system_addresses : list SocketAddr)
    (request_timestamp accepted_timestamp : Z)
| FDisconnectNotification
| FDetectLostConnections
| FUser (data : list Z).

Global Instance FrameBody_eq_dec : EqDecision FrameBody.
Proof. solve_decision. Defined.

Section frame_body.
Context {B : Build} {BC : BytesCrate}.

(** [for i in 1..MAX] with its [continue] and [break]; [n] iterations are left. *)
Fixpoint system_addresses_loop (n i : nat) (addresses : list SocketAddr) :
    reader (list SocketAddr) := λ buf,
  match n with
  | O => Ok (addresses, buf)
  | S n =>
      if decide (16 < length buf)%nat then
        (addr ← get_socket_addr;
         system_addresses_loop n (S i) (<[i := addr]> addresses)) buf
      else Ok (addresses, buf)
  end.

(** The checks after the loop. *)
Definition system_addresses_end (addresses : list SocketAddr) : reader (list SocketAddr) := λ buf,
  if decide (length buf < 16)%nat then Err (InvalidPacketLength "frame body")
  else (lift (debug_assert (Z.of_nat (length buf) =? 16));; mret addresses) buf.

Definition parse_system_addresses : reader (list SocketAddr) :=
  first ← get_socket_addr;
  addresses ← system_addresses_loop (MAX_SYSTEM_ADDRESSES_ENDPOINTS - 1) 1
    (replicate MAX_SYSTEM_ADDRESSES_ENDPOINTS first);
  system_addresses_end addresses.

(** [Ok(Self::User(buf))]: the whole buffer is the user's. *)
Definition read_user : reader FrameBody := λ buf, Ok (FUser buf, []).

Definition read_body_of (id : PackType) : reader FrameBody :=
  match id with
  | ConnectedPing =>
      client_timestamp ← read_buf 9 (advance 1;; get_i64);
      mret (FConnectedPing client_timestamp)
  | ConnectedPong =>
      read_buf 17 (
        advance 1;;
        client_timestamp ← get_i64;
        server_timestamp ← get_i64;
        mret (FConnectedPong client_timestamp server_timestamp))
  | ConnectionRequest =>
      read_buf 18 (
        advance 1;;
        client_guid ← get_u64;
        request_timestamp ← get_i64;
        use_encryption ← get_u8;
        mret (FConnectionRequest client_guid request_timestamp (negb (use_encryption =? 0))))
  | ConnectionRequestAccepted =>
      advance 1;;
      client_address ← get_socket_addr;
      system_index ← read_buf 2 get_u16;
      system_addresses ← parse_system_addresses;
      request_timestamp ← get_i64;
      accepted_timestamp ← get_i64;
      mret (FConnectionRequestAccepted client_address system_index system_addresses
              request_timestamp accepted_timestamp)
  | NewIncomingConnection =>
      advance 1;;
      server_address ← get_socket_addr;
      system_addresses ← parse_system_addresses;
      request_timestamp ← get_i64;
      accepted_timestamp ← get_i64;
      mret (FNewIncomingConnection server_address system_addresses
              request_timestamp accepted_timestamp)
  | DisconnectNotification => mret FDisconnectNotification
  | DetectLostConnections => mret FDetectLostConnections
  | _ => read_user
  end.

(** [FrameBody::read]; [buf.chunk()[0]] panics on an empty buffer, and what is
    left of the buffer is dropped. *)
Definition FrameBody_read (buf : list Z) : outcome CodecError FrameBody :=
  match buf with
  | [] => Panic
  | b :: _ =>
      match PackType_from_u8 b with
      | Ok id => '(body, _) ← read_body_of id buf; mret body
      | Err _ => Ok (FUser buf)
      | Panic => Panic
      end
  end.

Definition put_addresses (addrs : list SocketAddr) (buf : list Z) : list Z :=
  foldl (λ buf addr, put_socket_addr addr buf) buf addrs.

Definition FrameBody_write (b : FrameBody) (buf : list Z) : list Z :=
  match b with
  | FConnectedPing client_timestamp =>
      put_i64 client_timestamp (put_u8 (PackType_as_u8 ConnectedPing) buf)
  | FConnectedPong client_timestamp server_timestamp =>
      put_i64 server_timestamp (put_i64 client_timestamp
        (put_u8 (PackType_as_u8 ConnectedPong) buf))
  | FConnectionRequest client_guid request_timestamp use_encryption =>
      put_u8 (Z.b2z use_encryption) (put_i64 request_timestamp (put_u64 client_guid
        (put_u8 (PackType_as_u8 ConnectionRequest) buf)))
  | FConnectionRequestAccepted client_address system_index system_addresses
      request_timestamp accepted_timestamp =>
      put_i64 accepted_timestamp (put_i64 request_timestamp
        (put_addresses system_addresses (put_u16 system_index (put_socket_addr client_address
          (put_u8 (PackType_as_u8 ConnectionRequestAccepted) buf)))))
  | FNewIncomingConnection server_address system_addresses
      request_timestamp accepted_timestamp =>
      put_i64 accepted_timestamp (put_i64 request_timestamp
        (put_addresses system_addresses (put_socket_addr server_address
          (put_u8 (PackType_as_u8 NewIncomingConnection) buf))))
  | FDisconnectNotification => put_u8 (PackType_as_u8 DisconnectNotification) buf
  | FDetectLostConnections => put_u8 (PackType_as_u8 DetectLostConnections) buf
  | FUser data => put_slice data buf
  end.

(** ** Well-formed bodies *)

Definition addresses_ok (l : list SocketAddr) : Prop :=
  length l = MAX_SYSTEM_ADDRESSES_ENDPOINTS ∧ Forall addr_ok l.

(** The first bytes [FrameBody::read] does not hand to the user. *)
Definition internal_ids : list Z := [0; 3; 4; 9; 16; 19; 21].

Definition FrameBody_ok (b : FrameBody) : Prop :=
  match b with
  | FConnectedPing t => sint 64 t
  | FConnectedPong t u => sint 64 t ∧ sint 64 u
  | FConnectionRequest g t _ => uint 64 g ∧ sint 64 t
  | FConnectionRequestAccepted a i l t u =>
      addr_ok a ∧ uint 16 i ∧ addresses_ok l ∧ sint 64 t ∧ sint 64 u
  | FNewIncomingConnection a l t u => addr_ok a ∧ addresses_ok l ∧ sint 64 t ∧ sint 64 u
  | FDisconnectNotification | FDetectLostConnections => True
  | FUser data => ∃ b rest, data = b :: rest ∧ b ∉ internal_ids
  end.

Lemma put_addresses_app addrs buf :
  put_addresses addrs buf = buf ++ (addrs ≫= λ a, put_socket_addr a []).
Proof.
  unfold put_addresses. revert buf. induction addrs as [|a addrs IH]; intros buf; cbn.
  - by rewrite app_nil_r.
  - by rewrite IH, put_socket_addr_app, <-app_assoc.
Qed.

Lemma be_bytes_1 v : uint 8 v → be_bytes 1 v = [v].
Proof. intros Hv. cbv -[Z.modulo]. by rewrite Z.mod_small. Qed.

Lemma length_addresses_pos a addrs :
  (0 < length ((a :: addrs) ≫= λ a, put_socket_addr a []))%nat.
Proof. cbn. rewrite length_app, length_put_socket_addr. destruct (is_ipv6 a); lia. Qed.

Lemma system_addresses_loop_app n i done_ addrs first l :
  length addrs = n → length done_ = i → Forall addr_ok addrs → (16 ≤ length l)%nat →
  system_addresses_loop n i (done_ ++ replicate n first)
    ((addrs ≫= λ a, put_socket_addr a []) ++ l) = Ok (done_ ++ addrs, l).
Proof.
  revert i done_ addrs. induction n as [|n IH]; intros i dn addrs Hn Hi Ha Hl.
  { by destruct addrs. }
  destruct addrs as [|a addrs]; [done|]. apply Forall_cons in Ha as [Ha Has].
  cbn [system_addresses_loop]. rewrite decide_True
    by (pose proof (length_addresses_pos a addrs); rewrite length_app; lia).
  cbn [mbind list_bind]. rewrite <-app_assoc.
  eapply reader_bind_run; [by apply get_socket_addr_app|]. cbn beta.
  rewrite insert_app_r_alt by lia. rewrite Hi, Nat.sub_diag. cbn [replicate].
  change (<[0%nat:=a]> (first :: replicate n first)) with ([a] ++ replicate n first).
  rewrite app_assoc, IH; [by rewrite <-app_assoc| | |done|done].
  - by injection Hn.
  - rewrite length_app. cbn. lia.
Qed.

(** Exactly 16 bytes after the addresses are accepted; more of them are accepted
    in a release build only. *)
Lemma parse_system_addresses_app addrs l :
  addresses_ok addrs → (16 ≤ length l)%nat →
  parse_system_addresses ((addrs ≫= λ a, put_socket_addr a []) ++ l) =
    if debug_assertions && negb (Z.of_nat (length l) =? 16) then Panic else Ok (addrs, l).
Proof.
  intros [Hlen Ha] Hl. unfold parse_system_addresses.
  destruct addrs as [|a addrs]; [done|]. apply Forall_cons in Ha as [Ha Has].
  cbn [mbind list_bind]. rewrite <-app_assoc.
  eapply reader_bind_run; [by apply get_socket_addr_app|]. cbn beta.
  eapply reader_bind_run.
  { apply (system_addresses_loop_app 19 1 [a]); try done. by injection Hlen. }
  unfold system_addresses_end. rewrite decide_False by lia. unfold lift, debug_assert.
  by destruct debug_assertions, (Z.of_nat (length l) =? 16).
Qed.

Lemma FrameBody_read_user b rest :
  b ∉ internal_ids → FrameBody_read (b :: rest) = Ok (FUser (b :: rest)).
Proof.
  intros Hb. unfold internal_ids in Hb. rewrite !not_elem_of_cons in Hb. destruct_and! Hb.
  unfold FrameBody_read. destruct (PackType_from_u8 b) as [id| |] eqn:Hid; [|done|].
  - apply PackType_from_u8_inv in Hid as [->|[[-> _]|[[-> _]|[-> _]]]]; [|done..].
    by destruct id.
  - by apply PackType_from_u8_no_panic in Hid.
Qed.

Lemma advance_cons x l : advance 1 (x :: l) = Ok (tt, l).
Proof. by apply (advance_app 1 [x]). Qed.
#[local] Hint Resolve advance_cons : readapp.

Lemma body_run (m : reader FrameBody) l b l' :
  m l = Ok (b, l') → ('(body, _) ← m l; mret body) = Ok b.
Proof. by intros ->. Qed.

(** A handshake message with its 20 addresses, followed by [l]. *)
Lemma FrameBody_read_handshake b l :
  FrameBody_ok b →
  (match b with
   | FConnectionRequestAccepted _ _ _ _ _ | FNewIncomingConnection _ _ _ _ => True
   | _ => False
   end) →
  FrameBody_read (FrameBody_write b [] ++ l) =
    if debug_assertions && negb (Z.of_nat (length l) =? 0) then Panic else Ok b.
Proof.
  assert (∀ x y, length (be_bytes 8 x ++ be_bytes 8 y ++ l) = (16 + length l)%nat) as Hlen.
  { intros. rewrite !length_app, !length_be_bytes. lia. }
  assert ((Z.of_nat (16 + length l) =? 16) = (Z.of_nat (length l) =? 0)) as Heq.
  { destruct (Z.eqb_spec (Z.of_nat (16 + length l)) 16), (Z.eqb_spec (Z.of_nat (length l)) 0); lia. }
  destruct b as [| | |a i addrs t u|a addrs t u| | |]; try done; intros Hok _; cbn in Hok;
    destruct_and! Hok; cbn [FrameBody_write]; put_norm;
    rewrite put_addresses_app, put_socket_addr_app; put_norm;
    cbn [PackType_as_u8]; rewrite be_bytes_1 by done; cbn [app FrameBody_read];
    cbn [PackType_from_u8 read_body_of].
  - rewrite (reader_bind_Ok _ _ _ tt (put_socket_addr a [] ++ be_bytes 2 i ++
      (addrs ≫= λ a, put_socket_addr a []) ++ be_bytes 8 t ++ be_bytes 8 u ++ l))
      by (apply advance_cons).
    erewrite (reader_bind_Ok _ get_socket_addr) by (by apply get_socket_addr_app).
    erewrite (reader_bind_Ok _ (read_buf 2 _)) by (apply read_buf_run; [solve_len|by apply get_u16_app]).
    unfold mbind at 2, reader_bind at 1. rewrite parse_system_addresses_app by (try done; rewrite Hlen; lia).
    rewrite Hlen, Heq. destruct (debug_assertions && _); [done|].
    erewrite (reader_bind_Ok _ get_i64) by (by apply get_i64_app).
    erewrite (reader_bind_Ok _ get_i64) by (by apply get_i64_app). done.
  - rewrite (reader_bind_Ok _ _ _ tt (put_socket_addr a [] ++
      (addrs ≫= λ a, put_socket_addr a []) ++ be_bytes 8 t ++ be_bytes 8 u ++ l))
      by (apply advance_cons).
    erewrite (reader_bind_Ok _ get_socket_addr) by (by apply get_socket_addr_app).
    unfold mbind at 2, reader_bind at 1. rewrite parse_system_addresses_app by (try done; rewrite Hlen; lia).
    rewrite Hlen, Heq. destruct (debug_assertions && _); [done|].
    erewrite (reader_bind_Ok _ get_i64) by (by apply get_i64_app).
    erewrite (reader_bind_Ok _ get_i64) by (by apply get_i64_app). done.
Qed.

Lemma system_addresses_loop_safe n i addrs : safe (system_addresses_loop n i addrs).
Proof.
  revert i addrs. induction n as [|n IH]; intros i addrs l; cbn; [done|].
  case_decide; [|done]. to_safe. safe_tac.
Qed.

(** What follows the addresses may read 16 bytes. *)
Lemma parse_system_addresses_safe {A} (f : list SocketAddr → reader A) :
  debug_assertions = false → (∀ a, fixed 16 (f a)) → safe (parse_system_addresses ≫= f).
Proof.
  intros Hd Hf. unfold parse_system_addresses.
  intros l. unfold mbind, reader_bind.
  pose proof (get_socket_addr_safe l). destruct (get_socket_addr l) as [[a l1]| |]; [|done..].
  pose proof (system_addresses_loop_safe (MAX_SYSTEM_ADDRESSES_ENDPOINTS - 1) 1
    (replicate MAX_SYSTEM_ADDRESSES_ENDPOINTS a) l1).
  destruct (system_addresses_loop _ _ _ l1) as [[addrs l2]| |]; [|done..].
  unfold system_addresses_end. case_decide; [done|].
  unfold debug_assert. rewrite Hd. unfold mbind, reader_bind, lift. cbn [mret reader_ret].
  destruct (Hf addrs l2) as [(? & ? & -> & _)|[? ->]]; [lia|done..].
Qed.

Lemma read_body_of_safe id b rest :
  debug_assertions = false → read_body_of id (b :: rest) ≠ Panic.
Proof.
  intros Hd. destruct id; cbn [read_body_of]; try done.
  1-3: to_safe; safe_tac; eapply fixed_safe; fixed_tac.
  all: rewrite (reader_bind_Ok _ _ _ tt rest) by apply advance_cons; to_safe;
    repeat (apply safe_bind; [solve [safe_tac]|intros ?]).
  all: apply parse_system_addresses_safe; [done|]; intros; fixed_tac.
Qed.

Lemma FrameBody_read_cons_safe b rest :
  debug_assertions = false → FrameBody_read (b :: rest) ≠ Panic.
Proof.
  intros Hd. cbn. pose proof (PackType_from_u8_no_panic b).
  destruct (PackType_from_u8 b) as [id| |]; [|done..].
  pose proof (read_body_of_safe id b rest Hd).
  by destruct (read_body_of id (b :: rest)) as [[]| |].
Qed.

Lemma FrameBody_read_write b :
  FrameBody_ok b → FrameBody_read (FrameBody_write b []) = Ok b.
Proof.
  intros Hok. destruct b as [t|t u|g t e|a i addrs t u|a addrs t u| | |data].
  4-5: pose proof (FrameBody_read_handshake _ [] Hok I) as H; rewrite app_nil_r in H; rewrite H;
    cbn; by rewrite andb_false_r.
  6: destruct Hok as (b & rest & -> & Hb); cbn [FrameBody_write]; put_norm;
    by apply FrameBody_read_user.
  4-5: cbn; put_norm; by rewrite be_bytes_1.
  all: cbn in Hok; destruct_and? Hok; cbn [FrameBody_write]; put_norm; cbn [PackType_as_u8];
    rewrite be_bytes_1 by done; cbn [app FrameBody_read PackType_from_u8 read_body_of];
    eapply body_run.
  - rewrite <-(app_nil_r (be_bytes 8 t)).
    eapply reader_bind_run; [apply read_buf_run; [solve_len|]|done]. read_tac. by apply get_i64_app.
  - rewrite <-(app_nil_r (be_bytes 8 u)). read_tac.
  - rewrite <-(app_nil_r (be_bytes 1 _)).
    eapply read_buf_run; [solve_len|]. do 3 (eapply reader_bind_run; [eauto with readapp|]).
    eapply reader_bind_run; [apply get_u8_app; by destruct e|]. by destruct e.
Qed.

(** C22. Online messages round-trip: what [FrameBody::write] produces is read back
    as the same message, user data included as long as its first byte is not the
    id of an internal message. *)
Theorem FrameBody_roundtrip b :
  FrameBody_ok b → FrameBody_read (FrameBody_write b []) = Ok b.
Proof. apply FrameBody_read_write. Qed.

(** Decoding an online message never panics in a release build, whatever the
    body: every truncated or malformed message is an error (an empty body, which
    [FrameSet::read] excludes, is the one exception). *)
Theorem FrameBody_read_no_panic buf :
  debug_assertions = false → (FrameBody_read buf = Panic ↔ buf = []).
Proof.
  intros Hd. split; [|by intros ->]. destruct buf as [|b rest]; [done|].
  intros Hp. by apply FrameBody_read_cons_safe in Hp.
Qed.

(** A debug build panics on bytes after a complete connection handshake
    message, which the remote peer chooses; a release build ignores them. *)
Theorem FrameBody_read_trailing b extra :
  FrameBody_ok b → extra ≠ [] →
  (match b with
   | FConnectionRequestAccepted _ _ _ _ _ | FNewIncomingConnection _ _ _ _ => True
   | _ => False
   end) →
  FrameBody_read (FrameBody_write b [] ++ extra) = if debug_assertions then Panic else Ok b.
Proof.
  intros Hok Hne Hb. rewrite FrameBody_read_handshake by done.
  destruct (Z.eqb_spec (Z.of_nat (length extra)) 0) as [H|H].
  - by destruct extra.
  - by destruct debug_assertions.
Qed.
End frame_body.

Lemma FrameBody_roundtrip_witness :
  FrameBody_read (B:=true) (BC:=bytes_reference)
    (FrameBody_write (BC:=bytes_reference)
       (FNewIncomingConnection (V4 2130706433 19132) (replicate 20 (V4 0 0)) (-5) 7) []) =
  Ok (FNewIncomingConnection (V4 2130706433 19132) (replicate 20 (V4 0 0)) (-5) 7).
Proof.
  apply (FrameBody_roundtrip (B:=true) (BC:=bytes_reference)).
  split; [by vm_compute|]. split; [|by vm_compute].
  split; [done|]. apply Forall_replicate. by vm_compute.
Defined.

Lemma FrameBody_read_no_panic_witness :
  FrameBody_read (B:=false) (BC:=bytes_reference) [9; 1; 2] ≠ Panic.
Proof.
  intros H. apply (FrameBody_read_no_panic (B:=false) (BC:=bytes_reference) [9; 1; 2]) in H; done.
Defined.

Lemma FrameBody_read_trailing_witness :
  FrameBody_read (B:=true) (BC:=bytes_reference)
    (FrameBody_write (BC:=bytes_reference)
       (FNewIncomingConnection (V4 0 0) (replicate 20 (V4 0 0)) 0 0) [] ++ [0]) = Panic.
Proof.
  apply (FrameBody_read_trailing (B:=true) (BC:=bytes_reference)); [|done|done].
  split; [by vm_compute|]. split; [|by vm_compute].
  split; [done|]. apply Forall_replicate. by vm_compute.
Defined.
