(* ===== verification/Packet.v ===== *)
(** * Packets (src/packet/mod.rs and src/packet/connected/mod.rs)

    The datagram level of the protocol: connected packets (frame sets and
    acknowledgements), the dispatch of [Packet::read] on the packet id and the
    writers.  The theorems are the round trips of whole datagrams and when
    decoding untrusted bytes can panic. *)
From S2P Require Import Prelude Bytes Errors Reader SeqNum Types PackType Unconnected AckNack FrameSet.
Open Scope Z_scope.

Inductive CPacket :=
| CFrameSet (s : FrameSet_)
| CAck (a : AckOrNack)
| CNack (a : AckOrNack).

Inductive Packet :=
| PUnconnected (p : UPacket)
| PConnected (p : CPacket).

Global Instance CPacket_eq_dec : EqDecision CPacket.
Proof. solve_decision. Defined.
Global Instance Packet_eq_dec : EqDecision Packet.
Proof. solve_decision. Defined.

Definition CPacket_pack_type (p : CPacket) : PackType :=
  match p with
  | CFrameSet _ => FrameSet
  | CAck _ => Ack
  | CNack _ => Nack
  end.

Definition Packet_pack_type (p : Packet) : PackType :=
  match p with
  | PUnconnected p => UPacket_pack_type p
  | PConnected p => CPacket_pack_type p
  end.

Section packet.
Context {B : Build} {BC : BytesCrate}.

Definition read_ack : reader CPacket := a ← AckOrNack_read; mret (CAck a).
Definition read_nack : reader CPacket := a ← AckOrNack_read; mret (CNack a).
Definition read_frame_set : reader CPacket := s ← FrameSet_read; mret (CFrameSet s).

(** [frame.set[0]] panics on an empty set. *)
Definition CPacket_write {E} (p : CPacket) (buf : list Z) : outcome E (list Z) :=
  match p with
  | CFrameSet s =>
      let flag := Z.lor VALID_FLAG NEEDS_B_AND_AS_FLAG in
      match set s with
      | [] => Panic
      | f :: _ =>
          let flag := if parted (flags f) then Z.lor flag CONTINUOUS_SEND_FLAG else flag in
          FrameSet_write s (put_u8 flag buf)
      end
  | CAck a => AckOrNack_write a (put_u8 ACK_FLAG buf)
  | CNack a => AckOrNack_write a (put_u8 NACK_FLAG buf)
  end.

Definition Packet_write {E} (p : Packet) (buf : list Z) : outcome E (list Z) :=
  match p with
  | PUnconnected p => mret (UPacket_write p buf)
  | PConnected p => CPacket_write p buf
  end.

Definition read_unconnected (pack_type : PackType) : reader UPacket :=
  match pack_type with
  | UnconnectedPing1 | UnconnectedPing2 => read_buf 32 read_unconnected_ping
  | UnconnectedPong => read_buf 34 read_unconnected_pong
  | OpenConnectionRequest1 => read_buf 19 read_open_connection_request1
  | OpenConnectionReply1 => read_buf 27 read_open_connection_reply1
  | IncompatibleProtocolVersion => read_buf 25 read_incompatible_protocol
  | AlreadyConnected => read_buf 24 read_already_connected
  | ConnectionRequestFailed => read_buf 24 read_connection_request_failed
  | OpenConnectionRequest2 => read_open_connection_request2
  | OpenConnectionReply2 => read_open_connection_reply2
  | _ => throw (InvalidPacketType (PackType_as_u8 pack_type))
  end.

Definition Packet_read : reader Packet :=
  pack_type ← read_buf 1 (id ← get_u8; lift (PackType_from_u8 id));
  if is_frame_set pack_type then p ← read_frame_set; mret (PConnected p)
  else if is_ack pack_type then p ← read_ack; mret (PConnected p)
  else if is_nack pack_type then p ← read_nack; mret (PConnected p)
  else p ← read_unconnected pack_type; mret (PUnconnected p).

(** ** Lemmas *)

Lemma lift_Ok {A} (a : A) l : lift (Ok a) l = Ok (a, l).
Proof. done. Qed.

Lemma lift_Err {A} e l : lift (A:=A) (Err e) l = Err e.
Proof. done. Qed.

(** The packet id is taken off first. *)
Lemma Packet_read_id id t l :
  uint 8 id → PackType_from_u8 id = Ok t →
  Packet_read (be_bytes 1 id ++ l) =
    (if is_frame_set t then p ← read_frame_set; mret (PConnected p)
     else if is_ack t then p ← read_ack; mret (PConnected p)
     else if is_nack t then p ← read_nack; mret (PConnected p)
     else p ← read_unconnected t; mret (PUnconnected p)) l.
Proof.
  intros Hid Ht. unfold Packet_read. eapply reader_bind_run; [|reflexivity].
  apply read_buf_run; [solve_len|]. eapply reader_bind_run; [by apply get_u8_app|].
  by rewrite Ht.
Qed.

Lemma read_unconnected_app p l :
  UPacket_wire p →
  ∃ bs, UPacket_write p [] = be_bytes 1 (PackType_as_u8 (UPacket_pack_type p)) ++ bs ∧
    read_unconnected (UPacket_pack_type p) (bs ++ l) = Ok (p, l).
Proof.
  intros [Hok Hw].
  destruct p; cbn in Hok, Hw; destruct_and? Hok; unfold UPacket_write, put_magic;
    cbn [UPacket_pack_type]; put_norm; try rewrite put_socket_addr_app; put_norm;
    eexists; (split; [done|]); rewrite <-?app_assoc;
    cbn [read_unconnected].
  all: try (apply read_buf_run; [repeat rewrite length_app; rewrite ?length_be_bytes; cbn; lia|]).
  - unfold read_unconnected_ping. read_tac.
  - rewrite wrap_small by (unfold uint; lia). unfold read_unconnected_pong.
    do 3 (eapply reader_bind_run; [eauto with readapp|]).
    eapply reader_bind_run; [apply get_u16_app; unfold uint; lia|]. cbn zeta. rewrite Nat2Z.id.
    eapply reader_bind_run; [|done]. apply read_buf_run; [solve_len|].
    rewrite take_app_length. eapply reader_bind_run; [by apply advance_app|]. done.
  - unfold read_open_connection_request1. read_tac.
  - unfold read_open_connection_reply1. subst. read_tac.
  - unfold read_open_connection_request2. read_tac.
  - unfold read_open_connection_reply2. subst. read_tac.
  - unfold read_incompatible_protocol. read_tac.
  - unfold read_already_connected. read_tac.
  - unfold read_connection_request_failed. read_tac.
Qed.

Lemma UPacket_pack_type_id p :
  let t := UPacket_pack_type p in
  uint 8 (PackType_as_u8 t) ∧ PackType_from_u8 (PackType_as_u8 t) = Ok t ∧
  is_frame_set t = false ∧ is_ack t = false ∧ is_nack t = false.
Proof. by destruct p. Qed.

Lemma Packet_read_unconnected_app p l :
  UPacket_wire p → Packet_read (UPacket_write p [] ++ l) = Ok (PUnconnected p, l).
Proof.
  intros Hw. destruct (read_unconnected_app p l Hw) as (bs & -> & Hr). rewrite <-app_assoc.
  destruct (UPacket_pack_type_id p) as (Hid & Ht & Hf & Ha & Hn).
  rewrite (Packet_read_id _ _ _ Hid Ht), Hf, Ha, Hn.
  eapply reader_bind_run; [exact Hr|done].
Qed.

(** The flag byte of a frame set. *)
Definition frame_set_flag (f : Frame) : Z := if parted (flags f) then 140 else 132.

Lemma CPacket_write_frame_set {E} s f fs buf :
  set s = f :: fs → Forall Frame_fits (set s) →
  CPacket_write (E:=E) (CFrameSet s) buf =
    Ok (buf ++ be_bytes 1 (frame_set_flag f) ++ le_bytes 3 (seq_num s) ++ (set s ≫= Frame_bytes)).
Proof.
  intros Hs Hf. cbn. rewrite Hs at 1. unfold FrameSet_write. rewrite write_frames_Ok by done.
  unfold put_u24_le. put_norm. unfold frame_set_flag. by destruct (parted (flags f)).
Qed.

Lemma Packet_read_frame_set_app s f fs :
  set s = f :: fs → u24_valid (seq_num s) → Forall Frame_ok (set s) →
  Packet_read (be_bytes 1 (frame_set_flag f) ++ le_bytes 3 (seq_num s) ++ (set s ≫= Frame_bytes)) =
    Ok (PConnected (CFrameSet s), []).
Proof.
  intros Hs Hn Hok. rewrite (Packet_read_id _ FrameSet); cbn [is_frame_set].
  - eapply reader_bind_run; [|done]. eapply reader_bind_run; [|done].
    apply FrameSet_read_app; [done| |done]. by rewrite Hs.
  - unfold frame_set_flag. by destruct (parted (flags f)).
  - unfold frame_set_flag. by destruct (parted (flags f)).
Qed.

(** The size of an encoded frame set. *)
Lemma length_frame_set s f fs :
  set s = f :: fs → Forall Frame_ok (set s) →
  Z.of_nat (length (be_bytes 1 (frame_set_flag f) ++ le_bytes 3 (seq_num s) ++
    (set s ≫= Frame_bytes))) =
  FRAME_SET_HEADER_SIZE + foldr (λ f n, Frame_size f + n) 0 (set s).
Proof.
  intros _ Hok. rewrite !length_app, length_be_bytes, length_le_bytes.
  assert (Z.of_nat (length (set s ≫= Frame_bytes)) = foldr (λ f n, Frame_size f + n) 0 (set s)) as <-.
  { induction Hok as [|g gs Hg Hgs IH]; [done|]. cbn. rewrite length_app.
    pose proof (length_Frame_bytes g Hg). lia. }
  unfold FRAME_SET_HEADER_SIZE. lia.
Qed.

Lemma read_unconnected_safe t : safe (read_unconnected t).
Proof.
  destruct t; cbn [read_unconnected]; try apply safe_throw; eauto with safe;
    try apply read_unconnected_pong_safe; eapply fixed_safe.
  - apply fixed_read_unconnected_ping.
  - apply fixed_read_unconnected_ping.
  - apply fixed_read_open_connection_request1.
  - apply fixed_read_open_connection_reply1.
  - apply fixed_read_connection_request_failed.
  - apply fixed_read_already_connected.
  - apply fixed_read_incompatible_protocol.
Qed.

(** The first byte decides the reader. *)
Lemma Packet_read_cons b l :
  uint 8 b →
  Packet_read (b :: l) =
    match PackType_from_u8 b with
    | Ok t =>
        (if is_frame_set t then p ← read_frame_set; mret (PConnected p)
         else if is_ack t then p ← read_ack; mret (PConnected p)
         else if is_nack t then p ← read_nack; mret (PConnected p)
         else p ← read_unconnected t; mret (PUnconnected p)) l
    | Err e => Err e
    | Panic => Panic
    end.
Proof.
  intros Hb. assert (b :: l = be_bytes 1 b ++ l) as Heq.
  { cbv -[Z.modulo app]. by rewrite Z.mod_small. }
  destruct (PackType_from_u8 b) as [t|e|] eqn:Ht.
  - rewrite Heq. by apply Packet_read_id.
  - unfold Packet_read, mbind, reader_bind. rewrite read_buf_Ok by (cbn; lia).
    rewrite Heq, get_u8_app by done. by rewrite Ht.
  - by apply PackType_from_u8_no_panic in Ht.
Qed.

(** Offline messages round-trip at the datagram level: what [Packet::write]
    produces is dispatched to the right reader and read back as the same packet,
    leaving any bytes after it. *)
Theorem Packet_roundtrip_unconnected p l :
  UPacket_wire p →
  ∃ bs, Packet_write (E:=CodecError) (PUnconnected p) [] = Ok bs ∧
    Packet_read (bs ++ l) = Ok (PUnconnected p, l).
Proof. intros Hw. eexists. split; [done|]. by apply Packet_read_unconnected_app. Qed.

(** C17. Frame sets round-trip at the datagram level: a non-empty set of
    well-formed frames is encoded to a datagram of 4 bytes plus the sizes the
    frames report, which decodes to the same frames with the same sequence
    number. *)
Theorem Packet_roundtrip_frame_set s :
  set s ≠ [] → u24_valid (seq_num s) → Forall Frame_ok (set s) → Forall Frame_fits (set s) →
  ∃ bs, Packet_write (E:=CodecError) (PConnected (CFrameSet s)) [] = Ok bs ∧
    Z.of_nat (length bs) = FRAME_SET_HEADER_SIZE + foldr (λ f n, Frame_size f + n) 0 (set s) ∧
    Packet_read bs = Ok (PConnected (CFrameSet s), []).
Proof.
  intros Hne Hn Hok Hfit. destruct (set s) as [|f fs] eqn:Hs; [done|].
  rewrite <-Hs in *. eexists. split; [by eapply CPacket_write_frame_set|].
  cbn [app]. split; [by eapply length_frame_set|by eapply Packet_read_frame_set_app].
Qed.

(** The packets that one end may send to the other. *)
Definition Packet_wire (p : Packet) : Prop :=
  match p with
  | PUnconnected p => UPacket_wire p
  | PConnected (CFrameSet s) =>
      set s ≠ [] ∧ u24_valid (seq_num s) ∧ Forall Frame_ok (set s) ∧ Forall Frame_fits (set s)
  | PConnected (CAck a) | PConnected (CNack a) => AckOrNack_wire a
  end.

(** Every such packet has a datagram, which is read back as the packet. *)
Lemma Packet_read_write p :
  Packet_wire p →
  ∃ d, (∀ E, Packet_write (E:=E) p [] = Ok d) ∧ Packet_read d = Ok (p, []).
Proof.
  destruct p as [p|[s|a|a]]; cbn [Packet_wire].
  - intros Hw. eexists. split; [done|]. pose proof (Packet_read_unconnected_app p [] Hw) as H.
    by rewrite app_nil_r in H.
  - intros (Hne & Hn & Hok & Hfit). destruct (set s) as [|f fs] eqn:Hs; [done|].
    rewrite <-Hs in *. eexists. split; [intros E; by eapply CPacket_write_frame_set|].
    cbn [app]. by eapply Packet_read_frame_set_app.
  - intros Hw. eexists. split; [intros E; cbn; by rewrite AckOrNack_write_wire|].
    unfold put_u8. put_norm. rewrite (Packet_read_id ACK_FLAG Ack) by done. cbn [is_frame_set is_ack].
    rewrite <-(app_nil_r (AckOrNack_bytes a)).
    eapply reader_bind_run; [|done]. eapply reader_bind_run; [by apply AckOrNack_read_app|done].
  - intros Hw. eexists. split; [intros E; cbn; by rewrite AckOrNack_write_wire|].
    unfold put_u8. put_norm. rewrite (Packet_read_id NACK_FLAG Nack) by done. cbn [is_frame_set is_ack is_nack].
    rewrite <-(app_nil_r (AckOrNack_bytes a)).
    eapply reader_bind_run; [|done]. eapply reader_bind_run; [by apply AckOrNack_read_app|done].
Qed.

(** C33. Decoding an untrusted datagram that is not an acknowledgement never
    panics and terminates, and a frame set that is accepted consists of at least
    one frame, every one well formed: its header fields are exactly those its
    flags announce, and its body is not empty. *)
Theorem Packet_read_no_panic b l :
  bytes_ok (b :: l) → b < NACK_FLAG →
  match Packet_read (b :: l) with
  | Ok (PConnected (CFrameSet s), l') =>
      l' = [] ∧ set s ≠ [] ∧ u24_valid (seq_num s) ∧ Forall Frame_ok (set s)
  | Ok (PConnected _, _) => False
  | Ok (PUnconnected _, _) | Err _ => True
  | Panic => False
  end.
Proof.
  intros [Hb Hl]%Forall_cons Hlt. rewrite Packet_read_cons by done.
  destruct (PackType_from_u8 b) as [t|e|] eqn:Ht; [|done|by apply PackType_from_u8_no_panic in Ht].
  assert (is_ack t = false ∧ is_nack t = false) as [-> ->].
  { unfold ACK_FLAG, NACK_FLAG in *.
    apply PackType_from_u8_inv in Ht as [->|[[-> H]|[[-> H]|[-> H]]]];
      [destruct t; cbn in *; done|unfold ACK_FLAG, NACK_FLAG in *; lia..|done]. }
  destruct (is_frame_set t).
  - pose proof (FrameSet_read_spec l Hl) as Hr. unfold read_frame_set, mbind, reader_bind.
    by destruct (FrameSet_read l) as [[s l']| |].
  - pose proof (read_unconnected_safe t l). unfold mbind, reader_bind.
    by destruct (read_unconnected t l) as [[p l']| |].
Qed.

(** C37. Decoding an acknowledgement can panic in every build profile, on bytes a
    remote peer chooses: on a datagram that ends before the record count, and on
    one that acknowledges the whole range of sequence numbers. *)
Theorem Packet_read_ack_panics b l :
  NACK_FLAG ≤ b < 256 →
  Packet_read [b] = Panic ∧
  Packet_read (b :: be_bytes 2 1 ++ Record_write (Range 0 (2 ^ 24 - 1)) [] ++ l) = Panic.
Proof.
  unfold NACK_FLAG. intros Hb.
  assert (∃ t, PackType_from_u8 b = Ok t ∧ is_frame_set t = false ∧
    (is_ack t = true ∨ is_ack t = false ∧ is_nack t = true)) as (t & Ht & Hf & Hor).
  { destruct (Z.leb_spec ACK_FLAG b) as [H|H]; [exists Ack|exists Nack];
      (split; [|by auto]); unfold PackType_from_u8.
    all: repeat (case_match; try lia); try done; unfold ACK_FLAG, NACK_FLAG in *.
    all: repeat match goal with
      | H : (_ <=? _) = true |- _ => apply Z.leb_le in H
      | H : (_ <=? _) = false |- _ => apply Z.leb_gt in H
      end; lia. }
  assert (∀ l, AckOrNack_read l = Panic → Packet_read (b :: l) = Panic) as Hp.
  { intros l' Hr. rewrite Packet_read_cons, Ht, Hf by (unfold uint; lia).
    destruct Hor as [->|[-> ->]]; unfold read_ack, read_nack, mbind, reader_bind; by rewrite Hr. }
  split; apply Hp; unfold AckOrNack_read.
  - unfold mbind, reader_bind, get_u16, of_option. by rewrite buf_get_uint_spec.
  - read_tac. change (Z.to_nat 1) with 1%nat. cbn [read_records].
    unfold mbind, reader_bind. rewrite Record_read_range_app by done. unfold lift. cbn [Record_ack_cnt].
    by rewrite u24_sub_Ok by lia.
Qed.
End packet.

Lemma Packet_roundtrip_unconnected_witness :
  ∃ bs, Packet_write (B:=true) (BC:=bytes_reference) (E:=CodecError)
      (PUnconnected (UOpenConnectionRequest2 (V4 2130706433 19132) 1400 77)) [] = Ok bs ∧
    Packet_read (B:=true) (BC:=bytes_reference) (bs ++ [1; 2]) =
      Ok (PUnconnected (UOpenConnectionRequest2 (V4 2130706433 19132) 1400 77), [1; 2]).
Proof.
  apply (Packet_roundtrip_unconnected (B:=true) (BC:=bytes_reference)). by vm_compute.
Defined.

(** A frame set of two frames: a reliable ordered one and a fragment. *)
Definition sample_frames : list Frame :=
  [mkFrame (Flags_new ReliableOrdered false) (Some 5) None (Some (mkOrdered 2 0)) None [254; 1];
   mkFrame (Flags_new Reliable true) (Some 6) None None (Some (mkFragment 2 1 0)) [7; 8; 9]].

Lemma sample_frames_ok : Forall Frame_ok sample_frames ∧ Forall Frame_fits sample_frames.
Proof.
  split; repeat constructor; try (by vm_compute).
Defined.

Lemma Packet_roundtrip_frame_set_witness :
  ∃ bs, Packet_write (B:=true) (BC:=bytes_reference) (E:=CodecError)
      (PConnected (CFrameSet (mkFrameSet 3 sample_frames))) [] = Ok bs ∧
    Z.of_nat (length bs) =
      FRAME_SET_HEADER_SIZE + foldr (λ f n, Frame_size f + n) 0 sample_frames ∧
    Packet_read (B:=true) (BC:=bytes_reference) bs =
      Ok (PConnected (CFrameSet (mkFrameSet 3 sample_frames)), []).
Proof.
  apply (Packet_roundtrip_frame_set (B:=true) (BC:=bytes_reference) (mkFrameSet 3 sample_frames));
    [done|by vm_compute|apply sample_frames_ok|apply sample_frames_ok].
Defined.

Lemma Packet_read_no_panic_witness :
  match Packet_read (B:=true) (BC:=bytes_reference) [132; 0; 0; 0; 64; 0; 8] with
  | Ok (PConnected (CFrameSet s), l') =>
      l' = [] ∧ set s ≠ [] ∧ u24_valid (seq_num s) ∧ Forall Frame_ok (set s)
  | Ok (PConnected _, _) => False
  | Ok (PUnconnected _, _) | Err _ => True
  | Panic => False
  end.
Proof.
  apply (Packet_read_no_panic (B:=true) (BC:=bytes_reference) 132 [0; 0; 0; 64; 0; 8]);
    [by repeat constructor|by vm_compute].
Defined.

Lemma Packet_read_ack_panics_witness :
  Packet_read (B:=false) (BC:=bytes_reference) [192] = Panic ∧
  Packet_read (B:=false) (BC:=bytes_reference)
    (192 :: be_bytes 2 1 ++ Record_write (BC:=bytes_reference) (Range 0 (2 ^ 24 - 1)) [] ++ []) = Panic.
Proof. apply (Packet_read_ack_panics (B:=false) (BC:=bytes_reference) 192 []). by vm_compute. Defined.
