(* ===== verification/WireTypes.v ===== *)
(** * The types of what is read (src/packet)

    Whatever bytes a peer sends, a packet or a body that is accepted is one of the
    Rust type it is read at: every field within its width, every address, record and
    frame well formed.  [typed m Q] says of a reader that what it returns is in [Q]
    and what it leaves are bytes. *)
From S2P Require Import Prelude Bytes Errors Reader SeqNum Types PackType Unconnected AckNack FrameSet FrameBody Packet.
Open Scope Z_scope.

Section typed.
Context {B : Build} {BC : BytesCrate}.

Definition typed {A} (m : reader A) (Q : A → Prop) : Prop :=
  ∀ l a l', bytes_ok l → m l = Ok (a, l') → Q a ∧ bytes_ok l'.

Lemma typed_ret {A} (a : A) (Q : A → Prop) : Q a → typed (mret a) Q.
Proof. by intros HQ l a' l' Hl [= <- <-]. Qed.

Lemma typed_bind {A C} (m : reader A) (f : A → reader C) Q R :
  typed m Q → (∀ a, Q a → typed (f a) R) → typed (m ≫= f) R.
Proof.
  intros Hm Hf l c l' Hl (a & l1 & H1 & H2)%reader_bind_inv.
  destruct (Hm l a l1 Hl H1) as [Ha Hl1]. by eapply Hf.
Qed.

Lemma typed_throw {A} e (Q : A → Prop) : typed (throw e) Q.
Proof. by intros l a l' _ [=]. Qed.

Lemma typed_lift {A} (o : outcome CodecError A) (Q : A → Prop) : (∀ a, o = Ok a → Q a) → typed (lift o) Q.
Proof. intros HQ l a l' Hl Ho. unfold lift in Ho. destruct o as [a'| |]; [|done..]. injection Ho as <- <-. auto. Qed.

Lemma typed_read_buf {A} n (m : reader A) Q : typed m Q → typed (read_buf n m) Q.
Proof. intros Hm l a l' Hl. unfold read_buf. case_decide; [done|]. by apply Hm. Qed.

Lemma typed_mono {A} (m : reader A) (Q R : A → Prop) : (∀ a, Q a → R a) → typed m Q → typed m R.
Proof. intros HQR Hm l a l' Hl Hr. destruct (Hm l a l' Hl Hr). auto. Qed.

(** A reader that panics on a short buffer and otherwise takes [n] bytes. *)
Lemma typed_takes {A} n (m : reader A) Q : (∀ l, (length l < n)%nat → m l = Panic) → takes n m Q → typed m Q.
Proof.
  intros Hs Hm l a l' Hl Hr. destruct (decide (length l < n)%nat) as [H|H]; [by rewrite Hs in Hr|].
  specialize (Hm l Hl ltac:(lia)). rewrite Hr in Hm. tauto.
Qed.

Lemma typed_uint n : typed (of_option (buf_get_uint n)) (uint (8 * Z.of_nat n)).
Proof.
  apply (typed_takes n), takes_uint. intros l Hl. unfold of_option. by rewrite buf_get_uint_spec, decide_False by lia.
Qed.

Lemma typed_u8 : typed get_u8 (uint 8). Proof. exact (typed_uint 1). Qed.
Lemma typed_u16 : typed get_u16 (uint 16). Proof. exact (typed_uint 2). Qed.
Lemma typed_u32 : typed get_u32 (uint 32). Proof. exact (typed_uint 4). Qed.
Lemma typed_u64 : typed get_u64 (uint 64). Proof. exact (typed_uint 8). Qed.
Lemma typed_u128 : typed get_u128 (uint 128). Proof. exact (typed_uint 16). Qed.

Lemma typed_i64 : typed get_i64 (sint 64).
Proof.
  intros l a l' Hl. unfold get_i64, of_option. rewrite buf_get_int_spec. case_decide as Hn; [|done]. intros [= <- <-].
  split; [|by apply Forall_drop]. pose proof (be_value_bound (take 8 l) (Forall_take _ _ _ Hl)) as Hb.
  rewrite length_take_le in Hb by done. change (256 ^ Z.of_nat 8) with (2 ^ 64) in Hb.
  change (8 * Z.of_nat 8) with 64. unfold to_signed, sint. destruct (_ <? _) eqn:E.
  - apply Z.ltb_lt in E. lia.
  - apply Z.ltb_ge in E. lia.
Qed.

Lemma typed_u24 : typed get_u24_le u24_valid.
Proof.
  intros l v l' Hl Hg. split; [by eapply get_u24_le_valid|]. unfold get_u24_le in Hg.
  apply reader_bind_inv in Hg as (a & l1 & Hg & [= _ <-]). unfold get_uint_le, of_option in Hg.
  rewrite buf_get_uint_le_spec in Hg. case_decide; [|done]. injection Hg as _ <-. by apply Forall_drop.
Qed.

Lemma typed_advance n : typed (advance n) (λ _, True).
Proof.
  intros l a l' Hl. unfold advance, of_option. rewrite buf_advance_spec. case_decide; [|done]. intros [= _ <-].
  split; [done|by apply Forall_drop].
Qed.

Lemma typed_magic : typed get_checked_magic (λ _, True).
Proof.
  intros l a l' Hl. unfold get_checked_magic. destruct (magic_loop _ _ _); [|done..]. by apply typed_advance.
Qed.
End typed.

Create HintDb typed discriminated.
#[export] Hint Constants Opaque : typed.
#[export] Hint Resolve typed_u8 typed_u16 typed_u32 typed_u64 typed_u128 typed_i64 typed_u24 typed_advance typed_magic : typed.

(** The steps of a straight-line reader; the facts about the fields are collected. *)
Ltac typed_tac :=
  repeat lazymatch goal with
  | |- typed (read_buf _ _) _ => apply typed_read_buf
  | |- typed (throw _) _ => apply typed_throw
  | |- typed (_ ≫= _) _ =>
      eapply typed_bind; [first [solve [eauto with typed] | apply typed_read_buf; solve [eauto with typed]]|intros ? ?]
  | |- typed (if ?b then _ else _) _ => destruct b
  | |- typed (let _ := _ in _) _ => cbv zeta
  | |- typed (mret _) _ => apply typed_ret; cbn; try tauto
  end.

Section packets.
Context {B : Build} {BC : BytesCrate}.

Lemma typed_socket_addr : typed get_socket_addr addr_ok.
Proof.
  unfold get_socket_addr. eapply typed_bind; [apply typed_read_buf, typed_u8|]. intros ver _.
  repeat (case_match; typed_tac).
Qed.
#[local] Hint Resolve typed_socket_addr : typed.

(** ** Offline packets *)

Lemma typed_pong : typed read_unconnected_pong UPacket_ok.
Proof.
  unfold read_unconnected_pong. typed_tac.
  eapply (typed_bind _ _ bytes_ok); [|intros; typed_tac]. apply typed_read_buf.
  intros l d l' Hl (? & l1 & Ha & [= <- <-])%reader_bind_inv.
  split; [by apply Forall_take|]. by eapply typed_advance.
Qed.

Lemma typed_unconnected t : typed (read_unconnected t) UPacket_ok.
Proof.
  destruct t; cbn [read_unconnected]; try apply typed_throw; try apply typed_read_buf; try apply typed_pong.
  all: unfold read_unconnected_ping, read_open_connection_request1, read_open_connection_reply1,
    read_open_connection_request2, read_open_connection_reply2, read_incompatible_protocol,
    read_already_connected, read_connection_request_failed; typed_tac.
Qed.

(** ** Acknowledgements *)

(** A record that is accepted; without overflow checks, a range may also be empty. *)
Definition Record_typed (r : Record_) : Prop :=
  match r with
  | Range start end_ => u24_valid start ∧ u24_valid end_ ∧ start ≤ end_ + 1 ∧ end_ - start < 2 ^ 24 - 1
  | Single idx => u24_valid idx
  end.

Lemma typed_record :
  typed Record_read (λ r, match r with Range s e => u24_valid s ∧ u24_valid e | Single i => u24_valid i end).
Proof. unfold Record_read. typed_tac. Qed.

(** The count of a record is the numbers it stands for. *)
Lemma Record_ack_cnt_typed {E} r n :
  match r with Range s e => u24_valid s ∧ u24_valid e | Single i => u24_valid i end →
  Record_ack_cnt (E:=E) r = Ok n → Record_typed r ∧ n = Z.of_nat (length (expand r)).
Proof.
  destruct r as [s e|i]; [|by intros Hi [= <-]]. intros [Hs He]. cbn [Record_ack_cnt expand Record_typed].
  unfold u24_valid, uint in Hs, He. unfold u24_sub, usub, mbind, outcome_bind.
  destruct (s <=? e) eqn:Hse.
  - apply Z.leb_le in Hse. rewrite u24_add_spec by (unfold u24_valid, uint; lia).
    destruct (_ <? _) eqn:Hlt; [|done]. apply Z.ltb_lt in Hlt. intros [= <-].
    rewrite length_u24_range. unfold u24_valid, uint, u24_to_usize. split_and!; lia.
  - apply Z.leb_gt in Hse. destruct debug_assertions eqn:Hd; [done|].
    assert (wrap 32 (e - s) = 2 ^ 32 + (e - s)) as ->.
    { unfold wrap. symmetry. apply Z.mod_unique with (-1); lia. }
    unfold u24_add, checked_add, uadd, mbind, outcome_bind, assert_. rewrite Hd.
    destruct (_ <? 2 ^ 32) eqn:Hlt.
    + apply Z.ltb_lt in Hlt. rewrite shiftr24 by lia. rewrite (proj2 (Z.ltb_ge _ _)) by lia. done.
    + apply Z.ltb_ge in Hlt. replace (2 ^ 32 + (e - s) + 1) with (2 ^ 32) by lia. intros [= <-].
      change (u24_to_usize (wrap 32 (2 ^ 32))) with 0. rewrite length_u24_range. unfold u24_valid, uint. split_and!; lia.
Qed.

Lemma typed_records n cnt :
  0 ≤ cnt → typed (read_records n cnt) (λ rs, Forall Record_typed rs ∧ length rs = n ∧
    (n ≠ 0%nat → cnt + Z.of_nat (length (expand_all rs)) ≤ MAX_ACKNOWLEDGEMENT_PACKETS)).
Proof.
  revert cnt. induction n as [|n IH]; intros cnt Hcnt; cbn [read_records]; [by apply typed_ret|].
  eapply typed_bind; [apply typed_record|]. intros r Hr.
  eapply (typed_bind _ _ (λ c, Record_typed r ∧ c = Z.of_nat (length (expand r)))).
  { apply typed_lift. intros c. by apply Record_ack_cnt_typed. }
  intros c [Ht ->]. cbv zeta. destruct (_ <? _) eqn:Hmax; [apply typed_throw|]. apply Z.ltb_ge in Hmax.
  eapply typed_bind; [apply IH; lia|]. intros rs (Hrs & Hn & Hsum). apply typed_ret. split_and!; [by constructor|cbn; lia|].
  intros _. unfold expand_all in *. rewrite bind_cons, length_app.
  destruct n as [|n]; [apply nil_length_inv in Hn; subst; cbn; lia|]. specialize (Hsum ltac:(done)). lia.
Qed.

Definition Ack_typed (a : AckOrNack) : Prop :=
  Forall Record_typed (records a) ∧ Z.of_nat (length (records a)) < 2 ^ 16 ∧
  Z.of_nat (length (expand_all (records a))) ≤ MAX_ACKNOWLEDGEMENT_PACKETS.

Lemma typed_ack : typed AckOrNack_read Ack_typed.
Proof.
  unfold AckOrNack_read. eapply typed_bind; [apply typed_u16|]. intros n Hn.
  eapply typed_bind; [by apply typed_records|]. intros rs (Hrs & Hlen & Hsum). apply typed_ret.
  unfold Ack_typed, uint in *. cbn [records]. split_and!; [done|lia|].
  destruct (decide (Z.to_nat n = 0%nat)) as [E|E]; [|by apply Hsum].
  rewrite E in Hlen. apply nil_length_inv in Hlen. subst. done.
Qed.

(** ** Packets *)

Definition Packet_typed (p : Packet) : Prop :=
  match p with
  | PUnconnected p => UPacket_ok p
  | PConnected (CFrameSet s) => set s ≠ [] ∧ u24_valid (seq_num s) ∧ Forall Frame_ok (set s)
  | PConnected (CAck a) | PConnected (CNack a) => Ack_typed a
  end.

Lemma typed_frame_set : typed FrameSet_read (λ s, set s ≠ [] ∧ u24_valid (seq_num s) ∧ Forall Frame_ok (set s)).
Proof.
  intros l s l' Hl Hr. pose proof (FrameSet_read_spec l Hl) as H. rewrite Hr in H. destruct H as [-> H]. by split.
Qed.

Lemma Packet_read_typed_spec : typed Packet_read Packet_typed.
Proof.
  unfold Packet_read. eapply (typed_bind _ _ (λ _, True)).
  { apply typed_read_buf. eapply typed_bind; [apply typed_u8|]. intros id _. by apply typed_lift. }
  intros t _. unfold read_frame_set, read_ack, read_nack.
  repeat match goal with |- context [if ?b then _ else _] => destruct b end.
  4: eapply (typed_bind _ _ UPacket_ok); [apply typed_unconnected|intros p Hp; by apply typed_ret].
  all: eapply (typed_bind _ _ (λ p, Packet_typed (PConnected p))); [|intros p Hp; by apply typed_ret].
  all: eapply typed_bind; [first [apply typed_frame_set|apply typed_ack]|intros s Hs; by apply typed_ret].
Qed.

(** ** Bodies *)

Lemma system_addresses_loop_typed n i addrs :
  Forall addr_ok addrs → typed (system_addresses_loop n i addrs) (λ l, length l = length addrs ∧ Forall addr_ok l).
Proof.
  revert i addrs. induction n as [|n IH]; intros i addrs Ha l r l' Hl; cbn [system_addresses_loop]; [by intros [= <- <-]|].
  case_decide; [|by intros [= <- <-]]. intros (a & l1 & H1 & H2)%reader_bind_inv.
  destruct (typed_socket_addr _ _ _ Hl H1) as [Hok Hl1].
  rewrite <- (length_insert addrs i a). eapply (IH (S i)); [|done|done]. by apply Forall_insert.
Qed.

Lemma parse_system_addresses_typed : typed parse_system_addresses addresses_ok.
Proof.
  unfold parse_system_addresses. eapply typed_bind; [apply typed_socket_addr|]. intros a Ha.
  eapply typed_bind; [apply system_addresses_loop_typed; by apply Forall_replicate|]. intros as_ [Hlen Has].
  rewrite length_replicate in Hlen. intros l r l' Hl. unfold system_addresses_end. case_decide; [done|].
  intros (? & l1 & H1 & [= <- <-])%reader_bind_inv. split; [done|]. by eapply (typed_lift _ (λ _, True)).
Qed.

#[local] Hint Resolve parse_system_addresses_typed : typed.

Lemma read_body_of_typed id :
  id ∈ [ConnectedPing; ConnectedPong; DetectLostConnections; ConnectionRequest; ConnectionRequestAccepted;
        NewIncomingConnection; DisconnectNotification] → typed (read_body_of id) FrameBody_ok.
Proof.
  rewrite !elem_of_cons, elem_of_nil. intros Hid. destruct_or! Hid; try done; subst; cbn [read_body_of].
  - eapply (typed_bind _ _ (sint 64)); [typed_tac; eauto with typed|intros t Ht; typed_tac].
  - typed_tac.
  - by apply typed_ret.
  - typed_tac.
  - typed_tac.
  - typed_tac.
  - by apply typed_ret.
Qed.

Lemma FrameBody_read_typed_spec buf body : bytes_ok buf → FrameBody_read buf = Ok body → FrameBody_ok body.
Proof.
  intros Hl Hr. destruct buf as [|b rest]; [done|].
  destruct (decide (b ∈ internal_ids)) as [Hb|Hb].
  - cbn [FrameBody_read] in Hr. destruct (PackType_from_u8 b) as [id|e|] eqn:Hid; [|exfalso..].
    + assert (typed (read_body_of id) FrameBody_ok) as Ht.
      { apply read_body_of_typed. unfold internal_ids in Hb. rewrite !elem_of_cons, elem_of_nil in Hb.
        destruct_or! Hb; try done; subst; injection Hid as <-; set_solver. }
      unfold mbind, outcome_bind in Hr. destruct (read_body_of id (b :: rest)) as [[body' l']| |] eqn:Hr'; [|done..].
      injection Hr as ->. by eapply Ht.
    + unfold internal_ids in Hb. rewrite !elem_of_cons, elem_of_nil in Hb. destruct_or! Hb; by subst.
    + by apply PackType_from_u8_no_panic in Hid.
  - rewrite FrameBody_read_user in Hr by done. injection Hr as <-. by exists b, rest.
Qed.

(** C16. Whatever is accepted from the network is of its Rust type: a packet that is
    read from any bytes has every field within its width, its addresses, records and
    frames well formed, no more than the allowed number of acknowledged sequence
    numbers, and leaves bytes; a body that is read from a frame is well formed, and
    one for the user does not begin with an internal id. *)
Theorem read_typed l :
  bytes_ok l →
  (∀ p l', Packet_read l = Ok (p, l') → Packet_typed p ∧ bytes_ok l') ∧
  (∀ body, FrameBody_read l = Ok body → FrameBody_ok body).
Proof. intros Hl. split; [intros p l'; by apply Packet_read_typed_spec|intros body; by apply FrameBody_read_typed_spec]. Qed.
End packets.

Lemma read_typed_witness :
  Packet_read (B:=true) (BC:=bytes_reference) [192; 0; 1; 1; 7; 0; 0] = Ok (PConnected (CAck (mkAckOrNack [Single 7])), []) ∧
  Packet_typed (PConnected (CAck (mkAckOrNack [Single 7]))) ∧ bytes_ok [].
Proof.
  split; [reflexivity|].
  refine (proj1 (read_typed (B:=true) (BC:=bytes_reference) [192; 0; 1; 1; 7; 0; 0] _) _ _ _); [|reflexivity].
  repeat constructor; cbn; lia.
Defined.
