(* ===== verification/Format.v ===== *)
(** * Texts (the [Debug] and [Display] implementations)

    How sequence numbers, acknowledgements, frames and roles are printed in the logs.
    What is printed for an acknowledgement or for the bytes of a frame can be read
    back, so nothing is lost in a log. *)
From S2P Require Import Prelude Bytes SeqNum Types AckNack FrameBody.
From Stdlib Require Import Ascii String.
Open Scope Z_scope.

Abbreviation text := (list ascii).

Definition lit (s : string) : text := list_ascii_of_string s.

(** ** Numbers *)

(** A digit, [0-9] and [a-z] or [A-Z]. *)
Definition digit_char (upper : bool) (d : Z) : ascii :=
  ascii_of_nat (Z.to_nat (if d <? 10 then 48 + d else (if upper then 55 else 87) + d)).

(** The digits of [n] in base [b], without leading zeros. *)
Fixpoint digits (fuel : nat) (b n : Z) : list Z :=
  match fuel with
  | O => []
  | S fuel => if n <? b then [n] else digits fuel b (n / b) ++ [n mod b]
  end.

(** [write!] of a [u32] in a radix; a [u32] has at most 32 digits. *)
Definition fmt_radix (upper : bool) (b n : Z) : text := digit_char upper <$> digits 32 b n.

(** [Debug] and [Display], [Binary], [Octal], [LowerHex] and [UpperHex] of [u24]. *)
Definition u24_display (x : u24) : text := fmt_radix false 10 x.
Definition u24_binary (x : u24) : text := fmt_radix false 2 x.
Definition u24_octal (x : u24) : text := fmt_radix false 8 x.
Definition u24_lower_hex (x : u24) : text := fmt_radix false 16 x.
Definition u24_upper_hex (x : u24) : text := fmt_radix true 16 x.

(** ** Acknowledgements *)

Definition Record_fmt (r : Record_) : text :=
  match r with
  | Range start end_ => u24_display start ++ lit "-" ++ u24_display end_ ++ lit ","
  | Single idx => u24_display idx ++ lit ","
  end.

(** The last comma is popped. *)
Definition AckOrNack_fmt (a : AckOrNack) : text :=
  let records := AckNack.records a ≫= Record_fmt in
  lit "AckOrNack(" ++ take (pred (List.length records)) records ++ lit ")".

(** ** Frames and roles *)

(** [to_hex_string] *)
Definition byte_hex (x : Z) : text := [digit_char false (x / 16); digit_char false (x mod 16)].
Definition to_hex_string (bytes : list Z) : text := lit "0x" ++ (bytes ≫= byte_hex).

Definition FrameBody_fmt (b : FrameBody) : text :=
  match b with
  | FConnectedPing _ => lit "ConnectedPing"
  | FConnectedPong _ _ => lit "ConnectedPong"
  | FConnectionRequest _ _ _ => lit "ConnectionRequest"
  | FConnectionRequestAccepted _ _ _ _ _ => lit "ConnectionRequestAccepted"
  | FNewIncomingConnection _ _ _ _ => lit "NewIncomingConnection"
  | FDisconnectNotification => lit "Disconnect"
  | FDetectLostConnections => lit "DetectLostConnections"
  | FUser data => lit "User(size:" ++ fmt_radix false 10 (Z.of_nat (List.length data)) ++ lit ")"
  end.

Definition Role_fmt (r : Role) : text :=
  match r with
  | Client guid => lit "client(" ++ fmt_radix false 10 guid ++ lit ")"
  | Server guid => lit "server(" ++ fmt_radix false 10 guid ++ lit ")"
  end.

(** ** Reading texts back *)

Definition digit_val (c : ascii) : option Z :=
  let n := Z.of_nat (nat_of_ascii c) in
  if (48 <=? n) && (n <=? 57) then Some (n - 48)
  else if (65 <=? n) && (n <=? 70) then Some (n - 55)
  else if (97 <=? n) && (n <=? 102) then Some (n - 87)
  else None.

Definition digits_value (b : Z) (ds : list Z) : Z := foldl (λ a d, a * b + d) 0 ds.

Definition parse_radix (b : Z) (t : text) : option Z := digits_value b <$> mapM digit_val t.

Fixpoint split_on (c : ascii) (t : text) : list text :=
  match t with
  | [] => [[]]
  | x :: t =>
      if decide (x = c) then [] :: split_on c t
      else match split_on c t with p :: ps => (x :: p) :: ps | [] => [[x]] end
  end.

Definition parse_record (t : text) : option Record_ :=
  match split_on "-" t with
  | [x] => Single <$> parse_radix 10 x
  | [x; y] => x ← parse_radix 10 x; y ← parse_radix 10 y; Some (Range x y)
  | _ => None
  end.

(** Of the text of an acknowledgement, without the name and the parentheses. *)
Definition parse_records (t : text) : option (list Record_) :=
  match t with [] => Some [] | _ => mapM parse_record (split_on "," t) end.

Fixpoint parse_hex (t : text) : option (list Z) :=
  match t with
  | [] => Some []
  | x :: y :: t => a ← digit_val x; b ← digit_val y; l ← parse_hex t; Some (a * 16 + b :: l)
  | _ => None
  end.

(** ** Digits *)

Lemma digit_val_char u d : 0 ≤ d < 16 → digit_val (digit_char u d) = Some d.
Proof.
  intros Hd. assert (forallb (λ d, bool_decide (digit_val (digit_char u d) = Some d)) (seqZ 0 16) = true) as H.
  { destruct u; vm_compute; reflexivity. }
  rewrite forallb_forall in H. specialize (H d). rewrite <-list_elem_of_In, elem_of_seqZ in H.
  apply (bool_decide_eq_true_1 _), H. lia.
Qed.

Lemma digits_value_snoc b ds d : digits_value b (ds ++ [d]) = digits_value b ds * b + d.
Proof. unfold digits_value. by rewrite foldl_app. Qed.

Lemma digits_spec fuel b n :
  2 ≤ b → 0 ≤ n < b ^ Z.of_nat fuel → (0 < fuel)%nat →
  digits_value b (digits fuel b n) = n ∧ Forall (λ d, 0 ≤ d < b) (digits fuel b n) ∧ digits fuel b n ≠ [].
Proof.
  intros Hb. revert n. induction fuel as [|fuel IH]; intros n Hn Hf; [lia|]. cbn [digits].
  destruct (Z.ltb_spec n b) as [Hlt|Hge].
  { split_and!; [cbn; lia|repeat constructor; lia|done]. }
  rewrite Nat2Z.inj_succ, Z.pow_succ_r in Hn by lia.
  assert (0 < fuel)%nat as Hf' by (destruct fuel; [rewrite Z.pow_0_r in Hn|]; lia).
  destruct (IH (n / b)) as (H1 & H2 & _); [|done|].
  { split; [apply Z.div_pos; lia|apply Z.div_lt_upper_bound; lia]. }
  split_and!.
  - rewrite digits_value_snoc, H1. pose proof (Z.div_mod n b). lia.
  - apply Forall_app. split; [done|]. repeat constructor; apply Z.mod_pos_bound; lia.
  - by destruct (digits fuel b (n / b)).
Qed.

Lemma u32_digits b n : 2 ≤ b → 0 ≤ n < 2 ^ 32 → 0 ≤ n < b ^ Z.of_nat 32.
Proof. intros Hb Hn. split; [lia|]. eapply Z.lt_le_trans; [apply Hn|]. change (Z.of_nat 32) with 32. apply Z.pow_le_mono_l. lia. Qed.

Lemma mapM_digits u ds : Forall (λ d, 0 ≤ d < 16) ds → mapM digit_val (digit_char u <$> ds) = Some ds.
Proof. induction 1 as [|d ds Hd _ IH]; [done|]. cbn. rewrite digit_val_char by done. cbn. by rewrite IH. Qed.

(** Numbers that fit into 32 digits of their radix are read back. *)
Lemma parse_fmt_radix u b n :
  2 ≤ b ≤ 16 → 0 ≤ n < 2 ^ 32 → parse_radix b (fmt_radix u b n) = Some n ∧ fmt_radix u b n ≠ [].
Proof.
  intros Hb Hn. destruct (digits_spec 32 b n) as (H1 & H2 & H3); [lia|apply u32_digits; lia|lia|].
  unfold parse_radix, fmt_radix. rewrite mapM_digits by (eapply Forall_impl; [exact H2|]; intros; cbn in *; lia).
  cbn [fmap option_fmap option_map]. rewrite H1. split; [done|]. by destruct (digits 32 b n).
Qed.

Lemma fmt_radix_chars u b n c : 2 ≤ b ≤ 16 → 0 ≤ n < 2 ^ 32 → digit_val c = None → c ∉ fmt_radix u b n.
Proof.
  intros Hb Hn Hc (d & -> & Hd)%list_elem_of_fmap. destruct (digits_spec 32 b n) as (_ & H2 & _); [lia|apply u32_digits; lia|lia|].
  rewrite Forall_forall in H2. apply H2 in Hd. by rewrite digit_val_char in Hc by lia.
Qed.

(** ** Parts *)

Lemma split_on_none c t : c ∉ t → split_on c t = [t].
Proof.
  induction t as [|x t IH]; [done|]. intros [Hx Ht]%not_elem_of_cons. cbn. rewrite decide_False by done. by rewrite IH.
Qed.

Lemma split_on_app c p t : c ∉ p → split_on c (p ++ c :: t) = p :: split_on c t.
Proof.
  induction p as [|x p IH]; intros Hp; cbn; [by rewrite decide_True|]. apply not_elem_of_cons in Hp as [Hx Hp].
  rewrite decide_False by done. by rewrite IH.
Qed.

(** The text of a record without its comma. *)
Definition record_text (r : Record_) : text :=
  match r with Range x y => u24_display x ++ ("-"%char :: u24_display y) | Single x => u24_display x end.

Lemma Record_fmt_text r : Record_fmt r = record_text r ++ [","%char].
Proof. destruct r; cbn; [|done]. by rewrite <-!app_assoc. Qed.

Definition u24_ok (x : u24) : Prop := 0 ≤ x < 2 ^ 24.
Definition record_ok (r : Record_) : Prop := match r with Range x y => u24_ok x ∧ u24_ok y | Single x => u24_ok x end.

Lemma u24_display_ok x c : u24_ok x → digit_val c = None → c ∉ u24_display x.
Proof. intros Hx. apply fmt_radix_chars; unfold u24_ok in *; lia. Qed.

Lemma record_text_ok r :
  record_ok r → parse_record (record_text r) = Some r ∧ (","%char ∉ record_text r) ∧ record_text r ≠ [].
Proof.
  assert (∀ x, u24_ok x → parse_radix 10 (u24_display x) = Some x ∧ u24_display x ≠ []) as Hp.
  { intros x Hx. apply parse_fmt_radix; unfold u24_ok in *; lia. }
  destruct r as [x y|x]; cbn [record_ok record_text].
  - intros [Hx Hy]. destruct (Hp x Hx) as [Px Nx], (Hp y Hy) as [Py Ny]. split_and!.
    + unfold parse_record. rewrite split_on_app, split_on_none by (by apply u24_display_ok). rewrite Px. cbn [mbind option_bind]. by rewrite Py.
    + rewrite not_elem_of_app, not_elem_of_cons. split_and!; [by apply u24_display_ok|done|by apply u24_display_ok].
    + by destruct (u24_display x).
  - intros Hx. destruct (Hp x Hx) as [Px Nx]. split_and!; [|by apply u24_display_ok|done].
    unfold parse_record. rewrite split_on_none by (by apply u24_display_ok). by rewrite Px.
Qed.

(** The records without the last comma. *)
Definition records_text (rs : list Record_) : text := let t := rs ≫= Record_fmt in take (pred (List.length t)) t.

Lemma take_pred_app {A} (a b : list A) (c : A) :
  b ≠ [] → take (pred (List.length (a ++ c :: b))) (a ++ c :: b) = a ++ c :: take (pred (List.length b)) b.
Proof.
  intros Hb. rewrite length_app. cbn. rewrite Nat.add_succ_r. cbn [pred]. rewrite take_app_add. by destruct b.
Qed.

Lemma records_text_cons r rs :
  records_text (r :: rs) = record_text r ++ match rs with [] => [] | _ => ","%char :: records_text rs end.
Proof.
  unfold records_text. cbn. rewrite Record_fmt_text, <-app_assoc. cbn. destruct rs as [|r' rs].
  - cbn. rewrite length_app. cbn. rewrite Nat.add_1_r. cbn. by rewrite take_app_length, app_nil_r.
  - apply take_pred_app. cbn. rewrite Record_fmt_text. by destruct (record_text r').
Qed.

(** What is printed for an acknowledgement between the parentheses determines its
    records, and the text of a sequence of bytes the bytes. *)
Theorem fmt_reads_back a bytes :
  Forall record_ok (AckNack.records a) → Forall (λ x, 0 ≤ x < 256) bytes →
  (∃ t, AckOrNack_fmt a = lit "AckOrNack(" ++ t ++ lit ")" ∧ parse_records t = Some (AckNack.records a)) ∧
  ∃ t, to_hex_string bytes = lit "0x" ++ t ∧ parse_hex t = Some bytes.
Proof.
  intros Ha Hb. split.
  - exists (records_text (AckNack.records a)). split; [done|]. destruct Ha as [|r rs Hr Hrs]; [done|].
    assert (∀ r rs, record_ok r → Forall record_ok rs → records_text (r :: rs) ≠ [] ∧
      mapM parse_record (split_on "," (records_text (r :: rs))) = Some (r :: rs)) as H.
    { clear. intros r rs Hr Hrs. revert r Hr. induction Hrs as [|r' rs Hr' _ IH]; intros r Hr; rewrite records_text_cons;
        destruct (record_text_ok r Hr) as (P1 & P2 & P3); (split; [by destruct (record_text r)|]).
      - rewrite app_nil_r, split_on_none by done. cbn. by rewrite P1.
      - rewrite split_on_app by done. cbn [mapM mbind option_bind]. rewrite P1. cbn. destruct (IH r' Hr') as [_ ->]. done. }
    destruct (H r rs Hr Hrs) as [Hne Hm]. unfold parse_records. by destruct (records_text (r :: rs)).
  - exists (bytes ≫= byte_hex). split; [done|]. induction Hb as [|x l Hx _ IH]; [done|].
    cbn. rewrite !digit_val_char by (first [apply Z.mod_pos_bound|split; [apply Z.div_pos|apply Z.div_lt_upper_bound]]; lia).
    cbn. rewrite IH. cbn. do 2 f_equal. pose proof (Z.div_mod x 16). lia.
Qed.

Lemma fmt_reads_back_witness :
  AckOrNack_fmt (mkAckOrNack [Range 1 3; Single 10]) = lit "AckOrNack(1-3,10)" ∧
  ∃ t, AckOrNack_fmt (mkAckOrNack [Range 1 3; Single 10]) = lit "AckOrNack(" ++ t ++ lit ")" ∧
    parse_records t = Some [Range 1 3; Single 10].
Proof.
  split; [vm_compute; reflexivity|].
  apply (fmt_reads_back (mkAckOrNack [Range 1 3; Single 10]) [254; 1]).
  - repeat constructor; cbn; unfold u24_ok; lia.
  - repeat constructor; lia.
Defined.

Example u24_texts :
  u24_binary 5 = lit "101" ∧ u24_octal 64 = lit "100" ∧ u24_lower_hex 254 = lit "fe" ∧ u24_upper_hex 254 = lit "FE" ∧
  u24_display 16777215 = lit "16777215" ∧ to_hex_string [254; 10] = lit "0xfe0a" ∧ Role_fmt (Client 7) = lit "client(7)".
Proof. vm_compute. repeat split. Qed.
