(* ===== verification/Stream.v ===== *)
(** * Polled streams

    A [Stream] that a layer polls is the list of the answers it gives, in
    order: its tape (an exhausted tape stays pending).  A layer's [poll_next]
    takes its own state and the tape of the stream below and returns an answer,
    the new state and what is left of the tape; [polls] makes successive polls
    of a layer, whose answers are the tape the layer above sees.  Waking and
    tracing spans do not change what is delivered and are not modelled. *)
From S2P Require Import Prelude Errors.

(** The answer of [Stream<Item = Result<A, CodecError>>::poll_next]. *)
Abbreviation answer A := (poll (option (CodecError + A))).
Abbreviation tape A := (list (answer A)).

(** A layer over answers [X] that gives answers [Y]; [E] is what may keep a poll
    from returning. *)
Definition layer_of (E St X Y : Type) : Type :=
  St → list X → outcome E (Y * St * list X).

Abbreviation layer := (layer_of Empty_set).

(** [n] successive polls. *)
Fixpoint polls {E St X Y} (poll_next : layer_of E St X Y) (n : nat) (st : St) (up : list X) :
    outcome E (list Y * St * list X) :=
  match n with
  | O => mret ([], st, up)
  | S n =>
      '(a, st, up) ← poll_next st up;
      '(out, st, up) ← polls poll_next n st up;
      mret (a :: out, st, up)
  end.

Lemma polls_length {E St X Y} (poll_next : layer_of E St X Y) n st up out st' up' :
  polls poll_next n st up = Ok (out, st', up') → length out = n.
Proof.
  revert st up out. induction n as [|n IH]; intros st up out; cbn; [by intros [= <- _ _]|].
  destruct (poll_next st up) as [[[a st1] up1]| |]; [|done..]. cbn.
  destruct (polls poll_next n st1 up1) as [[[out1 st2] up2]| |] eqn:Hp; [|done..]. cbn.
  intros [= <- <- <-]. cbn. f_equal. exact (IH _ _ _ Hp).
Qed.

(** The answer of a stream without errors, [Stream<Item = A>::poll_next]. *)
Abbreviation item_answer A := (poll (option A)).

Definition feed_items {A} (t : list (item_answer A)) : list A :=
  t ≫= λ a, match a with Ready (Some x) => [x] | _ => [] end.

Lemma feed_items_app {A} (t u : list (item_answer A)) : feed_items (t ++ u) = feed_items t ++ feed_items u.
Proof. unfold feed_items. by rewrite bind_app. Qed.

Definition answer_items {A} (a : answer A) : list A :=
  match a with Ready (Some (inr x)) => [x] | _ => [] end.

(** The items of a tape. *)
Definition items {A} (t : tape A) : list A := t ≫= answer_items.

Definition answer_errors {A} (a : answer A) : list CodecError :=
  match a with Ready (Some (inl e)) => [e] | _ => [] end.

Definition errors {A} (t : tape A) : list CodecError := t ≫= answer_errors.

Lemma items_app {A} (t u : tape A) : items (t ++ u) = items t ++ items u.
Proof. unfold items. by rewrite bind_app. Qed.

Lemma items_cons {A} (a : answer A) t : items (a :: t) = answer_items a ++ items t.
Proof. done. Qed.

Lemma errors_app {A} (t u : tape A) : errors (t ++ u) = errors t ++ errors u.
Proof. unfold errors. by rewrite bind_app. Qed.

(** A property of one poll, relating what it took off the tape to its answer,
    lifts to any number of polls when it composes; a layer whose polls always take
    something off the tape reaches the end of it. *)
Section polls.
Context {E St X Y : Type} (poll_next : layer_of E St X Y).
Context (R : St → list X → list Y → St → Prop) (I : list X → St → Prop).
Context (R_nil : ∀ st, R st [] [] st).
Context (R_app : ∀ st u a st' u' out st'',
  R st u [a] st' → R st' u' out st'' → R st (u ++ u') (a :: out) st'').
Context (R_poll : ∀ st up, I up st → ∃ a st' used up',
  poll_next st up = Ok (a, st', up') ∧ up = used ++ up' ∧ R st used [a] st' ∧ I up' st' ∧
  (length up' ≤ length up - 1)%nat).

Lemma polls_ind n st up :
  I up st → ∃ out st' used up',
    polls poll_next n st up = Ok (out, st', up') ∧ up = used ++ up' ∧ length out = n ∧
    R st used out st' ∧ I up' st' ∧ (length up' ≤ length up - n)%nat.
Proof.
  revert st up. induction n as [|n IH]; intros st up HI; cbn.
  { exists [], st, [], up. split_and!; try done. lia. }
  destruct (R_poll st up HI) as (a & st1 & u1 & up1 & -> & -> & HR1 & HI1 & Hl1). cbn.
  destruct (IH st1 up1 HI1) as (out & st2 & u2 & up2 & -> & -> & Hlen & HR2 & HI2 & Hl2). cbn.
  exists (a :: out), st2, (u1 ++ u2), up2. rewrite <-app_assoc. cbn.
  split_and!; [done|done|lia| |done|lia]. by eapply R_app.
Qed.
End polls.

(** ** The end of a stream *)

Definition open_tape {A} (t : tape A) : Prop := Forall (λ a, a ≠ Ready None) t.

(** The tape ends once, and only pending answers follow. *)
Definition ended {A} (t : tape A) : Prop := ∃ u k, t = u ++ Ready None :: replicate k Pending ∧ open_tape u.

(** The answer to the part of a tape that a poll took off it. *)
Definition end_answers {A B} (used : tape A) (a : answer B) : Prop :=
  (a = Ready None ∧ ∃ u, used = u ++ [Ready None] ∧ open_tape u) ∨ (a ≠ Ready None ∧ open_tape used).

Lemma end_answers_cons {A B} (x : A) (used : tape A) (a : answer B) :
  end_answers used a → end_answers (Ready (Some (inr x)) :: used) a.
Proof.
  intros [(-> & u & -> & Hu)|[Ha Hu]]; [left|right; split; [done|by constructor]].
  split; [done|]. eexists (_ :: u). split; [done|by constructor].
Qed.

Lemma open_tape_pending {A} k : open_tape (A:=A) (replicate k Pending).
Proof. by apply Forall_replicate. Qed.

Lemma ended_pending {A} (t : tape A) k : ended (t ++ replicate k Pending) → ended t.
Proof.
  intros (u & j & Hu & Ho). destruct (decide (length u < length t)%nat) as [Hlt|Hge].
  - exists u, (length t - length u - 1)%nat. split; [|done]. pose proof (f_equal length Hu) as Hl.
    rewrite !length_app in Hl. cbn in Hl. rewrite !length_replicate in Hl. apply (f_equal (take (length t))) in Hu.
    rewrite take_app_length, take_app, take_ge in Hu by lia. rewrite Hu at 1. f_equal.
    destruct (length t - length u)%nat as [|m] eqn:Hm; [lia|]. cbn [take]. f_equal.
    rewrite take_replicate. f_equal. lia.
  - exfalso. assert ((t ++ replicate k Pending) !! length u = Some (Ready None)) as Hl.
    { rewrite Hu, lookup_app_r, Nat.sub_diag by done. done. }
    rewrite lookup_app_r in Hl by lia. apply lookup_replicate in Hl as [? _]. done.
Qed.

Lemma ended_app_pending {A} (t : tape A) k : ended t → ended (t ++ replicate k Pending).
Proof.
  intros (u & j & -> & Ho). exists u, (j + k)%nat. split; [|done]. rewrite <-app_assoc. cbn. by rewrite replicate_add.
Qed.

(** ** Settling

    A layer that is idle after every answer that is not an item, and stays idle on
    a pending tape, comes to rest: polled more often than there are answers to take
    and items to give, it has taken everything and given everything. *)
Section settling.
Context {St A B : Type} (poll_next : layer St (answer A) (answer B)).
Context (I : tape A → St → Prop) (idle : St → Prop).
Context (idle_poll : ∀ st up, idle st →
  poll_next st [] = Ok (Pending, st, []) ∧ poll_next st (Pending :: up) = Ok (Pending, st, up)).
Context (idle_step : ∀ st up a st' up', I up st → poll_next st up = Ok (a, st', up') →
  I up' st' ∧ ∃ used, up = used ++ up' ∧
    (answer_items a ≠ [] ∨ answer_items a = [] ∧ idle st' ∧ (used ≠ [] ∨ up = []))).

Lemma idle_polls n st k :
  idle st → ∃ k', polls poll_next n st (replicate k Pending) = Ok (replicate n Pending, st, replicate k' Pending).
Proof.
  intros Hi. revert k. induction n as [|n IH]; intros k; cbn; [by eexists|].
  destruct k as [|k]; cbn [replicate].
  - destruct (idle_poll st [] Hi) as [-> _]. cbn.
    destruct (IH 0%nat) as [k' Hk]. cbn in Hk. rewrite Hk. by exists k'.
  - destruct (idle_poll st (replicate k Pending) Hi) as [_ ->]. cbn.
    destruct (IH k) as [k' ->]. by exists k'.
Qed.

Lemma settle n st u k M out st' up' :
  I (u ++ replicate k Pending) st →
  polls poll_next n st (u ++ replicate k Pending) = Ok (out, st', up') →
  (length (items out) ≤ M)%nat → (length u + M < n)%nat →
  idle st' ∧ ∃ v k' k'', out = v ++ replicate k' Pending ∧ (length v ≤ length u + M + 1)%nat ∧
    up' = replicate k'' Pending.
Proof.
  revert st u k M out. induction n as [|n IH]; intros st u k M out HI Hp HM Hn; [lia|]. cbn [polls] in Hp.
  destruct (poll_next st (u ++ replicate k Pending)) as [[[a st1] up1]| |] eqn:H1; [|done..]. cbn in Hp.
  destruct (polls poll_next n st1 up1) as [[[out1 st2] up2]| |] eqn:H2; [|done..]. cbn in Hp. injection Hp as <- <- <-.
  destruct (idle_step _ _ _ _ _ HI H1) as (HI1 & used & Hu & Hcase).
  assert (up1 = drop (length used) u ++ replicate (k - (length used - length u)) Pending) as ->.
  { apply (f_equal (drop (length used))) in Hu. rewrite drop_app_length in Hu. rewrite <-Hu.
    rewrite drop_app, drop_replicate. done. }
  rewrite items_cons, length_app in HM.
  destruct Hcase as [Hitem|(Hnone & Hidle & Hprog)].
  - assert (1 ≤ length (answer_items a))%nat by (destruct (answer_items a); [done|cbn; lia]).
    destruct (IH _ _ _ (M - 1)%nat _ HI1 H2) as (Hi & v & k1 & k2 & -> & Hv & ->);
      [lia|rewrite length_drop; lia|]. split; [done|].
    exists (a :: v), k1, k2. split_and!; [done| |done]. rewrite length_drop in Hv. cbn. lia.
  - destruct u as [|x u].
    + rewrite drop_nil in H2. cbn [app] in H2.
      destruct (idle_polls n st1 (k - (length used - length (@nil (answer A)))) Hidle) as [k' Hk].
      rewrite Hk in H2. injection H2 as <- <- <-. split; [done|].
      exists [a], n, k'. split_and!; [done|cbn; lia|done].
    + assert (1 ≤ length used)%nat as Hlen by (destruct Hprog as [Hne|]; [destruct used; [done|cbn; lia]|done]).
      destruct (IH _ _ _ M _ HI1 H2) as (Hi & v & k1 & k2 & -> & Hv & ->);
        [rewrite Hnone in HM; cbn in HM; lia|rewrite length_drop; cbn in *; lia|]. split; [done|].
      exists (a :: v), k1, k2. split_and!; [done| |done]. rewrite length_drop in Hv. cbn in *. lia.
Qed.

Context (end_step : ∀ st up a st' up', poll_next st up = Ok (a, st', up') → ∃ used, up = used ++ up' ∧ end_answers used a).

(** A layer ends when the stream below does: it has handed up everything before. *)
Lemma ends n st up out st' k :
  I up st → ended up → polls poll_next n st up = Ok (out, st', replicate k Pending) → ended out.
Proof.
  intros HI (u & j & -> & Hu). revert st u HI Hu out. induction n as [|n IH]; intros st u HI Hu out; cbn [polls].
  { intros [= <- _ Hr]. exfalso. assert (Ready None ∈ replicate k (@Pending (option (CodecError + A)))) as Hin.
    { rewrite <-Hr, elem_of_app. right. left. } by apply elem_of_replicate in Hin as [? _]. }
  intros H. apply outcome_bind_Ok in H as ([[a st1] up1] & H1 & H). apply outcome_bind_Ok in H as ([[out1 st2] up2] & H2 & H).
  injection H as <- <- ->. destruct (idle_step _ _ _ _ _ HI H1) as (HI1 & used0 & _ & Hidle).
  destruct (end_step _ _ _ _ _ H1) as (used & Hup & [(-> & u' & -> & Hu')|[Ha Hused]]).
  - destruct Hidle as [[]|(_ & Hidle & _)]; [done|]. rewrite <-app_assoc in Hup. cbn in Hup.
    assert (up1 = replicate j Pending) as ->.
    { assert (length u = length u') as Hl.
      { destruct (Nat.lt_trichotomy (length u) (length u')) as [Hl|[Hl|Hl]]; [|done|]; exfalso.
        - apply (f_equal (lookup (length u))) in Hup. rewrite lookup_app_r, Nat.sub_diag, lookup_app_l in Hup by lia.
          symmetry in Hup. unfold open_tape in Hu'. rewrite Forall_lookup in Hu'. by apply Hu' in Hup.
        - apply (f_equal (lookup (length u'))) in Hup. rewrite lookup_app_l, lookup_app_r, Nat.sub_diag in Hup by lia.
          unfold open_tape in Hu. rewrite Forall_lookup in Hu. by apply Hu in Hup. }
      apply app_inj_1 in Hup as [_ Hup]; [|done]. by injection Hup as <-. }
    destruct (idle_polls n st1 j Hidle) as [k' Hk]. rewrite Hk in H2. injection H2 as <- <- _.
    exists [], n. split; [done|constructor].
  - assert (∃ u1, u = used ++ u1 ∧ up1 = u1 ++ Ready None :: replicate j Pending) as (u1 & -> & ->).
    { destruct (decide (length used ≤ length u)%nat) as [Hle|Hgt].
      - exists (drop (length used) u). pose proof (f_equal (take (length used)) Hup) as Ht.
        rewrite take_app_le, take_app_length in Ht by done. split; [by rewrite <-Ht at 1; rewrite take_drop|].
        apply (f_equal (drop (length used))) in Hup. by rewrite drop_app_le, drop_app_length in Hup by done.
      - exfalso. apply (f_equal (lookup (length u))) in Hup. rewrite lookup_app_r, Nat.sub_diag, lookup_app_l in Hup by lia.
        symmetry in Hup. unfold open_tape in Hused. rewrite Forall_lookup in Hused. by apply Hused in Hup. }
    apply Forall_app in Hu as [_ Hu1]. destruct (IH st1 u1 HI1 Hu1 out1 H2) as (v & k' & -> & Hv).
    exists (a :: v), k'. split; [done|by constructor].
Qed.
End settling.

Lemma errors_cons {A} (a : answer A) t : errors (a :: t) = answer_errors a ++ errors t.
Proof. done. Qed.

Lemma errors_pending {A} k : errors (A:=A) (replicate k Pending) = [].
Proof. induction k; cbn; auto. Qed.

(** A layer whose polls pass errors on and add none does so over any number of polls. *)
Lemma polls_errors {E St A B} (poll_next : layer_of E St (answer A) (answer B)) (I : tape A → St → Prop) n st up out st' up' :
  (∀ st up a st' up', I up st → poll_next st up = Ok (a, st', up') →
    I up' st' ∧ answer_errors a ++ errors up' = errors up) →
  I up st → polls poll_next n st up = Ok (out, st', up') → errors out ++ errors up' = errors up.
Proof.
  intros Hstep. revert st up out. induction n as [|n IH]; intros st up out HI; cbn [polls].
  { by intros [= <- <- <-]. }
  intros H. apply outcome_bind_Ok in H as ([[a st1] up1] & H1 & H). apply outcome_bind_Ok in H as ([[out1 st2] up2] & H2 & H).
  injection H as <- <- <-. destruct (Hstep _ _ _ _ _ HI H1) as [HI1 He]. rewrite errors_cons, <-app_assoc, (IH _ _ _ HI1 H2). done.
Qed.

Lemma items_pending {A} k : items (A:=A) (replicate k Pending) = [].
Proof. induction k; cbn; auto. Qed.

(** ** [Log] (src/utils/log.rs): the errors of the stream are logged and skipped. *)
Fixpoint log_loop {A} (up : tape A) : item_answer A * tape A :=
  match up with
  | [] => (Pending, [])
  | Pending :: up => (Pending, up)
  | Ready None :: up => (Ready None, up)
  | Ready (Some (inl _)) :: up => log_loop up
  | Ready (Some (inr v)) :: up => (Ready (Some v), up)
  end.

Definition Log_poll_next {A} : layer unit (answer A) (item_answer A) := λ _ up,
  let '(a, up) := log_loop up in mret (a, tt, up).
