(* ===== verification/Tracing.v ===== *)
(** * Tracing (src/utils/fastrace.rs, src/codec/decoder/mod.rs)

    Two wrappers of streams that open spans of the tracing library around their
    polls.  The library is an interface: spans are opened and dropped in a world
    that is passed along.  The theorem: the wrappers hand on the answers of the
    stream unchanged, and whenever they answer with an item every span they opened
    has ended. *)
From S2P Require Import Prelude Errors Stream.

(** [fastrace]: [open_spans w] are the spans that have been started and not yet
    dropped; setting and unsetting the local parent does not start or end any. *)
Class Fastrace := {
  TraceWorld : Type;
  Span : Type;
  TraceId : Type;
  span_trace_id : Span → option TraceId;
  enter_with_local_parent : string → TraceWorld → Span * TraceWorld;
  set_local_parent : Span → TraceWorld → TraceWorld;
  drop_guard : TraceWorld → TraceWorld;
  drop_span : Span → TraceWorld → TraceWorld;
  open_spans : TraceWorld → list Span;
  open_set_parent s w : open_spans (set_local_parent s w) ≡ₚ open_spans w;
  open_drop_guard w : open_spans (drop_guard w) ≡ₚ open_spans w;
  open_enter name w :
    open_spans (enter_with_local_parent name w).2 ≡ₚ (enter_with_local_parent name w).1 :: open_spans w;
  open_drop s w rest : open_spans w ≡ₚ s :: rest → open_spans (drop_span s w) ≡ₚ rest;
}.

Section tracing.
Context {FT : Fastrace}.

(** A stream whose polls run in the world of the spans. *)
Definition traced_layer (St X A : Type) : Type :=
  St → TraceWorld → list X → outcome Empty_set (item_answer A * St * TraceWorld * list X).

(** A function that starts a span, [Fn() -> Span]. *)
Definition span_fn : Type := TraceWorld → Span * TraceWorld.

Definition starts_span (f : span_fn) : Prop := ∀ w, open_spans (f w).2 ≡ₚ (f w).1 :: open_spans w.

(** [self.span.get_or_insert_with(f)] *)
Definition get_or_insert_with (span : option Span) (f : span_fn) (w : TraceWorld) : Span * TraceWorld :=
  match span with
  | Some s => (s, w)
  | None => f w
  end.

(** ** [PendingTracer]: a span while the stream is pending *)
Record PendingTracer (St : Type) := mkPendingTracer {
  pt_frame : St;
  pt_span : option Span;
}.
Arguments mkPendingTracer {St} _ _.
Arguments pt_frame {St} _.
Arguments pt_span {St} _.

Definition trace_pending {St} (frame : St) : PendingTracer St := mkPendingTracer frame None.

Definition PendingTracer_poll_next {St X A} (inner : traced_layer St X A) : traced_layer (PendingTracer St) X A :=
  λ st w up,
  let '(span, w) := get_or_insert_with (pt_span st) (enter_with_local_parent "codec.pending") w in
  '(a, frame, w, up) ← inner (pt_frame st) w up;
  match a with
  | Ready r => mret (Ready r, mkPendingTracer frame None, drop_span span w, up)
  | Pending => mret (Pending, mkPendingTracer frame (Some span), w, up)
  end.

(** ** [EnterOnItem]: a span from one item to the next, the parent of what is
    opened while the stream is polled *)
Record EnterOnItem (St : Type) := mkEnterOnItem {
  ei_inner : St;
  ei_span : option Span;
  ei_last_trace_id : option TraceId;
}.
Arguments mkEnterOnItem {St} _ _ _.
Arguments ei_inner {St} _.
Arguments ei_span {St} _.
Arguments ei_last_trace_id {St} _.

Definition enter_on_item {St} (inner : St) : EnterOnItem St := mkEnterOnItem inner None None.

Definition EnterOnItem_poll_next {St X A} (f : span_fn) (inner : traced_layer St X A) : traced_layer (EnterOnItem St) X A :=
  λ st w up,
  let '(span, w) := get_or_insert_with (ei_span st) f w in
  let id := span_trace_id span in
  let w := set_local_parent span w in
  '(a, i, w, up) ← inner (ei_inner st) w up;
  let w := drop_guard w in
  match a with
  | Pending => mret (Pending, mkEnterOnItem i (Some span) id, w, up)
  | Ready r => mret (Ready r, mkEnterOnItem i None id, drop_span span w, up)
  end.

(** [TraceInfo::last_trace_id] *)
Definition last_trace_id {St} (st : EnterOnItem St) : option TraceId := ei_last_trace_id st.

(** A stream that opens no span of its own. *)
Definition untraced {St X A} (f : layer St X (item_answer A)) : traced_layer St X A :=
  λ st w up, '(a, st, up) ← f st up; mret (a, st, w, up).

(** [n] polls. *)
Fixpoint traced_polls {St X A} (poll_next : traced_layer St X A) (n : nat) (st : St) (w : TraceWorld) (up : list X) :
    outcome Empty_set (list (item_answer A) * St * TraceWorld * list X) :=
  match n with
  | O => mret ([], st, w, up)
  | S n =>
      '(a, st, w, up) ← poll_next st w up;
      '(out, st, w, up) ← traced_polls poll_next n st w up;
      mret (a :: out, st, w, up)
  end.

(** ** Transparency *)

(** [inner] answers as [f] does on the state [π] gives, and the spans it has
    opened and not ended are those its state owns, none after an item. *)
Definition transparent {St S0 X A} (inner : traced_layer St X A) (f : layer S0 X (item_answer A))
    (π : St → S0) (owned : St → list Span) : Prop :=
  ∀ st w up rest, open_spans w ≡ₚ owned st ++ rest →
  match f (π st) up with
  | Ok (a, s', up') => ∃ st' w', inner st w up = Ok (a, st', w', up') ∧ π st' = s' ∧
      open_spans w' ≡ₚ owned st' ++ rest ∧ (a ≠ Pending → owned st' = [])
  | Err e => inner st w up = Err e
  | Panic => inner st w up = Panic
  end.

Lemma untraced_transparent {St X A} (f : layer St X (item_answer A)) : transparent (untraced f) f id (λ _, []).
Proof.
  intros st w up rest Hw. unfold untraced. cbn. destruct (f st up) as [[[a s'] up']|e|]; [|done|done].
  by exists s', w.
Qed.

Lemma get_or_insert_owned f span w own rest :
  starts_span f → open_spans w ≡ₚ (option_list span ++ own) ++ rest →
  open_spans (get_or_insert_with span f w).2 ≡ₚ own ++ (get_or_insert_with span f w).1 :: rest.
Proof.
  intros Hf Hw. etrans; [|apply Permutation_middle]. destruct span as [s|]; cbn [get_or_insert_with option_list fst snd] in *; [exact Hw|].
  etrans; [apply Hf|]. by rewrite Hw.
Qed.

Lemma PendingTracer_transparent {St S0 X A} (inner : traced_layer St X A) (f : layer S0 X (item_answer A)) π owned :
  transparent inner f π owned →
  transparent (PendingTracer_poll_next inner) f (λ st, π (pt_frame st))
    (λ st, option_list (pt_span st) ++ owned (pt_frame st)).
Proof.
  intros Hin st w up rest Hw. unfold PendingTracer_poll_next.
  pose proof (get_or_insert_owned _ _ _ _ _ (open_enter "codec.pending") Hw) as Hw1.
  destruct (get_or_insert_with _ _ w) as [span w1]. cbn [fst snd] in Hw1.
  pose proof (Hin (pt_frame st) w1 up _ Hw1) as H.
  destruct (f (π (pt_frame st)) up) as [[[a s'] up']|e|]; [|by rewrite H|by rewrite H].
  destruct H as (fr & w2 & -> & <- & Hw2 & Hown). cbn [mbind outcome_bind]. destruct a as [r|].
  - rewrite (Hown ltac:(done)) in Hw2. eexists _, _. split_and!; [done|done| |by intros _; cbn; rewrite Hown].
    cbn. rewrite Hown by done. cbn. by apply open_drop.
  - eexists _, _. split_and!; [done|done| |done]. cbn. rewrite Hw2. cbn. by rewrite Permutation_middle.
Qed.

Lemma EnterOnItem_transparent {St S0 X A} sf (inner : traced_layer St X A) (f : layer S0 X (item_answer A)) π owned :
  starts_span sf → transparent inner f π owned →
  transparent (EnterOnItem_poll_next sf inner) f (λ st, π (ei_inner st))
    (λ st, option_list (ei_span st) ++ owned (ei_inner st)).
Proof.
  intros Hsf Hin st w up rest Hw. unfold EnterOnItem_poll_next.
  pose proof (get_or_insert_owned _ _ _ _ _ Hsf Hw) as Hw1.
  destruct (get_or_insert_with _ _ w) as [span w1]. cbn [fst snd] in Hw1. rewrite <-(open_set_parent span) in Hw1.
  pose proof (Hin (ei_inner st) _ up _ Hw1) as H.
  destruct (f (π (ei_inner st)) up) as [[[a s'] up']|e|]; [|by rewrite H|by rewrite H].
  destruct H as (fr & w2 & -> & <- & Hw2 & Hown). cbn [mbind outcome_bind]. rewrite <-open_drop_guard in Hw2. destruct a as [r|].
  - rewrite (Hown ltac:(done)) in Hw2. eexists _, _. split_and!; [done|done| |by intros _; cbn; rewrite Hown].
    cbn. rewrite Hown by done. cbn. by apply open_drop.
  - eexists _, _. split_and!; [done|done| |done]. cbn. rewrite Hw2. cbn. by rewrite Permutation_middle.
Qed.

Lemma transparent_polls {St S0 X A} (inner : traced_layer St X A) (f : layer S0 X (item_answer A)) π owned n st w up rest out s' up' :
  transparent inner f π owned → open_spans w ≡ₚ owned st ++ rest → polls f n (π st) up = Ok (out, s', up') →
  ∃ st' w', traced_polls inner n st w up = Ok (out, st', w', up') ∧ π st' = s' ∧ open_spans w' ≡ₚ owned st' ++ rest ∧
    (∀ a, last out = Some a → a ≠ Pending → owned st' = []).
Proof.
  intros Hin. revert st w up out. induction n as [|n IH]; intros st w up out Hw Hp; cbn [polls traced_polls] in *.
  { injection Hp as <- <- <-. by exists st, w. }
  pose proof (Hin st w up rest Hw) as H. destruct (f (π st) up) as [[[a s1] up1]| |]; cbn [mbind outcome_bind] in Hp; [|done..].
  destruct H as (st1 & w1 & -> & <- & Hw1 & Hown). cbn [mbind outcome_bind].
  destruct (polls f n (π st1) up1) as [[[out1 s2] up2]| |] eqn:Hp1; cbn [mbind outcome_bind] in Hp; [|done..].
  injection Hp as <- <- <-. destruct (IH st1 w1 up1 out1 Hw1 Hp1) as (st2 & w2 & Heq & H1 & H2 & H3). rewrite Heq.
  exists st2, w2. split_and!; [done|done|done|]. destruct out1 as [|b out1]; [|exact H3].
  intros a' [= <-] Ha. destruct n; [injection Heq as <- _ _; by apply Hown|]. exfalso.
  cbn [polls] in Hp1. destruct (f (π st1) up1) as [[[? ?] ?]| |]; cbn [mbind outcome_bind] in Hp1; try done.
  by destruct (polls f n _ _) as [[[]]| |].
Qed.

(** Tracing changes nothing: polling a stream through both wrappers gives the
    answers of the stream itself and leaves it in the same state; at most the two
    spans of the wrappers stay open between polls, and none after an item or the
    end of the stream. *)
Theorem tracing_transparent {St X A} sf (f : layer St X (item_answer A)) n st w up out s' up' :
  starts_span sf → polls f n st up = Ok (out, s', up') →
  ∃ st' w', traced_polls (EnterOnItem_poll_next sf (PendingTracer_poll_next (untraced f))) n
      (enter_on_item (trace_pending st)) w up = Ok (out, st', w', up') ∧
    pt_frame (ei_inner st') = s' ∧
    (length (open_spans w') ≤ length (open_spans w) + 2)%nat ∧
    (∀ r, last out = Some (Ready r) → open_spans w' ≡ₚ open_spans w).
Proof.
  intros Hsf Hp.
  destruct (transparent_polls _ f _ _ n (enter_on_item (trace_pending st)) w up (open_spans w) out s' up'
    (EnterOnItem_transparent sf _ f _ _ Hsf (PendingTracer_transparent _ f _ _ (untraced_transparent f))))
    as (st' & w' & H1 & H2 & H3 & H4); [done|done|].
  exists st', w'. split_and!; [done|done| |].
  - rewrite H3. destruct (ei_span st'), (pt_span (ei_inner st')); cbn; lia.
  - intros r Hr. by rewrite H3, (H4 _ Hr) by done.
Qed.
End tracing.

(** A tracer that numbers its spans. *)
Fixpoint remove_span (s : nat) (l : list nat) : list nat :=
  match l with
  | [] => []
  | x :: l => if decide (x = s) then l else x :: remove_span s l
  end.

Lemma remove_span_Permutation s l : s ∈ l → l ≡ₚ s :: remove_span s l.
Proof.
  induction l as [|x l IH]; [set_solver|]. cbn. case_decide as Hx; [by subst|].
  intros [?|Hs]%elem_of_cons; [congruence|]. rewrite (IH Hs) at 1. constructor.
Qed.

Program Definition trace_reference : Fastrace := {|
  TraceWorld := nat * list nat;
  Span := nat;
  TraceId := nat;
  span_trace_id s := Some s;
  enter_with_local_parent _ w := (w.1, (S w.1, w.1 :: w.2));
  set_local_parent _ w := w;
  drop_guard w := w;
  drop_span s w := (w.1, remove_span s w.2);
  open_spans w := w.2;
|}.
Solve Obligations with try done.
Next Obligation.
  intros s [n l] rest Hl. cbn in *. assert (s ∈ l) as Hs by (rewrite Hl; left).
  rewrite (remove_span_Permutation s l Hs) in Hl. by apply Permutation_cons_inv in Hl.
Qed.

Lemma tracing_transparent_witness :
  let up : tape Z := [Pending; Ready (Some (inr 7)); Ready (Some (inl (InvalidPacketType 3))); Ready (Some (inr 8))] in
  let sf : span_fn (FT:=trace_reference) := λ w, (w.1, (S w.1, w.1 :: w.2)) in
  ∃ st' w', traced_polls (FT:=trace_reference) (EnterOnItem_poll_next (FT:=trace_reference) sf
      (PendingTracer_poll_next (FT:=trace_reference) (untraced (FT:=trace_reference) Log_poll_next))) 3%nat
      (enter_on_item (FT:=trace_reference) (trace_pending (FT:=trace_reference) tt)) (0%nat, [9%nat]) up =
      Ok ([Pending; Ready (Some 7); Ready (Some 8)], st', w', []) ∧
    (length (open_spans (Fastrace:=trace_reference) w') ≤ 1 + 2)%nat ∧
    (∀ r, last [Pending; Ready (Some 7); Ready (Some 8)] = Some (Ready r) →
      open_spans (Fastrace:=trace_reference) w' ≡ₚ [9%nat]).
Proof.
  intros up sf.
  destruct (tracing_transparent (FT:=trace_reference) sf Log_poll_next 3%nat tt (0%nat, [9%nat]) up
    [Pending; Ready (Some 7); Ready (Some 8)] tt []) as (st' & w' & H1 & _ & H2 & H3); [by intros w|reflexivity|].
  exists st', w'. split_and!; [exact H1|exact H2|exact H3].
Defined.
