(* ===== verification/Dedup.v ===== *)
(** * Deduplication (src/codec/decoder/dedup.rs)

    The duplicate window over the bit queue and the stream layer above it.  The
    contract of the window is the set of the numbers seen; the contract of the
    layer is [first_occurrences]. *)
From S2P Require Import Prelude Errors SeqNum BitQueue Types FrameSet Stream.
Open Scope Z_scope.

Record DuplicateWindow := mkDuplicateWindow {
  first_unreceived : u24;
  received_status : BitVecQueue;
}.

Definition DuplicateWindow_default : DuplicateWindow := mkDuplicateWindow 0 BitVecQueue_default.

Section dedup.
Context {B : Build}.

(** [for _ in 0..n { push_back(false) }] *)
Fixpoint push_false (n : nat) (q : BitVecQueue) : BitVecQueue :=
  match n with
  | O => q
  | S n => push_false n (BitVecQueue_push_back false q)
  end.

(** [while let Some(true) = front() { .. }]: every iteration takes a bit off the
    queue, so that its length bounds the iterations. *)
Fixpoint drain_front {E} (fuel : nat) (w : DuplicateWindow) : outcome E DuplicateWindow :=
  match BitVecQueue_front (received_status w) with
  | Some true =>
      match fuel with
      | O => Panic
      | S fuel =>
          let q := BitVecQueue_pop_front (received_status w) in
          n ← u24_add_assign (first_unreceived w) 1;
          drain_front fuel (mkDuplicateWindow n q)
      end
  | _ => mret w
  end.

Definition duplicate {E} (seq_num : u24) (w : DuplicateWindow) :
    outcome E (bool * DuplicateWindow) :=
  if seq_num <? first_unreceived w then mret (true, w)
  else
    d ← u24_sub seq_num (first_unreceived w);
    let gap := Z.to_nat (u24_to_usize d) in
    let q := received_status w in
    let finish q :=
      w ← drain_front (BitVecQueue_len q) (mkDuplicateWindow (first_unreceived w) q);
      mret (false, w) in
    if decide (gap < BitVecQueue_len q)%nat then
      bit ← BitVecQueue_get q gap;
      match bit with
      | Some true => mret (true, w)
      | _ => q ← BitVecQueue_set gap true q; finish q
      end
    else finish (BitVecQueue_push_back true (push_false (gap - BitVecQueue_len q) q)).

(** [frame_set.set.retain(..)]: frames without a reliable index pass. *)
Fixpoint dedup_retain {E} (w : DuplicateWindow) (set : list Frame) :
    outcome E (list Frame * DuplicateWindow) :=
  match set with
  | [] => mret ([], w)
  | frame :: set =>
      '(keep, w) ←
        match reliable_frame_index frame with
        | None => mret (true, w)
        | Some idx => '(d, w) ← duplicate idx w; mret (negb d, w)
        end;
      '(set, w) ← dedup_retain w set;
      mret (if keep : bool then frame :: set else set, w)
  end.

Fixpoint Dedup_poll_next (window : DuplicateWindow) (up : tape FrameSet_) :
    outcome Empty_set (answer FrameSet_ * DuplicateWindow * tape FrameSet_) :=
  match up with
  | [] => mret (Pending, window, [])
  | Pending :: up => mret (Pending, window, up)
  | Ready (Some (inl e)) :: up => mret (Ready (Some (inl e)), window, up)
  | Ready None :: up => mret (Ready None, window, up)
  | Ready (Some (inr frame_set)) :: up =>
      '(set, window) ← dedup_retain window (set frame_set);
      match set with
      | [] => Dedup_poll_next window up
      | _ => mret (Ready (Some (inr (mkFrameSet (seq_num frame_set) set))), window, up)
      end
  end.

(** ** The window as a set *)

(** The numbers the window has seen are those below [first_unreceived] and those
    whose bit is set; the first bit is not set. *)
Definition window_seen (seen : Z → Prop) (w : DuplicateWindow) : Prop :=
  BitVecQueue_wf (received_status w) ∧ 0 ≤ first_unreceived w < 2 ^ 24 ∧
  head (BitVecQueue_bits (received_status w)) ≠ Some true ∧
  ∀ x, 0 ≤ x → seen x ↔ x < first_unreceived w ∨
    BitVecQueue_bits (received_status w) !! Z.to_nat (x - first_unreceived w) = Some true ∧
    first_unreceived w ≤ x.

Lemma window_seen_default : window_seen (λ _, False) DuplicateWindow_default.
Proof.
  split_and!; [apply BitVecQueue_default_wf|done|done|done|].
  intros x Hx. cbn. rewrite lookup_nil. naive_solver lia.
Qed.

Lemma push_false_spec n q :
  BitVecQueue_wf q →
  BitVecQueue_wf (push_false n q) ∧
  BitVecQueue_bits (push_false n q) = BitVecQueue_bits q ++ replicate n false.
Proof.
  revert q. induction n as [|n IH]; intros q Hq; cbn; [by rewrite app_nil_r|].
  destruct (BitVecQueue_push_back_spec q false Hq) as [Hq' Hb].
  destruct (IH _ Hq') as [? ->]. rewrite Hb, <-app_assoc. done.
Qed.

Lemma drain_front_spec {E} fuel w seen :
  BitVecQueue_wf (received_status w) → (BitVecQueue_len (received_status w) ≤ fuel)%nat →
  0 ≤ first_unreceived w → first_unreceived w < 2 ^ 24 →
  (∀ x, seen x → x < 2 ^ 24 - 1) →
  (∀ x, 0 ≤ x → seen x ↔ x < first_unreceived w ∨
    BitVecQueue_bits (received_status w) !! Z.to_nat (x - first_unreceived w) = Some true ∧
    first_unreceived w ≤ x) →
  ∃ w', drain_front (E:=E) fuel w = Ok w' ∧ window_seen seen w'.
Proof.
  revert w. induction fuel as [|fuel IH]; intros [f q] Hq Hlen H0 H1 Hb Hseen; cbn in *.
  all: destruct (BitVecQueue_front_spec q Hq) as [Hf _].
  - assert (BitVecQueue_bits q = []) as Hn by (apply nil_length_inv; rewrite length_bits; lia).
    rewrite Hn in Hf.
    assert (BitVecQueue_front q ≠ Some true) as Hf' by (by rewrite Hf).
    exists (mkDuplicateWindow f q). split; [by destruct (BitVecQueue_front q) as [[]|]|].
    split_and!; [done|done|done|by cbn; rewrite Hn|done].
  - destruct (decide (BitVecQueue_front q = Some true)) as [Ht|Ht].
    + rewrite Ht. apply Hf in Ht.
      destruct (BitVecQueue_bits q) as [|b bits] eqn:Hbits; [done|]. injection Ht as ->.
      destruct (BitVecQueue_pop_front_spec q Hq) as [Hq' Hb']. rewrite Hbits in Hb'. cbn in Hb'.
      assert (seen f) as Hsf.
      { apply Hseen; [lia|]. right. by rewrite Z.sub_diag. }
      apply Hb in Hsf. rewrite u24_add_assign_eq, u24_add_Ok by lia. cbn.
      apply IH; cbn; [done| |lia|lia|done|].
      * apply (f_equal length) in Hb'. rewrite length_bits in Hb'.
        apply (f_equal length) in Hbits. rewrite length_bits in Hbits. cbn in Hbits. lia.
      * intros x Hx. rewrite Hseen, Hb' by done. split.
        -- intros [?|[Hl Hge]]; [left; lia|]. destruct (decide (x = f)) as [->|]; [left; lia|].
           right. split; [|lia].
           replace (Z.to_nat (x - f)) with (S (Z.to_nat (x - (f + 1)))) in Hl by lia. done.
        -- intros [?|[Hl Hge]].
           ++ destruct (decide (x = f)) as [->|]; [|left; lia]. right. by rewrite Z.sub_diag.
           ++ right. split; [|lia].
              by replace (Z.to_nat (x - f)) with (S (Z.to_nat (x - (f + 1)))) by lia.
    + exists (mkDuplicateWindow f q). split; [by destruct (BitVecQueue_front q) as [[]|]|].
      split_and!; [done|done|done| |done]. cbn. by rewrite <-Hf.
Qed.

(** The sequence numbers below the last one, which the window can count up to. *)
Definition countable (x : Z) : Prop := 0 ≤ x < 2 ^ 24 - 1.

Lemma window_seen_ext P Q w : (∀ x, 0 ≤ x → P x ↔ Q x) → window_seen P w → window_seen Q w.
Proof. 
  intros HPQ (Hq & Hf & Hh & Hw). split; [done|]. split; [done|]. split; [done|].
  intros x Hx. by rewrite <-HPQ, Hw.
Qed.

Lemma duplicate_spec {E} (hist : list Z) s w :
  window_seen (.∈ hist) w → Forall countable hist → countable s →
  ∃ w', duplicate (E:=E) s w = Ok (bool_decide (s ∈ hist), w') ∧ window_seen (.∈ s :: hist) w'.
Proof.
  intros Hw Hh [Hs0 Hs1]. pose proof Hw as (Hq & Hf & Hhd & Hseen).
  assert (∀ x, x ∈ s :: hist → x < 2 ^ 24 - 1) as Hb.
  { intros x [->|Hx]%elem_of_cons; [done|]. rewrite Forall_forall in Hh. by apply Hh in Hx as [_ ?]. }
  assert (s ∈ hist → window_seen (.∈ s :: hist) w) as Hdup.
  { intros Hin. eapply window_seen_ext; [|exact Hw]. intros x _. cbn. set_solver. }
  destruct w as [f q]. cbn in *. unfold duplicate. cbn [first_unreceived received_status].
  destruct (Z.ltb_spec s f) as [Hlt|Hge].
  { assert (s ∈ hist) as Hin by (apply Hseen; [done|by left]).
    exists (mkDuplicateWindow f q). rewrite bool_decide_true by done. auto. }
  rewrite u24_sub_Ok by lia. cbn [mbind outcome_bind]. unfold u24_to_usize.
  assert (s ∈ hist ↔ BitVecQueue_bits q !! Z.to_nat (s - f) = Some true) as Hin.
  { rewrite Hseen by done. naive_solver lia. }
  (* how a queue with the bit of [s] set represents the larger history *)
  assert (∀ q', BitVecQueue_wf q' →
    (∀ i, BitVecQueue_bits q' !! i = Some true ↔
      BitVecQueue_bits q !! i = Some true ∨ i = Z.to_nat (s - f)) →
    s ∉ hist →
    ∃ w', (w ← drain_front (E:=E) (BitVecQueue_len q') (mkDuplicateWindow f q'); mret (false, w)) =
      Ok (bool_decide (s ∈ hist), w') ∧ window_seen (.∈ s :: hist) w') as Hfin.
  { intros q' Hq' Hbits Hnin. rewrite bool_decide_false by done.
    destruct (drain_front_spec (E:=E) (BitVecQueue_len q') (mkDuplicateWindow f q') (.∈ s :: hist))
      as (w' & -> & Hw'); cbn; [done|lia|lia|lia|done| |by exists w'].
    intros x Hx. rewrite elem_of_cons, Hseen, Hbits by done. split.
    - intros [->|[?|[? ?]]]; [right; split; [by right|lia]|by left|right; split; [by left|done]].
    - intros [?|[[?|He] ?]]; [by right; left|right; right; done|left; lia]. }
  destruct (decide (Z.to_nat (s - f) < BitVecQueue_len q)%nat) as [Hd|Hd].
  - rewrite BitVecQueue_get_spec by done. cbn [mbind outcome_bind].
    destruct (lookup_lt_is_Some_2 (BitVecQueue_bits q) (Z.to_nat (s - f))) as [b Hbit];
      [rewrite length_bits; lia|]. rewrite Hbit in *. destruct b.
    + rewrite bool_decide_true by (by apply Hin). eexists. split; [done|]. by apply Hdup, Hin.
    + destruct (BitVecQueue_set_spec (E:=E) q (Z.to_nat (s - f)) true Hq) as (q' & -> & Hq' & Hb').
      cbn [mbind outcome_bind]. apply Hfin; [done| |by rewrite Hin].
      intros i. rewrite Hb'. destruct (decide (i = Z.to_nat (s - f))) as [->|Hne].
      * rewrite list_lookup_insert_eq by (by rewrite length_bits). naive_solver.
      * rewrite list_lookup_insert_ne by done. naive_solver.
  - set (n := (Z.to_nat (s - f) - BitVecQueue_len q)%nat).
    destruct (push_false_spec n q Hq) as [Hq1 Hb1].
    destruct (BitVecQueue_push_back_spec (push_false n q) true Hq1) as [Hq2 Hb2].
    assert (BitVecQueue_bits q !! Z.to_nat (s - f) = None) as Hnone
      by (apply lookup_ge_None_2; rewrite length_bits; lia).
    apply Hfin; [done| |rewrite Hin, Hnone; naive_solver].
    intros i. rewrite Hb2, Hb1. rewrite !lookup_app_Some, list_lookup_singleton_Some, lookup_replicate.
    rewrite length_app, length_replicate, length_bits. subst n. naive_solver lia.
Qed.

Fixpoint duplicate_all {E} (w : DuplicateWindow) (xs : list Z) :
    outcome E (list bool * DuplicateWindow) :=
  match xs with
  | [] => mret ([], w)
  | x :: xs =>
      '(d, w) ← duplicate x w;
      '(ds, w) ← duplicate_all w xs;
      mret (d :: ds, w)
  end.

Lemma duplicate_all_spec {E} hist w xs :
  window_seen (.∈ hist) w → Forall countable hist → Forall countable xs →
  ∃ w', duplicate_all (E:=E) w xs =
    Ok (imap (λ i x, bool_decide (x ∈ hist ++ take i xs)) xs, w').
Proof.
  intros Hw Hh Hxs. revert hist w Hw Hh. induction Hxs as [|x xs Hx Hxs IH]; intros hist w Hw Hh.
  { by exists w. }
  cbn [duplicate_all]. destruct (duplicate_spec (E:=E) hist x w Hw Hh Hx) as (w1 & -> & Hw1).
  cbn [mbind outcome_bind].
  destruct (IH (x :: hist) w1 Hw1) as (w2 & -> ); [by constructor|].
  exists w2. cbn [mbind outcome_bind imap mret outcome_ret]. do 3 f_equal.
  - apply bool_decide_ext. by rewrite app_nil_r.
  - apply imap_ext. intros i y _. cbn. apply bool_decide_ext. set_solver.
Qed.

(** ** The layer *)

(** The contract: frames whose reliable index occurred before are dropped, and
    nothing else; [hist] are the indices seen so far. *)
Fixpoint first_occurrences (hist : list Z) (fs : list Frame) : list Frame :=
  match fs with
  | [] => []
  | f :: fs =>
      match reliable_frame_index f with
      | None => f :: first_occurrences hist fs
      | Some i =>
          if bool_decide (i ∈ hist) then first_occurrences hist fs
          else f :: first_occurrences (i :: hist) fs
      end
  end.

Definition reliable_indices (fs : list Frame) : list Z := fs ≫= λ f, option_list (reliable_frame_index f).

Lemma first_occurrences_ext fs h1 h2 :
  (∀ x, x ∈ h1 ↔ x ∈ h2) → first_occurrences h1 fs = first_occurrences h2 fs.
Proof.
  revert h1 h2. induction fs as [|f fs IH]; intros h1 h2 H; cbn; [done|].
  destruct (reliable_frame_index f) as [i|]; [|f_equal; by apply IH].
  rewrite (bool_decide_ext (i ∈ h1) (i ∈ h2)) by apply H. case_bool_decide; [by apply IH|].
  f_equal. apply IH. intros x. rewrite !elem_of_cons, H. done.
Qed.

Lemma first_occurrences_app hist fs gs :
  first_occurrences hist (fs ++ gs) =
  first_occurrences hist fs ++ first_occurrences (reliable_indices fs ++ hist) gs.
Proof.
  revert hist. induction fs as [|f fs IH]; intros hist; cbn; [done|].
  destruct (reliable_frame_index f) as [i|]; cbn; [|by rewrite IH].
  case_bool_decide as Hi.
  - rewrite IH. f_equal. apply first_occurrences_ext. set_solver.
  - rewrite IH. cbn. do 2 f_equal. apply first_occurrences_ext. set_solver.
Qed.

Lemma first_occurrences_NoDup hist fs :
  NoDup (reliable_indices (first_occurrences hist fs)) ∧
  (∀ x, x ∈ reliable_indices (first_occurrences hist fs) → x ∉ hist).
Proof.
  revert hist. induction fs as [|f fs IH]; intros hist; cbn; [split; [constructor|set_solver]|].
  destruct (reliable_frame_index f) as [i|] eqn:Hi; cbn; [|rewrite Hi; apply IH].
  case_bool_decide as Hin; [apply IH|]. cbn. rewrite Hi. cbn.
  destruct (IH (i :: hist)) as [H1 H2]. split.
  - constructor; [|done]. intros Hx%H2. set_solver.
  - intros x [->|Hx]%elem_of_cons; [done|]. apply H2 in Hx. set_solver.
Qed.

(** Every frame the layer is given can be counted. *)
Lemma first_occurrences_length hist fs : (length (first_occurrences hist fs) ≤ length fs)%nat.
Proof.
  revert hist. induction fs as [|f fs IH]; intros hist; cbn; [done|].
  destruct (reliable_frame_index f); cbn; [case_bool_decide; cbn|]; auto using le_S, le_n_S.
Qed.

Definition frames_countable (fs : list Frame) : Prop := Forall countable (reliable_indices fs).

Lemma dedup_retain_spec {E} hist w fs :
  window_seen (.∈ hist) w → Forall countable hist → frames_countable fs →
  ∃ w', dedup_retain (E:=E) w fs = Ok (first_occurrences hist fs, w') ∧
    window_seen (.∈ reliable_indices fs ++ hist) w'.
Proof.
  revert hist w. induction fs as [|f fs IH]; intros hist w Hw Hh Hfs; [by exists w|].
  cbn. unfold frames_countable in Hfs. cbn in Hfs.
  destruct (reliable_frame_index f) as [i|]; cbn in Hfs |- *.
  - apply Forall_cons in Hfs as [Hi Hfs].
    destruct (duplicate_spec (E:=E) hist i w Hw Hh Hi) as (w1 & -> & Hw1). cbn.
    destruct (IH (i :: hist) w1 Hw1) as (w2 & -> & Hw2); [by constructor|done|]. cbn.
    exists w2. split.
    + case_bool_decide; cbn; [|done]. do 2 f_equal. apply first_occurrences_ext. set_solver.
    + eapply window_seen_ext; [|exact Hw2]. intros x _. cbn. set_solver.
  - destruct (IH hist w Hw Hh Hfs) as (w2 & -> & Hw2). cbn. by exists w2.
Qed.

(** The frames of the frame sets of a tape, in order. *)
Definition tape_frames (t : tape FrameSet_) : list Frame := items t ≫= set.

Lemma tape_frames_app t u : tape_frames (t ++ u) = tape_frames t ++ tape_frames u.
Proof. unfold tape_frames. by rewrite items_app, bind_app. Qed.

Lemma reliable_indices_app fs gs :
  reliable_indices (fs ++ gs) = reliable_indices fs ++ reliable_indices gs.
Proof. unfold reliable_indices. by rewrite bind_app. Qed.

(** One poll: what it takes off the tape below and what it answers, [hist] being
    the indices seen before it. *)
Lemma Dedup_poll_spec hist w up :
  window_seen (.∈ hist) w → Forall countable hist → frames_countable (tape_frames up) →
  ∃ a w' used up', Dedup_poll_next w up = Ok (a, w', up') ∧ up = used ++ up' ∧
    tape_frames [a] = first_occurrences hist (tape_frames used) ∧
    errors [a] = errors used ∧
    Forall (λ s, set s ≠ []) (items [a]) ∧
    window_seen (.∈ reliable_indices (tape_frames used) ++ hist) w'.
Proof.
  revert hist w. induction up as [|x up IH]; intros hist w Hw Hh Hup.
  { exists Pending, w, [], []. by split_and!. }
  assert (tape_frames [x] = [] → answer_items x = [] →
    (∃ w' up', Dedup_poll_next w (x :: up) = Ok (x, w', up') ∧ up' = up ∧ w' = w) →
    ∃ a w' used up', Dedup_poll_next w (x :: up) = Ok (a, w', up') ∧ x :: up = used ++ up' ∧
    tape_frames [a] = first_occurrences hist (tape_frames used) ∧
    errors [a] = errors used ∧
    Forall (λ s, set s ≠ []) (items [a]) ∧
    window_seen (.∈ reliable_indices (tape_frames used) ++ hist) w') as Hpass.
  { intros Hx Hi (w' & up' & Hp & -> & ->). exists x, w, [x], up. rewrite Hx.
    unfold items. cbn. rewrite Hi. by split_and!. }
  destruct x as [[[e|fs]|]|]; try (apply Hpass; [done|done|by eexists _, _]). clear Hpass.
  change (Ready (Some (inr fs)) :: up) with ([Ready (Some (inr fs))] ++ up) in Hup.
  rewrite tape_frames_app in Hup. unfold frames_countable in Hup.
  rewrite reliable_indices_app, Forall_app in Hup. destruct Hup as [Hfs Hup].
  assert (tape_frames [Ready (Some (inr fs))] = set fs) as Htf.
  { unfold tape_frames, items. cbn. by rewrite app_nil_r. }
  rewrite Htf in Hfs.
  cbn [Dedup_poll_next].
  destruct (dedup_retain_spec (E:=Empty_set) hist w (set fs) Hw Hh Hfs) as (w1 & -> & Hw1).
  cbn [mbind outcome_bind]. destruct (first_occurrences hist (set fs)) as [|g gs] eqn:Hfo.
  - destruct (IH _ w1 Hw1) as (a & w' & used & up' & -> & -> & H1 & H2 & H3 & H4);
      [by apply Forall_app|done|].
    exists a, w', (Ready (Some (inr fs)) :: used), up'.
    change (Ready (Some (inr fs)) :: used) with ([Ready (Some (inr fs))] ++ used).
    rewrite tape_frames_app, errors_app, Htf, first_occurrences_app, Hfo, reliable_indices_app.
    split_and!; try done. eapply window_seen_ext; [|exact H4]. intros y _. cbn. set_solver.
  - exists (Ready (Some (inr (mkFrameSet (seq_num fs) (g :: gs))))), w1, [Ready (Some (inr fs))], up.
    rewrite Htf, Hfo.
    split_and!; [reflexivity|done| |done| |done].
    + unfold tape_frames, items. cbn. by rewrite app_nil_r.
    + unfold items. cbn. by constructor.
Qed.

Lemma Dedup_polls_spec n hist w up :
  window_seen (.∈ hist) w → Forall countable hist → frames_countable (tape_frames up) →
  ∃ out w' used up', polls Dedup_poll_next n w up = Ok (out, w', up') ∧ up = used ++ up' ∧
    length out = n ∧
    tape_frames out = first_occurrences hist (tape_frames used) ∧
    errors out = errors used ∧ Forall (λ s, set s ≠ []) (items out).
Proof.
  revert hist w up. induction n as [|n IH]; intros hist w up Hw Hh Hup.
  { exists [], w, [], up. by split_and!. }
  destruct (Dedup_poll_spec hist w up Hw Hh Hup)
    as (a & w1 & u1 & up1 & Hp & -> & H1 & H2 & H3 & Hw1).
  unfold frames_countable in *. rewrite tape_frames_app, reliable_indices_app, Forall_app in Hup.
  destruct Hup as [Hu1 Hup1].
  destruct (IH _ w1 up1 Hw1) as (out & w2 & u2 & up2 & Hps & -> & Hlen & H4 & H5 & H6);
    [by apply Forall_app|done|].
  exists (a :: out), w2, (u1 ++ u2), up2. cbn [polls]. rewrite Hp. cbn [mbind outcome_bind].
  rewrite Hps. cbn [mbind outcome_bind]. change (a :: out) with ([a] ++ out).
  rewrite !tape_frames_app, !errors_app, items_app, first_occurrences_app, <-app_assoc.
  split_and!; [done|done|cbn; lia| | |].
  - by rewrite H1, H4.
  - by rewrite H2, H5.
  - by apply Forall_app.
Qed.

(** The duplicate window is exact: fed with any sequence of numbers (below
    the last 24-bit one), it reports each of them as a duplicate if and only if
    the number occurred before, and never panics. *)
Theorem DuplicateWindow_exact {E} (xs : list Z) :
  Forall countable xs →
  ∃ w, duplicate_all (E:=E) DuplicateWindow_default xs =
    Ok (imap (λ i x, bool_decide (x ∈ take i xs)) xs, w).
Proof.
  intros Hxs. eapply (duplicate_all_spec (E:=E) []); [|constructor|done].
  eapply window_seen_ext; [|apply window_seen_default]. intros x _. cbn. set_solver.
Qed.

(** C12. The deduplication layer delivers every numbered frame once, for reliable
    indices below 0xFFFFFF (the window cannot count past them): over any number of polls,
    the frames it hands up are the frames it received, in order, less those whose
    reliable index was received before.  In particular no reliable index is
    delivered twice, while frames without one, those of unreliable messages, pass
    as often as they come, although the documentation of [Reliability::Unreliable]
    promises that duplicates of these are discarded too.  Errors of the stream below
    are passed on, no empty frame set is delivered, and nothing panics. *)
Theorem Dedup_delivers_once n (up : tape FrameSet_) :
  frames_countable (tape_frames up) →
  ∃ out w used up', polls Dedup_poll_next n DuplicateWindow_default up = Ok (out, w, up') ∧
    up = used ++ up' ∧ length out = n ∧
    tape_frames out = first_occurrences [] (tape_frames used) ∧
    NoDup (reliable_indices (tape_frames out)) ∧
    errors out = errors used ∧ Forall (λ s, set s ≠ []) (items out).
Proof.
  intros Hup. destruct (Dedup_polls_spec n [] DuplicateWindow_default up)
    as (out & w & used & up' & Hp & Hu & Hlen & H1 & H2 & H3); [|constructor|done|].
  { eapply window_seen_ext; [|apply window_seen_default]. intros x _. cbn. set_solver. }
  exists out, w, used, up'. split_and!; [done..| |done|done].
  rewrite H1. apply first_occurrences_NoDup.
Qed.
End dedup.

Lemma DuplicateWindow_exact_witness :
  ∃ w, duplicate_all (B:=true) (E:=CodecError) DuplicateWindow_default [0; 130; 0; 1; 130; 2] =
    Ok ([false; false; true; false; true; false], w).
Proof.
  apply (DuplicateWindow_exact (B:=true) (E:=CodecError) [0; 130; 0; 1; 130; 2]).
  by repeat constructor.
Defined.

(** A frame with a reliable index and nothing else of interest. *)
Definition reliable_frame (i : Z) : Frame :=
  mkFrame (Flags_new Reliable false) (Some i) None None None [i].

Lemma Dedup_delivers_once_witness :
  let up := [Ready (Some (inr (mkFrameSet 0 [reliable_frame 0; reliable_frame 1])));
             Ready (Some (inr (mkFrameSet 1 [reliable_frame 1]))); Pending;
             Ready (Some (inr (mkFrameSet 2 [reliable_frame 1; reliable_frame 2])))] in
  ∃ out w used up', polls (Dedup_poll_next (B:=true)) 3 DuplicateWindow_default up = Ok (out, w, up') ∧
    up = used ++ up' ∧ length out = 3%nat ∧
    tape_frames out = first_occurrences [] (tape_frames used) ∧
    NoDup (reliable_indices (tape_frames out)) ∧
    errors out = errors used ∧ Forall (λ s, set s ≠ []) (items out).
Proof.
  intros up. apply (Dedup_delivers_once (B:=true) 3 up). by repeat constructor.
Defined.
