(* ===== verification/Collections.v ===== *)
(** * Collections

    [std::collections::BinaryHeap] and the [lru] crate's [LruCache], as
    interfaces of operations with their documented behaviour, each with a
    concrete instance. *)
From S2P Require Import Prelude.
Open Scope Z_scope.

(** ** [BinaryHeap]

    The elements of a heap are a list in an order of the implementation's own.
    Every element type of the source is ordered by an integer [key]; [push] and
    [pop] say which elements are in the heap, and [pop] takes one of the largest
    key.  Which one of several elements with the same key is not documented, and
    no theorem depends on it. *)
Class BinaryHeap := {
  heap_ok : ∀ {A} (key : A → Z), list A → Prop;
  heap_push : ∀ {A} (key : A → Z), A → list A → list A;
  heap_pop : ∀ {A} (key : A → Z), list A → option (A * list A);
  heap_ok_nil {A} (key : A → Z) : heap_ok key [];
  heap_push_ok {A} (key : A → Z) x h : heap_ok key h → heap_ok key (heap_push key x h);
  heap_push_Permutation {A} (key : A → Z) x h : heap_push key x h ≡ₚ x :: h;
  heap_pop_None {A} (key : A → Z) h : heap_pop key h = None ↔ h = [];
  heap_pop_Some {A} (key : A → Z) h x h' :
    heap_ok key h → heap_pop key h = Some (x, h') →
    heap_ok key h' ∧ h ≡ₚ x :: h' ∧ Forall (λ y, key y ≤ key x) h';
}.

Section heap.
Context {BH : BinaryHeap}.

(** [peek] is the element [pop] would return. *)
Definition heap_peek {A} (key : A → Z) (h : list A) : option A := fst <$> heap_pop key h.

(** [extend] *)
Definition heap_extend {A} (key : A → Z) (xs h : list A) : list A :=
  foldl (λ h x, heap_push key x h) h xs.

(** [into_iter_sorted]: repeated [pop]. *)
Fixpoint heap_drain {A} (key : A → Z) (fuel : nat) (h : list A) : list A :=
  match fuel with
  | O => []
  | S fuel =>
      match heap_pop key h with
      | Some (x, h) => x :: heap_drain key fuel h
      | None => []
      end
  end.

Definition into_iter_sorted {A} (key : A → Z) (h : list A) : list A :=
  heap_drain key (length h) h.

(** The heap after [n] pops. *)
Fixpoint heap_pop_n {A} (key : A → Z) (n : nat) (h : list A) : list A :=
  match n with
  | O => h
  | S n => match heap_pop key h with Some (_, h) => heap_pop_n key n h | None => h end
  end.

Lemma heap_pop_n_spec {A} (key : A → Z) n h :
  heap_ok key h → (n ≤ length h)%nat →
  heap_ok key (heap_pop_n key n h) ∧
  heap_drain key (length h) h =
    take n (heap_drain key (length h) h) ++ heap_drain key (length (heap_pop_n key n h)) (heap_pop_n key n h).
Proof.
  revert h. induction n as [|n IH]; intros h Hh Hn; cbn; [done|].
  destruct (heap_pop key h) as [[x h']|] eqn:Hp.
  - destruct (heap_pop_Some key h x h' Hh Hp) as (Hh' & Hperm & _).
    apply Permutation_length in Hperm. cbn in Hperm. rewrite Hperm. cbn. rewrite Hp. cbn.
    destruct (IH h' Hh') as [H1 H2]; [lia|]. split; [done|]. f_equal. exact H2.
  - apply heap_pop_None in Hp. subst h. cbn in Hn. lia.
Qed.

Lemma heap_extend_ok {A} (key : A → Z) xs h :
  heap_ok key h → heap_ok key (heap_extend key xs h) ∧ heap_extend key xs h ≡ₚ xs ++ h.
Proof.
  revert h. induction xs as [|x xs IH]; intros h Hh; cbn; [done|].
  destruct (IH _ (heap_push_ok key x h Hh)) as [H1 H2]. split; [done|].
  unfold heap_extend in H2. rewrite H2, heap_push_Permutation. symmetry. apply Permutation_middle.
Qed.

Lemma heap_drain_spec {A} (key : A → Z) fuel h :
  heap_ok key h → (length h ≤ fuel)%nat →
  heap_drain key fuel h ≡ₚ h ∧ StronglySorted (λ x y, key y ≤ key x) (heap_drain key fuel h).
Proof.
  revert h. induction fuel as [|fuel IH]; intros h Hh Hl.
  { destruct h; [split; [done|constructor]|cbn in Hl; lia]. }
  cbn. destruct (heap_pop key h) as [[x h']|] eqn:Hp.
  - destruct (heap_pop_Some key h x h' Hh Hp) as (Hh' & Hperm & Hall).
    destruct (IH h' Hh') as [IH1 IH2].
    { apply Permutation_length in Hperm. cbn in Hperm. lia. }
    split; [by rewrite IH1, Hperm|]. constructor; [done|]. by rewrite IH1.
  - apply heap_pop_None in Hp as ->. split; [done|constructor].
Qed.

Lemma into_iter_sorted_spec {A} (key : A → Z) h :
  heap_ok key h →
  into_iter_sorted key h ≡ₚ h ∧ StronglySorted (λ x y, key y ≤ key x) (into_iter_sorted key h).
Proof. intros Hh. by apply heap_drain_spec. Qed.
End heap.

(** Sorted permutations of a list with distinct keys are equal. *)
Lemma StronglySorted_key_unique {A} (key : A → Z) (l k : list A) :
  l ≡ₚ k → NoDup (key <$> l) →
  StronglySorted (λ x y, key y ≤ key x) l → StronglySorted (λ x y, key y ≤ key x) k → l = k.
Proof.
  revert k. induction l as [|x l IH]; intros k Hp Hnd Hl Hk.
  { by apply Permutation_nil_l in Hp as ->. }
  destruct k as [|y k]; [by apply Permutation_nil_r in Hp|].
  apply StronglySorted_inv in Hl as [Hl Hx]. apply StronglySorted_inv in Hk as [Hk Hy].
  cbn in Hnd. apply NoDup_cons in Hnd as [Hnin Hnd].
  assert (x = y) as ->.
  { assert (y ∈ x :: l) as Hin by (rewrite Hp; left).
    apply elem_of_cons in Hin as [|Hin]; [done|].
    assert (x ∈ y :: k) as Hin' by (rewrite <-Hp; left).
    apply elem_of_cons in Hin' as [|Hin']; [done|].
    rewrite Forall_forall in Hx, Hy. specialize (Hx _ Hin). specialize (Hy _ Hin').
    exfalso. apply Hnin. replace (key x) with (key y) by lia. by apply list_elem_of_fmap_2. }
  f_equal. apply IH; [by apply Permutation_cons_inv in Hp|done..].
Qed.

(** A concrete heap: a list sorted by decreasing key, equal keys in the order of
    their insertion. *)
Fixpoint insert_desc {A} (key : A → Z) (x : A) (l : list A) : list A :=
  match l with
  | [] => [x]
  | y :: l => if key y <? key x then x :: y :: l else y :: insert_desc key x l
  end.

Lemma insert_desc_Permutation {A} (key : A → Z) x l : insert_desc key x l ≡ₚ x :: l.
Proof.
  induction l as [|y l IH]; cbn; [done|]. destruct (key y <? key x); [done|].
  rewrite IH. apply Permutation_swap.
Qed.

Lemma insert_desc_sorted {A} (key : A → Z) x l :
  StronglySorted (λ x y, key y ≤ key x) l → StronglySorted (λ x y, key y ≤ key x) (insert_desc key x l).
Proof.
  induction 1 as [|y l Hl IH Hy]; cbn; [repeat constructor|].
  destruct (Z.ltb_spec (key y) (key x)).
  - constructor; [by constructor|]. constructor; [lia|]. eapply Forall_impl; [done|]. cbn. lia.
  - constructor; [done|]. rewrite insert_desc_Permutation. constructor; [lia|done].
Qed.

Definition pop_head {A} (h : list A) : option (A * list A) :=
  match h with [] => None | x :: h => Some (x, h) end.

Program Definition heap_sorted : BinaryHeap := {|
  heap_ok A key h := StronglySorted (λ x y, key y ≤ key x) h;
  heap_push A key x h := insert_desc key x h;
  heap_pop A key h := pop_head h;
|}.
Next Obligation. constructor. Qed.
Next Obligation. intros. by apply insert_desc_sorted. Qed.
Next Obligation. intros. apply insert_desc_Permutation. Qed.
Next Obligation. intros A key [|x h]; naive_solver. Qed.
Next Obligation.
  intros A key [|y h] x h' Hs Hp; [done|]. cbn in Hp. simplify_eq.
  apply StronglySorted_inv in Hs as [? ?]. by split_and!.
Qed.

(** ** Association lists *)
Section alist.
Context {K V : Type} `{EqDecision K}.
Implicit Types l : list (K * V).

Fixpoint alist_get (k : K) (l : list (K * V)) : option V :=
  match l with
  | [] => None
  | (k', v) :: l => if decide (k' = k) then Some v else alist_get k l
  end.

Definition alist_del (k : K) (l : list (K * V)) : list (K * V) := filter (λ e, e.1 ≠ k) l.

Lemma alist_get_None k l : alist_get k l = None ↔ k ∉ l.*1.
Proof.
  induction l as [|[k' v] l IH]; cbn; [set_solver|]. case_decide; subst.
  - split; [done|]. set_solver.
  - rewrite IH. set_solver.
Qed.

Lemma alist_get_Some_elem k l v : alist_get k l = Some v → (k, v) ∈ l.
Proof.
  induction l as [|[k' w] l IH]; cbn; [done|]. case_decide; intros; simplify_eq; set_solver.
Qed.

Lemma alist_get_del_ne k k' l : k ≠ k' → alist_get k (alist_del k' l) = alist_get k l.
Proof.
  intros Hne. unfold alist_del. induction l as [|[k2 v] l IH]; [done|].
  rewrite filter_cons. cbn. case_decide as Hd; cbn.
  - by rewrite IH.
  - rewrite IH, (decide_False (P:=k2 = k)); [done|]. intros ->. congruence.
Qed.

Lemma alist_del_keys k l x : x ∈ (alist_del k l).*1 ↔ x ∈ l.*1 ∧ x ≠ k.
Proof.
  unfold alist_del. rewrite !list_elem_of_fmap. split.
  - intros (e & -> & [Hne Hin]%list_elem_of_filter). eauto.
  - intros [(e & -> & Hin) Hne]. exists e. by rewrite list_elem_of_filter.
Qed.

Lemma alist_get_del_eq k l : alist_get k (alist_del k l) = None.
Proof. apply alist_get_None. rewrite alist_del_keys. tauto. Qed.

Lemma alist_del_elem k l e : e ∈ alist_del k l → e ∈ l.
Proof. unfold alist_del. by intros [_ ?]%list_elem_of_filter. Qed.

Lemma alist_del_NoDup k l : NoDup l.*1 → NoDup (alist_del k l).*1.
Proof.
  unfold alist_del. induction l as [|[k' v] l IH]; [done|].
  intros Hnd. cbn in Hnd. apply NoDup_cons in Hnd as [Hn Hd].
  rewrite filter_cons. case_decide; [|by apply IH].
  cbn. apply NoDup_cons. split; [|by apply IH]. intros Hin. apply Hn.
  by apply (alist_del_keys k) in Hin as [? _].
Qed.

Lemma alist_del_length k l : (length (alist_del k l) ≤ length l)%nat.
Proof. apply length_filter. Qed.

Lemma alist_del_length_lt k l : k ∈ l.*1 → (length (alist_del k l) < length l)%nat.
Proof.
  intros ([k' v] & -> & Hin)%list_elem_of_fmap. eapply length_filter_lt; [exact Hin|]. cbn. tauto.
Qed.
End alist.

(** ** [LruCache]

    [lru_list] lists the entries from the most to the least recently used. *)

(** An entry becomes the most recently used one; a new entry evicts the least
    recently used entry of a full cache. *)
Definition lru_touch {K V} `{EqDecision K} (cap : nat) (k : K) (v : V) (l : list (K * V)) :
    list (K * V) :=
  (k, v) :: match alist_get k l with Some _ => alist_del k l | None => take (cap - 1) l end.

Class LruCrate := {
  lru : Type → Type → Type;
  lru_list : ∀ {K V}, lru K V → list (K * V);
  lru_cap : ∀ {K V}, lru K V → nat;
  lru_new : ∀ {K V}, nat → lru K V;
  (* [upd] is what the caller does through the returned [&mut V] *)
  lru_get_or_insert_mut : ∀ {K V} `{EqDecision K}, K → V → (V → V) → lru K V → lru K V;
  lru_put : ∀ {K V} `{EqDecision K}, K → V → lru K V → option V * lru K V;
  lru_pop : ∀ {K V} `{EqDecision K}, K → lru K V → option V * lru K V;
  lru_new_list {K V} n : lru_list (K:=K) (V:=V) (lru_new n) = [];
  lru_new_cap {K V} n : lru_cap (K:=K) (V:=V) (lru_new n) = n;
  lru_insert_list {K V} `{EqDecision K} (k : K) (init : V) upd c :
    lru_list (lru_get_or_insert_mut k init upd c) =
      lru_touch (lru_cap c) k (upd (default init (alist_get k (lru_list c)))) (lru_list c);
  lru_insert_cap {K V} `{EqDecision K} (k : K) (init : V) upd c :
    lru_cap (lru_get_or_insert_mut k init upd c) = lru_cap c;
  lru_put_spec {K V} `{EqDecision K} (k : K) (v : V) c :
    (lru_put k v c).1 = alist_get k (lru_list c) ∧
    lru_list (lru_put k v c).2 = lru_touch (lru_cap c) k v (lru_list c) ∧
    lru_cap (lru_put k v c).2 = lru_cap c;
  lru_pop_spec {K V} `{EqDecision K} (k : K) (c : lru K V) :
    (lru_pop k c).1 = alist_get k (lru_list c) ∧
    lru_list (lru_pop k c).2 = alist_del k (lru_list c) ∧
    lru_cap (lru_pop k c).2 = lru_cap c;
}.

(** A concrete cache: its capacity and its entries. *)
Program Definition lru_reference : LruCrate := {|
  lru K V := (nat * list (K * V))%type;
  lru_list K V c := c.2;
  lru_cap K V c := c.1;
  lru_new K V n := (n, []);
  lru_get_or_insert_mut K V _ k init upd c :=
    (c.1, lru_touch c.1 k (upd (default init (alist_get k c.2))) c.2);
  lru_put K V _ k v c := (alist_get k c.2, (c.1, lru_touch c.1 k v c.2));
  lru_pop K V _ k c := (alist_get k c.2, (c.1, alist_del k c.2));
|}.
Solve Obligations with done.

(** Keys are distinct and the capacity is respected. *)
Definition lru_wf {K V} (cap : nat) (l : list (K * V)) : Prop :=
  NoDup l.*1 ∧ (length l ≤ cap)%nat.

Section lru.
Context {K V : Type} `{EqDecision K}.
Implicit Types l : list (K * V).

Lemma lru_wf_nil cap : lru_wf (K:=K) (V:=V) cap [].
Proof. split; [constructor|cbn; lia]. Qed.

Lemma lru_touch_wf cap k v l : (0 < cap)%nat → lru_wf cap l → lru_wf cap (lru_touch cap k v l).
Proof.
  intros Hc [Hnd Hlen]. unfold lru_touch. destruct (alist_get k l) as [w|] eqn:Hg.
  - apply alist_get_Some_elem in Hg.
    assert (k ∈ l.*1) as Hk by (apply list_elem_of_fmap; by exists (k, w)).
    split; cbn.
    + constructor; [|by apply alist_del_NoDup]. by intros [_ ?]%alist_del_keys.
    + pose proof (alist_del_length_lt k l Hk). lia.
  - apply alist_get_None in Hg. split; cbn.
    + constructor.
      * intros Hin. apply Hg. revert Hin. rewrite fmap_take. apply elem_of_take_elem.
      * rewrite fmap_take. eapply sublist_NoDup; [exact Hnd|apply sublist_take].
    + rewrite length_take. lia.
Qed.

Lemma lru_del_wf cap k l : lru_wf cap l → lru_wf cap (alist_del k l).
Proof.
  intros [Hnd Hlen]. split; [by apply alist_del_NoDup|]. pose proof (alist_del_length k l). lia.
Qed.

Lemma lru_touch_keys cap k v l x : x ∈ (lru_touch cap k v l).*1 → x = k ∨ x ∈ l.*1.
Proof.
  unfold lru_touch. cbn. intros [->|Hin]%elem_of_cons; [by left|right].
  destruct (alist_get k l); [by apply alist_del_keys in Hin as [? _]|].
  revert Hin. rewrite fmap_take. apply elem_of_take_elem.
Qed.

Lemma lru_touch_elem cap k v l e : e ∈ lru_touch cap k v l → e = (k, v) ∨ e ∈ l.
Proof.
  unfold lru_touch. intros [->|Hin]%elem_of_cons; [by left|right].
  destruct (alist_get k l); [by eapply alist_del_elem|by eapply elem_of_take_elem].
Qed.

Lemma lru_touch_get_eq cap k v l : alist_get k (lru_touch cap k v l) = Some v.
Proof. cbn. by rewrite decide_True. Qed.

(** Nothing is evicted while all keys come from a set no larger than the capacity. *)
Lemma lru_touch_get_ne cap (ids : list K) k k' v l :
  NoDup l.*1 → l.*1 ⊆ ids → k' ∈ ids → (length ids ≤ cap)%nat → k ≠ k' →
  alist_get k (lru_touch cap k' v l) = alist_get k l.
Proof.
  intros Hnd Hsub Hk' Hlen Hne. unfold lru_touch. cbn. rewrite decide_False by done.
  destruct (alist_get k' l) eqn:Hg; [by apply alist_get_del_ne|].
  apply alist_get_None in Hg. rewrite take_ge; [done|].
  assert (length (k' :: l.*1) ≤ length ids)%nat as Hle.
  { apply submseteq_length, NoDup_submseteq; [by constructor|]. set_solver. }
  cbn in Hle. rewrite length_fmap in Hle. lia.
Qed.
End lru.

(** ** [HashMap] iteration

    A [HashMap] is a finite map; its iteration visits every entry once, in an
    order that is not specified. *)
Class HashIter := {
  hash_iter : ∀ {K A} `{!EqDecision K} `{!Countable K}, gmap K A → list (K * A);
  hash_iter_Permutation {K A} `{!EqDecision K} `{!Countable K} (m : gmap K A) : hash_iter m ≡ₚ map_to_list m;
}.

Program Definition hash_iter_reference : HashIter := {| hash_iter K A _ _ m := map_to_list m |}.
Next Obligation. done. Qed.
