(* ===== verification/DeFragment.v ===== *)
(** * Defragmentation (src/codec/decoder/fragment.rs)

    The fragments of a message are collected in a heap per [parted_id]; the heaps
    are kept in an LRU cache.  The theorems are the bound on what a peer can make
    the layer keep, and reassembly in any order of arrival. *)
From S2P Require Import Prelude Errors SeqNum Types FrameSet Stream Collections.
Open Scope Z_scope.

(** [FrameSet<Frame>]: one frame with the sequence number of its frame set. *)
Record FrameOne := mkFrameOne {
  one_seq : u24;
  one_frame : Frame;
}.

(** [FramePart], ordered by [Reverse(parted_index)]. *)
Record FramePart := mkFramePart {
  part_index : Z;
  part_frame : Frame;
}.

Definition part_key (p : FramePart) : Z := - part_index p.

(** [BinaryHeap<FramePart>]: its elements, and the room that was reserved when it
    was made. *)
Record PartHeap := mkPartHeap {
  reserved : Z;
  heap_frames : list FramePart;
}.

(** [BinaryHeap::with_capacity(parted_size as usize)] *)
Definition with_capacity (parted_size : Z) : PartHeap := mkPartHeap parted_size [].

Section defragment.
Context {BH : BinaryHeap} {LC : LruCrate}.

(** [frames_queue.push]; a push beyond the reserved room makes more, as [Vec] does. *)
Definition part_push (p : FramePart) (h : PartHeap) : PartHeap :=
  mkPartHeap (reserved h) (heap_push part_key p (heap_frames h)).

Record DeFragment := mkDeFragment {
  limit_size : Z;
  parts : lru Z PartHeap;
  buffer : list FrameOne;
}.

(** [defragmented]: a zero [limit_parted] panics. *)
Definition defragmented {E} (limit_size : Z) (limit_parted : nat) : outcome E DeFragment :=
  assert_ (negb (bool_decide (limit_parted = 0%nat)));;
  mret (mkDeFragment limit_size (lru_new limit_parted) []).

Definition parted_index_error (f : Fragment) : CodecError :=
  PartedFrame ("parted_index " +:+ pretty (parted_index f) +:+
    " >= parted_size " +:+ pretty (parted_size f)).

Definition parted_size_error (f : Fragment) (limit : Z) : CodecError :=
  PartedFrame ("parted_size " +:+ pretty (parted_size f) +:+
    " exceed limit_size " +:+ pretty limit).

(** [.reduce(|mut acc, next| { acc.body.put(next.body); acc })] *)
Definition reduce_frames (fs : list Frame) : option Frame :=
  match fs with
  | [] => None
  | f :: fs => Some (foldl (λ acc next, with_body (body acc ++ body next) acc) f fs)
  end.

(** The body of the [for frame in frame_set.set] loop; [Err] is the early return
    with the error, together with the state it leaves. *)
Definition defrag_frame (seq : u24) (st : DeFragment) (frame : Frame) :
    outcome (CodecError * DeFragment) DeFragment :=
  match fragment frame with
  | Some frag =>
      if parted_size frag <=? parted_index frag then Err (parted_index_error frag, st)
      else if negb (limit_size st =? 0) && (limit_size st <? parted_size frag)
      then Err (parted_size_error frag (limit_size st), st)
      else
        let init := with_capacity (parted_size frag) in
        let push := part_push (mkFramePart (parted_index frag) frame) in
        let queue := push (default init (alist_get (parted_id frag) (lru_list (parts st)))) in
        let parts := lru_get_or_insert_mut (parted_id frag) init push (parts st) in
        if Z.of_nat (length (heap_frames queue)) <? parted_size frag
        then mret (mkDeFragment (limit_size st) parts (buffer st))
        else
          let '(popped, parts) := lru_pop (parted_id frag) parts in
          match popped with
          | None => Panic
          | Some heap =>
              match reduce_frames (part_frame <$> into_iter_sorted part_key (heap_frames heap)) with
              | None => Panic
              | Some merged =>
                  mret (mkDeFragment (limit_size st) parts
                    (buffer st ++ [mkFrameOne seq (Frame_reassembled merged)]))
              end
          end
  | None => mret (mkDeFragment (limit_size st) (parts st) (buffer st ++ [mkFrameOne seq frame]))
  end.

Fixpoint defrag_frames (seq : u24) (st : DeFragment) (frames : list Frame) :
    outcome (CodecError * DeFragment) DeFragment :=
  match frames with
  | [] => mret st
  | frame :: frames => st ← defrag_frame seq st frame; defrag_frames seq st frames
  end.

(** Each turn of the [loop] empties the buffer first. *)
Fixpoint DeFragment_poll_next (st : DeFragment) (up : tape FrameSet_) :
    outcome Empty_set (answer FrameOne * DeFragment * tape FrameSet_) :=
  match buffer st with
  | frame_set :: buf =>
      mret (Ready (Some (inr frame_set)), mkDeFragment (limit_size st) (parts st) buf, up)
  | [] =>
      match up with
      | [] => mret (Pending, st, [])
      | Pending :: up => mret (Pending, st, up)
      | Ready (Some (inl e)) :: up => mret (Ready (Some (inl e)), st, up)
      | Ready None :: up => mret (Ready None, st, up)
      | Ready (Some (inr frame_set)) :: up =>
          match defrag_frames (seq_num frame_set) st (set frame_set) with
          | Ok st => DeFragment_poll_next st up
          | Err (e, st) => mret (Ready (Some (inl e)), st, up)
          | Panic => Panic
          end
      end
  end.

(** ** Invariant *)

(** At most [limit_parted] messages are being reassembled, each from a valid heap
    that is smaller than [limit_size] and for which no more than that was reserved
    (when there is a limit). *)
Definition within (limit : Z) (h : PartHeap) : Prop :=
  limit = 0 ∨ Z.of_nat (length (heap_frames h)) < limit ∧ reserved h ≤ limit.

Definition DeFragment_inv (cap : nat) (st : DeFragment) : Prop :=
  lru_cap (parts st) = cap ∧ lru_wf cap (lru_list (parts st)) ∧
  Forall (λ e, heap_ok part_key (heap_frames e.2) ∧ within (limit_size st) e.2) (lru_list (parts st)).

Lemma reduce_frames_Some fs : fs ≠ [] → is_Some (reduce_frames fs).
Proof. destruct fs; [done|]. by eexists. Qed.

Lemma reduce_frames_bodies f fs :
  reduce_frames (f :: fs) = Some (with_body (body f ++ (fs ≫= body)) f).
Proof.
  cbn. f_equal. revert f. induction fs as [|g fs IH]; intros f; cbn.
  - rewrite app_nil_r. by destruct f.
  - rewrite IH. cbn. by rewrite <-app_assoc.
Qed.

Lemma into_iter_sorted_ne_nil {A} (key : A → Z) h x :
  heap_ok key h → x ∈ h → into_iter_sorted key h ≠ [].
Proof.
  intros Hh Hx Hn. destruct (into_iter_sorted_spec key h Hh) as [Hp _]. rewrite Hn in Hp.
  apply Permutation_nil_l in Hp. subst. set_solver.
Qed.

(** The heap a fragment is pushed to, made for [n] fragments if it is new. *)
Definition heap_of (st : DeFragment) (id n : Z) : PartHeap :=
  default (with_capacity n) (alist_get id (lru_list (parts st))).

(** Its fragments. *)
Definition queue_of (st : DeFragment) (id : Z) : list FramePart :=
  heap_frames (heap_of st id 0).

Lemma heap_of_frames st id n : heap_frames (heap_of st id n) = queue_of st id.
Proof. unfold queue_of, heap_of. by destruct (alist_get _ _). Qed.

Lemma queue_of_None st id : alist_get id (lru_list (parts st)) = None → queue_of st id = [].
Proof. unfold queue_of, heap_of. by intros ->. Qed.

Lemma queue_of_Some st id h : alist_get id (lru_list (parts st)) = Some h → queue_of st id = heap_frames h.
Proof. unfold queue_of, heap_of. by intros ->. Qed.

Lemma queue_of_ok cap st id : DeFragment_inv cap st → heap_ok part_key (queue_of st id).
Proof.
  intros (_ & _ & Hall). unfold queue_of, heap_of. destruct (alist_get id _) as [q|] eqn:Hg; cbn.
  - apply alist_get_Some_elem in Hg. rewrite Forall_forall in Hall. by apply Hall in Hg as [? _].
  - apply heap_ok_nil.
Qed.

(** What one frame does to a state in the invariant. *)
Lemma defrag_frame_inv cap seq st f :
  (0 < cap)%nat → DeFragment_inv cap st →
  match defrag_frame seq st f with
  | Ok st' => DeFragment_inv cap st' ∧ limit_size st' = limit_size st ∧
      buffer st `prefix_of` buffer st'
  | Err (_, st') => st' = st
  | Panic => False
  end.
Proof.
  intros Hcap Hinv. pose proof Hinv as (Hc & Hwf & Hall).
  unfold defrag_frame. destruct (fragment f) as [g|]; [|by split_and!; [..|by eexists]].
  destruct (Z.leb_spec (parted_size g) (parted_index g)); [done|].
  destruct (negb (limit_size st =? 0) && (limit_size st <? parted_size g)) eqn:Hlim; [done|].
  pose proof (queue_of_ok cap st (parted_id g) Hinv) as Hq. rewrite <-(heap_of_frames st _ (parted_size g)) in Hq.
  cbn zeta. fold (heap_of st (parted_id g) (parted_size g)).
  set (q := heap_of st (parted_id g) (parted_size g)) in *. set (p := mkFramePart _ _).
  assert (heap_ok part_key (heap_frames (part_push p q))) as Hpq by (by apply heap_push_ok).
  assert (limit_size st = 0 ∨ reserved (part_push p q) ≤ limit_size st ∧ parted_size g ≤ limit_size st) as Hres.
  { apply andb_false_iff in Hlim as [Hz|Hz]; [left; by apply negb_false_iff, Z.eqb_eq in Hz|].
    apply Z.ltb_ge in Hz. subst q. unfold heap_of. destruct (alist_get _ _) as [h|] eqn:Hg; [|by right].
    apply alist_get_Some_elem in Hg. rewrite Forall_forall in Hall. apply Hall in Hg as [_ [?|[_ ?]]]; [by left|by right]. }
  destruct (Z.ltb_spec (Z.of_nat (length (heap_frames (part_push p q)))) (parted_size g)).
  - split_and!; [|done|done]. split_and!; cbn [parts limit_size].
    + by rewrite lru_insert_cap.
    + rewrite lru_insert_list, Hc. by apply lru_touch_wf.
    + rewrite lru_insert_list. apply Forall_forall. intros e [->|He]%lru_touch_elem.
      * split; [done|]. cbn [snd]. fold (heap_of st (parted_id g) (parted_size g)). fold q. destruct Hres as [?|[? ?]]; [by left|right]. split; [lia|done].
      * rewrite Forall_forall in Hall. by apply Hall.
  - destruct (lru_pop_spec (parted_id g)
      (lru_get_or_insert_mut (parted_id g) (with_capacity (parted_size g)) (part_push p) (parts st))) as (H1 & H2 & H3).
    destruct (lru_pop _ _) as [popped c]. cbn [fst snd] in H1, H2, H3. rewrite lru_insert_list in H1, H2.
    rewrite lru_touch_get_eq in H1. fold (heap_of st (parted_id g) (parted_size g)) in H1. fold q in H1. subst popped.
    destruct (reduce_frames_Some (part_frame <$> into_iter_sorted part_key (heap_frames (part_push p q))))
      as [m ->].
    { intros Hn%fmap_nil_inv. revert Hn. apply (into_iter_sorted_ne_nil _ _ p); [done|].
      cbn. rewrite heap_push_Permutation. left. }
    split_and!; [|done|by eexists]. split_and!; cbn [parts limit_size].
    + by rewrite H3, lru_insert_cap.
    + rewrite H2, Hc. by apply lru_del_wf, lru_touch_wf.
    + rewrite H2. apply Forall_forall. intros e He.
      assert (e.1 ≠ parted_id g) as Hne.
      { assert (e.1 ∈ (alist_del (parted_id g) (lru_touch (lru_cap (parts st)) (parted_id g)
          (part_push p q) (lru_list (parts st)))).*1) as Hk by (by apply list_elem_of_fmap_2).
        by apply alist_del_keys in Hk as [_ ?]. }
      apply alist_del_elem, lru_touch_elem in He as [->|He]; [done|].
      rewrite Forall_forall in Hall. by apply Hall.
Qed.

(** ** Reassembly *)

(** The frames the layer accepts: the index is below the size, the size below the
    limit. *)
Definition frame_valid (limit : Z) (f : Frame) : Prop :=
  match fragment f with
  | Some g => parted_index g < parted_size g ∧ (limit = 0 ∨ parted_size g ≤ limit)
  | None => True
  end.

Definition is_part (id : Z) (f : Frame) : Prop :=
  match fragment f with Some g => parted_id g = id | None => False end.

Global Instance is_part_dec id f : Decision (is_part id f).
Proof. unfold is_part. destruct (fragment f); apply _. Defined.

Definition frame_ids (f : Frame) : list Z :=
  match fragment f with Some g => [parted_id g] | None => [] end.

(** [ps] are the fragments of one message, in order. *)
Definition fragments_of (id : Z) (ps : list Frame) : Prop :=
  ∀ i f, ps !! i = Some f → fragment f = Some (mkFragment (Z.of_nat (length ps)) id (Z.of_nat i)).

(** The message they are fragments of. *)
Definition merged (ps : list Frame) : option Frame :=
  match ps with
  | [] => None
  | f :: _ => Some (Frame_reassembled (with_body (ps ≫= body) f))
  end.

(** The frames of a tape with the sequence number of their frame set. *)
Definition tape_pairs (t : tape FrameSet_) : list (Z * Frame) :=
  items t ≫= λ s, pair (seq_num s) <$> set s.

Fixpoint defrag_run (st : DeFragment) (l : list (Z * Frame)) :
    outcome (CodecError * DeFragment) DeFragment :=
  match l with
  | [] => mret st
  | (seq, f) :: l => st ← defrag_frame seq st f; defrag_run st l
  end.

Lemma defrag_frames_run seq st fs : defrag_frames seq st fs = defrag_run st (pair seq <$> fs).
Proof. revert st. induction fs as [|f fs IH]; intros st; cbn; [done|]. by destruct (defrag_frame _ _ _); cbn. Qed.

Lemma defrag_run_app st l k :
  defrag_run st (l ++ k) = (st ← defrag_run st l; defrag_run st k).
Proof.
  revert st. induction l as [|[seq f] l IH]; intros st; cbn; [done|].
  destruct (defrag_frame _ _ _); cbn; [apply IH|done..].
Qed.

Lemma tape_pairs_app t u : tape_pairs (t ++ u) = tape_pairs t ++ tape_pairs u.
Proof. unfold tape_pairs. by rewrite items_app, bind_app. Qed.

(** A valid frame is accepted. *)
Lemma defrag_frame_valid cap seq st f :
  (0 < cap)%nat → DeFragment_inv cap st → frame_valid (limit_size st) f →
  ∃ st', defrag_frame seq st f = Ok st' ∧ DeFragment_inv cap st' ∧
    limit_size st' = limit_size st ∧ buffer st `prefix_of` buffer st'.
Proof.
  intros Hcap Hinv Hv. pose proof (defrag_frame_inv cap seq st f Hcap Hinv) as Hi.
  destruct (defrag_frame seq st f) as [st'|[e st']|] eqn:Hf; [by exists st'| |done].
  exfalso. revert Hf. unfold defrag_frame, frame_valid in *. destruct (fragment f) as [g|]; [|done].
  destruct Hv as [Hlt Hl]. rewrite (proj2 (Z.leb_gt _ _)) by lia.
  destruct (negb (limit_size st =? 0) && (limit_size st <? parted_size g)) eqn:Hb.
  - apply andb_true_iff in Hb as [Hb1 Hb2]. apply negb_true_iff, Z.eqb_neq in Hb1.
    apply Z.ltb_lt in Hb2. lia.
  - cbn zeta. repeat case_match; done.
Qed.

(** The buffer is only appended to: what was in it does not matter. *)
Definition prepend (b : list FrameOne) (st : DeFragment) : DeFragment :=
  mkDeFragment (limit_size st) (parts st) (b ++ buffer st).

Lemma defrag_frame_prepend b seq st f st' :
  defrag_frame seq st f = Ok st' → defrag_frame seq (prepend b st) f = Ok (prepend b st').
Proof.
  unfold defrag_frame, prepend, mret, outcome_ret. cbn [limit_size parts buffer].
  destruct (fragment f) as [g|].
  - cbn zeta. repeat case_match; intros; simplify_eq; cbn [limit_size parts buffer];
      by rewrite ?app_assoc.
  - intros; simplify_eq. cbn. by rewrite app_assoc.
Qed.

Lemma defrag_run_prepend b st l st' :
  defrag_run st l = Ok st' → defrag_run (prepend b st) l = Ok (prepend b st').
Proof.
  revert st. induction l as [|[seq f] l IH]; intros st; cbn; [by intros [= <-]|].
  destruct (defrag_frame seq st f) as [st1| |] eqn:Hf; cbn; [|done..].
  intros Hr. rewrite (defrag_frame_prepend b _ _ _ _ Hf). cbn. by apply IH.
Qed.

(** A frame of another message leaves the heap of [id] alone, as long as the
    messages in flight fit into the cache. *)
Lemma defrag_frame_other cap ids id seq st f st' :
  DeFragment_inv cap st → defrag_frame seq st f = Ok st' →
  (lru_list (parts st)).*1 ⊆ ids → frame_ids f ⊆ ids → (length ids ≤ cap)%nat → ¬ is_part id f →
  alist_get id (lru_list (parts st')) = alist_get id (lru_list (parts st)) ∧
  (lru_list (parts st')).*1 ⊆ ids.
Proof.
  intros (Hc & [Hnd _] & _) Hf Hids Hfi Hlen Hnp. unfold defrag_frame, frame_ids, is_part, mret, outcome_ret in *.
  destruct (fragment f) as [g|]; [|by simplify_eq].
  revert Hf. cbn zeta. case_match; [done|]. case_match; [done|].
  set (push := part_push _).
  set (c := lru_get_or_insert_mut _ _ _ _).
  assert (lru_list c = lru_touch cap (parted_id g) (push (heap_of st (parted_id g) (parted_size g))) (lru_list (parts st)))
    as Hl by (subst c; by rewrite lru_insert_list, Hc).
  assert (parted_id g ∈ ids) as Hg by set_solver.
  assert (alist_get id (lru_list c) = alist_get id (lru_list (parts st))) as Hget.
  { rewrite Hl. eapply lru_touch_get_ne; eauto. }
  assert ((lru_list c).*1 ⊆ ids) as Hsub.
  { intros x. rewrite Hl. intros [->|Hx]%lru_touch_keys; [done|by apply Hids]. }
  case_match; [intros; by simplify_eq|].
  destruct (lru_pop_spec (parted_id g) c) as (_ & H2 & _).
  destruct (lru_pop (parted_id g) c) as [[h|] c']; [|done]. cbn [snd] in H2.
  case_match; [|done]. intros; simplify_eq. cbn [parts]. rewrite H2. split.
  - rewrite alist_get_del_ne; [done|congruence].
  - intros x [Hx _]%alist_del_keys. by apply Hsub.
Qed.

Lemma defrag_run_other cap ids id st l :
  (0 < cap)%nat → DeFragment_inv cap st → Forall (frame_valid (limit_size st)) l.*2 →
  (lru_list (parts st)).*1 ⊆ ids → (l.*2 ≫= frame_ids) ⊆ ids → (length ids ≤ cap)%nat →
  Forall (λ f, ¬ is_part id f) l.*2 →
  ∃ st', defrag_run st l = Ok st' ∧ buffer st `prefix_of` buffer st' ∧
    alist_get id (lru_list (parts st')) = alist_get id (lru_list (parts st)).
Proof.
  intros Hcap. revert st. induction l as [|[seq f] l IH]; intros st Hinv Hv Hids Hfi Hlen Hnp.
  { by exists st. }
  cbn in Hv, Hfi, Hnp. apply Forall_cons in Hv as [Hvf Hv]. apply Forall_cons in Hnp as [Hnf Hnp].
  apply list_subseteq_app_iff_l in Hfi as [Hf1 Hf2].
  destruct (defrag_frame_valid cap seq st f Hcap Hinv Hvf) as (st1 & Hf & Hinv1 & Hl1 & Hb1).
  destruct (defrag_frame_other cap ids id seq st f st1) as [Hg1 Hs1]; [done..|].
  cbn. rewrite Hf. cbn.
  destruct (IH st1) as (st2 & Hr & Hb2 & Hg2); [done|by rewrite Hl1|done..|].
  exists st2. split_and!; [done|by etrans|congruence].
Qed.

Definition frame_part (f : Frame) : FramePart :=
  mkFramePart (match fragment f with Some g => parted_index g | None => 0 end) f.

(** The last missing fragment completes the message. *)
Lemma complete_heap id ps q :
  fragments_of id ps → ps ≠ [] → heap_ok part_key q → q ≡ₚ frame_part <$> ps →
  reduce_frames (part_frame <$> into_iter_sorted part_key q) ≫= (λ m, Some (Frame_reassembled m)) = merged ps.
Proof.
  intros Hps Hne Hok Hq. destruct (into_iter_sorted_spec part_key q Hok) as [Hp Hs].
  assert (∀ n ps', drop n ps = ps' →
    StronglySorted (λ x y, part_key y ≤ part_key x) (frame_part <$> ps') ∧
    Forall (λ x, part_key x ≤ - Z.of_nat n) (frame_part <$> ps') ∧
    NoDup (part_key <$> (frame_part <$> ps'))) as Hsorted.
  { intros n ps' Hd. revert n Hd. induction ps' as [|f ps' IH]; intros n Hd.
    { cbn. split_and!; constructor. }
    assert (ps !! n = Some f) as Hn.
    { rewrite <-(Nat.add_0_r n), <-lookup_drop, Hd. done. }
    assert (drop (S n) ps = ps') as Hd'.
    { rewrite <-Nat.add_1_r, <-drop_drop, Hd. done. }
    destruct (IH (S n) Hd') as (H1 & H2 & H3). apply Hps in Hn.
    assert (part_key (frame_part f) = - Z.of_nat n) as Hk
      by (unfold part_key, frame_part; by rewrite Hn).
    cbn [fmap list_fmap]. split_and!.
    - constructor; [done|]. eapply Forall_impl; [exact H2|]. cbn. intros x. rewrite Hk. lia.
    - constructor; [lia|]. eapply Forall_impl; [exact H2|]. cbn. lia.
    - apply NoDup_cons. split; [|done]. rewrite Hk. intros (x & Hx & Hin)%list_elem_of_fmap.
      rewrite Forall_forall in H2. apply H2 in Hin. lia. }
  destruct (Hsorted 0%nat ps (drop_0 ps)) as (H1 & _ & H3).
  assert (into_iter_sorted part_key q = frame_part <$> ps) as ->.
  { symmetry. apply (StronglySorted_key_unique part_key); [by rewrite Hp, Hq|done..]. }
  rewrite <-list_fmap_compose. rewrite (list_fmap_ext _ (λ x, x)) by done.
  rewrite list_fmap_id.
  destruct ps as [|f ps]; [done|]. rewrite reduce_frames_bodies. done.
Qed.

(** What a fragment does: it joins its heap, or completes the message. *)
Lemma defrag_frame_part seq st f g st' :
  fragment f = Some g → defrag_frame seq st f = Ok st' →
  let q := heap_push part_key (mkFramePart (parted_index g) f) (queue_of st (parted_id g)) in
  (lru_list (parts st')).*1 ⊆ parted_id g :: (lru_list (parts st)).*1 ∧
  ((Z.of_nat (length q) < parted_size g ∧ buffer st' = buffer st ∧
    queue_of st' (parted_id g) = q) ∨
   (parted_size g ≤ Z.of_nat (length q) ∧
    ∃ m, reduce_frames (part_frame <$> into_iter_sorted part_key q) = Some m ∧
      buffer st' = buffer st ++ [mkFrameOne seq (Frame_reassembled m)] ∧
      alist_get (parted_id g) (lru_list (parts st')) = None)).
Proof.
  intros Hg. unfold defrag_frame. rewrite Hg. case_match; [done|]. case_match; [done|]. cbn zeta.
  fold (heap_of st (parted_id g) (parted_size g)). set (push := part_push _).
  set (q := push (heap_of st (parted_id g) (parted_size g))).
  rewrite <-(heap_of_frames st (parted_id g) (parted_size g)).
  change (heap_push part_key _ _) with (heap_frames q).
  set (c := lru_get_or_insert_mut _ _ _ _).
  assert (lru_list c = lru_touch (lru_cap (parts st)) (parted_id g) q (lru_list (parts st)))
    as Hl by (subst c; by rewrite lru_insert_list).
  assert ((lru_list c).*1 ⊆ parted_id g :: (lru_list (parts st)).*1) as Hsub.
  { intros x. rewrite Hl. intros [->|Hx]%lru_touch_keys; set_solver. }
  destruct (Z.ltb_spec (Z.of_nat (length (heap_frames q))) (parted_size g)).
  - intros [= <-]. split; [done|]. left. split_and!; [done|done|]. apply queue_of_Some. cbn [parts].
    by rewrite Hl, lru_touch_get_eq.
  - destruct (lru_pop_spec (parted_id g) c) as (Hpop & Hdel & _).
    destruct (lru_pop (parted_id g) c) as [o c']. cbn [fst snd] in Hpop, Hdel.
    rewrite Hl, lru_touch_get_eq in Hpop. subst o.
    destruct (reduce_frames _) as [m|] eqn:Hm; [|done]. intros [= <-]. cbn [parts buffer]. rewrite Hdel.
    split; [|right; split; [done|]; exists m; split_and!; [done|done|apply alist_get_del_eq]].
    intros x [Hx _]%alist_del_keys. by apply Hsub.
Qed.

(** The fragments of a message, in any order and interleaved with other frames,
    produce the message; [qs] are those already in the heap. *)
Lemma defrag_run_reassembles cap ids id ps st l :
  (0 < cap)%nat → DeFragment_inv cap st → Forall (frame_valid (limit_size st)) l.*2 →
  (lru_list (parts st)).*1 ⊆ ids → (l.*2 ≫= frame_ids) ⊆ ids → (length ids ≤ cap)%nat →
  fragments_of id ps →
  (∃ qs, queue_of st id ≡ₚ frame_part <$> qs ∧ qs ++ filter (is_part id) l.*2 ≡ₚ ps) →
  filter (is_part id) l.*2 ≠ [] →
  ∃ st' b1 seq m b2, defrag_run st l = Ok st' ∧ merged ps = Some m ∧
    buffer st' = buffer st ++ b1 ++ mkFrameOne seq m :: b2 ∧
    alist_get id (lru_list (parts st')) = None.
Proof.
  intros Hcap. revert st. induction l as [|[seq f] l IH];
    intros st Hinv Hv Hids Hfi Hlen Hps (qs & Hq & Hperm) Hne; [done|].
  cbn in Hv, Hfi. apply Forall_cons in Hv as [Hvf Hv].
  apply list_subseteq_app_iff_l in Hfi as [Hf1 Hf2].
  destruct (defrag_frame_valid cap seq st f Hcap Hinv Hvf) as (st1 & Hf & Hinv1 & Hl1 & Hb1).
  cbn [defrag_run]. rewrite Hf. cbn [mbind outcome_bind].
  rewrite fmap_cons, filter_cons in Hperm, Hne. cbn [snd] in Hperm, Hne.
  destruct (decide (is_part id f)) as [Hp|Hnp].
  - (* a fragment of the message *)
    assert (f ∈ ps) as [i Hi]%list_elem_of_lookup_1 by (rewrite <-Hperm; set_solver).
    pose proof (Hps i f Hi) as Hfrag.
    destruct (defrag_frame_part seq st f _ st1 Hfrag Hf) as [Hkeys Hcase]. cbn [parted_id] in *.
    replace (mkFramePart _ f) with (frame_part f) in Hcase by (unfold frame_part; by rewrite Hfrag).
    set (q := heap_push part_key (frame_part f) (queue_of st id)) in *.
    assert (q ≡ₚ frame_part <$> (f :: qs)) as Hq1
      by (subst q; by rewrite heap_push_Permutation, Hq).
    assert (heap_ok part_key q) as Hqok by (by eapply heap_push_ok, queue_of_ok).
    assert (length q = S (length qs)) as Hql by (by rewrite Hq1, length_fmap).
    assert (length ps = length q + length (filter (is_part id) l.*2))%nat as Hpl.
    { rewrite <-Hperm, length_app. cbn. lia. }
    assert ((lru_list (parts st1)).*1 ⊆ ids) as Hids1.
    { intros x Hx%Hkeys. apply elem_of_cons in Hx as [->|Hx]; [|by apply Hids].
      apply Hf1. unfold frame_ids. rewrite Hfrag. set_solver. }
    destruct Hcase as [(Hlt & Hbuf & Hget)|(Hge & m & Hm & Hbuf & Hget)]; cbn [parted_size] in *.
    + destruct (IH st1) as (st2 & b1 & seq2 & m & b2 & -> & H2 & H3 & H4);
        [done|by rewrite Hl1|done..| | |].
      * exists (f :: qs). split; [by rewrite Hget|].
        rewrite <-Hperm. cbn. apply Permutation_middle.
      * intros Hn. rewrite Hn in Hpl. cbn in Hpl. lia.
      * exists st2, b1, seq2, m, b2. by rewrite <-Hbuf.
    + assert (filter (is_part id) l.*2 = []) as Hnil by (apply nil_length_inv; lia).
      destruct (defrag_run_other cap ids id st1 l) as (st2 & -> & [b2 Hb2] & Hg2);
        [done|done|by rewrite Hl1|done..| |].
      { apply Forall_forall. intros x Hx Hxp.
        assert (x ∈ filter (is_part id) l.*2) as Hin by (by apply list_elem_of_filter).
        rewrite Hnil in Hin. set_solver. }
      pose proof (complete_heap id ps q Hps) as Hc. rewrite Hm in Hc.
      exists st2, [], seq, (Frame_reassembled m), b2. split_and!; [done| |by rewrite Hb2, Hbuf, <-app_assoc|].
      * rewrite <-Hc; [done| |done|].
        -- intros ->. by rewrite lookup_nil in Hi.
        -- rewrite Hq1. rewrite Hnil in Hperm. rewrite <-Hperm.
           rewrite Permutation_app_comm. done.
      * by rewrite Hg2.
  - destruct (defrag_frame_other cap ids id seq st f st1) as [Hg1 Hs1]; [done..|].
    destruct (IH st1) as (st2 & b1 & seq2 & m & b2 & -> & H2 & H3 & H4);
      [done|by rewrite Hl1|done..| |done|].
    { exists qs. split; [|done]. unfold queue_of, heap_of in *. by rewrite Hg1. }
    destruct Hb1 as [b0 Hb0]. exists st2, (b0 ++ b1), seq2, m, b2.
    split_and!; [done|done| |done]. by rewrite H3, Hb0, <-!app_assoc.
Qed.

(** ** Polling *)

Lemma defrag_frames_inv cap seq st fs :
  (0 < cap)%nat → DeFragment_inv cap st →
  match defrag_frames seq st fs with
  | Ok st' | Err (_, st') => DeFragment_inv cap st' ∧ limit_size st' = limit_size st
  | Panic => False
  end.
Proof.
  intros Hcap. revert st. induction fs as [|f fs IH]; intros st Hinv; cbn; [done|].
  pose proof (defrag_frame_inv cap seq st f Hcap Hinv) as Hf.
  destruct (defrag_frame seq st f) as [st1|[e st1]|]; cbn; [|by subst|done].
  destruct Hf as (Hi & <- & _). by apply IH.
Qed.

Lemma DeFragment_poll_inv cap st up :
  (0 < cap)%nat → DeFragment_inv cap st →
  ∃ a st' up', DeFragment_poll_next st up = Ok (a, st', up') ∧
    DeFragment_inv cap st' ∧ limit_size st' = limit_size st.
Proof.
  intros Hcap. revert st. induction up as [|x up IH]; intros st Hinv; cbn [DeFragment_poll_next].
  { destruct (buffer st); eexists _, _, _; split; try done. }
  destruct (buffer st); [|by eexists _, _, _].
  destruct x as [[[e|fs]|]|]; try (by eexists _, _, _).
  pose proof (defrag_frames_inv cap (seq_num fs) st (set fs) Hcap Hinv) as Hf.
  destruct (defrag_frames _ _ _) as [st1|[e st1]|]; [|by eexists _, _, _|done].
  destruct Hf as [Hi <-]. by apply IH.
Qed.

Lemma DeFragment_polls_inv cap n st up :
  (0 < cap)%nat → DeFragment_inv cap st →
  ∃ out st' up', polls DeFragment_poll_next n st up = Ok (out, st', up') ∧ length out = n ∧
    DeFragment_inv cap st' ∧ limit_size st' = limit_size st.
Proof.
  intros Hcap. revert st up. induction n as [|n IH]; intros st up Hinv; cbn.
  { by eexists _, _, _. }
  destruct (DeFragment_poll_inv cap st up Hcap Hinv) as (a & st1 & up1 & -> & Hi & Hl). cbn.
  destruct (IH st1 up1 Hi) as (out & st2 & up2 & -> & Hlen & Hi2 & Hl2). cbn.
  eexists _, _, _. split_and!; [done|cbn; lia|done|congruence].
Qed.

(** What the layer has handed up and still buffers is what its frames produce. *)
Definition polled (st : DeFragment) (used : tape FrameSet_) (out : tape FrameOne)
    (st' : DeFragment) : Prop :=
  defrag_run st (tape_pairs used) = Ok (prepend (items out) st').

Lemma prepend_nil st : prepend [] st = st.
Proof. by destruct st. Qed.

Lemma prepend_app b c st : prepend b (prepend c st) = prepend (b ++ c) st.
Proof. unfold prepend. cbn. by rewrite app_assoc. Qed.

Lemma defrag_run_valid cap st l :
  (0 < cap)%nat → DeFragment_inv cap st → Forall (frame_valid (limit_size st)) l.*2 →
  ∃ st', defrag_run st l = Ok st' ∧ DeFragment_inv cap st' ∧ limit_size st' = limit_size st.
Proof.
  intros Hcap. revert st. induction l as [|[seq f] l IH]; intros st Hinv Hv; [by exists st|].
  apply Forall_cons in Hv as [Hvf Hv].
  destruct (defrag_frame_valid cap seq st f Hcap Hinv Hvf) as (st1 & Hf & Hinv1 & Hl1 & _).
  destruct (IH st1) as (st2 & H1 & H2 & H3); [done|by rewrite Hl1|].
  exists st2. cbn. rewrite Hf. cbn. split_and!; [done|done|congruence].
Qed.

Lemma DeFragment_poll_spec cap st up :
  (0 < cap)%nat → DeFragment_inv cap st → Forall (frame_valid (limit_size st)) (tape_pairs up).*2 →
  ∃ a st' used up', DeFragment_poll_next st up = Ok (a, st', up') ∧ up = used ++ up' ∧
    polled st used [a] st' ∧ DeFragment_inv cap st' ∧ limit_size st' = limit_size st.
Proof.
  intros Hcap. revert st. induction up as [|x up IH]; intros st Hinv Hv; cbn [DeFragment_poll_next].
  - destruct (buffer st) as [|o buf] eqn:Hb; eexists _, _, [], _; split_and!; try done;
      unfold polled, tape_pairs, prepend; cbn; by rewrite <-?Hb; destruct st.
  - destruct (buffer st) as [|o buf] eqn:Hb.
    2: { eexists _, _, [], (x :: up). split_and!; try done.
         unfold polled, tape_pairs, prepend. cbn. rewrite <-Hb. by destruct st. }
    destruct x as [[[e|fs]|]|];
      try (eexists _, _, [_], up; split_and!; try done;
           unfold polled, tape_pairs; cbn; by rewrite prepend_nil).
    change (Ready (Some (inr fs)) :: up) with ([Ready (Some (inr fs))] ++ up) in Hv.
    rewrite tape_pairs_app, fmap_app, Forall_app in Hv. destruct Hv as [Hv1 Hv2].
    assert (tape_pairs [Ready (Some (inr fs))] = pair (seq_num fs) <$> set fs) as Hp
      by (unfold tape_pairs, items; cbn; by rewrite app_nil_r).
    rewrite Hp in Hv1.
    destruct (defrag_run_valid cap st _ Hcap Hinv Hv1) as (st1 & Hr & Hi1 & Hl1).
    rewrite defrag_frames_run, Hr.
    destruct (IH st1 Hi1) as (a & st2 & used & up' & -> & -> & H1 & H2 & H3); [by rewrite Hl1|].
    exists a, st2, (Ready (Some (inr fs)) :: used), up'. split_and!; [done|done| |done|congruence].
    unfold polled. change (Ready (Some (inr fs)) :: used) with ([Ready (Some (inr fs))] ++ used).
    by rewrite tape_pairs_app, Hp, defrag_run_app, Hr.
Qed.

Lemma DeFragment_polls_spec cap n st up :
  (0 < cap)%nat → DeFragment_inv cap st → Forall (frame_valid (limit_size st)) (tape_pairs up).*2 →
  ∃ out st' used up', polls DeFragment_poll_next n st up = Ok (out, st', up') ∧ up = used ++ up' ∧
    length out = n ∧ polled st used out st' ∧ DeFragment_inv cap st'.
Proof.
  intros Hcap. revert st up. induction n as [|n IH]; intros st up Hinv Hv.
  { exists [], st, [], up. split_and!; try done. unfold polled. cbn. by rewrite prepend_nil. }
  destruct (DeFragment_poll_spec cap st up Hcap Hinv Hv)
    as (a & st1 & u1 & up1 & Hp & -> & HP1 & Hi1 & Hl1).
  rewrite tape_pairs_app, fmap_app, Forall_app in Hv. destruct Hv as [Hv1 Hv2].
  destruct (IH st1 up1 Hi1) as (out & st2 & u2 & up2 & Hps & -> & Hlen & HP2 & Hi2);
    [by rewrite Hl1|].
  exists (a :: out), st2, (u1 ++ u2), up2. cbn [polls]. rewrite Hp. cbn [mbind outcome_bind].
  rewrite Hps. split_and!; [done|by rewrite <-app_assoc|cbn; lia| |done].
  unfold polled in *. rewrite tape_pairs_app, defrag_run_app, HP1. cbn [mbind outcome_bind].
  rewrite (defrag_run_prepend _ _ _ _ HP2), prepend_app. do 2 f_equal.
  unfold items. cbn. by rewrite app_nil_r.
Qed.

Lemma DeFragment_inv_new cap limit :
  DeFragment_inv cap (mkDeFragment limit (lru_new cap) []).
Proof.
  split_and!; cbn [parts]; [apply lru_new_cap|rewrite lru_new_list; apply lru_wf_nil|].
  rewrite lru_new_list. constructor.
Qed.

(** ** Properties of single frames

    A property of frames that merging preserves carries over from the frames the
    layer receives to those it hands up. *)
Definition merge_closed (P : Frame → Prop) : Prop :=
  ∀ f b, P f → P (Frame_reassembled (with_body (body f ++ b) f)).

Definition all_frames (P : Frame → Prop) (st : DeFragment) : Prop :=
  Forall (λ e, Forall (λ p, P (part_frame p)) (heap_frames e.2)) (lru_list (parts st)) ∧
  Forall (λ o, P (one_frame o)) (buffer st).

Lemma defrag_frame_all P cap seq st f :
  merge_closed P → (0 < cap)%nat → DeFragment_inv cap st → all_frames P st → P f →
  match defrag_frame seq st f with Ok st' => all_frames P st' | _ => True end.
Proof.
  intros HP Hcap Hinv [Hparts Hbuf] Hf. pose proof (defrag_frame_inv cap seq st f Hcap Hinv) as Hi.
  destruct (defrag_frame seq st f) as [st'| |] eqn:Hst; [|done..].
  destruct (fragment f) as [g|] eqn:Hg.
  - assert (Forall (λ p, P (part_frame p)) (queue_of st (parted_id g))) as Hq.
    { unfold queue_of, heap_of. destruct (alist_get _ _) as [q|] eqn:Hget; cbn; [|constructor].
      apply alist_get_Some_elem in Hget. rewrite Forall_forall in Hparts. by apply Hparts in Hget. }
    pose proof (queue_of_ok cap st (parted_id g) Hinv) as Hqok.
    revert Hst. unfold defrag_frame. rewrite Hg. case_match; [done|]. case_match; [done|]. cbn zeta.
    rewrite <-(heap_of_frames st (parted_id g) (parted_size g)) in Hq, Hqok.
    fold (heap_of st (parted_id g) (parted_size g)). set (p := mkFramePart _ _).
    set (q := heap_of st (parted_id g) (parted_size g)) in *.
    assert (Forall (λ p, P (part_frame p)) (heap_frames (part_push p q))) as Hq'.
    { cbn. rewrite heap_push_Permutation. by constructor. }
    set (c := lru_get_or_insert_mut _ _ _ _).
    assert (Forall (λ e, Forall (λ p, P (part_frame p)) (heap_frames e.2)) (lru_list c)) as Hc.
    { subst c. rewrite lru_insert_list. apply Forall_forall. intros e [->|He]%lru_touch_elem; [done|].
      rewrite Forall_forall in Hparts. by apply Hparts. }
    case_match; [intros [= <-]; by split|].
    destruct (lru_pop_spec (parted_id g) c) as (Hpop & Hdel & _).
    destruct (lru_pop (parted_id g) c) as [o c']. cbn [fst snd] in Hpop, Hdel.
    subst c. rewrite lru_insert_list, lru_touch_get_eq in Hpop. subst o.
    fold (heap_of st (parted_id g) (parted_size g)). fold q.
    destruct (into_iter_sorted_spec part_key _ (heap_push_ok part_key p _ Hqok)) as [Hperm _].
    cbn [part_push heap_frames] in Hq' |- *. rewrite <-Hperm in Hq'.
    destruct (into_iter_sorted part_key _) as [|p1 ps]; [done|].
    rewrite fmap_cons, reduce_frames_bodies. intros [= <-]. split; cbn.
    + rewrite Hdel. apply Forall_forall. intros e He%alist_del_elem.
      rewrite Forall_forall in Hc. by apply Hc.
    + apply Forall_app. split; [done|]. apply Forall_singleton. cbn.
      apply Forall_cons in Hq' as [Hp1 _]. by apply HP.
  - unfold defrag_frame in Hst. rewrite Hg in Hst. injection Hst as <-. split; [done|].
    cbn. apply Forall_app. split; [done|by apply Forall_singleton].
Qed.

Lemma defrag_frames_all P cap seq st fs :
  merge_closed P → (0 < cap)%nat → DeFragment_inv cap st → all_frames P st → Forall P fs →
  match defrag_frames seq st fs with
  | Ok st' | Err (_, st') => DeFragment_inv cap st' ∧ all_frames P st'
  | Panic => False
  end.
Proof.
  intros HP Hcap. revert st. induction fs as [|f fs IH]; intros st Hinv Hall Hfs; cbn; [done|].
  apply Forall_cons in Hfs as [Hf Hfs].
  pose proof (defrag_frame_inv cap seq st f Hcap Hinv) as Hi.
  pose proof (defrag_frame_all P cap seq st f HP Hcap Hinv Hall Hf) as Ha.
  destruct (defrag_frame seq st f) as [st1|[e st1]|]; cbn; [|by subst|done].
  apply IH; [apply Hi|done|done].
Qed.

Lemma DeFragment_polls_all P cap n st up :
  merge_closed P → (0 < cap)%nat → DeFragment_inv cap st → all_frames P st →
  Forall (λ s, Forall P (set s)) (items up) →
  ∃ out st' up', polls DeFragment_poll_next n st up = Ok (out, st', up') ∧ length out = n ∧
    Forall (λ o, P (one_frame o)) (items out).
Proof.
  intros HP Hcap Hinv Hall Hup.
  assert (∀ up st, DeFragment_inv cap st → all_frames P st → Forall (λ s, Forall P (set s)) (items up) →
    ∃ a st' up', DeFragment_poll_next st up = Ok (a, st', up') ∧ DeFragment_inv cap st' ∧
      all_frames P st' ∧ Forall (λ s, Forall P (set s)) (items up') ∧
      Forall (λ o, P (one_frame o)) (items [a])) as Hpoll.
  { clear Hinv Hall Hup st up. induction up as [|x up IH]; intros st Hinv Ha Hup; cbn [DeFragment_poll_next].
    all: pose proof Ha as [Hp Hb]; destruct (buffer st) as [|o buf] eqn:Hbuf.
    2,4: apply Forall_cons in Hb as [Ho Hb]; eexists _, _, _; split_and!; [done..|by constructor].
    { by eexists _, _, _. }
    destruct x as [[[e|fs]|]|];
      try (by eexists _, _, _).
    apply Forall_cons in Hup as [Hfs Hup].
    pose proof (defrag_frames_all P cap (seq_num fs) st (set fs) HP Hcap Hinv) as Hf.
    specialize (Hf Ha Hfs).
    destruct (defrag_frames _ _ _) as [st1|[e st1]|]; [|eexists _, _, _; naive_solver|done].
    destruct Hf. by apply IH. }
  revert st up Hinv Hall Hup. induction n as [|n IH]; intros st up Hinv Hall Hup; cbn.
  { eexists _, _, _. split_and!; [done|done|constructor]. }
  destruct (Hpoll up st Hinv Hall Hup) as (a & st1 & up1 & -> & Hi1 & Ha1 & Hup1 & Hout). cbn.
  destruct (IH st1 up1 Hi1 Ha1 Hup1) as (out & st2 & up2 & -> & Hlen & Hout2). cbn.
  eexists _, _, _. split_and!; [done|cbn; lia|]. change (a :: out) with ([a] ++ out).
  rewrite items_app. by apply Forall_app.
Qed.


(** Without a limit the first fragment of a message reserves as many places as its
    sender writes into it, up to 2^32 - 1. *)
Lemma defrag_reserves_unlimited cap seq (f : Frame) g :
  (0 < cap)%nat → fragment f = Some g → 0 ≤ parted_index g < parted_size g → 1 < parted_size g →
  ∃ st h, defrag_frame seq (mkDeFragment 0 (lru_new cap) []) f = Ok st ∧
    alist_get (parted_id g) (lru_list (parts st)) = Some h ∧ reserved h = parted_size g ∧
    length (heap_frames h) = 1%nat.
Proof.
  intros Hcap Hg Hi Hs. unfold defrag_frame. rewrite Hg, (proj2 (Z.leb_gt _ _)) by lia. cbn [negb Z.eqb andb limit_size parts].
  rewrite lru_new_list. cbn -[Z.of_nat Z.ltb].
  assert (∀ p : FramePart, length (heap_push part_key p []) = 1%nat) as Hlen by (intros p; by rewrite heap_push_Permutation).
  rewrite Hlen, (proj2 (Z.ltb_lt _ _)) by (cbn; lia).
  eexists _, _. split; [done|]. cbn [parts]. rewrite lru_insert_list, lru_touch_get_eq, lru_new_list.
  split; [done|]. cbn. by rewrite Hlen.
Qed.

Lemma DeFragment_reassembles_used cap limit n id ps (up : tape FrameSet_) :
  (0 < cap)%nat → Forall (frame_valid limit) (tape_pairs up).*2 →
  (length (remove_dups ((tape_pairs up).*2 ≫= frame_ids)) ≤ cap)%nat →
  fragments_of id ps → ps ≠ [] →
  ∃ out st used up',
    polls DeFragment_poll_next n (mkDeFragment limit (lru_new cap) []) up = Ok (out, st, up') ∧
    up = used ++ up' ∧ length out = n ∧
    (filter (is_part id) (tape_pairs used).*2 ≡ₚ ps →
     ∃ b1 seq m b2, merged ps = Some m ∧ items out ++ buffer st = b1 ++ mkFrameOne seq m :: b2).
Proof.
  intros Hcap Hv Hids Hps Hne.
  destruct (DeFragment_polls_spec cap n _ up Hcap (DeFragment_inv_new cap limit) Hv)
    as (out & st & used & up' & Hp & Hu & Hlen & HP & _).
  exists out, st, used, up'. split_and!; [done..|]. intros Hperm.
  rewrite Hu, tape_pairs_app, fmap_app in Hv, Hids. apply Forall_app in Hv as [Hv _].
  destruct (defrag_run_reassembles cap (remove_dups (((tape_pairs used).*2 ++ (tape_pairs up').*2) ≫= frame_ids))
    id ps (mkDeFragment limit (lru_new cap) []) (tape_pairs used))
    as (st' & b1 & seq & m & b2 & Hr & Hm & Hb & _); try done.
  - apply DeFragment_inv_new.
  - cbn [parts]. rewrite lru_new_list. set_solver.
  - intros x Hx. apply elem_of_remove_dups. rewrite bind_app. apply elem_of_app. by left.
  - exists []. cbn. split; [|done]. rewrite queue_of_None; [done|]. cbn [parts]. by rewrite lru_new_list.
  - intros Hn. rewrite Hn in Hperm. apply Permutation_nil_l in Hperm. by subst.
  - exists b1, seq, m, b2. split; [done|]. unfold polled in HP. rewrite HP in Hr. injection Hr as <-.
    cbn in Hb. done.
Qed.

(** Fragments are reassembled whatever the order they arrive in and
    whatever arrives between them: once all the fragments of a message were taken
    from the stream below, the message (the header of its first fragment and the
    bodies in order of their index) was handed up or is in the buffer, as long as
    no more messages are in flight than the cache holds. *)
Theorem DeFragment_reassembles cap limit n id ps (up : tape FrameSet_) :
  (0 < cap)%nat → Forall (frame_valid limit) (tape_pairs up).*2 →
  (length (remove_dups ((tape_pairs up).*2 ≫= frame_ids)) ≤ cap)%nat →
  fragments_of id ps → ps ≠ [] →
  ∃ out st used up',
    polls DeFragment_poll_next n (mkDeFragment limit (lru_new cap) []) up = Ok (out, st, up') ∧
    up = used ++ up' ∧ length out = n ∧
    (filter (is_part id) (tape_pairs used).*2 ≡ₚ ps →
     ∃ b1 seq m b2, merged ps = Some m ∧ items out ++ buffer st = b1 ++ mkFrameOne seq m :: b2).
Proof. apply DeFragment_reassembles_used. Qed.
End defragment.


(** Three fragments of message 7, the last of them first. *)
Definition sample_part (i : Z) : Frame :=
  mkFrame (Flags_new Reliable true) (Some i) None None (Some (mkFragment 3 7 i)) [10 + i; 20 + i].

Definition sample_tape : tape FrameSet_ :=
  [Ready (Some (inr (mkFrameSet 0 [sample_part 2]))); Pending;
   Ready (Some (inr (mkFrameSet 1 [sample_part 0; sample_part 1])))].

Lemma DeFragment_reassembles_witness :
  ∃ out st used up',
    polls (DeFragment_poll_next (BH:=heap_sorted) (LC:=lru_reference)) 2
      (mkDeFragment (LC:=lru_reference) 16 (lru_new (LruCrate:=lru_reference) 1) []) sample_tape =
      Ok (out, st, up') ∧
    sample_tape = used ++ up' ∧ length out = 2%nat ∧
    (filter (is_part 7) (tape_pairs used).*2 ≡ₚ [sample_part 0; sample_part 1; sample_part 2] →
     ∃ b1 seq m b2, merged [sample_part 0; sample_part 1; sample_part 2] = Some m ∧
       items out ++ buffer (LC:=lru_reference) st = b1 ++ mkFrameOne seq m :: b2).
Proof.
  apply (DeFragment_reassembles (BH:=heap_sorted) (LC:=lru_reference) 1 16 2 7).
  - lia.
  - cbn. do 3 (apply Forall_cons; split; [cbn; lia|]). constructor.
  - vm_compute. lia.
  - intros [|[|[|i]]] f Hf; cbn in Hf; by simplify_eq.
  - done.
Defined.

(** The fragments of the sample tape are merged in order of their index. *)
Example sample_tape_merged :
  ∃ st, polls (DeFragment_poll_next (BH:=heap_sorted) (LC:=lru_reference)) 2
      (mkDeFragment (LC:=lru_reference) 16 (lru_new (LruCrate:=lru_reference) 1) []) sample_tape =
    Ok ([Pending; Ready (Some (inr (mkFrameOne 1
      (mkFrame (mkFlags 0 Reliable false) (Some 0) None None None [10; 20; 11; 21; 12; 22]))))], st, []).
Proof. eexists. vm_compute. reflexivity. Qed.
