(* ===== verification/Order.v ===== *)
(** * Ordering (src/codec/decoder/ordered.rs)

    Ordered frames wait in a map per channel until every earlier frame of the
    channel was delivered.  The theorems: frames of a channel are delivered with
    consecutive indices from 0, and a frame is not held back once its
    predecessors have arrived. *)
From S2P Require Import Prelude Errors SeqNum Types FrameSet Stream Dedup DeFragment.
Open Scope Z_scope.

Record Ordering := mkOrdering {
  map : gmap Z FrameOne;
  read : u24;
}.

Definition Ordering_default : Ordering := mkOrdering ∅ 0.

Record Order := mkOrder {
  max_channels : nat;
  ordering : list Ordering;
}.

Section order.
Context {B : Build}.

(** [ordered]: the two assertions on the number of channels. *)
Definition ordered_layer {E} (max_channels : nat) : outcome E Order :=
  assert_ (bool_decide (max_channels < 256)%nat);;
  assert_ (bool_decide (0 < max_channels)%nat);;
  mret (mkOrder max_channels (replicate max_channels Ordering_default)).

(** [for channel in 0..max_channels]: the first channel whose next frame is
    there gives it up; [n] channels are left. *)
Fixpoint pop_channel {E} (n channel : nat) (ord : list Ordering) :
    outcome E (option FrameOne * list Ordering) :=
  match n with
  | O => mret (None, ord)
  | S n =>
      match ord !! channel with
      | None => Panic
      | Some o =>
          match map o !! read o with
          | Some next =>
              r ← u24_add_assign (read o) 1;
              mret (Some next, <[channel := mkOrdering (delete (read o) (map o)) r]> ord)
          | None => pop_channel n (S channel) ord
          end
      end
  end.

Definition channel_error (channel max_channels : nat) : CodecError :=
  OrderedFrame ("channel " +:+ pretty channel +:+ " >= max_channels " +:+ pretty max_channels).

(** What the loop does with an item of the stream below: an answer, or another
    turn with a new state. *)
Definition order_item {E} (st : Order) (frame_set : FrameOne) :
    outcome E (answer FrameOne + Order) :=
  match ordered (one_frame frame_set) with
  | Some o =>
      let channel := Z.to_nat (channel o) in
      if decide (max_channels st ≤ channel)%nat
      then mret (inl (Ready (Some (inl (channel_error channel (max_channels st))))))
      else
        match ordering st !! channel with
        | None => Panic
        | Some ord =>
            if frame_index o <? read ord then mret (inr st)
            else
              mret (inr (mkOrder (max_channels st)
                (<[channel := mkOrdering (<[frame_index o := frame_set]> (map ord)) (read ord)]>
                   (ordering st))))
        end
  | None => mret (inl (Ready (Some (inr frame_set))))
  end.

Fixpoint Order_poll_next (st : Order) (up : tape FrameOne) :
    outcome Empty_set (answer FrameOne * Order * tape FrameOne) :=
  '(popped, ord) ← pop_channel (max_channels st) 0 (ordering st);
  let st := mkOrder (max_channels st) ord in
  match popped with
  | Some next => mret (Ready (Some (inr next)), st, up)
  | None =>
      match up with
      | [] => mret (Pending, st, [])
      | Pending :: up => mret (Pending, st, up)
      | Ready (Some (inl e)) :: up => mret (Ready (Some (inl e)), st, up)
      | Ready None :: up => mret (Ready None, st, up)
      | Ready (Some (inr frame_set)) :: up =>
          r ← order_item st frame_set;
          match r with
          | inl a => mret (a, st, up)
          | inr st => Order_poll_next st up
          end
      end
  end.

(** ** Invariant

    [recv] is what the layer took from below and [dlv] what it delivered. *)

Definition frame_order (f : FrameOne) : option Ordered := ordered (one_frame f).

(** The indices of the frames of a channel. *)
Definition channel_indices (c : nat) (l : list FrameOne) : list Z :=
  omap (λ f, o ← frame_order f;
    if decide (channel o = Z.of_nat c) then Some (frame_index o) else None) l.

Definition unordered (l : list FrameOne) : list FrameOne := filter (λ f, frame_order f = None) l.

Definition order_ok (f : FrameOne) : Prop :=
  match frame_order f with
  | Some o => countable (frame_index o) ∧ 0 ≤ channel o
  | None => True
  end.

Record channel_inv (recv dlv : list FrameOne) (c : nat) (o : Ordering) : Prop := {
  ci_read : 0 ≤ read o < 2 ^ 24;
  ci_delivered : channel_indices c dlv = u24_range 0 (read o);
  ci_waiting : ∀ i f, map o !! i = Some f →
    f ∈ recv ∧ frame_order f = Some (mkOrdered i (Z.of_nat c)) ∧ read o ≤ i < 2 ^ 24 - 1;
  ci_received : ∀ i, i ∈ channel_indices c recv → i < read o ∨ is_Some (map o !! i);
}.

Record Order_inv (recv dlv : list FrameOne) (st : Order) : Prop := {
  oi_length : length (ordering st) = max_channels st;
  oi_channels : ∀ c o, ordering st !! c = Some o → channel_inv recv dlv c o;
  oi_delivered : ∀ f, f ∈ dlv → f ∈ recv;
  oi_unordered : unordered dlv = unordered recv;
}.

Lemma channel_indices_app c l k :
  channel_indices c (l ++ k) = channel_indices c l ++ channel_indices c k.
Proof. unfold channel_indices. by rewrite omap_app. Qed.

Lemma unordered_app l k : unordered (l ++ k) = unordered l ++ unordered k.
Proof. unfold unordered. by rewrite filter_app. Qed.

Lemma channel_indices_one c f o :
  frame_order f = Some o →
  channel_indices c [f] = if decide (channel o = Z.of_nat c) then [frame_index o] else [].
Proof. intros Hf. unfold channel_indices. cbn. rewrite Hf. cbn. by case_decide. Qed.

Lemma channel_indices_none c f : frame_order f = None → channel_indices c [f] = [].
Proof. intros Hf. unfold channel_indices. cbn. by rewrite Hf. Qed.

Lemma Order_inv_new m : Order_inv [] [] (mkOrder m (replicate m Ordering_default)).
Proof.
  split; [apply length_replicate| |done|done]. intros c o [-> _]%lookup_replicate. split; try done.
  all: cbn; intros; set_solver.
Qed.

(** Delivering the next frame of a channel. *)
Lemma channel_inv_pop recv dlv c o f :
  channel_inv recv dlv c o → map o !! read o = Some f →
  channel_inv recv (dlv ++ [f]) c (mkOrdering (delete (read o) (map o)) (read o + 1)).
Proof.
  intros [H1 H2 H3 H4] Hf. destruct (H3 _ _ Hf) as (Hin & Ho & Hr). split; cbn.
  - lia.
  - rewrite channel_indices_app, H2, (channel_indices_one _ _ _ Ho). cbn.
    rewrite decide_True by done. symmetry. apply u24_range_snoc. lia.
  - intros i g [Hne Hg]%lookup_delete_Some. destruct (H3 i g Hg) as (? & ? & ?).
    split_and!; [done|done|lia|lia].
  - intros i Hi. destruct (decide (i = read o)) as [->|Hne]; [left; lia|].
    destruct (H4 i Hi) as [?|?]; [left; lia|right]. by rewrite lookup_delete_ne.
Qed.

Lemma channel_inv_other recv dlv c o f ord :
  channel_inv recv dlv c ord → frame_order f = Some o → channel o ≠ Z.of_nat c →
  channel_inv recv (dlv ++ [f]) c ord.
Proof.
  intros [H1 H2 H3 H4] Ho Hne. split; [done| |done|done].
  rewrite channel_indices_app, (channel_indices_one _ _ _ Ho), decide_False by done.
  by rewrite app_nil_r.
Qed.

Lemma pop_channel_spec {E} recv dlv m n k ord :
  (k + n = m)%nat → length ord = m →
  (∀ c o, ord !! c = Some o → channel_inv recv dlv c o) →
  (∀ c o, (c < k)%nat → ord !! c = Some o → map o !! read o = None) →
  (pop_channel (E:=E) n k ord = Ok (None, ord) ∧
   ∀ c o, ord !! c = Some o → map o !! read o = None) ∨
  (∃ f ord', pop_channel (E:=E) n k ord = Ok (Some f, ord') ∧ length ord' = m ∧
    f ∈ recv ∧ frame_order f ≠ None ∧
    ∀ c o, ord' !! c = Some o → channel_inv recv (dlv ++ [f]) c o).
Proof.
  revert k. induction n as [|n IH]; intros k Hm Hlen Hinv Hk; cbn.
  { left. split; [done|]. intros c o Hc. apply (Hk c); [|done].
    apply lookup_lt_Some in Hc. lia. }
  destruct (lookup_lt_is_Some_2 ord k) as [o Ho]; [lia|]. rewrite Ho.
  destruct (map o !! read o) as [f|] eqn:Hf.
  - right. pose proof (Hinv k o Ho) as Hci.
    destruct (ci_waiting _ _ _ _ Hci _ _ Hf) as (Hin & Hfo & Hr). pose proof (ci_read _ _ _ _ Hci).
    rewrite u24_add_assign_eq, u24_add_Ok by lia. cbn.
    eexists f, _. split_and!; [done|by rewrite length_insert|done|by rewrite Hfo|].
    intros c o'. rewrite list_lookup_insert_Some. intros [(-> & <- & _)|[Hne Hc]].
    + by apply channel_inv_pop.
    + eapply channel_inv_other; [by apply Hinv|done|]. cbn [channel]. lia.
  - apply IH; [lia|done|done|]. intros c o' Hc Ho'.
    destruct (decide (c = k)) as [->|]; [by simplify_eq|]. apply (Hk c); [lia|done].
Qed.

(** Receiving a frame that adds nothing to the channel, or an index that the
    channel already accounts for. *)
Lemma channel_inv_recv recv dlv c o f :
  channel_inv recv dlv c o →
  (∀ i, i ∈ channel_indices c [f] → i < read o ∨ is_Some (map o !! i)) →
  channel_inv (recv ++ [f]) dlv c o.
Proof.
  intros [H1 H2 H3 H4] Hf. split; [done|done| |].
  - intros i g Hg. destruct (H3 i g Hg) as (? & ? & ?). split_and!; try done; [|lia..]. set_solver.
  - intros i. rewrite channel_indices_app, elem_of_app. intros [?|?]; auto.
Qed.

Lemma channel_inv_insert recv dlv c o f i :
  channel_inv recv dlv c o → frame_order f = Some (mkOrdered i (Z.of_nat c)) →
  read o ≤ i < 2 ^ 24 - 1 →
  channel_inv (recv ++ [f]) dlv c (mkOrdering (<[i := f]> (map o)) (read o)).
Proof.
  intros [H1 H2 H3 H4] Ho Hi. split; cbn; [done|done| |].
  - intros j g [[<- <-]|[Hne Hg]]%lookup_insert_Some; [set_solver|].
    destruct (H3 j g Hg) as (? & ? & ?). split_and!; try done; [set_solver|lia..].
  - intros j. rewrite channel_indices_app, elem_of_app, (channel_indices_one _ _ _ Ho).
    cbn. rewrite decide_True by done. intros [Hj|Hj%list_elem_of_singleton].
    + destruct (H4 j Hj) as [?|[g Hg]]; [by left|right].
      destruct (decide (j = i)) as [->|]; [by rewrite lookup_insert_eq|].
      rewrite lookup_insert_ne by done. by exists g.
    + right. subst. by rewrite lookup_insert_eq.
Qed.

Lemma order_item_spec {E} recv dlv st f :
  Order_inv recv dlv st → order_ok f →
  (frame_order f = None ∧ order_item (E:=E) st f = Ok (inl (Ready (Some (inr f)))) ∧
    Order_inv (recv ++ [f]) (dlv ++ [f]) st) ∨
  (∃ e, order_item (E:=E) st f = Ok (inl (Ready (Some (inl e)))) ∧ Order_inv (recv ++ [f]) dlv st) ∨
  (∃ st', order_item (E:=E) st f = Ok (inr st') ∧ Order_inv (recv ++ [f]) dlv st' ∧
    max_channels st' = max_channels st).
Proof.
  intros [I1 I2 I3 I4] Hok. unfold order_item, order_ok in *.
  change (ordered (one_frame f)) with (frame_order f).
  destruct (frame_order f) as [[i ch]|] eqn:Ho; cbn [channel frame_index] in *.
  - destruct Hok as [Hi Hch]. right.
    assert (unordered (recv ++ [f]) = unordered recv) as Hun.
    { rewrite unordered_app. unfold unordered at 2. rewrite filter_cons, decide_False by (by rewrite Ho).
      by rewrite app_nil_r. }
    assert (∀ c o, ordering st !! c = Some o → c ≠ Z.to_nat ch → channel_inv (recv ++ [f]) dlv c o)
      as Hother.
    { intros c o Hc Hne. apply channel_inv_recv; [by apply I2|].
      rewrite (channel_indices_one _ _ _ Ho), decide_False by (cbn [channel]; lia). set_solver. }
    case_decide as Hmax.
    { left. eexists. split; [done|]. split; [done| |set_solver|congruence].
      intros c o Hc. apply Hother; [done|]. apply lookup_lt_Some in Hc. lia. }
    right. destruct (lookup_lt_is_Some_2 (ordering st) (Z.to_nat ch)) as [o Hc]; [lia|]. rewrite Hc.
    destruct (Z.ltb_spec i (read o)) as [Hlt|Hge].
    + eexists. split; [done|]. split; [|done]. split; [done| |set_solver|congruence].
      intros c o' Hc'. destruct (decide (c = Z.to_nat ch)) as [->|]; [|by apply Hother].
      simplify_eq. apply channel_inv_recv; [by apply I2|].
      rewrite (channel_indices_one _ _ _ Ho), decide_True by (cbn [channel]; lia). set_solver.
    + eexists. split; [done|]. split; [|done]. split; cbn [ordering max_channels];
        [by rewrite length_insert| |set_solver|congruence].
      intros c o'. rewrite list_lookup_insert_Some. intros [(<- & <- & _)|[Hne Hc']].
      * destruct Hi. apply channel_inv_insert; [by apply I2| |lia].
        rewrite Ho. do 2 f_equal. lia.
      * by apply Hother.
  - left. split_and!; [done|done|]. split; [done| |set_solver|].
    + intros c o Hc. destruct (I2 c o Hc) as [H1 H2 H3 H4].
      assert (channel_inv recv (dlv ++ [f]) c o) as Hd.
      { split; [done| |done|done]. by rewrite channel_indices_app, channel_indices_none, app_nil_r. }
      apply channel_inv_recv; [done|]. rewrite channel_indices_none by done. set_solver.
    + by rewrite !unordered_app, I4.
Qed.

(** No channel has its next frame waiting. *)
Definition idle (st : Order) : Prop :=
  ∀ c o, ordering st !! c = Some o → map o !! read o = None.

Lemma Order_poll_spec recv dlv st up :
  Order_inv recv dlv st → Forall order_ok (items up) →
  ∃ a st' used up', Order_poll_next st up = Ok (a, st', up') ∧ up = used ++ up' ∧
    Order_inv (recv ++ items used) (dlv ++ items [a]) st' ∧ max_channels st' = max_channels st ∧
    (a = Pending ∨ a = Ready None → idle st').
Proof.
  revert recv dlv st. induction up as [|x up IH]; intros recv dlv st Hinv Hok.
  all: destruct (pop_channel_spec (E:=Empty_set) recv dlv (max_channels st) (max_channels st) 0
      (ordering st)) as [[Hp Hidle]|(f & ord & Hp & Hlen & Hin & Hfo & Hci)];
      [lia|apply Hinv|apply Hinv|intros; lia|..]; cbn [Order_poll_next]; rewrite Hp;
      cbn [mbind outcome_bind].
  2,4: eexists _, _, [], _; split_and!; [done|done| |done|by intros [|]];
      unfold items; cbn; rewrite app_nil_r; split; cbn; [done|done|destruct Hinv; set_solver|];
      rewrite unordered_app, (oi_unordered _ _ _ Hinv); unfold unordered;
      rewrite filter_cons, decide_False by done; by rewrite app_nil_r.
  all: replace (mkOrder (max_channels st) (ordering st)) with st by (by destruct st).
  { exists Pending, st, [], []. unfold items. cbn. by rewrite !app_nil_r. }
  destruct x as [[[e|f]|]|];
    try (eexists _, st, [_], up; split_and!; try done; try (by intros [|]);
         unfold items; cbn; by rewrite !app_nil_r).
  apply Forall_cons in Hok as [Hf Hok].
  change (Ready (Some (inr f)) :: ?u) with ([Ready (Some (inr f))] ++ u).
  assert (items [Ready (Some (inr f))] = [f]) as Hitem by done.
  destruct (order_item_spec (E:=Empty_set) recv dlv st f Hinv Hf)
    as [(Ho & -> & Hi)|[(e & -> & Hi)|(st' & -> & Hi & Hmc)]]; cbn [mbind outcome_bind].
  - eexists _, st, [_], up. split_and!; [done|done|by rewrite Hitem|done|by intros [|]].
  - eexists _, st, [_], up. split_and!; [done|done| |done|by intros [|]].
    rewrite Hitem. unfold items. cbn. by rewrite app_nil_r.
  - destruct (IH _ _ st' Hi Hok) as (a & st2 & used & up' & -> & -> & H1 & H2 & H3).
    exists a, st2, ([Ready (Some (inr f))] ++ used), up'.
    split_and!; [done|done|by rewrite items_app, Hitem, app_assoc|congruence|done].
Qed.

Lemma Order_polls_spec n recv dlv st up :
  Order_inv recv dlv st → Forall order_ok (items up) →
  ∃ out st' used up', polls Order_poll_next n st up = Ok (out, st', up') ∧ up = used ++ up' ∧
    length out = n ∧ Order_inv (recv ++ items used) (dlv ++ items out) st' ∧
    max_channels st' = max_channels st ∧
    (last out = Some Pending ∨ last out = Some (Ready None) → idle st').
Proof.
  revert recv dlv st up. induction n as [|n IH]; intros recv dlv st up Hinv Hok.
  { exists [], st, [], up. unfold items. cbn. rewrite !app_nil_r. split_and!; try done. by intros [|]. }
  destruct (Order_poll_spec recv dlv st up Hinv Hok) as (a & st1 & u1 & up1 & Hp & -> & Hi1 & Hm1 & Hd1).
  rewrite items_app, Forall_app in Hok. destruct Hok as [_ Hok].
  destruct (IH _ _ st1 up1 Hi1 Hok) as (out & st2 & u2 & up2 & Hps & -> & Hlen & Hi2 & Hm2 & Hd2).
  exists (a :: out), st2, (u1 ++ u2), up2. cbn [polls]. rewrite Hp. cbn [mbind outcome_bind].
  rewrite Hps. change (a :: out) with ([a] ++ out).
  rewrite !items_app. split_and!; [done|by rewrite app_assoc|cbn; lia|by rewrite !app_assoc|congruence|].
  destruct out as [|b out]; [|exact Hd2]. destruct n; [|done]. cbn in Hps. injection Hps as <- _. cbn.
  intros H. apply Hd1. naive_solver.
Qed.

(** C11. Ordered delivery, on 1 to 255 channels: whatever the order of arrival of
    frames whose order index is below the last 24-bit number (which the layer cannot
    count past), over any number of polls nothing panics, and the frames delivered
    on a channel carry the consecutive indices 0, 1, 2, ... up to some [k]; when the
    last poll had nothing to deliver, [k] is the first index that was not received,
    so that no frame is held back longer than its predecessors demand. Every frame
    delivered was received, and frames without an order are handed up at once in the
    order they came. *)
Theorem Order_delivers_in_order m n (up : tape FrameOne) :
  (0 < m < 256)%nat → Forall order_ok (items up) →
  ∃ st0 out st used up', ordered_layer (E:=Empty_set) m = Ok st0 ∧
    polls Order_poll_next n st0 up = Ok (out, st, up') ∧ up = used ++ up' ∧ length out = n ∧
    (∀ c, (c < m)%nat → ∃ k, channel_indices c (items out) = u24_range 0 k ∧
      (last out = Some Pending ∨ last out = Some (Ready None) → k ∉ channel_indices c (items used))) ∧
    (∀ f, f ∈ items out → f ∈ items used) ∧
    unordered (items out) = unordered (items used).
Proof.
  intros Hm Hok. unfold ordered_layer. rewrite !bool_decide_true by lia.
  destruct (Order_polls_spec n [] [] _ up (Order_inv_new m) Hok)
    as (out & st & used & up' & Hp & Hu & Hlen & [I1 I2 I3 I4] & Hmc & Hidle).
  eexists _, out, st, used, up'. split_and!; [done|done|done|done| |done|done].
  intros c Hc. cbn in Hmc. destruct (lookup_lt_is_Some_2 (ordering st) c) as [o Ho]; [lia|].
  destruct (I2 c o Ho) as [H1 H2 H3 H4]. exists (read o). split; [done|]. intros Hlast Hin.
  destruct (H4 _ Hin) as [?|[f Hf]]; [lia|]. by rewrite (Hidle Hlast c o Ho) in Hf.
Qed.
End order.

Definition ordered_one (c i : Z) : FrameOne :=
  mkFrameOne 0 (mkFrame (Flags_new ReliableOrdered false) (Some i) None (Some (mkOrdered i c)) None [i]).

Lemma Order_delivers_in_order_witness :
  let up := [Ready (Some (inr (ordered_one 0 1))); Pending; Ready (Some (inr (ordered_one 0 0)))] in
  ∃ st0 out st used up', ordered_layer (E:=Empty_set) 1 = Ok st0 ∧
    polls (Order_poll_next (B:=true)) 3 st0 up = Ok (out, st, up') ∧ up = used ++ up' ∧
    length out = 3%nat ∧
    (∀ c, (c < 1)%nat → ∃ k, channel_indices c (items out) = u24_range 0 k ∧
      (last out = Some Pending ∨ last out = Some (Ready None) → k ∉ channel_indices c (items used))) ∧
    (∀ f, f ∈ items out → f ∈ items used) ∧
    unordered (items out) = unordered (items used).
Proof.
  intros up. apply (Order_delivers_in_order (B:=true) 1 3 up); [lia|]. by repeat constructor.
Defined.

(** Two frames that arrive in the wrong order are delivered in the right one. *)
Example order_swaps :
  ∃ st, polls (Order_poll_next (B:=true)) 4 (mkOrder 1 [Ordering_default])
      [Ready (Some (inr (ordered_one 0 1))); Pending; Ready (Some (inr (ordered_one 0 0)))] =
    Ok ([Pending; Ready (Some (inr (ordered_one 0 0))); Ready (Some (inr (ordered_one 0 1))); Pending],
      st, []).
Proof. eexists. vm_compute. reflexivity. Qed.
