(* ===== verification/TestsDecoder.v ===== *)
(** * The unit tests of the decoder

    The tests that the sources carry for the sequence numbers, the bit queue, the
    acknowledgements and the three layers of the decoder, run on the model: a failed
    assertion panics, and a test passes when it ends.  Tests over random inputs are
    proved for every input. *)
From S2P Require Import Prelude Bytes Errors Reader SeqNum BitQueue Types AckNack FrameSet Stream Dedup Collections DeFragment Order.
Open Scope Z_scope.

(** ** Running a test *)

Abbreviation test := (outcome Empty_set unit).

(** [stream.next().await] on a stream whose answers are all there; a test that waits
    for ever does not pass. *)
Definition next {St X Y} (poll_next : layer St X (answer Y)) (st : St) (up : list X) :
    outcome Empty_set (option (CodecError + Y) * St * list X) :=
  '(a, st, up) ← poll_next st up;
  match a with
  | Ready r => mret (r, st, up)
  | Pending => Panic
  end.

(** The [#[stream]] block that yields these items, mapped by [Ok]. *)
Definition yields_of {A} (l : list A) : tape A := ((λ x, Ready (Some (inr x))) <$> l) ++ replicate 8 (Ready None).

Definition assert_eq {E A} `{EqDecision A} (x y : A) : outcome E unit := assert_ (bool_decide (x = y)).

(** [for x in l { f(x) }] over a mutable state *)
Fixpoint for_each {E A S} (l : list A) (f : A → S → outcome E S) (s : S) : outcome E S :=
  match l with
  | [] => mret s
  | x :: l => s ← f x s; for_each l f s
  end.

(** Tests are run in a debug build. *)
#[local] Instance test_build : Build := true.

#[local] Instance FrameOne_eq_dec : EqDecision FrameOne.
Proof. solve_decision. Defined.

Section tests.
Context {BC : BytesCrate} {BH : BinaryHeap} {LC : LruCrate}.

(** ** Sequence numbers (utils/seq_num.rs) *)

Definition test_u24_overflow_1 : test := a1 ← u24_from 0; u24_sub_assign a1 1;; mret tt.
Definition test_u24_overflow_2 : test := u24_from (2 ^ 24);; mret tt.
Definition test_u24_overflow_3 : test := a1 ← u24_from (2 ^ 24 - 1); u24_add_assign a1 1;; mret tt.
Definition test_u24_overflow_4 : test := a1 ← u24_from (2 ^ 24 - 1); u24_add a1 1;; mret tt.
Definition test_u24_overflow_5 : test := a1 ← u24_from 0; u24_sub a1 1;; mret tt.

Definition test_u24_works : test :=
  a1 ← u24_from 1;
  a2 ← u24_from 2;
  a2 ← u24_add_assign a2 1;
  b1 ← u24_add a1 a2;
  b1 ← u24_sub_assign b1 1;
  assert_eq (u24_to_u32 b1) 3.

(** ** The bit queue (utils/bit_queue.rs) *)

Definition assert_get (bit : BitVecQueue) (i : nat) (o : option bool) : test :=
  b ← BitVecQueue_get bit i; assert_eq b o.

Definition test_bit_queue_works : test :=
  let bit := BitVecQueue_default in
  assert_eq (BitVecQueue_front bit) None;;
  let bit := BitVecQueue_push_back true bit in
  let bit := BitVecQueue_push_back false bit in
  let bit := BitVecQueue_push_back true bit in
  assert_eq (BitVecQueue_front bit) (Some true);;
  let bit := BitVecQueue_pop_front bit in
  assert_get bit 0 (Some false);;
  bit ← BitVecQueue_set 1 false bit;
  assert_get bit 1 (Some false);;
  let bit := BitVecQueue_pop_front bit in
  let bit := BitVecQueue_pop_front bit in
  assert_eq (BitVecQueue_len bit) 0%nat;;
  assert_eq (bq_head bit) 3%nat;;
  assert_eq (bq_tail bit) 3%nat;;
  assert_ (negb (bool_decide (bq_store bit = [])));;
  let bit := BitVecQueue_pop_front bit in
  assert_eq (bq_head bit) 0%nat;;
  assert_eq (bq_tail bit) 0%nat;;
  assert_eq (bq_store bit) [].

(** The test with [n] bits, where the source has a million. *)
Definition test_large_store (n : nat) : test :=
  bit ← for_each (seq 0 n) (λ i bit, mret (BitVecQueue_push_back (Nat.even i) bit)) BitVecQueue_default;
  for_each (seq 0 n) (λ i _, assert_get bit i (Some (Nat.even i))) tt;;
  bit ← for_each (seq 0 n) (λ i bit, BitVecQueue_set i (negb (Nat.even i)) bit) bit;
  for_each (seq 0 n) (λ i _, assert_get bit i (Some (negb (Nat.even i)))) tt;;
  assert_eq (BitVecQueue_len bit) n;;
  bit ← for_each (seq 0 n) (λ _ bit, mret (BitVecQueue_pop_front bit)) bit;
  assert_eq (BitVecQueue_len bit) 0%nat;;
  bit ← BitVecQueue_set 2 true bit;
  assert_get bit 2 None.

(** ** Acknowledgements (packet/connected/ack.rs) *)

Definition ack_cases : list (list Z * Z * Z) :=
  [([0; 1; 2; 4; 5; 7; 8], 21, 1);
   ([0; 1; 3; 4; 6; 7; 9], 21, 2);
   ([0; 2; 4; 6; 8; 10; 12], 19, 3);
   ([0; 2; 5; 6; 8; 9; 12], 18, 3);
   ([0; 1], 10, 0);
   ([0; 2; 3], 14, 0);
   ([0; 2; 4], 15, 0);
   ([1; 1; 1], 15, 0);
   (seqZ 0 1000, 10, 0)].

Definition test_ack_should_not_overflow_mtu : test :=
  for_each ack_cases (λ '(seq_nums, len, remain) _,
    '(ack, seq_nums) ← extend_from seq_nums 21;
    match ack with
    | None => Panic
    | Some ack =>
        buf ← AckOrNack_write ack (put_u8 0 []);
        assert_eq (Z.of_nat (length buf)) len;;
        assert_eq (Z.of_nat (length seq_nums)) remain
    end) tt.

(** ** Duplicates (codec/decoder/dedup.rs) *)

Definition expect_new (i : Z) (w : DuplicateWindow) : outcome Empty_set DuplicateWindow :=
  '(d, w) ← duplicate i w; assert_ (negb d);; mret w.
Definition expect_dup (i : Z) (w : DuplicateWindow) : outcome Empty_set DuplicateWindow :=
  '(d, w) ← duplicate i w; assert_ d;; mret w.

Definition expect_in_order (i : Z) (w : DuplicateWindow) : outcome Empty_set DuplicateWindow :=
  w ← expect_new i w;
  assert_eq (u24_to_u32 (first_unreceived w)) (i + 1);;
  assert_ (bool_decide (BitVecQueue_len (received_status w) ≤ 1)%nat);;
  mret w.

Definition test_duplicate_windows_check_ordered : test :=
  for_each (seqZ 0 1024) expect_in_order DuplicateWindow_default;; mret tt.

Definition test_duplicate_windows_check_ordered_dup : test :=
  w ← for_each (seqZ 0 512) expect_in_order DuplicateWindow_default;
  for_each (seqZ 0 512) expect_dup w;; mret tt.

Definition test_duplicate_windows_check_gap_dup : test :=
  w ← for_each [0; 1; 1000; 1001] expect_new DuplicateWindow_default;
  w ← for_each [1000; 1001] expect_dup w;
  w ← expect_new 500 w;
  w ← expect_dup 500 w;
  assert_eq (u24_to_u32 (first_unreceived w)) 2.

Definition test_duplicate_window_clear_gap_map : test :=
  w ← for_each ((λ i, 2 * i) <$> seqZ 0 128) expect_new DuplicateWindow_default;
  w ← for_each ((λ i, 2 * i + 1) <$> seqZ 0 128) expect_new w;
  assert_eq (BitVecQueue_len (received_status w)) 0%nat.

(** [Flags::parse(0b011_11100)] *)
Definition test_flags : Flags := mkFlags 124 ReliableOrdered true.

Definition dedup_frame_set (idx : list Z) : FrameSet_ :=
  mkFrameSet 0 ((λ i, mkFrame test_flags (Some i) None None None []) <$> idx).

Definition expect_next {St X Y} `{EqDecision Y} (poll_next : layer St X (answer Y)) (y : Y) (s : St * list X) :
    outcome Empty_set (St * list X) :=
  '(r, st, up) ← next poll_next s.1 s.2;
  match r with
  | Some (inr x) => assert_eq x y;; mret (st, up)
  | _ => Panic
  end.

Definition expect_none {St X Y} (poll_next : layer St X (answer Y)) (s : St * list X) : outcome Empty_set (St * list X) :=
  '(r, st, up) ← next poll_next s.1 s.2;
  match r with
  | None => mret (st, up)
  | _ => Panic
  end.

Definition test_dedup_works : test :=
  let up := yields_of (dedup_frame_set <$>
    [seqZ 0 64; seqZ 0 64; [65; 66; 68; 69]; [67; 68]; [71; 71; 72]; [70]]) in
  for_each (dedup_frame_set <$> [seqZ 0 64; [65; 66; 68; 69]; [67]; [71; 72]; [70]])
    (expect_next Dedup_poll_next) (DuplicateWindow_default, up);; mret tt.

Definition test_dedup_same : test :=
  let up := yields_of (dedup_frame_set <$> [[0; 1; 2; 3]; [0; 1; 2; 3]]) in
  s ← expect_next Dedup_poll_next (dedup_frame_set [0; 1; 2; 3]) (DuplicateWindow_default, up);
  expect_none Dedup_poll_next s;; mret tt.

(** [IndexSet::from_iter] keeps the first of equal elements, [Sub] the order. *)
Fixpoint index_set (seen l : list Z) : list Z :=
  match l with
  | [] => []
  | x :: l => if bool_decide (x ∈ seen) then index_set seen l else x :: index_set (x :: seen) l
  end.

Definition test_dedup_fuzzing (idx1 idx2 : list Z) : test :=
  let idx1_set := index_set [] idx1 in
  let idx2_set := index_set [] idx2 in
  let diff := filter (.∉ idx1_set) idx2_set in
  let up := yields_of (dedup_frame_set <$> [idx1; idx2]) in
  s ← expect_next Dedup_poll_next (dedup_frame_set idx1_set) (DuplicateWindow_default, up);
  if bool_decide (diff = []) then expect_none Dedup_poll_next s;; mret tt
  else expect_next Dedup_poll_next (dedup_frame_set diff) s;; mret tt.

(** ** Reassembly (codec/decoder/fragment.rs) *)

Definition bytes_of (s : string) : list Z := (λ c, Z.of_N (Ascii.N_of_ascii c)) <$> String.list_ascii_of_string s.

(** A part: how many there are, the message, the index and the body. *)
Definition part_frame (x : Z * Z * Z * string) : Frame :=
  let '(parted_size, parted_id, parted_index, body) := x in
  mkFrame test_flags None None None (Some (mkFragment parted_size parted_id parted_index)) (bytes_of body).

Definition part_frame_set (idx : list (Z * Z * Z * string)) : FrameSet_ := mkFrameSet 0 (part_frame <$> idx).

Definition no_frag_frame_set (bodies : list string) : FrameSet_ :=
  mkFrameSet 0 ((λ body, mkFrame test_flags None None None None (bytes_of body)) <$> bodies).

(** The next item, which has this body. *)
Definition expect_body (body_ : list Z) (s : DeFragment * tape FrameSet_) :
    outcome Empty_set (FrameOne * (DeFragment * tape FrameSet_)) :=
  '(r, st, up) ← next DeFragment_poll_next s.1 s.2;
  match r with
  | Some (inr x) => assert_eq (body (one_frame x)) body_;; mret (x, (st, up))
  | _ => Panic
  end.

Definition is_parted_error (e : CodecError) : bool := match e with PartedFrame _ => true | _ => false end.

Definition expect_error {St X Y} (poll_next : layer St X (answer Y)) (P : CodecError → bool) (s : St * list X) :
    outcome Empty_set (St * list X) :=
  '(r, st, up) ← next poll_next s.1 s.2;
  match r with
  | Some (inl e) => assert_ (P e);; mret (st, up)
  | _ => Panic
  end.

Definition test_defragment_works : test :=
  let up := yields_of [
    part_frame_set [(5, 7, 0, "h"); (5, 7, 3, "p"); (5, 7, 4, "y"); (5, 6, 4, "k")];
    part_frame_set [(5, 7, 2, "p"); (5, 7, 1, "a"); (5, 7, 4, "y")]]%string in
  frag ← defragmented 0 512;
  '(set, s) ← expect_body (bytes_of "happy") (frag, up);
  assert_ (negb (parted (flags (one_frame set))));;
  assert_eq (fragment (one_frame set)) None;;
  expect_none DeFragment_poll_next s;; mret tt.

Definition test_defragment_bad_parted_index : test :=
  let up := yields_of [part_frame_set [(10, 7, 10, "h")]; part_frame_set [(22, 7, 6, "h")]]%string in
  frag ← defragmented 20 512;
  s ← expect_error DeFragment_poll_next is_parted_error (frag, up);
  s ← expect_error DeFragment_poll_next is_parted_error s;
  expect_none DeFragment_poll_next s;; mret tt.

Definition test_defragment_lru_dropped : test :=
  let up := yields_of [
    part_frame_set [(3, 0, 0, "0")]; part_frame_set [(3, 1, 0, "0")]; part_frame_set [(3, 2, 0, "0")];
    part_frame_set [(3, 0, 1, "1")]; part_frame_set [(3, 0, 2, "2")]; part_frame_set [(3, 2, 2, "2")]]%string in
  frag ← defragmented 0 2;
  s ← expect_none DeFragment_poll_next (frag, up);
  let parts := lru_list (parts s.1) in
  assert_eq (length parts) 2%nat;;
  assert_eq (length ∘ heap_frames <$> alist_get 0 parts) (Some 2%nat);;
  assert_eq (length ∘ heap_frames <$> alist_get 2 parts) (Some 2%nat).

Definition test_defragment_mixed : test :=
  let up := yields_of [
    part_frame_set [(5, 7, 0, "h"); (5, 7, 3, "p"); (5, 7, 4, "y"); (5, 6, 4, "k")];
    no_frag_frame_set ["funny"];
    part_frame_set [(5, 7, 2, "p"); (5, 7, 1, "a"); (5, 7, 4, "y")]]%string in
  frag ← defragmented 0 2;
  '(_, s) ← expect_body (bytes_of "funny") (frag, up);
  expect_body (bytes_of "happy") s;; mret tt.

(** The slice in its shuffled order, cut into chunks; [show] stands for the decimal
    digits of the index. *)
Fixpoint chunks {A} (fuel n : nat) (l : list A) : list (list A) :=
  match fuel, l with
  | S fuel, _ :: _ => take n l :: chunks fuel n (drop n l)
  | _, _ => []
  end.

Definition test_defragment_fuzzing (show : Z → string) (parted_slice : list Z) (chunk_size : nat) : test :=
  let scale := Z.of_nat (length parted_slice) in
  let final_body := seqZ 0 scale ≫= (λ i, bytes_of (show i)) in
  let up := yields_of (part_frame_set <$>
    chunks (length parted_slice) chunk_size ((λ r, (scale, 0, r, show r)) <$> parted_slice)) in
  frag ← defragmented 0 1;
  expect_body final_body (frag, up);; mret tt.

(** ** Reordering (codec/decoder/ordered.rs) *)

Definition order_sets (idx : list (Z * Z)) : list FrameOne :=
  (λ '(channel, frame_index),
    mkFrameOne 0 (mkFrame test_flags None None (Some (mkOrdered frame_index channel)) None [])) <$> idx.

Definition is_ordered_error (e : CodecError) : bool := match e with OrderedFrame _ => true | _ => false end.

Definition test_ordered_works : test :=
  let up := yields_of (order_sets [(0, 1); (0, 0); (0, 2); (0, 0); (0, 4); (0, 3); (1, 1)]) in
  o ← ordered_layer 10;
  s ← for_each (order_sets [(0, 0); (0, 1); (0, 2); (0, 3); (0, 4)]) (expect_next Order_poll_next) (o, up);
  expect_none Order_poll_next s;; mret tt.

Definition test_ordered_channel_exceed : test :=
  o ← ordered_layer 10;
  expect_error Order_poll_next is_ordered_error (o, yields_of (order_sets [(10, 1)]));; mret tt.
End tests.

(** ** Tests with many inputs *)

Lemma for_each_run {A} (l : list A) (g : A → bq_op) (q : BitVecQueue) :
  for_each (E:=Empty_set) l (λ x q, bq_step q (g x)) q = bq_run q (g <$> l).
Proof. revert q. induction l as [|x l IH]; intros q; cbn; [done|]. destruct (bq_step q (g x)); cbn; [apply IH|done..]. Qed.

Lemma for_each_asserts {A} (l : list A) (f : A → test) : (∀ x, x ∈ l → f x = Ok tt) → for_each l (λ x _, f x) tt = Ok tt.
Proof. induction l as [|x l IH]; intros Hl; cbn; [done|]. rewrite Hl by set_solver. cbn. apply IH. set_solver. Qed.

Lemma assert_eq_refl {E A} `{EqDecision A} (x : A) : assert_eq (E:=E) x x = Ok tt.
Proof. unfold assert_eq. by rewrite bool_decide_true. Qed.

Lemma pushes_bits (f : nat → bool) n l : foldl bits_step l ((λ i, OpPush (f i)) <$> seq 0 n) = l ++ (f <$> seq 0 n).
Proof.
  induction n as [|n IH]; [by rewrite app_nil_r|]. rewrite seq_S, fmap_app, foldl_app, IH, fmap_app. cbn.
  by rewrite <- app_assoc.
Qed.

Lemma sets_bits (f : nat → bool) n l :
  (n ≤ length l)%nat → foldl bits_step l ((λ i, OpSet i (f i)) <$> seq 0 n) = (f <$> seq 0 n) ++ drop n l.
Proof.
  induction n as [|n IH]; intros Hn; [done|]. rewrite seq_S, fmap_app, foldl_app, IH, fmap_app by lia. cbn.
  destruct (lookup_lt_is_Some_2 l n ltac:(lia)) as [x Hx].
  rewrite (drop_S l x n Hx). assert (length (f <$> seq 0 n) = n) as Hl by (by rewrite length_fmap, length_seq).
  rewrite insert_app_r_alt by lia. rewrite Hl, Nat.sub_diag. cbn. by rewrite <- app_assoc.
Qed.

Lemma pops_bits n l : foldl bits_step l ((λ _, OpPop) <$> seq 0 n) = drop n l.
Proof.
  revert l. generalize 0%nat. induction n as [|n IH]; intros k l; [done|]. cbn. rewrite IH. destruct l; cbn; [by rewrite drop_nil|done].
Qed.

(** The large store works at any size. *)
Lemma test_large_store_passes n : test_large_store n = Ok tt.
Proof.
  unfold test_large_store.
  rewrite (for_each_run (seq 0 n) (λ i, OpPush (Nat.even i))).
  destruct (bq_run_refines (E:=Empty_set) ((λ i, OpPush (Nat.even i)) <$> seq 0 n) _ BitVecQueue_default_wf) as (q & -> & Hq & Hb).
  rewrite pushes_bits in Hb. cbn [app BitVecQueue_bits] in Hb. change (BitVecQueue_bits BitVecQueue_default) with ([] : list bool) in Hb.
  cbn [app mbind outcome_bind] in *.
  assert (∀ i, i ∈ seq 0 n → seq 0 n !! i = Some i) as Hseq.
  { intros i [_ Hi]%elem_of_seq. by rewrite lookup_seq_lt. }
  rewrite for_each_asserts; cbn [mbind outcome_bind].
  2: { intros i Hi. unfold assert_get. rewrite BitVecQueue_get_spec by done. cbn.
       rewrite Hb, list_lookup_fmap, (Hseq i Hi). apply assert_eq_refl. }
  rewrite (for_each_run (seq 0 n) (λ i, OpSet i (negb (Nat.even i)))).
  destruct (bq_run_refines (E:=Empty_set) ((λ i, OpSet i (negb (Nat.even i))) <$> seq 0 n) q Hq) as (q2 & -> & Hq2 & Hb2).
  rewrite (sets_bits (λ i, negb (Nat.even i))), Hb, drop_ge, app_nil_r in Hb2 by (rewrite ?Hb, length_fmap, length_seq; lia).
  cbn [mbind outcome_bind]. rewrite for_each_asserts; cbn [mbind outcome_bind].
  2: { intros i Hi. unfold assert_get. rewrite BitVecQueue_get_spec by done. cbn.
       rewrite Hb2, list_lookup_fmap, (Hseq i Hi). apply assert_eq_refl. }
  assert (BitVecQueue_len q2 = n) as -> by (by rewrite <- length_bits, Hb2, length_fmap, length_seq).
  rewrite assert_eq_refl. cbn [mbind outcome_bind]. rewrite (for_each_run (seq 0 n) (λ _, OpPop)).
  destruct (bq_run_refines (E:=Empty_set) ((λ _, OpPop) <$> seq 0 n) q2 Hq2) as (q3 & -> & Hq3 & Hb3).
  rewrite pops_bits, Hb2, drop_ge in Hb3 by (rewrite length_fmap, length_seq; lia). cbn [mbind outcome_bind].
  assert (BitVecQueue_len q3 = 0%nat) as -> by (by rewrite <- length_bits, Hb3).
  rewrite assert_eq_refl. cbn [mbind outcome_bind].
  destruct (BitVecQueue_set_spec (E:=Empty_set) q3 2 true Hq3) as (q4 & -> & Hq4 & Hb4). cbn [mbind outcome_bind].
  unfold assert_get. rewrite BitVecQueue_get_spec by done. cbn [mbind outcome_bind]. rewrite Hb4, Hb3. apply assert_eq_refl.
Qed.

(** What the layer keeps of frames that are told apart by their index. *)
Lemma index_set_first_occurrences hist idx :
  first_occurrences hist (set (dedup_frame_set idx)) = set (dedup_frame_set (index_set hist idx)).
Proof.
  revert hist. induction idx as [|i idx IH]; intros hist; [done|]. cbn. case_bool_decide; cbn; by rewrite IH.
Qed.

Lemma index_set_ext s1 s2 l : (∀ x, x ∈ s1 ↔ x ∈ s2) → index_set s1 l = index_set s2 l.
Proof.
  revert s1 s2. induction l as [|x l IH]; intros s1 s2 Hs; cbn; [done|].
  rewrite (bool_decide_ext (x ∈ s1) (x ∈ s2)) by apply Hs. case_bool_decide; [by apply IH|]. f_equal. apply IH. set_solver.
Qed.

(** Starting with elements seen is taking them away at the end. *)
Lemma index_set_seen s t l : index_set (s ++ t) l = filter (.∉ s) (index_set t l).
Proof.
  revert t. induction l as [|x l IH]; intros t; cbn; [done|].
  destruct (decide (x ∈ t)) as [Ht|Ht].
  { rewrite bool_decide_true by set_solver. rewrite bool_decide_true by done. apply IH. }
  rewrite (bool_decide_false (x ∈ t)) by done. rewrite filter_cons.
  destruct (decide (x ∈ s)) as [Hs|Hs].
  - rewrite bool_decide_true, decide_False by set_solver. rewrite <- IH. apply index_set_ext. set_solver.
  - rewrite bool_decide_false, decide_True by set_solver. f_equal. rewrite <- IH. apply index_set_ext. set_solver.
Qed.

Lemma index_set_elem l x : x ∈ index_set [] l ↔ x ∈ l.
Proof.
  enough (∀ s, x ∈ index_set s l ↔ x ∈ l ∧ x ∉ s) as H by (rewrite H; set_solver).
  induction l as [|y l IH]; intros s; cbn; [set_solver|]. case_bool_decide.
  - rewrite IH. set_solver.
  - rewrite elem_of_cons, IH. destruct (decide (x = y)); set_solver.
Qed.

Lemma reliable_indices_set idx : reliable_indices (set (dedup_frame_set idx)) = idx.
Proof. induction idx as [|i idx IH]; [done|]. cbn in *. unfold reliable_indices in *. cbn. by rewrite IH. Qed.

(** A poll on a frame set of which something is new. *)
Lemma expect_next_new hist w idx up :
  window_seen (.∈ hist) w → Forall countable hist → Forall countable idx → index_set hist idx ≠ [] →
  ∃ w', expect_next Dedup_poll_next (dedup_frame_set (index_set hist idx)) (w, Ready (Some (inr (dedup_frame_set idx))) :: up) =
      Ok (w', up) ∧ window_seen (.∈ idx ++ hist) w'.
Proof.
  intros Hw Hh Hidx Hne.
  destruct (dedup_retain_spec (E:=Empty_set) hist w (set (dedup_frame_set idx)) Hw Hh) as (w' & Hr & Hw').
  { unfold frames_countable. by rewrite reliable_indices_set. }
  rewrite index_set_first_occurrences in Hr. rewrite reliable_indices_set in Hw'. exists w'. split; [|done].
  unfold expect_next, next. cbn [fst snd Dedup_poll_next]. rewrite Hr. cbn [mbind outcome_bind].
  destruct (index_set hist idx) as [|i l] eqn:Hi; [done|]. cbn [dedup_frame_set set fmap list_fmap mbind outcome_bind mret outcome_ret].
  by rewrite assert_eq_refl.
Qed.

Lemma expect_none_old hist w idx up :
  window_seen (.∈ hist) w → Forall countable hist → Forall countable idx → index_set hist idx = [] →
  ∃ s, expect_none Dedup_poll_next (w, Ready (Some (inr (dedup_frame_set idx))) :: Ready None :: up) = Ok s.
Proof.
  intros Hw Hh Hidx Hnil.
  destruct (dedup_retain_spec (E:=Empty_set) hist w (set (dedup_frame_set idx)) Hw Hh) as (w' & Hr & _).
  { unfold frames_countable. by rewrite reliable_indices_set. }
  rewrite index_set_first_occurrences, Hnil in Hr. exists (w', up).
  unfold expect_none, next. cbn [fst snd Dedup_poll_next]. rewrite Hr. done.
Qed.

(** The fuzzing test of the layer passes whatever is drawn. *)
Lemma test_dedup_fuzzing_passes idx1 idx2 :
  idx1 ≠ [] → Forall countable idx1 → Forall countable idx2 → test_dedup_fuzzing idx1 idx2 = Ok tt.
Proof.
  intros Hne H1 H2. unfold test_dedup_fuzzing, yields_of. cbn [fmap list_fmap app].
  destruct (expect_next_new [] DuplicateWindow_default idx1
    (Ready (Some (inr (dedup_frame_set idx2))) :: replicate 8 (Ready None))) as (w & -> & Hw);
    [eapply window_seen_ext; [|apply window_seen_default]; intros x _; cbn; set_solver|constructor|done|by destruct idx1|].
  rewrite app_nil_r in Hw. cbn [mbind outcome_bind].
  assert (index_set idx1 idx2 = filter (.∉ index_set [] idx1) (index_set [] idx2)) as Hd.
  { rewrite <- index_set_seen, app_nil_r. apply index_set_ext. intros x. by rewrite index_set_elem. }
  rewrite <- Hd. case_bool_decide as Hn.
  - destruct (expect_none_old idx1 w idx2 (replicate 7 (Ready None)) Hw H1 H2 Hn) as [s Hs]. cbn [replicate] in *. by rewrite Hs.
  - destruct (expect_next_new idx1 w idx2 (replicate 8 (Ready None)) Hw H1 H2 Hn) as (w' & Hs & _). by rewrite Hs.
Qed.

(** ** The tests pass *)

Section reference_run.
#[local] Instance run_bytes : BytesCrate := bytes_reference.
#[local] Instance run_heap : BinaryHeap := heap_sorted.
#[local] Instance run_lru : LruCrate := lru_reference.

Definition decoder_tests : list test :=
  [test_u24_works; test_bit_queue_works; test_ack_should_not_overflow_mtu;
   test_duplicate_windows_check_ordered; test_duplicate_windows_check_ordered_dup;
   test_duplicate_windows_check_gap_dup; test_duplicate_window_clear_gap_map; test_dedup_works; test_dedup_same;
   test_defragment_fuzzing pretty [3; 0; 7; 9; 1; 2; 8; 5; 4; 6] 3;
   test_defragment_fuzzing pretty ((λ i, (37 * i) `mod` 101) <$> seqZ 0 101) 8;
   test_defragment_works; test_defragment_bad_parted_index; test_defragment_lru_dropped; test_defragment_mixed;
   test_ordered_works; test_ordered_channel_exceed].

Definition decoder_should_panic : list test :=
  [test_u24_overflow_1; test_u24_overflow_2; test_u24_overflow_3; test_u24_overflow_4; test_u24_overflow_5].

Example test_flags_parse : Flags_parse (E:=Empty_set) 124 = Ok test_flags.
Proof. reflexivity. Qed.

Definition passes (t : test) : bool := match t with Ok _ => true | _ => false end.
Definition panics (t : test) : bool := match t with Panic => true | _ => false end.

Lemma decoder_tests_pass : forallb passes decoder_tests = true ∧ forallb panics decoder_should_panic = true.
Proof. split; vm_compute; reflexivity. Qed.
End reference_run.
