(* ===== verification/Decoder.v ===== *)
(** * The decoding pipeline (src/codec/mod.rs and src/codec/decoder/body.rs)

    [frame_decoded] stacks deduplication, defragmentation, ordering and body
    decoding.  Each layer sees the answers of the layer below as its tape. *)
From S2P Require Import Prelude Bytes Errors Reader SeqNum Types FrameSet FrameBody Stream Collections Dedup.
From S2P Require Import DeFragment Order.
Open Scope Z_scope.

(** [codec::Config] *)
Record CodecConfig := mkCodecConfig {
  max_parted_size : Z;
  max_parted_count : nat;
  cfg_max_channels : nat;
}.

Definition CodecConfig_default : CodecConfig := mkCodecConfig 256 256 1.

Section decoder.
Context {B : Build} {BC : BytesCrate} {BH : BinaryHeap} {LC : LruCrate}.

(** [BodyDecoder] has no state of its own. *)
Definition BodyDecoder_poll_next (_ : unit) (up : tape FrameOne) :
    outcome Empty_set (answer FrameBody * unit * tape FrameOne) :=
  match up with
  | [] => mret (Pending, tt, [])
  | Pending :: up => mret (Pending, tt, up)
  | Ready (Some (inl e)) :: up => mret (Ready (Some (inl e)), tt, up)
  | Ready None :: up => mret (Ready None, tt, up)
  | Ready (Some (inr frame_set)) :: up =>
      match FrameBody_read (body (one_frame frame_set)) with
      | Ok b => mret (Ready (Some (inr b)), tt, up)
      | Err e => mret (Ready (Some (inl e)), tt, up)
      | Panic => Panic
      end
  end.

(** [n] polls of every layer of [frame_decoded]; [map(Ok)] and [trace_pending]
    change nothing that is delivered. *)
Definition frame_decoded (config : CodecConfig) (n : nat) (up : tape FrameSet_) :
    outcome Empty_set (tape FrameBody) :=
  '(t, _, _) ← polls Dedup_poll_next n DuplicateWindow_default up;
  d ← defragmented (max_parted_size config) (max_parted_count config);
  '(t, _, _) ← polls DeFragment_poll_next n d t;
  o ← ordered_layer (cfg_max_channels config);
  '(t, _, _) ← polls Order_poll_next n o t;
  '(t, _, _) ← polls BodyDecoder_poll_next n tt t;
  mret t.

(** A frame as [FrameSet::read] produces it ([Frame_ok]), with indices below the
    last 24-bit number. *)
Definition decodable (f : Frame) : Prop :=
  Forall countable (option_list (reliable_frame_index f)) ∧
  body f ≠ [] ∧
  match ordered f with Some o => countable (frame_index o) ∧ 0 ≤ channel o | None => True end.

Lemma decodable_merge_closed : merge_closed decodable.
Proof.
  intros f b (H1 & H2 & H3). unfold Frame_reassembled. destruct (negb _); cbn; split_and!; try done.
  all: by destruct (body f).
Qed.

Lemma first_occurrences_elem hist fs f : f ∈ first_occurrences hist fs → f ∈ fs.
Proof.
  revert hist. induction fs as [|g fs IH]; intros hist; cbn; [done|].
  destruct (reliable_frame_index g) as [i|]; [case_bool_decide|];
    rewrite ?elem_of_cons; naive_solver.
Qed.

Lemma BodyDecoder_polls n up :
  debug_assertions = false → Forall (λ o, body (one_frame o) ≠ []) (items up) →
  ∃ out up', polls BodyDecoder_poll_next n tt up = Ok (out, tt, up') ∧ length out = n.
Proof.
  intros Hd. revert up. induction n as [|n IH]; intros up Hup; cbn; [by eexists _, _|].
  assert (∃ a up', BodyDecoder_poll_next tt up = Ok (a, tt, up') ∧
    Forall (λ o, body (one_frame o) ≠ []) (items up')) as (a & up' & -> & Hup').
  { destruct up as [|[[[e|f]|]|] up]; cbn; try (by eexists _, _).
    apply Forall_cons in Hup as [Hf Hup].
    destruct (body (one_frame f)) as [|x l] eqn:Hb; [done|].
    pose proof (FrameBody_read_cons_safe x l Hd) as Hs.
    destruct (FrameBody_read (x :: l)); [by eexists _, _..|done]. }
  cbn. destruct (IH up' Hup') as (out & up2 & -> & Hlen). cbn. eexists _, _. split; [done|cbn; lia].
Qed.

(** C26. The receive path survives any peer: in a release build, for every
    sequence of decoded frame sets whose indices are below the last 24-bit
    number, every poll of the whole pipeline returns an answer; malformed
    fragments, channels and messages are errors of the stream, never a panic. *)
Theorem frame_decoded_no_panic config n (up : tape FrameSet_) :
  debug_assertions = false →
  (0 < max_parted_count config)%nat → (0 < cfg_max_channels config < 256)%nat →
  Forall decodable (tape_frames up) →
  ∃ out, frame_decoded config n up = Ok out ∧ length out = n.
Proof.
  intros Hd Hcap Hch Hup. unfold frame_decoded.
  assert (frames_countable (tape_frames up)) as Hc.
  { unfold frames_countable, reliable_indices. apply Forall_bind.
    eapply Forall_impl; [exact Hup|]. by intros f [? _]. }
  destruct (Dedup_polls_spec n [] DuplicateWindow_default up)
    as (t1 & w & used & up' & -> & Hu & Hlen1 & H1 & _ & _); [|constructor|done|].
  { eapply window_seen_ext; [|apply window_seen_default]. intros x _. cbn. set_solver. }
  cbn [mbind outcome_bind]. unfold defragmented. rewrite bool_decide_false by lia.
  cbn [mbind outcome_bind negb assert_ mret outcome_ret].
  destruct (DeFragment_polls_all decodable (max_parted_count config) n
    (mkDeFragment (max_parted_size config) (lru_new (max_parted_count config)) []) t1)
    as (t2 & st2 & up2 & -> & Hlen2 & H2).
  { apply decodable_merge_closed. }
  { done. }
  { apply DeFragment_inv_new. }
  { split; cbn; [rewrite lru_new_list|]; constructor. }
  { cut (Forall decodable (tape_frames t1)); [intros Ht; by apply Forall_bind in Ht|].
    apply Forall_forall. intros f Hf. rewrite H1 in Hf.
    rewrite Hu, tape_frames_app, Forall_app in Hup. destruct Hup as [Hup _].
    rewrite Forall_forall in Hup. by eapply Hup, first_occurrences_elem. }
  cbn [mbind outcome_bind]. unfold ordered_layer. rewrite !bool_decide_true by lia.
  cbn [mbind outcome_bind assert_ mret outcome_ret].
  destruct (Order_polls_spec n [] [] (mkOrder (cfg_max_channels config)
    (replicate (cfg_max_channels config) Ordering_default)) t2)
    as (t3 & st3 & used3 & up3 & -> & Hu3 & Hlen3 & Hi3 & _ & _).
  { apply Order_inv_new. }
  { eapply Forall_impl; [exact H2|]. by intros f (_ & _ & Hf). }
  cbn [mbind outcome_bind].
  destruct (BodyDecoder_polls n t3 Hd) as (t4 & up4 & -> & Hlen4).
  { apply Forall_forall. intros f Hf. apply (oi_delivered _ _ _ Hi3) in Hf. cbn [app] in Hf.
    rewrite Hu3, items_app, Forall_app in H2. destruct H2 as [H2 _].
    rewrite Forall_forall in H2. by apply H2 in Hf as (_ & ? & _). }
  by exists t4.
Qed.
End decoder.

Lemma frame_decoded_no_panic_witness :
  ∃ out, frame_decoded (B:=false) (BC:=bytes_reference) (BH:=heap_sorted) (LC:=lru_reference)
    CodecConfig_default 4
    [Ready (Some (inr (mkFrameSet 0
      [mkFrame (Flags_new ReliableOrdered false) (Some 0) None (Some (mkOrdered 0 0)) None [254; 1]])))] = Ok out ∧
    length out = 4%nat.
Proof.
  apply (frame_decoded_no_panic (B:=false) (BC:=bytes_reference) (BH:=heap_sorted) (LC:=lru_reference));
    [done|cbn; lia|cbn; lia|].
  apply Forall_singleton. split_and!; [by repeat constructor|done|by vm_compute].
Defined.
