(* ===== verification/Rest.v ===== *)
(** * The decoding layers come to rest

    A layer that is polled long enough has taken everything off the stream below,
    has handed up everything it owes, and from then on answers [Pending]. *)
From S2P Require Import Prelude Bytes Errors Reader SeqNum Types FrameSet FrameBody Stream Collections Dedup.
From S2P Require Import DeFragment Order Decoder.
Open Scope Z_scope.

Section rest.
Context {B : Build} {BC : BytesCrate} {BH : BinaryHeap} {LC : LruCrate}.

Lemma Dedup_poll_uses w up a w' up' :
  Dedup_poll_next w up = Ok (a, w', up') → ∃ used, up = used ++ up' ∧ (used ≠ [] ∨ up = []).
Proof.
  revert w. induction up as [|x up IH]; intros w; cbn [Dedup_poll_next].
  { intros [= <- <- <-]. exists []. auto. }
  destruct x as [[[e|fs]|]|]; try (intros [= <- <- <-]; eexists [_]; by auto).
  destruct (dedup_retain (E:=Empty_set) w (set fs)) as [[[|g gs] w1]| |]; cbn [mbind outcome_bind]; [| |done..].
  - intros (used & -> & _)%IH. exists (Ready (Some (inr fs)) :: used). auto.
  - intros [= <- <- <-]. exists [Ready (Some (inr fs))]. auto.
Qed.

(** Every poll of the deduplication takes an answer off the tape. *)
Lemma Dedup_rests n w up out w' up' :
  polls Dedup_poll_next n w up = Ok (out, w', up') → (2 * length up < n)%nat →
  ∃ v k k', out = v ++ replicate k Pending ∧ (length v ≤ 2 * length up + 1)%nat ∧ up' = replicate k' Pending.
Proof.
  intros Hp Hn.
  assert (∀ n w up, polls Dedup_poll_next n w up = Ok (out, w', up') → (length (items out) ≤ length up)%nat) as Hi.
  { clear. intros n. revert out. induction n as [|n IH]; intros out w up; cbn [polls]; [by intros [= <- <- <-]; cbn; lia|].
    destruct (Dedup_poll_next w up) as [[[a w1] up1]| |] eqn:H1; cbn [mbind outcome_bind]; [|done..].
    destruct (polls _ n w1 up1) as [[[out1 w2] up2]| |] eqn:H2; cbn [mbind outcome_bind]; [|done..].
    intros [= <- <- <-]. apply IH in H2. rewrite items_cons, length_app.
    destruct (Dedup_poll_uses _ _ _ _ _ H1) as (used & -> & [Hu|[-> ->]%app_nil]).
    - rewrite length_app. destruct used; [done|]. cbn. destruct a as [[[|]|]|]; cbn; lia.
    - cbn in H1. injection H1 as <- <-. cbn in *. lia. }
  pose proof (Hi _ _ _ Hp) as Hle. rewrite <-(app_nil_r up) in Hp.
  destruct (settle Dedup_poll_next (λ _ _, True) (λ _, True)) with (n:=n) (st:=w) (u:=up) (k:=0%nat) (M:=length up) (out:=out) (st':=w') (up':=up')
    as (_ & v & k & k' & -> & Hv & ->); [done| |done|done|done|lia|exists v, k, k'; split_and!; [done|lia|done]].
  intros st u a st' u' _ H1. split; [done|]. destruct (Dedup_poll_uses _ _ _ _ _ H1) as (used & -> & Hu).
  exists used. split; [done|]. destruct (decide (answer_items a = [])); [right|left]; done.
Qed.

Lemma DeFragment_poll_rests cap st up a st' up' :
  (0 < cap)%nat → DeFragment_inv cap st → Forall (frame_valid (limit_size st)) (tape_pairs up).*2 →
  DeFragment_poll_next st up = Ok (a, st', up') →
  ∃ used, up = used ++ up' ∧
    (answer_items a ≠ [] ∨ answer_items a = [] ∧ buffer st' = [] ∧ (used ≠ [] ∨ up = [])).
Proof.
  intros Hcap. revert st. induction up as [|x up IH]; intros st Hinv Hv; cbn [DeFragment_poll_next].
  all: destruct (buffer st) as [|o buf] eqn:Hb; [|intros [= <- <- <-]; exists []; split; [done|by left]].
  { intros [= <- <- <-]. exists []. split; [done|right; by auto]. }
  destruct x as [[[e|fs]|]|]; try (intros [= <- <- <-]; eexists [_]; split; [done|right; by auto]).
  change (Ready (Some (inr fs)) :: up) with ([Ready (Some (inr fs))] ++ up) in Hv.
  rewrite tape_pairs_app, fmap_app, Forall_app in Hv. destruct Hv as [Hv1 Hv2].
  assert (tape_pairs [Ready (Some (inr fs))] = pair (seq_num fs) <$> set fs) as Hp
    by (unfold tape_pairs, items; cbn; by rewrite app_nil_r).
  rewrite Hp in Hv1. destruct (defrag_run_valid cap st _ Hcap Hinv Hv1) as (st1 & Hr & Hi1 & Hl1).
  rewrite defrag_frames_run, Hr. intros H.
  destruct (IH st1 Hi1) as (used & -> & Hcase); [by rewrite Hl1|done|].
  exists (Ready (Some (inr fs)) :: used). split; [done|].
  destruct Hcase as [?|(? & ? & _)]; [by left|right; by auto].
Qed.

Definition defrag_ready cap (up : tape FrameSet_) (st : DeFragment) : Prop :=
  DeFragment_inv cap st ∧ Forall (frame_valid (limit_size st)) (tape_pairs up).*2.

Lemma DeFragment_idle st up :
  buffer st = [] →
  DeFragment_poll_next st [] = Ok (Pending, st, []) ∧ DeFragment_poll_next st (Pending :: up) = Ok (Pending, st, up).
Proof. intros Hs. destruct st as [l p b]. cbn in Hs. by subst b. Qed.

Lemma DeFragment_step cap st up a st' up' :
  (0 < cap)%nat → defrag_ready cap up st → DeFragment_poll_next st up = Ok (a, st', up') →
  defrag_ready cap up' st' ∧ ∃ used, up = used ++ up' ∧
    (answer_items a ≠ [] ∨ answer_items a = [] ∧ buffer st' = [] ∧ (used ≠ [] ∨ up = [])).
Proof.
  intros Hcap [Hi Hval] Hp.
  destruct (DeFragment_poll_spec cap st up Hcap Hi Hval) as (a1 & s1 & used & up1 & Hp1 & Hu & _ & Hi1 & Hl1).
  rewrite Hp in Hp1. injection Hp1 as <- <- <-. split; [|by apply (DeFragment_poll_rests cap st up a st' up')].
  split; [done|]. rewrite Hl1. rewrite Hu, tape_pairs_app, fmap_app, Forall_app in Hval. apply Hval.
Qed.

Lemma defrag_ready_pending cap u k st :
  DeFragment_inv cap st → Forall (frame_valid (limit_size st)) (tape_pairs u).*2 →
  defrag_ready cap (u ++ replicate k Pending) st.
Proof. split; [done|]. rewrite tape_pairs_app. unfold tape_pairs at 2. by rewrite items_pending, app_nil_r. Qed.

Lemma DeFragment_rests cap n st u k M out st' up' :
  (0 < cap)%nat → DeFragment_inv cap st → Forall (frame_valid (limit_size st)) (tape_pairs u).*2 →
  polls DeFragment_poll_next n st (u ++ replicate k Pending) = Ok (out, st', up') →
  (length (items out) ≤ M)%nat → (length u + M < n)%nat →
  buffer st' = [] ∧ ∃ v k' k'', out = v ++ replicate k' Pending ∧ (length v ≤ length u + M + 1)%nat ∧
    up' = replicate k'' Pending.
Proof.
  intros Hcap Hinv Hv. apply (settle DeFragment_poll_next (defrag_ready cap) (λ st, buffer st = [])).
  - intros. by apply DeFragment_idle.
  - intros. by eapply DeFragment_step.
  - by apply defrag_ready_pending.
Qed.

Definition order_idle (st : Order) : Prop := length (ordering st) = max_channels st ∧ idle st.

Lemma pop_channel_none {E} n k ord ord' :
  pop_channel (E:=E) n k ord = Ok (None, ord') →
  ord' = ord ∧ ∀ c o, (k ≤ c < k + n)%nat → ord !! c = Some o → map o !! read o = None.
Proof.
  revert k. induction n as [|n IH]; intros k; cbn.
  { intros [= <-]. split; [done|]. intros; lia. }
  destruct (ord !! k) as [o|] eqn:Ho; [|done]. destruct (map o !! read o) eqn:Hm.
  - destruct (u24_add_assign _ _); cbn; done.
  - intros (-> & H)%IH. split; [done|]. intros c o' Hc Ho'.
    destruct (decide (c = k)) as [->|]; [by simplify_eq|]. apply (H c); [lia|done].
Qed.

Lemma pop_channel_idle {E} n k ord :
  (k + n ≤ length ord)%nat → (∀ c o, ord !! c = Some o → map o !! read o = None) →
  pop_channel (E:=E) n k ord = Ok (None, ord).
Proof.
  revert k. induction n as [|n IH]; intros k Hk Hi; cbn; [done|].
  destruct (lookup_lt_is_Some_2 ord k) as [o Ho]; [lia|]. rewrite Ho, (Hi k o Ho). apply IH; [lia|done].
Qed.

Lemma pop_channel_length {E} n k ord r ord' :
  pop_channel (E:=E) n k ord = Ok (r, ord') → length ord' = length ord.
Proof.
  revert k. induction n as [|n IH]; intros k; cbn; [by intros [= _ <-]|].
  destruct (ord !! k) as [o|]; [|done]. destruct (map o !! read o); [|apply IH].
  destruct (u24_add_assign _ _); cbn; [|done..]. intros [= _ <-]. apply length_insert.
Qed.

Lemma order_item_again {E} st f st' :
  order_item (E:=E) st f = Ok (inr st') →
  max_channels st' = max_channels st ∧ length (ordering st') = length (ordering st).
Proof.
  unfold order_item. repeat case_match; try done; intros [= <-]; cbn; by rewrite ?length_insert.
Qed.

Lemma Order_poll_rests st up a st' up' :
  length (ordering st) = max_channels st → Order_poll_next st up = Ok (a, st', up') →
  length (ordering st') = max_channels st' ∧ ∃ used, up = used ++ up' ∧
    (answer_items a ≠ [] ∨ answer_items a = [] ∧ order_idle st' ∧ (used ≠ [] ∨ up = [])).
Proof.
  revert st. induction up as [|x up IH]; intros st Hlen; cbn [Order_poll_next].
  all: destruct (pop_channel (max_channels st) 0 (ordering st)) as [[[f|] ord]| |] eqn:Hpop;
    cbn [mbind outcome_bind]; [| |done..].
  1,3: intros [= <- <- <-]; apply pop_channel_length in Hpop; split; [cbn; congruence|];
    exists []; split; [done|by left].
  all: apply pop_channel_none in Hpop as [-> Hnone].
  all: replace (mkOrder (max_channels st) (ordering st)) with st by (by destruct st).
  all: assert (order_idle st) as Hidle
    by (split; [done|]; intros c o Ho; eapply Hnone; [|exact Ho]; apply lookup_lt_Some in Ho; lia).
  { intros [= <- <- <-]. split; [done|]. exists []. split; [done|]. right. by auto. }
  destruct x as [[[e|f]|]|];
    try (intros [= <- <- <-]; split; [done|]; eexists [_]; split; [done|]; right; by auto).
  destruct (order_item (E:=Empty_set) st f) as [[b|st1]| |] eqn:Hit; cbn [mbind outcome_bind]; [| |done..].
  - intros [= <- <- <-]. split; [done|]. exists [Ready (Some (inr f))]. split; [done|].
    destruct (decide (answer_items b = [])); [right; by auto|by left].
  - apply order_item_again in Hit as [Hm Hl]. intros (Hl' & used & -> & Hcase)%IH; [|congruence].
    split; [done|]. exists (Ready (Some (inr f)) :: used). split; [done|].
    destruct Hcase as [?|(? & ? & _)]; [by left|right; by auto].
Qed.

Lemma Order_idle st up :
  order_idle st →
  Order_poll_next st [] = Ok (Pending, st, []) ∧ Order_poll_next st (Pending :: up) = Ok (Pending, st, up).
Proof.
  intros [Hl Hi].
  assert (pop_channel (E:=Empty_set) (max_channels st) 0 (ordering st) = Ok (None, ordering st)) as Hpop
    by (apply pop_channel_idle; [lia|exact Hi]).
  cbn [Order_poll_next]. rewrite Hpop. cbn. by destruct st.
Qed.

Lemma Order_rests n st u k M out st' up' :
  length (ordering st) = max_channels st →
  polls Order_poll_next n st (u ++ replicate k Pending) = Ok (out, st', up') →
  (length (items out) ≤ M)%nat → (length u + M < n)%nat →
  order_idle st' ∧ ∃ v k' k'', out = v ++ replicate k' Pending ∧ (length v ≤ length u + M + 1)%nat ∧
    up' = replicate k'' Pending.
Proof.
  intros Hlen. apply (settle Order_poll_next (λ _ st, length (ordering st) = max_channels st) order_idle).
  - intros. by apply Order_idle.
  - intros s up a s' up2 Hl Hp. by eapply Order_poll_rests.
  - done.
Qed.

(** ** Errors

    Frames that are valid add no errors: each layer passes on those of the stream
    below, in order. *)
Lemma DeFragment_passes_errors cap n st u k out st' k' :
  (0 < cap)%nat → DeFragment_inv cap st → Forall (frame_valid (limit_size st)) (tape_pairs u).*2 →
  polls DeFragment_poll_next n st (u ++ replicate k Pending) = Ok (out, st', replicate k' Pending) → errors out = errors u.
Proof.
  intros Hcap Hi Hv Hp. apply (polls_errors _ (defrag_ready cap)) in Hp.
  - by rewrite errors_app, !errors_pending, !app_nil_r in Hp.
  - clear -Hcap. intros st up a st' up' Hr Hp. split; [by eapply DeFragment_step|]. destruct Hr as [Hi Hv].
    revert st Hi Hv Hp. induction up as [|x up IH]; intros st Hi Hv; cbn [DeFragment_poll_next].
    all: destruct (buffer st) as [|o buf] eqn:Hb; [|by intros [= <- <- <-]].
    { by intros [= <- <- <-]. }
    change (x :: up) with ([x] ++ up) in Hv. rewrite tape_pairs_app, fmap_app, Forall_app in Hv. destruct Hv as [Hv1 Hv2].
    destruct x as [[[e|fs]|]|]; try (by intros [= <- <- <-]).
    assert (tape_pairs [Ready (Some (inr fs))] = pair (seq_num fs) <$> set fs) as Hp
      by (unfold tape_pairs, items; cbn; by rewrite app_nil_r).
    rewrite Hp in Hv1. destruct (defrag_run_valid cap st _ Hcap Hi Hv1) as (st1 & Hr & Hi1 & Hl1).
    rewrite defrag_frames_run, Hr. apply IH; [done|by rewrite Hl1].
  - by apply defrag_ready_pending.
Qed.

Definition channel_valid (chans : nat) (f : FrameOne) : Prop :=
  match ordered (one_frame f) with Some o => (Z.to_nat (channel o) < chans)%nat | None => True end.

Lemma Order_passes_errors n st u k out st' k' :
  Forall (channel_valid (max_channels st)) (items u) →
  polls Order_poll_next n st (u ++ replicate k Pending) = Ok (out, st', replicate k' Pending) → errors out = errors u.
Proof.
  intros Hv Hp. apply (polls_errors _ (λ up st, Forall (channel_valid (max_channels st)) (items up))) in Hp.
  - by rewrite errors_app, !errors_pending, !app_nil_r in Hp.
  - clear. intros st up a st' up'. revert st. induction up as [|x up IH]; intros st Hv; cbn [Order_poll_next].
    all: destruct (pop_channel (max_channels st) 0 (ordering st)) as [[[f|] ord]| |]; cbn [mbind outcome_bind];
      [by intros [= <- <- <-]| |done..].
    { by intros [= <- <- <-]. }
    destruct x as [[[e|f]|]|]; try (by intros [= <- <- <-]). rewrite items_cons in Hv. apply Forall_cons in Hv as [Hf Hv].
    unfold order_item, channel_valid in *. destruct (ordered (one_frame f)) as [o|]; cbn [max_channels ordering].
    + rewrite decide_False by lia. destruct (ord !! Z.to_nat (channel o)) as [r|]; [|done].
      destruct (frame_index o <? read r); cbn [mbind outcome_bind mret outcome_ret]; by apply IH.
    + cbn. by intros [= <- <- <-].
  - by rewrite items_app, items_pending, app_nil_r.
Qed.

(** ** The end

    When the stream below ends, so does each layer, after everything that it owes. *)
Local Ltac end_tac :=
  intros [= <- <- <-];
  first [exists []; split; [done|right; split; [done|constructor]]
        |eexists [_]; split; [done|]; first [right; split; [done|by repeat constructor]|left; split; [done|exists []; split; [done|constructor]]]].

Lemma Dedup_ends n w up out w' k :
  ended up → polls Dedup_poll_next n w up = Ok (out, w', replicate k Pending) → ended out.
Proof.
  apply (ends Dedup_poll_next (λ _ _, True) (λ _, True)); [done| | |done].
  - intros st u a st' u' _ (used & -> & Hu)%Dedup_poll_uses. split; [done|]. exists used. split; [done|].
    destruct (decide (answer_items a = [])); [right|left]; done.
  - intros st u. revert st. induction u as [|x u IH]; intros st a st' u'; cbn [Dedup_poll_next]; [end_tac|].
    destruct x as [[[e|fs]|]|]; try end_tac.
    destruct (dedup_retain (E:=Empty_set) st (set fs)) as [[[|g gs] w1]| |]; cbn [mbind outcome_bind]; [| |done..].
    + intros (used & -> & He)%IH. exists (Ready (Some (inr fs)) :: used). split; [done|by apply end_answers_cons].
    + end_tac.
Qed.

Lemma DeFragment_ends cap n st u k out st' k' :
  (0 < cap)%nat → DeFragment_inv cap st → Forall (frame_valid (limit_size st)) (tape_pairs u).*2 →
  polls DeFragment_poll_next n st (u ++ replicate k Pending) = Ok (out, st', replicate k' Pending) →
  ended u → ended out.
Proof.
  intros Hcap Hi Hv Hp Hu. apply (ended_app_pending _ k) in Hu. revert Hp.
  apply (ends DeFragment_poll_next (defrag_ready cap) (λ st, buffer st = [])); [| | | |done].
  - intros. by apply DeFragment_idle.
  - intros. by eapply DeFragment_step.
  - clear. intros st u. revert st. induction u as [|x u IH]; intros st a st' u'; cbn [DeFragment_poll_next].
    all: destruct (buffer st) as [|o buf]; [|end_tac]; try end_tac.
    destruct x as [[[e|fs]|]|]; try end_tac.
    destruct (defrag_frames (seq_num fs) st (set fs)) as [st1|[e st1]|]; [|end_tac|done].
    intros (used & -> & He)%IH. exists (Ready (Some (inr fs)) :: used). split; [done|by apply end_answers_cons].
  - by apply defrag_ready_pending.
Qed.

Lemma Order_ends n st u k out st' k' :
  length (ordering st) = max_channels st →
  polls Order_poll_next n st (u ++ replicate k Pending) = Ok (out, st', replicate k' Pending) →
  ended u → ended out.
Proof.
  intros Hl Hp Hu. apply (ended_app_pending _ k) in Hu. revert Hp.
  apply (ends Order_poll_next (λ _ st, length (ordering st) = max_channels st) order_idle); [| | |done|done].
  - intros. by apply Order_idle.
  - intros s up a s' up2 Hl' Hp. by eapply Order_poll_rests.
  - clear. intros st u. revert st. induction u as [|x u IH]; intros st a st' u'; cbn [Order_poll_next].
    all: destruct (pop_channel (max_channels st) 0 (ordering st)) as [[[f|] ord]| |]; cbn [mbind outcome_bind];
      [end_tac| |done..]; try end_tac.
    destruct x as [[[e|f]|]|]; try end_tac.
    destruct (order_item (E:=Empty_set) _ f) as [[b|st1]| |] eqn:Hit; cbn [mbind outcome_bind]; [| |done..].
    + unfold order_item in Hit. repeat case_match; try done; injection Hit as <-; end_tac.
    + intros (used & -> & He)%IH. exists (Ready (Some (inr f)) :: used). split; [done|by apply end_answers_cons].
Qed.

Lemma BodyDecoder_ends n u k out k' :
  polls BodyDecoder_poll_next n tt (u ++ replicate k Pending) = Ok (out, tt, replicate k' Pending) → ended u → ended out.
Proof.
  intros Hp Hu. apply (ended_app_pending _ k) in Hu. revert Hp.
  apply (ends BodyDecoder_poll_next (λ _ _, True) (λ _, True)); [by intros []| | |done|done].
  - intros [] up a [] up' _ Hp. split; [done|]. exists (take 1 up).
    destruct up as [|x up]; cbn in Hp; [injection Hp as <- <-; split; [done|right; by auto]|].
    assert (up' = up) as ->; [|split; [done|destruct (decide (answer_items a = [])); [right; by auto|by left]]].
    destruct x as [[[e|f]|]|]; try (by injection Hp). destruct (FrameBody_read _); by inversion Hp.
  - intros st up a st' up' Hp. destruct up as [|[[[e|f]|]|] up]; cbn in Hp; revert Hp; try end_tac.
    destruct (FrameBody_read (body (one_frame f))); [end_tac|end_tac|done].
Qed.
End rest.
