(* ===== verification/Reassembly.v ===== *)
(** * What the reassembly hands up (src/codec/decoder/fragment.rs)

    The frames of some messages, a group of frames for each, arrive in any order
    and mixed with one another: the buffer then holds exactly one frame for every
    group, with the bodies of the group put together in order. *)
From S2P Require Import Prelude SeqNum Types FrameSet Stream Collections Dedup DeFragment Rest.
Open Scope Z_scope.

(** A message is one frame that was not split, or its fragments in order. *)
Definition single (g : list Frame) : Prop := ∃ f, g = [f] ∧ fragment f = None ∧ parted (flags f) = false.

Definition group_id (g : list Frame) : option Z := f ← head g; x ← fragment f; Some (parted_id x).

Definition unsplit (f : Frame) : Prop := fragment f = None.

Global Instance unsplit_dec f : Decision (unsplit f).
Proof. unfold unsplit. destruct (fragment f); [right|left]; done. Defined.

Lemma elem_of_frame_ids id f : id ∈ frame_ids f ↔ is_part id f.
Proof. unfold frame_ids, is_part. destruct (fragment f); set_solver. Qed.

Lemma elem_of_ids id fs : id ∈ (fs ≫= frame_ids) ↔ ∃ f, f ∈ fs ∧ is_part id f.
Proof. rewrite list_elem_of_bind. by setoid_rewrite elem_of_frame_ids; firstorder. Qed.

Lemma fragments_is_part id fs f : fragments_of id fs → f ∈ fs → is_part id f.
Proof. intros Hfs [j Hj]%list_elem_of_lookup_1. unfold is_part. by rewrite (Hfs j f Hj). Qed.

Lemma is_part_split id f : is_part id f → ¬ unsplit f.
Proof. unfold is_part, unsplit. by destruct (fragment f). Qed.

Lemma is_part_inj id id' f : is_part id f → is_part id' f → id = id'.
Proof. unfold is_part. destruct (fragment f); [congruence|done]. Qed.

Lemma fragments_group_id id g : fragments_of id g → g ≠ [] → group_id g = Some id.
Proof. destruct g as [|f g]; [done|]. intros Hg _. unfold group_id. cbn. by rewrite (Hg 0%nat f eq_refl). Qed.

Lemma merged_single f : parted (flags f) = false → merged [f] = Some f.
Proof.
  intros Hp. unfold merged, Frame_reassembled. cbn. rewrite Hp. cbn. rewrite app_nil_r. by destruct f.
Qed.

Lemma merged_body fs m : merged fs = Some m → body m = (fs ≫= body).
Proof. destruct fs as [|f fs]; [done|]. intros [= <-]. unfold Frame_reassembled. by case_match. Qed.

Lemma merged_ordered f fs m : merged (f :: fs) = Some m → ordered m = ordered f.
Proof. intros [= <-]. unfold Frame_reassembled. by case_match. Qed.

Lemma elem_of_concat {A} (gs : list (list A)) x : x ∈ concat gs ↔ ∃ g, g ∈ gs ∧ x ∈ g.
Proof. induction gs as [|g gs IH]; cbn; set_solver. Qed.

Lemma concat_Permutation {A} (gs gs' : list (list A)) : gs ≡ₚ gs' → concat gs ≡ₚ concat gs'.
Proof.
  induction 1; cbn; [done|by f_equiv| |by etrans].
  rewrite !(assoc_L (++)). by rewrite (comm (++) y x).
Qed.

Section exact.
Context {BH : BinaryHeap} {LC : LruCrate}.

(** A group of which some frames wait in their queue and the rest, at least one,
    are still to come. *)
Definition expected (st : DeFragment) (fs : list Frame) (g : list Frame) : Prop :=
  single g ∨ ∃ id qs, fragments_of id g ∧ queue_of st id ≡ₚ frame_part <$> qs ∧
    qs ++ filter (is_part id) fs ≡ₚ g ∧ filter (is_part id) fs ≠ [].

(** [gs] are the messages that the frames [fs] complete. *)
Record outstanding (st : DeFragment) (fs : list Frame) (gs : list (list Frame)) : Prop := {
  os_each : Forall (expected st fs) gs;
  os_unsplit : filter unsplit fs ≡ₚ filter unsplit (concat gs);
  os_split : ∀ f id, f ∈ fs → is_part id f → ∃ g, g ∈ gs ∧ fragments_of id g;
  os_distinct : NoDup (omap group_id gs);
}.

Lemma outstanding_perm st fs gs gs' : gs ≡ₚ gs' → outstanding st fs gs → outstanding st fs gs'.
Proof.
  intros Hp [H1 H2 H3 H4]. split; [by rewrite <-Hp| | |by rewrite <-Hp].
  - by rewrite H2, (concat_Permutation gs gs').
  - setoid_rewrite <-Hp. exact H3.
Qed.

Lemma expected_nonempty st fs g : expected st fs g → g ≠ [].
Proof.
  intros [(f & -> & _)|(id & qs & _ & _ & Hp & Hne)]; [done|]. intros ->.
  apply Permutation_nil_r, app_nil in Hp as [_ ?]. done.
Qed.

Lemma expected_unsplit st fs g f : expected st fs g → f ∈ g → unsplit f → g = [f].
Proof.
  intros [(h & -> & _)|(id & qs & Hg & _)] Hf Hu; [by apply list_elem_of_singleton in Hf as ->|].
  exfalso. by eapply is_part_split; [eapply fragments_is_part|].
Qed.

(** A frame that is not part of the group leaves it as it is. *)
Lemma expected_other cap ids st seq f st' fs g :
  DeFragment_inv cap st → defrag_frame seq st f = Ok st' →
  (lru_list (parts st)).*1 ⊆ ids → frame_ids f ⊆ ids → (length ids ≤ cap)%nat →
  (∀ id, is_part id f → group_id g ≠ Some id) → expected st (f :: fs) g → expected st' fs g.
Proof.
  intros Hinv Hf Hids Hfi Hlen Hnp He. pose proof (expected_nonempty _ _ _ He) as Hne.
  destruct He as [?|(id & qs & H1 & H2 & H3 & H4)]; [by left|right].
  assert (¬ is_part id f) as Hid by (intros Hp; apply (Hnp id Hp), fragments_group_id; done).
  destruct (defrag_frame_other cap ids id seq st f st') as [Hg _]; [done..|].
  rewrite filter_cons_False in H3, H4 by done.
  exists id, qs. split_and!; [done|unfold queue_of, heap_of in *; by rewrite Hg|done|done].
Qed.

(** A fragment: its group either waits for more, or it is complete. *)
Lemma expected_part cap seq st f st' fs g id :
  DeFragment_inv cap st → defrag_frame seq st f = Ok st' → is_part id f →
  fragments_of id g → expected st (f :: fs) g →
  (buffer st' = buffer st ∧ expected st' fs g) ∨
  (∃ o, buffer st' = buffer st ++ [o] ∧ merged g = Some (one_frame o) ∧ filter (is_part id) fs = []).
Proof.
  intros Hinv Hf Hp Hg He. pose proof (fragments_group_id _ _ Hg (expected_nonempty _ _ _ He)) as Hgi.
  destruct He as [(h & -> & Hh & _)|(id' & qs & Hfr & Hq & Hperm & Hmore)].
  { unfold group_id in Hgi. cbn in Hgi. by rewrite Hh in Hgi. }
  assert (id' = id) as ->.
  { destruct g as [|h g]; [done|]. rewrite (fragments_group_id _ _ Hfr) in Hgi by done. congruence. }
  destruct (fragment f) as [x|] eqn:Hx; [|unfold is_part in Hp; by rewrite Hx in Hp].
  assert (parted_id x = id) as Hxi by (unfold is_part in Hp; by rewrite Hx in Hp).
  rewrite filter_cons_True in Hperm by done.
  assert (f ∈ g) as [i Hi]%list_elem_of_lookup_1 by (rewrite <-Hperm; set_solver).
  pose proof (Hg i f Hi) as Hfrag. rewrite Hx in Hfrag. injection Hfrag as Hge.
  destruct (defrag_frame_part seq st f _ st' Hx Hf) as [_ Hcase]. rewrite Hxi in Hcase.
  replace (mkFramePart (parted_index x) f) with (frame_part f) in Hcase by (unfold frame_part; by rewrite Hx).
  set (q := heap_push part_key (frame_part f) (queue_of st id)) in *.
  assert (q ≡ₚ frame_part <$> (f :: qs)) as Hq1 by (subst q; by rewrite heap_push_Permutation, Hq).
  assert (length g = length q + length (filter (is_part id) fs))%nat as Hpl.
  { rewrite <-Hperm, Hq1, length_app, length_fmap. cbn. lia. }
  assert (parted_size x = Z.of_nat (length g)) as Hsz by (by rewrite Hge).
  destruct Hcase as [(Hlt & Hbuf & Hget)|(Hle & m & Hred & Hbuf & _)].
  - left. split; [done|]. right. exists id, (f :: qs).
    split_and!; [done|by rewrite Hget| |intros Hn; rewrite Hn in Hpl; cbn in Hpl; lia].
    rewrite <-Hperm. cbn. apply Permutation_middle.
  - right. assert (filter (is_part id) fs = []) as Hnil by (apply nil_length_inv; lia).
    eexists. split_and!; [exact Hbuf| |done].
    rewrite <-(complete_heap id g q), Hred; [done|done| |by eapply heap_push_ok, queue_of_ok|].
    + intros ->. by rewrite lookup_nil in Hi.
    + rewrite Hq1, <-Hperm, Hnil, Permutation_app_comm. done.
Qed.

Lemma defrag_frame_keys ids seq st f st' :
  defrag_frame seq st f = Ok st' → (lru_list (parts st)).*1 ⊆ ids → frame_ids f ⊆ ids →
  (lru_list (parts st')).*1 ⊆ ids.
Proof.
  intros Hf Hids Hfi. unfold frame_ids in Hfi. destruct (fragment f) as [g|] eqn:Hg.
  - destruct (defrag_frame_part seq st f _ st' Hg Hf) as [Hk _]. set_solver.
  - unfold defrag_frame in Hf. rewrite Hg in Hf. by injection Hf as <-.
Qed.

Lemma filter_unsplit_parts id g : fragments_of id g → filter unsplit g = [].
Proof.
  intros Hg. apply filter_none, Forall_forall. intros f Hf. by eapply is_part_split, fragments_is_part.
Qed.

(** The group of a frame that comes is not the group of another one. *)
Lemma distinct_ids id g gs h :
  NoDup (omap group_id (g :: gs)) → group_id g = Some id → h ∈ gs → group_id h ≠ Some id.
Proof.
  cbn. intros Hnd Hg Hh Hhi. rewrite Hg in Hnd. apply NoDup_cons in Hnd as [Hn _].
  apply Hn, list_elem_of_omap. by exists h.
Qed.

(** One frame adds to the buffer the messages it completes, and the others stay
    outstanding. *)
Lemma defrag_frame_outstanding cap ids seq st f st' fs gs :
  DeFragment_inv cap st → defrag_frame seq st f = Ok st' →
  (lru_list (parts st)).*1 ⊆ ids → frame_ids f ⊆ ids → (length ids ≤ cap)%nat →
  outstanding st (f :: fs) gs →
  ∃ gs' b, outstanding st' fs gs' ∧ buffer st' = buffer st ++ b ∧
    (one_frame <$> b) ++ omap merged gs' ≡ₚ omap merged gs.
Proof.
  intros Hinv Hf Hids Hfi Hlen Hos. pose proof Hos as [He Hu Hs Hd].
  destruct (decide (unsplit f)) as [Huf|Hsf].
  - assert (∀ id, ¬ is_part id f) as Hnp by (intros id ?%is_part_split; done).
    assert (f ∈ concat gs) as (g & [gs' Hgs]%elem_of_Permutation & Hfg)%elem_of_concat.
    { assert (f ∈ filter unsplit (concat gs)) as [_ ?]%list_elem_of_filter; [|done].
      rewrite <-Hu, filter_cons_True by done. left. }
    assert (g = [f]) as ->.
    { eapply expected_unsplit; [|done..]. rewrite Forall_forall in He. apply He. rewrite Hgs. left. }
    apply (outstanding_perm _ _ _ _ Hgs) in Hos as [He' Hu' Hs' Hd'].
    rewrite Forall_cons in He'. destruct He' as [[(h & [= <-] & _ & Hpf)|(id & qs & Hfr & _)] He'].
    2: { exfalso. apply (Hnp id), (fragments_is_part _ _ _ Hfr). left. }
    exists gs', [mkFrameOne seq f]. split_and!.
    + split.
      * eapply Forall_impl; [exact He'|]. intros g Hg. eapply expected_other; [exact Hinv|exact Hf|done|done|done| |exact Hg].
        by intros id ?%Hnp.
      * rewrite concat_cons, filter_app, !filter_cons_True in Hu' by done. cbn in Hu'. by apply Permutation_cons_inv in Hu'.
      * intros h id Hh Hp. destruct (Hs' h id) as (g & [->|Hg]%elem_of_cons & Hfr); [by right|done| |by exists g].
        exfalso. apply (Hnp id), (fragments_is_part _ _ _ Hfr). left.
      * cbn in Hd'. unfold unsplit in Huf. by rewrite Huf in Hd'.
    + unfold defrag_frame in Hf. unfold unsplit in Huf. rewrite Huf in Hf. by injection Hf as <-.
    + rewrite Hgs. cbn [omap list_omap]. by rewrite (merged_single f Hpf).
  - assert (∃ id, is_part id f) as [id Hp].
    { unfold is_part, unsplit in *. destruct (fragment f); [by eexists|done]. }
    destruct (Hs f id) as (g & [gs' Hgs]%elem_of_Permutation & Hg); [left|done|].
    apply (outstanding_perm _ _ _ _ Hgs) in Hos as [He' Hu' Hs' Hd'].
    apply Forall_cons in He' as [Heg He'].
    pose proof (fragments_group_id _ _ Hg (expected_nonempty _ _ _ Heg)) as Hgi.
    assert (Forall (expected st' fs) gs') as Hothers.
    { apply Forall_forall. intros h Hh. rewrite Forall_forall in He'.
      eapply expected_other; [exact Hinv|exact Hf|done|done|done| |by apply He'].
      intros id' Hp'. rewrite (is_part_inj id' id f) by done. by eapply distinct_ids. }
    rewrite filter_cons_False in Hu' by done.
    destruct (expected_part cap seq st f st' fs g id) as [[Hb Heg']|(o & Hb & Hm & Hnil)]; [done..| |].
    + exists (g :: gs'), []. rewrite app_nil_r. split_and!; [|done|by rewrite Hgs].
      split; [by constructor|done| |done]. intros h id' Hh. apply Hs'. by right.
    + exists gs', [o]. split_and!; [|done|rewrite Hgs; cbn; by rewrite Hm]. split; [done| | |].
      * by rewrite concat_cons, filter_app, (filter_unsplit_parts id g) in Hu'.
      * intros h id' Hh Hp'. destruct (Hs' h id') as (g' & [->|Hg']%elem_of_cons & Hfr); [by right|done| |by exists g'].
        exfalso. assert (id' = id) as ->.
        { rewrite (fragments_group_id _ _ Hfr (expected_nonempty _ _ _ Heg)) in Hgi. congruence. }
        assert (h ∈ filter (is_part id) fs) as Hin by (by apply list_elem_of_filter). rewrite Hnil in Hin. set_solver.
      * cbn in Hd'. rewrite Hgi in Hd'. by apply NoDup_cons in Hd' as [_ ?].
Qed.

(** Without anything to come, nothing is outstanding. *)
Lemma outstanding_nil st gs : outstanding st [] gs → gs = [].
Proof.
  intros [He Hu _ _]. destruct gs as [|g gs]; [done|]. exfalso.
  apply Forall_cons in He as [[(f & -> & Hf & _)|(id & qs & _ & _ & _ & Hne)] _]; [|done].
  cbn in Hu. rewrite decide_True in Hu by done. by apply Permutation_nil_cons in Hu.
Qed.

Lemma defrag_run_outstanding cap ids st l st' gs :
  (0 < cap)%nat → DeFragment_inv cap st → Forall (frame_valid (limit_size st)) l.*2 →
  (lru_list (parts st)).*1 ⊆ ids → (l.*2 ≫= frame_ids) ⊆ ids → (length ids ≤ cap)%nat →
  outstanding st l.*2 gs → defrag_run st l = Ok st' →
  ∃ b, buffer st' = buffer st ++ b ∧ one_frame <$> b ≡ₚ omap merged gs.
Proof.
  intros Hcap. revert st gs. induction l as [|[seq f] l IH]; intros st gs Hinv Hv Hids Hfi Hlen Hos Hr.
  { injection Hr as <-. exists []. rewrite app_nil_r. by apply outstanding_nil in Hos as ->. }
  cbn in Hv, Hfi, Hr. apply Forall_cons in Hv as [Hvf Hv].
  apply list_subseteq_app_iff_l in Hfi as [Hf1 Hf2].
  destruct (defrag_frame_valid cap seq st f Hcap Hinv Hvf) as (st1 & Hf & Hinv1 & Hl1 & _).
  rewrite Hf in Hr. cbn in Hr.
  destruct (defrag_frame_outstanding cap ids seq st f st1 l.*2 gs) as (gs1 & b1 & Hos1 & Hb1 & Hp1); [done..|].
  destruct (IH st1 gs1) as (b2 & Hb2 & Hp2); [done|by rewrite Hl1|by eapply defrag_frame_keys|done|done|done|done|].
  exists (b1 ++ b2). rewrite Hb2, Hb1, app_assoc, fmap_app, Hp2. split; [done|exact Hp1].
Qed.

(** Nothing has arrived yet: the groups are to come completely. *)
Lemma outstanding_new cap limit fs gs :
  fs ≡ₚ concat gs → Forall (λ g, single g ∨ g ≠ [] ∧ ∃ id, fragments_of id g) gs → NoDup (omap group_id gs) →
  outstanding (mkDeFragment limit (lru_new cap) []) fs gs.
Proof.
  intros Hfs Hgs Hd. split; [|by rewrite Hfs| |done].
  - apply Forall_forall. intros g Hg. rewrite Forall_forall in Hgs.
    destruct (Hgs g Hg) as [?|(Hne & id & Hfr)]; [by left|right]. exists id, [].
    assert (filter (is_part id) fs ≡ₚ g) as Hfil.
    { rewrite Hfs. apply elem_of_Permutation in Hg as [gs' Hp]. rewrite (concat_Permutation _ _ Hp), concat_cons, filter_app.
      rewrite (filter_all _ g), (filter_none _ (concat gs')); [by rewrite app_nil_r| |].
      - apply Forall_forall. intros f (h & Hh & Hf)%elem_of_concat Hpf.
        assert (group_id h = Some id) as Hhi.
        { destruct (Hgs h) as [(f' & -> & Hf' & _)|(Hneh & id' & Hfr')]; [rewrite Hp; by right| |].
          - apply list_elem_of_singleton in Hf as ->. unfold is_part in Hpf. by rewrite Hf' in Hpf.
          - rewrite (fragments_group_id id' h) by done. f_equal. by eapply is_part_inj; [eapply fragments_is_part|]. }
        rewrite Hp in Hd. apply (distinct_ids id g gs' h); [done|by apply fragments_group_id|done|done].
      - apply Forall_forall. intros f Hf. by eapply fragments_is_part. }
    split_and!; [done|rewrite queue_of_None; [done|cbn [parts]; by rewrite lru_new_list]|done|].
    intros Hn. rewrite Hn in Hfil. by apply Permutation_nil_l in Hfil.
  - intros f id Hf Hp. rewrite Hfs in Hf. apply elem_of_concat in Hf as (g & Hg & Hf). exists g. split; [done|].
    rewrite Forall_forall in Hgs. destruct (Hgs g Hg) as [(f' & -> & Hf' & _)|(_ & id' & Hfr)].
    + apply list_elem_of_singleton in Hf as ->. unfold is_part in Hp. by rewrite Hf' in Hp.
    + by replace id with id' by (by eapply is_part_inj; [eapply fragments_is_part|]).
Qed.
End exact.
