(* ===== verification/Channels.v ===== *)
(** * Queues and channels

    The [concurrent_queue] and [async_channel] crates, as interfaces of the
    operations the source uses with their documented behaviour, each with a
    concrete instance.  Every operation is atomic; the interleaving of tasks is
    the order in which the operations are applied. *)
From S2P Require Import Prelude.

(** ** [ConcurrentQueue]: [cq_list] is the content, oldest first, and [cq_cap]
    the capacity ([None] for an unbounded queue).  The source closes no queue. *)
Class ConcurrentQueueCrate := {
  cq : Type → Type;
  cq_list : ∀ {A}, cq A → list A;
  cq_cap : ∀ {A}, cq A → option nat;
  cq_new : ∀ {A}, option nat → cq A;
  cq_push : ∀ {A}, A → cq A → option (cq A);
  cq_force_push : ∀ {A}, A → cq A → option A * cq A;
  cq_pop : ∀ {A}, cq A → option (A * cq A);
  cq_new_spec {A} c : cq_list (A:=A) (cq_new c) = [] ∧ cq_cap (A:=A) (cq_new c) = c;
  (* a push fails on a full queue only *)
  cq_push_spec {A} (x : A) q :
    (∀ n, cq_cap q = Some n → length (cq_list q) < n) →
    ∃ q', cq_push x q = Some q' ∧ cq_list q' = cq_list q ++ [x] ∧ cq_cap q' = cq_cap q;
  (* a forced push displaces the oldest element of a full queue *)
  cq_force_push_spec {A} (x : A) q :
    let '(o, q') := cq_force_push x q in
    cq_cap q' = cq_cap q ∧
    if bool_decide (cq_cap q = Some (length (cq_list q)))
    then o = head (cq_list q) ∧ cq_list q' = tail (cq_list q) ++ [x]
    else o = None ∧ cq_list q' = cq_list q ++ [x];
  cq_pop_spec {A} (q : cq A) :
    match cq_list q with
    | [] => cq_pop q = None
    | x :: l => ∃ q', cq_pop q = Some (x, q') ∧ cq_list q' = l ∧ cq_cap q' = cq_cap q
    end;
}.

Section queue.
Context {CQ : ConcurrentQueueCrate}.

(** [try_iter] consumed to its end: repeated [pop]. *)
Fixpoint cq_drain {A} (fuel : nat) (q : cq A) : list A * cq A :=
  match fuel with
  | O => ([], q)
  | S fuel =>
      match cq_pop q with
      | Some (x, q) => let '(l, q) := cq_drain fuel q in (x :: l, q)
      | None => ([], q)
      end
  end.

Definition cq_try_iter {A} (q : cq A) : list A * cq A := cq_drain (length (cq_list q)) q.

Lemma cq_drain_spec {A} fuel (q : cq A) :
  length (cq_list q) ≤ fuel →
  (cq_drain fuel q).1 = cq_list q ∧ cq_list (cq_drain fuel q).2 = [] ∧
  cq_cap (cq_drain fuel q).2 = cq_cap q.
Proof.
  revert q. induction fuel as [|fuel IH]; intros q Hl; cbn; pose proof (cq_pop_spec q) as Hp.
  - destruct (cq_list q) eqn:Hq; [done|cbn in Hl; lia].
  - destruct (cq_list q) as [|x l] eqn:Hq; [by rewrite Hp; cbn; rewrite Hq|].
    destruct Hp as (q' & -> & Hl' & Hc). cbn in Hl. destruct (IH q') as (H1 & H2 & H3); [rewrite Hl'; lia|].
    destruct (cq_drain fuel q') as [l' q2]. cbn in *. by rewrite H1, Hl', H3.
Qed.

Lemma cq_try_iter_spec {A} (q : cq A) :
  (cq_try_iter q).1 = cq_list q ∧ cq_list (cq_try_iter q).2 = [] ∧
  cq_cap (cq_try_iter q).2 = cq_cap q.
Proof. by apply cq_drain_spec. Qed.
End queue.

(** A concrete queue: its capacity and its content. *)
Definition queue_force_push {A} (x : A) (q : option nat * list A) : option A * (option nat * list A) :=
  if bool_decide (q.1 = Some (length q.2))
  then (head q.2, (q.1, tail q.2 ++ [x])) else (None, (q.1, q.2 ++ [x])).

Definition queue_push {A} (x : A) (q : option nat * list A) : option (option nat * list A) :=
  match q.1 with
  | Some n => if decide (length q.2 < n) then Some (q.1, q.2 ++ [x]) else None
  | None => Some (q.1, q.2 ++ [x])
  end.

Definition queue_pop {A} (q : option nat * list A) : option (A * (option nat * list A)) :=
  match q.2 with [] => None | x :: l => Some (x, (q.1, l)) end.

Program Definition queue_reference : ConcurrentQueueCrate := {|
  cq A := (option nat * list A)%type;
  cq_list A q := q.2;
  cq_cap A q := q.1;
  cq_new A c := (c, []);
  cq_push A x q := queue_push x q;
  cq_force_push A x q := queue_force_push x q;
  cq_pop A q := queue_pop q;
|}.
Next Obligation. done. Qed.
Next Obligation.
  intros A x [[n|] l] H; unfold queue_push; cbn in *; [rewrite decide_True by auto|]; by eexists.
Qed.
Next Obligation. intros A x [c l]. unfold queue_force_push. cbn. by case_bool_decide. Qed.
Next Obligation. intros A [c [|x l]]; unfold queue_pop; cbn; [done|by eexists]. Qed.

(** ** [async_channel]: an unbounded channel seen from its sender.  [chan_sent]
    is what was sent so far and [chan_closed] whether the receiver is gone. *)
Class AsyncChannelCrate := {
  chan : Type → Type;
  chan_sent : ∀ {A}, chan A → list A;
  chan_closed : ∀ {A}, chan A → bool;
  chan_unbounded : ∀ {A}, chan A;
  chan_close : ∀ {A}, chan A → chan A;
  chan_try_send : ∀ {A}, A → chan A → bool * chan A;
  chan_unbounded_spec {A} :
    chan_sent (A:=A) chan_unbounded = [] ∧ chan_closed (A:=A) chan_unbounded = false;
  chan_close_spec {A} (c : chan A) :
    chan_sent (chan_close c) = chan_sent c ∧ chan_closed (chan_close c) = true;
  (* sending on an unbounded channel fails only when the receiver is gone *)
  chan_try_send_spec {A} (x : A) c :
    (chan_try_send x c).1 = negb (chan_closed c) ∧
    chan_closed (chan_try_send x c).2 = chan_closed c ∧
    chan_sent (chan_try_send x c).2 = if chan_closed c then chan_sent c else chan_sent c ++ [x];
}.

Program Definition channel_reference : AsyncChannelCrate := {|
  chan A := (bool * list A)%type;
  chan_sent A c := c.2;
  chan_closed A c := c.1;
  chan_unbounded A := (false, []);
  chan_close A c := (true, c.2);
  chan_try_send A x c := (negb c.1, (c.1, if c.1 then c.2 else c.2 ++ [x]));
|}.
Solve Obligations with done.
