(* ===== verification/Reactor.v ===== *)
(** * Hashing and the timer reactor (src/utils/hash.rs, src/utils/reactor.rs)

    Instants are nanoseconds; a [Waker] is the number of the task it wakes.  The
    reactor's mutex makes each operation atomic, so the model is its protected
    state; the condition variable only decides when [process_timers] runs. *)
From S2P Require Import Prelude.
Open Scope Z_scope.

(** ** [hash.rs] *)

Definition MUL : Z := 11376068507788127593. (* 0x9ddfea08eb382d69 *)

Definition combine_hashes (upper lower : Z) : Z :=
  let a := wrap 64 (Z.lxor lower upper * MUL) in
  let a := Z.lxor a (Z.shiftr a 47) in
  let b := wrap 64 (Z.lxor upper a * MUL) in
  let b := Z.lxor b (Z.shiftr b 47) in
  wrap 64 (b * MUL).

(** [NoHashHasher]: the last integer written, as a [u64]; the other writers are
    [unimplemented!]. *)
Inductive hash_input :=
| HUnsigned (v : Z)
| HSigned (v : Z)
| HWide.

Definition NoHashHasher_write {E} (st : Z) (i : hash_input) : outcome E Z :=
  match i with
  | HUnsigned v => mret v
  | HSigned v => mret (wrap 64 v)
  | HWide => Panic
  end.

Lemma combine_hashes_u64 u l : uint 64 (combine_hashes u l).
Proof. apply wrap_uint. lia. Qed.

(** ** [reactor.rs] *)

(** [BTreeMap<(Instant, usize), Waker>] *)
Abbreviation Timers := (gmap (Z * Z) nat).

Record Reactor := mkReactor { conn_timers : gmap Z Timers }.

Definition Reactor_new : Reactor := mkReactor ∅.

Definition insert_timer (key when : Z) (waker : nat) (r : Reactor) : Reactor :=
  let timers := default ∅ (conn_timers r !! key) in
  mkReactor (<[key := <[(when, Z.of_nat (size timers)) := waker]> timers]> (conn_timers r)).

Definition timer_wakers (t : Timers) : list nat := (map_to_list t).*2.

Definition cancel_all_timers (key : Z) (r : Reactor) : list nat * Reactor :=
  (timer_wakers (default ∅ (conn_timers r !! key)), mkReactor (delete key (conn_timers r))).

Definition due (now : Z) (t : Timers) : Timers := filter (λ e, e.1.1 ≤ now) t.
Definition not_due (now : Z) (t : Timers) : Timers := filter (λ e, ¬ e.1.1 ≤ now) t.

(** The first key of the pending timers, as a waiting time. *)
Definition next_time (now : Z) (t : Timers) : option Z :=
  map_fold (λ k _ acc, Some (match acc with Some d => Z.min d (k.1 - now) | None => k.1 - now end))
    None t.

Definition min_dur (d n : option Z) : option Z :=
  match d, n with
  | Some d, Some n => Some (Z.min d n)
  | None, Some n => Some n
  | d, None => d
  end.

(** The tasks woken, the reactor, and how long to wait ([None]: until notified).
    The order of the map's iteration is not specified. *)
Definition process_timers (now : Z) (r : Reactor) : list nat * Reactor * option Z :=
  let maps := (map_to_list (conn_timers r)).*2 in
  (maps ≫= λ t, timer_wakers (due now t),
   mkReactor (not_due now <$> conn_timers r),
   foldl (λ d t, min_dur d (next_time now (not_due now t))) None maps).

(** ** Properties *)

(** A timer of the reactor. *)
Definition has_timer (r : Reactor) (key when : Z) (waker : nat) : Prop :=
  ∃ t i, conn_timers r !! key = Some t ∧ t !! (when, i) = Some waker.

Lemma elem_timer_wakers t w : w ∈ timer_wakers t ↔ ∃ k, t !! k = Some w.
Proof.
  unfold timer_wakers. rewrite list_elem_of_fmap. split.
  - intros ([k v] & -> & Hin%elem_of_map_to_list). by exists k.
  - intros [k Hk]. exists (k, w). by rewrite elem_of_map_to_list.
Qed.

Lemma next_time_spec now t :
  match next_time now t with
  | Some d => (∃ k w, t !! k = Some w ∧ d = k.1 - now) ∧ ∀ k w, t !! k = Some w → d ≤ k.1 - now
  | None => t = ∅
  end.
Proof.
  unfold next_time. apply (map_fold_weak_ind (λ r m, match r with
    | Some d => (∃ k w, m !! k = Some w ∧ d = k.1 - now) ∧ ∀ k w, m !! k = Some w → d ≤ k.1 - now
    | None => m = ∅ end)); [done|].
  intros k w m acc Hk Hacc. destruct acc as [d|].
  - destruct Hacc as [(k' & w' & Hk' & ->) Hmin]. split.
    + destruct (Z.min_dec (k'.1 - now) (k.1 - now)) as [->| ->].
      * exists k', w'. rewrite lookup_insert_ne by congruence. done.
      * exists k, w. by rewrite lookup_insert_eq.
    + intros k2 w2 [[<- <-]|[_ H2]]%lookup_insert_Some; [lia|]. apply Hmin in H2. lia.
  - subst m. split.
    + exists k, w. by rewrite lookup_insert_eq.
    + intros k2 w2 [[<- <-]|[_ H2]]%lookup_insert_Some; [lia|]. by rewrite lookup_empty in H2.
Qed.

Lemma foldl_min_dur (now : Z) (maps : list Timers) (d0 : option Z) :
  match foldl (λ d t, min_dur d (next_time now t)) d0 maps with
  | Some d => (d0 = Some d ∨ ∃ t k w, t ∈ maps ∧ t !! k = Some w ∧ d = k.1 - now) ∧
      (∀ d', d0 = Some d' → d ≤ d') ∧
      (∀ t k w, t ∈ maps → t !! k = Some w → d ≤ k.1 - now)
  | None => d0 = None ∧ ∀ t, t ∈ maps → t = ∅
  end.
Proof.
  revert d0. induction maps as [|t maps IH]; intros d0; cbn.
  { destruct d0 as [d|]; [|set_solver]. split_and!; [by left|by intros ? [= ->]|set_solver]. }
  specialize (IH (min_dur d0 (next_time now t))). pose proof (next_time_spec now t) as Ht.
  destruct (foldl _ _ maps) as [d|].
  - destruct IH as (H1 & H2 & H3). destruct d0 as [x|], (next_time now t) as [y|]; cbn in *.
    + destruct Ht as [(k & w & Hk & Hy) Hmin]. split_and!.
      * destruct H1 as [[= H1]|(t' & k' & w' & ? & ? & ?)]; [|right; exists t', k', w'; set_solver].
        destruct (Z.min_dec x y); [left; congruence|right; exists t, k, w]. split_and!; [set_solver|done|lia].
      * intros ? [= <-]. specialize (H2 _ eq_refl). lia.
      * intros t' k' w' [->|Hin]%elem_of_cons Hl; [|by eapply H3].
        apply Hmin in Hl. specialize (H2 _ eq_refl). lia.
    + subst t. split_and!; [set_solver|done|].
      intros t' k' w' [->|Hin]%elem_of_cons Hl; [by rewrite lookup_empty in Hl|by eapply H3].
    + destruct Ht as [(k & w & Hk & Hy) Hmin]. split_and!; [|done|].
      * right. destruct H1 as [[= H1]|(t' & k' & w' & ? & ? & ?)]; [|exists t', k', w'; set_solver].
        exists t, k, w. split_and!; [set_solver|done|lia].
      * intros t' k' w' [->|Hin]%elem_of_cons Hl; [|by eapply H3].
        apply Hmin in Hl. specialize (H2 _ eq_refl). lia.
    + subst t. split_and!; [set_solver|done|].
      intros t' k' w' [->|Hin]%elem_of_cons Hl; [by rewrite lookup_empty in Hl|by eapply H3].
  - destruct IH as [H1 H2]. destruct d0 as [x|], (next_time now t) as [y|]; cbn in *; try done.
    subst t. split; [done|]. intros t' [->|Hin]%elem_of_cons; [done|by apply H2].
Qed.

Lemma has_timer_not_due now r key when w :
  has_timer (mkReactor (not_due now <$> conn_timers r)) key when w ↔
  has_timer r key when w ∧ now < when.
Proof.
  unfold has_timer. cbn. split.
  - intros (t & i & Ht & Hw). rewrite lookup_fmap in Ht.
    destruct (conn_timers r !! key) as [t0|] eqn:Hk; [|done]. cbn in Ht. simplify_eq.
    unfold not_due in Hw. rewrite map_lookup_filter_Some in Hw. cbn in Hw. destruct Hw as [Hw Hlt].
    split; [by exists t0, i|lia].
  - intros [(t & i & Ht & Hw) Hlt]. exists (not_due now t), i. rewrite lookup_fmap, Ht. split; [done|].
    unfold not_due. rewrite map_lookup_filter_Some. cbn. split; [done|lia].
Qed.

Lemma process_timers_spec now r :
  let '(woken, r', dur) := process_timers now r in
  (∀ w, w ∈ woken ↔ ∃ key when, has_timer r key when w ∧ when ≤ now) ∧
  (∀ key when w, has_timer r' key when w ↔ has_timer r key when w ∧ now < when) ∧
  match dur with
  | Some d => 0 < d ∧ (∃ key w, has_timer r key (now + d) w) ∧
      ∀ key when w, has_timer r' key when w → d ≤ when - now
  | None => ∀ key when w, ¬ has_timer r' key when w
  end.
Proof.
  cbn. split_and!; [|apply has_timer_not_due|].
  - intros w. rewrite list_elem_of_bind. split.
    + intros (t & Hw & ([key t'] & -> & Hin)%list_elem_of_fmap). cbn in Hw.
      apply elem_of_map_to_list in Hin. apply elem_timer_wakers in Hw as [[when i] Hw].
      unfold due in Hw. rewrite map_lookup_filter_Some in Hw. cbn in Hw. destruct Hw as [Hw Hle].
      exists key, when. split; [|done]. by exists t', i.
    + intros (key & when & (t & i & Ht & Hw) & Hle). exists t. split.
      * apply elem_timer_wakers. exists (when, i). unfold due. by rewrite map_lookup_filter_Some.
      * apply list_elem_of_fmap. exists (key, t). by rewrite elem_of_map_to_list.
  - pose proof (foldl_min_dur now (not_due now <$> (map_to_list (conn_timers r)).*2) None) as H.
    rewrite foldl_fmap in H.
    assert (∀ key when w, has_timer (mkReactor (not_due now <$> conn_timers r)) key when w →
      ∃ t i, t ∈ not_due now <$> (map_to_list (conn_timers r)).*2 ∧ t !! (when, i) = Some w) as Hin.
    { intros key when w (t & i & Ht & Hw). cbn in Ht. rewrite lookup_fmap in Ht.
      destruct (conn_timers r !! key) as [t0|] eqn:Hk; [|done]. cbn in Ht. simplify_eq.
      eexists _, i. split; [|exact Hw]. apply list_elem_of_fmap_2, list_elem_of_fmap.
      exists (key, t0). by rewrite elem_of_map_to_list. }
    destruct (foldl _ _ _) as [d|].
    + destruct H as (H1 & _ & H3). destruct H1 as [|(t & [when i] & w & Ht & Hw & Hd)]; [done|].
      apply list_elem_of_fmap in Ht as (t0 & -> & ([key t1] & -> & Ht1)%list_elem_of_fmap).
      apply elem_of_map_to_list in Ht1. cbn in Hw, Hd. unfold not_due in Hw.
      rewrite map_lookup_filter_Some in Hw. cbn in Hw. destruct Hw as [Hw Hlt].
      split_and!; [lia| |].
      * exists key, w. replace (now + d) with when by lia. by exists t1, i.
      * intros key' when' w' (t' & i' & Ht' & Hw')%Hin. by apply (H3 _ _ _ Ht' Hw').
    + destruct H as [_ H]. intros key when w (t & i & Ht & Hw)%Hin. apply H in Ht as ->.
      by rewrite lookup_empty in Hw.
Qed.

(** The reactor fires exactly the timers that are due: [process_timers] wakes
    the tasks whose instant has come and no other, keeps all other timers, and
    sleeps until the earliest of them. *)
Theorem process_timers_fires_due now r :
  let '(woken, r', dur) := process_timers now r in
  (∀ w, w ∈ woken ↔ ∃ key when, has_timer r key when w ∧ when ≤ now) ∧
  (∀ key when w, has_timer r' key when w ↔ has_timer r key when w ∧ now < when) ∧
  match dur with
  | Some d => 0 < d ∧ (∃ key w, has_timer r key (now + d) w) ∧
      ∀ key when w, has_timer r' key when w → d ≤ when - now
  | None => ∀ key when w, ¬ has_timer r' key when w
  end.
Proof. apply process_timers_spec. Qed.

(** A timer can be lost: the id of a new timer is the number of timers of its
    connection, which another timer of the same instant may already have after
    an earlier timer fired.  The later one then replaces the waiting one, whose
    task is never woken. *)
Theorem insert_timer_collision key w1 w2 a b c :
  w1 < w2 → b ≠ c →
  let r := insert_timer key w2 b (insert_timer key w1 a Reactor_new) in
  let r := (process_timers w1 r).1.2 in
  has_timer r key w2 b ∧ ∀ when, ¬ has_timer (insert_timer key w2 c r) key when b.
Proof.
  intros Hlt Hbc. cbn zeta.
  assert ((process_timers w1 (insert_timer key w2 b (insert_timer key w1 a Reactor_new))).1.2 =
    mkReactor {[ key := {[ (w2, 1) := b ]} ]}) as ->.
  { unfold process_timers, insert_timer. cbn. f_equal.
    rewrite lookup_empty, lookup_insert_eq. cbn.
    rewrite insert_insert_eq. rewrite map_size_insert_None, map_size_empty by apply lookup_empty.
    cbn. rewrite insert_empty, map_fmap_singleton. f_equal. unfold not_due.
    rewrite map_filter_insert_True, map_filter_insert_not by (cbn; lia).
    by rewrite map_filter_empty. }
  split; [exists {[ (w2, 1) := b ]}, 1; split; [apply lookup_singleton_eq|apply lookup_singleton_eq]|].
  intros when (t & i & Ht & Hw). unfold insert_timer in Ht. cbn in Ht.
  rewrite lookup_singleton_eq in Ht. cbn in Ht. rewrite map_size_singleton in Ht. cbn in Ht.
  rewrite lookup_insert_eq in Ht. simplify_eq. rewrite insert_singleton_eq in Hw.
  apply lookup_singleton_Some in Hw as [_ Hw]. congruence.
Qed.

Lemma insert_timer_collision_witness :
  let r := insert_timer 7 200 2 (insert_timer 7 100 1 Reactor_new) in
  let r := (process_timers 100 r).1.2 in
  has_timer r 7 200 2 ∧ ∀ when, ¬ has_timer (insert_timer 7 200 3 r) 7 when 2.
Proof. apply (insert_timer_collision 7 100 200 1 2 3); [lia|done]. Defined.
