(* ===== verification/ReactorLoop.v ===== *)
(** * The reactor thread (src/utils/reactor.rs, [Reactor::get] and [main_loop])

    The thread that fires the timers, interleaved with the tasks that insert and
    cancel timers and with the clock.  The mutex keeps the tasks out while the
    thread works on the timers, which takes time; the condition variable is the
    state in which the thread sleeps, for a duration or without one, and whether it
    was notified. *)
From S2P Require Import Prelude Reactor.
Open Scope Z_scope.

(** The thread is about to take the lock; or it holds the lock, has read the clock at
    [start], has woken the tasks whose timers were due and knows how long it may
    sleep; or it waits on the condition variable since [slept], for that duration
    ([wait_for]) or without one ([wait]). *)
Inductive reactor_thread :=
| Processing
| Locked (start : Z) (dur : option Z)
| Waiting (start slept : Z) (dur : option Z) (notified : bool).

Record ReactorSystem := mkReactorSystem {
  rs_now : Z;
  rs_reactor : Reactor;
  rs_thread : reactor_thread;
  rs_woken : list nat;
}.

(** [REACTOR.get_or_init]: the first call starts the thread over an empty reactor. *)
Definition Reactor_get (now : Z) (cell : option ReactorSystem) : ReactorSystem :=
  match cell with
  | Some s => s
  | None => mkReactorSystem now Reactor_new Processing []
  end.

(** [cond.notify_one()] *)
Definition notify_one (t : reactor_thread) : reactor_thread :=
  match t with
  | Waiting start slept dur _ => Waiting start slept dur true
  | _ => t
  end.

(** [conn_timers.lock()] succeeds for a task. *)
Definition lock_free (t : reactor_thread) : bool :=
  match t with Locked _ _ => false | _ => true end.

(** What can happen next: a task inserts or cancels, time passes, the thread takes
    the lock and works on the timers, goes to sleep, or wakes up. *)
Inductive reactor_event :=
| EvInsert (key when : Z) (waker : nat)
| EvCancel (key : Z)
| EvTick (dur : Z)
| EvProcess
| EvSleep
| EvWake.

(** A wait ends when the thread was notified or when its duration has passed. *)
Definition wait_over (now : Z) (t : reactor_thread) : bool :=
  match t with
  | Waiting _ slept dur notified => notified || match dur with Some d => slept + d <=? now | None => false end
  | _ => false
  end.

(** An event, if it is possible in the state. *)
Definition reactor_step (ev : reactor_event) (s : ReactorSystem) : option ReactorSystem :=
  match ev with
  | EvInsert key when waker =>
      if lock_free (rs_thread s) then
        Some (mkReactorSystem (rs_now s) (insert_timer key when waker (rs_reactor s)) (notify_one (rs_thread s)) (rs_woken s))
      else None
  | EvCancel key =>
      if lock_free (rs_thread s) then
        let '(_, r) := cancel_all_timers key (rs_reactor s) in
        Some (mkReactorSystem (rs_now s) r (notify_one (rs_thread s)) (rs_woken s))
      else None
  | EvTick dur =>
      if 0 <=? dur then Some (mkReactorSystem (rs_now s + dur) (rs_reactor s) (rs_thread s) (rs_woken s)) else None
  | EvProcess =>
      match rs_thread s with
      | Processing =>
          let '(woken, r, dur) := process_timers (rs_now s) (rs_reactor s) in
          Some (mkReactorSystem (rs_now s) r (Locked (rs_now s) dur) (rs_woken s ++ woken))
      | _ => None
      end
  | EvSleep =>
      match rs_thread s with
      | Locked start dur =>
          Some (mkReactorSystem (rs_now s) (rs_reactor s) (Waiting start (rs_now s) dur false) (rs_woken s))
      | _ => None
      end
  | EvWake =>
      if wait_over (rs_now s) (rs_thread s)
      then Some (mkReactorSystem (rs_now s) (rs_reactor s) Processing (rs_woken s)) else None
  end.

Inductive reactor_reaches : ReactorSystem → ReactorSystem → Prop :=
| reaches_refl s : reactor_reaches s s
| reaches_step s ev s1 s2 : reactor_step ev s = Some s1 → reactor_reaches s1 s2 → reactor_reaches s s2.

(** ** No timer is slept over *)

(** The duration was computed at [start], for all timers. *)
Definition sleep_fits (r : Reactor) (start : Z) (dur : option Z) : Prop :=
  ∀ key when w, has_timer r key when w → ∃ d, dur = Some d ∧ start + d ≤ when.

(** A thread that sleeps unnotified, or is about to sleep, wakes up in time for every
    timer, but for the time that its last round took. *)
Definition sleeps_in_time (s : ReactorSystem) : Prop :=
  match rs_thread s with
  | Processing => True
  | Locked start dur => sleep_fits (rs_reactor s) start dur ∧
      (∀ key when w, has_timer (rs_reactor s) key when w → start < when) ∧ start ≤ rs_now s
  | Waiting start slept dur notified =>
      (notified = false → sleep_fits (rs_reactor s) start dur) ∧ start ≤ slept ≤ rs_now s
  end.

Lemma process_timers_sleep now r :
  let '(_, r', dur) := process_timers now r in
  ∀ key when w, has_timer r' key when w → ∃ d, dur = Some d ∧ now + d ≤ when.
Proof.
  pose proof (process_timers_spec now r) as H. destruct (process_timers now r) as [[woken r'] dur].
  destruct H as (_ & _ & H). destruct dur as [d|].
  - destruct H as (_ & _ & H). intros key when w Ht. exists d. split; [done|]. specialize (H _ _ _ Ht). lia.
  - intros key when w Ht. by destruct (H _ _ _ Ht).
Qed.

Lemma notify_sleeps s r :
  lock_free (rs_thread s) = true → sleeps_in_time s →
  sleeps_in_time (mkReactorSystem (rs_now s) r (notify_one (rs_thread s)) (rs_woken s)).
Proof. unfold sleeps_in_time. cbn. by destruct (rs_thread s); cbn; [|done|intros _ [_ ?]]. Qed.

Lemma sleeps_in_time_step ev s s' : sleeps_in_time s → reactor_step ev s = Some s' → sleeps_in_time s'.
Proof.
  intros Hs. destruct ev as [key when w|key|dur| | |]; cbn [reactor_step].
  - destruct (lock_free _) eqn:Hl; intros [= <-]. by apply notify_sleeps.
  - destruct (lock_free _) eqn:Hl; [|done]. destruct (cancel_all_timers key (rs_reactor s)) as [ws r].
    intros [= <-]. by apply notify_sleeps.
  - destruct (Z.leb_spec 0 dur); intros [= <-]. unfold sleeps_in_time in *. cbn.
    destruct (rs_thread s); [done| |]; naive_solver lia.
  - destruct (rs_thread s); [|done..]. pose proof (process_timers_sleep (rs_now s) (rs_reactor s)) as Hp.
    pose proof (process_timers_spec (rs_now s) (rs_reactor s)) as Hq.
    destruct (process_timers (rs_now s) (rs_reactor s)) as [[woken r] dur]. intros [= <-]. cbn.
    split_and!; [exact Hp| |lia]. intros key when w Ht. by apply Hq in Ht as [_ ?].
  - unfold sleeps_in_time in *. destruct (rs_thread s) as [|start dur|]; [done| |done]. intros [= <-]. cbn.
    destruct Hs as (? & _ & ?). split; [done|lia].
  - destruct (wait_over _ _); intros [= <-]. done.
Qed.

Lemma sleeps_in_time_reaches s s' : sleeps_in_time s → reactor_reaches s s' → sleeps_in_time s'.
Proof. intros Hs. induction 1 as [|s ev s1 s2 Hstep _ IH]; [done|]. by eapply IH, sleeps_in_time_step. Qed.

(** The time that the last round of the thread took, from reading the clock until it
    went to sleep. *)
Definition round_time (s : ReactorSystem) : Z :=
  match rs_thread s with
  | Processing => 0
  | Locked start _ => rs_now s - start
  | Waiting start slept _ _ => slept - start
  end.

(** The thread runs until it has worked on the timers: it wakes up first if it sleeps. *)
Definition thread_round (s : ReactorSystem) : option ReactorSystem :=
  s ← match rs_thread s with Waiting _ _ _ _ => reactor_step EvWake s | _ => Some s end;
  reactor_step EvProcess s.

Lemma thread_round_Processing s : rs_thread s = Processing →
  ∃ s', reactor_step EvProcess s = Some s' ∧ rs_reactor s' = (process_timers (rs_now s) (rs_reactor s)).1.2 ∧
    rs_woken s' = rs_woken s ++ (process_timers (rs_now s) (rs_reactor s)).1.1.
Proof.
  intros Ht. cbn [reactor_step]. rewrite Ht. destruct (process_timers (rs_now s) (rs_reactor s)) as [[woken r] dur].
  eexists. by split_and!.
Qed.

(** A thread with a timer that is late by more than its last round can work at once. *)
Lemma thread_can_work s key when w :
  sleeps_in_time s → has_timer (rs_reactor s) key when w → when + round_time s ≤ rs_now s →
  ∃ s1, match rs_thread s with Waiting _ _ _ _ => reactor_step EvWake s | _ => Some s end = Some s1 ∧
    rs_thread s1 = Processing ∧ rs_now s1 = rs_now s ∧ rs_reactor s1 = rs_reactor s ∧ rs_woken s1 = rs_woken s.
Proof.
  unfold sleeps_in_time, round_time. intros Hs Ht Hd. destruct (rs_thread s) as [|start dur|start slept dur n] eqn:Hth.
  - by exists s.
  - destruct Hs as (_ & Hlt & _). apply Hlt in Ht. lia.
  - destruct Hs as [Hf Hle]. cbn [reactor_step]. rewrite Hth. cbn [wait_over].
    assert (n || match dur with Some d => slept + d <=? rs_now s | None => false end = true) as ->.
    { destruct n; [done|]. destruct (Hf eq_refl _ _ _ Ht) as (d & -> & Hle'). apply Z.leb_le. lia. }
    eexists. by split_and!.
Qed.

(** A timer stays until it fires, its connection is cancelled, or another timer of
    the same connection and instant takes its place. *)
Lemma insert_timer_keeps key when w r key' when' w' :
  has_timer r key when w → (key', when') ≠ (key, when) → has_timer (insert_timer key' when' w' r) key when w.
Proof.
  intros (t & i & Ht & Hi) Hne. unfold has_timer, insert_timer. cbn. destruct (decide (key' = key)) as [->|Hk].
  - rewrite Ht. cbn. eexists _, i. rewrite lookup_insert_eq. split; [done|].
    rewrite lookup_insert_ne by congruence. done.
  - exists t, i. by rewrite lookup_insert_ne.
Qed.

Lemma timer_kept ev s s' key when w :
  has_timer (rs_reactor s) key when w → reactor_step ev s = Some s' →
  has_timer (rs_reactor s') key when w ∨ ev = EvCancel key ∨ (∃ w', ev = EvInsert key when w') ∨
  when ≤ rs_now s ∧ ∃ woken, rs_woken s' = rs_woken s ++ woken ∧ w ∈ woken.
Proof.
  intros Ht. destruct ev as [key' when' w'|key'|dur| | |]; cbn [reactor_step].
  - destruct (lock_free _); intros [= <-]. destruct (decide ((key', when') = (key, when))) as [[= -> ->]|Hne]; [naive_solver|].
    left. by apply insert_timer_keeps.
  - destruct (lock_free _); [|done]. cbn. intros [= <-]. destruct (decide (key' = key)) as [->|Hne]; [naive_solver|].
    left. destruct Ht as (t & i & Ht & Hi). exists t, i. cbn. by rewrite lookup_delete_ne.
  - destruct (0 <=? dur); intros [= <-]. by left.
  - destruct (rs_thread s); [|done..]. pose proof (process_timers_spec (rs_now s) (rs_reactor s)) as Hq.
    destruct (process_timers (rs_now s) (rs_reactor s)) as [[woken r] dur]. destruct Hq as (Hw & Hk & _). intros [= <-]. cbn.
    destruct (decide (when ≤ rs_now s)) as [Hle|Hgt]; [|left; apply Hk; split; [done|lia]].
    do 3 right. split; [done|]. exists woken. split; [done|]. apply Hw. by exists key, when.
  - destruct (rs_thread s); [done| |done]. intros [= <-]. by left.
  - destruct (wait_over _ _); intros [= <-]. by left.
Qed.

(** C32. A timer that is registered fires: however tasks insert and cancel timers,
    however the clock advances and whenever the reactor thread runs, a timer in the
    table stays there until its connection is cancelled, another timer of the same
    connection and instant is inserted (which may take its place, see
    [insert_timer_collision]) or its task is woken, at its time or later; and when
    it is late by at least the time that the last round of the thread took, the
    thread is not blocked, and the round that it can do at once wakes the task of
    the timer and removes the timer, wakes only tasks whose timers are due, and
    keeps the other timers.  (The thread computes its sleep from the clock at the
    start of a round and sleeps from its end, so that much lateness is possible.) *)
Theorem reactor_fires_timers now s key when w :
  reactor_reaches (Reactor_get now None) s → has_timer (rs_reactor s) key when w →
  (∀ ev s', reactor_step ev s = Some s' →
    has_timer (rs_reactor s') key when w ∨ ev = EvCancel key ∨ (∃ w', ev = EvInsert key when w') ∨
    when ≤ rs_now s ∧ ∃ woken, rs_woken s' = rs_woken s ++ woken ∧ w ∈ woken) ∧
  (when + round_time s ≤ rs_now s →
   ∃ s' woken, thread_round s = Some s' ∧ rs_woken s' = rs_woken s ++ woken ∧ w ∈ woken ∧
    (∀ v, v ∈ woken → ∃ k t, has_timer (rs_reactor s) k t v ∧ t ≤ rs_now s) ∧
    (∀ k t v, has_timer (rs_reactor s') k t v ↔ has_timer (rs_reactor s) k t v ∧ rs_now s < t)).
Proof.
  intros Hr Ht. apply sleeps_in_time_reaches in Hr; [|done].
  split; [intros ev s'; by apply timer_kept|]. intros Hd.
  destruct (thread_can_work s key when w Hr Ht Hd) as (s1 & Hs1 & Hp & Hn & Hre & Hw).
  destruct (thread_round_Processing s1 Hp) as (s' & Hs' & Hr' & Hw'). rewrite Hn, Hre in *.
  assert (when ≤ rs_now s) as Hle.
  { unfold round_time, sleeps_in_time in *. destruct (rs_thread s); lia. }
  pose proof (process_timers_spec (rs_now s) (rs_reactor s)) as Hspec.
  destruct (process_timers (rs_now s) (rs_reactor s)) as [[woken r'] dur]. cbn in Hr', Hw'.
  destruct Hspec as (Hwk & Hkeep & _). exists s', woken. unfold thread_round. rewrite Hs1. cbn [mbind option_bind].
  split_and!; [done|by rewrite Hw', Hw|apply Hwk; by exists key, when| |].
  - intros v Hv. by apply Hwk.
  - rewrite Hr'. apply Hkeep.
Qed.

(** A timer is inserted while the thread sleeps without a deadline; the round that
    this starts takes 5, and the time of the timer comes. *)
Definition sample_reactor_system : ReactorSystem :=
  default (Reactor_get 0 None)
    (s ← reactor_step EvProcess (Reactor_get 0 None); s ← reactor_step EvSleep s; s ← reactor_step (EvInsert 7 100 1) s;
     s ← thread_round s; s ← reactor_step (EvTick 5) s; s ← reactor_step EvSleep s; reactor_step (EvTick 100) s).

Lemma reactor_fires_timers_witness :
  ∃ s' woken, thread_round sample_reactor_system = Some s' ∧
    rs_woken s' = rs_woken sample_reactor_system ++ woken ∧ 1%nat ∈ woken ∧
    (∀ v, v ∈ woken → ∃ k t, has_timer (rs_reactor sample_reactor_system) k t v ∧ t ≤ rs_now sample_reactor_system) ∧
    (∀ k t v, has_timer (rs_reactor s') k t v ↔
      has_timer (rs_reactor sample_reactor_system) k t v ∧ rs_now sample_reactor_system < t).
Proof.
  apply (reactor_fires_timers 0 sample_reactor_system 7 100 1%nat).
  - eapply (reaches_step _ EvProcess); [vm_compute; reflexivity|].
    eapply (reaches_step _ EvSleep); [vm_compute; reflexivity|].
    eapply (reaches_step _ (EvInsert 7 100 1)); [vm_compute; reflexivity|].
    eapply (reaches_step _ EvWake); [vm_compute; reflexivity|].
    eapply (reaches_step _ EvProcess); [vm_compute; reflexivity|].
    eapply (reaches_step _ (EvTick 5)); [vm_compute; reflexivity|].
    eapply (reaches_step _ EvSleep); [vm_compute; reflexivity|].
    eapply (reaches_step _ (EvTick 100)); [vm_compute; reflexivity|].
    vm_compute. apply reaches_refl.
  - exists {[ (100, 0) := 1%nat ]}, 0. split; vm_compute; reflexivity.
  - vm_compute. discriminate.
Defined.
