(* ===== verification/Link.v ===== *)
(** * The transfer link and routes (src/link.rs)

    [TransferLink] is shared by the sink and the stream of a connection: it is a
    state that every operation takes and returns.  The reactor is global, so
    [incoming_ack] takes and returns it as well, with the tasks it woke. *)
From S2P Require Import Prelude Bytes Errors Reader SeqNum Types Unconnected AckNack FrameSet FrameBody Packet.
From S2P Require Import Stream Collections Channels Reactor Dedup.
Open Scope Z_scope.

Definition MAX_ACK_BUFFER : nat := 4096.

(** The order of [BinaryHeap<Reverse<u24>>]. *)
Definition ack_key (v : u24) : Z := - v.

(** The elements of a [BTreeSet] in order. *)
Definition btree_sorted (s : gset Z) : list Z := merge_sort Z.le (elements s).

Section link.
Context {B : Build} {BH : BinaryHeap} {CQ : ConcurrentQueueCrate} {AC : AsyncChannelCrate}.

Record TransferLink := mkTransferLink {
  link_incoming_ack : cq (AckOrNack * Z);
  link_incoming_nack : cq AckOrNack;
  forward_waking : bool;
  outgoing_ack : list u24;
  outgoing_nack : gset u24;
  link_unconnected : cq UPacket;
  link_frame_body : cq FrameBody;
  link_role : Role;
  link_peer : Peer;
}.

Definition TransferLink_new (role : Role) (peer : Peer) : TransferLink :=
  mkTransferLink (cq_new (Some MAX_ACK_BUFFER)) (cq_new (Some MAX_ACK_BUFFER)) false [] ∅
    (cq_new None) (cq_new None) role peer.

Definition set_waking (v : bool) (l : TransferLink) : TransferLink :=
  mkTransferLink (link_incoming_ack l) (link_incoming_nack l) v (outgoing_ack l) (outgoing_nack l)
    (link_unconnected l) (link_frame_body l) (link_role l) (link_peer l).

Definition set_incoming (a : cq (AckOrNack * Z)) (n : cq AckOrNack) (l : TransferLink) : TransferLink :=
  mkTransferLink a n (forward_waking l) (outgoing_ack l) (outgoing_nack l)
    (link_unconnected l) (link_frame_body l) (link_role l) (link_peer l).

Definition set_outgoing (a : list u24) (n : gset u24) (l : TransferLink) : TransferLink :=
  mkTransferLink (link_incoming_ack l) (link_incoming_nack l) (forward_waking l) a n
    (link_unconnected l) (link_frame_body l) (link_role l) (link_peer l).

Definition set_queues (u : cq UPacket) (b : cq FrameBody) (l : TransferLink) : TransferLink :=
  mkTransferLink (link_incoming_ack l) (link_incoming_nack l) (forward_waking l) (outgoing_ack l)
    (outgoing_nack l) u b (link_role l) (link_peer l).

Definition turn_on_waking : TransferLink → TransferLink := set_waking true.
Definition turn_off_waking : TransferLink → TransferLink := set_waking false.
Definition should_waking (l : TransferLink) : bool := forward_waking l.

Definition incoming_ack (now : Z) (records : AckOrNack) (l : TransferLink) (r : Reactor) :
    TransferLink * Reactor * list nat :=
  let '(_, q) := cq_force_push (records, now) (link_incoming_ack l) in
  let l := set_incoming q (link_incoming_nack l) l in
  if should_waking l then
    let key := combine_hashes (Role_guid (link_role l)) (peer_guid (link_peer l)) in
    let '(wakers, r) := cancel_all_timers key r in
    (l, r, wakers)
  else (l, r, []).

Definition incoming_nack (records : AckOrNack) (l : TransferLink) : TransferLink :=
  let '(_, q) := cq_force_push records (link_incoming_nack l) in
  set_incoming (link_incoming_ack l) q l.

(** [.unwrap()] of a push *)
Definition send_unconnected {E} (packet : UPacket) (l : TransferLink) : outcome E TransferLink :=
  match cq_push packet (link_unconnected l) with
  | Some q => mret (set_queues q (link_frame_body l) l)
  | None => Panic
  end.

Definition send_frame_body {E} (body : FrameBody) (l : TransferLink) : outcome E TransferLink :=
  match cq_push body (link_frame_body l) with
  | Some q => mret (set_queues (link_unconnected l) q l)
  | None => Panic
  end.

Definition process_ack (l : TransferLink) : list (AckOrNack * Z) * TransferLink :=
  let '(acks, q) := cq_try_iter (link_incoming_ack l) in
  (acks, set_incoming q (link_incoming_nack l) l).

Definition process_nack (l : TransferLink) : list AckOrNack * TransferLink :=
  let '(nacks, q) := cq_try_iter (link_incoming_nack l) in
  (nacks, set_incoming (link_incoming_ack l) q l).

(** The iterator pops from the heap as [extend_from] asks for numbers. *)
Definition process_outgoing_ack {E} (mtu : Z) (l : TransferLink) :
    outcome E (option AckOrNack * TransferLink) :=
  let seqs := into_iter_sorted ack_key (outgoing_ack l) in
  '(ack, rest) ← extend_from seqs mtu;
  let heap := heap_pop_n ack_key (length seqs - length rest) (outgoing_ack l) in
  mret (ack, set_outgoing heap (outgoing_nack l) l).

Definition process_outgoing_nack {E} (mtu : Z) (l : TransferLink) :
    outcome E (option AckOrNack * TransferLink) :=
  '(nack, rest) ← extend_from (btree_sorted (outgoing_nack l)) mtu;
  mret (nack, set_outgoing (outgoing_ack l) (list_to_set rest) l).

(** [process_unconnected().next()]: one packet at a time. *)
Definition process_unconnected (l : TransferLink) : option UPacket * TransferLink :=
  match cq_pop (link_unconnected l) with
  | Some (p, q) => (Some p, set_queues q (link_frame_body l) l)
  | None => (None, l)
  end.

(** [process_frame_body().next()] *)
Definition process_frame_body (l : TransferLink) : option FrameBody * TransferLink :=
  match cq_pop (link_frame_body l) with
  | Some (b, q) => (Some b, set_queues (link_unconnected l) q l)
  | None => (None, l)
  end.

Definition outgoing_ack_empty (l : TransferLink) : bool := bool_decide (outgoing_ack l = []).
Definition outgoing_nack_empty (l : TransferLink) : bool := bool_decide (outgoing_nack l = ∅).
Definition unconnected_empty (l : TransferLink) : bool :=
  bool_decide (length (cq_list (link_unconnected l)) = 0%nat).
Definition frame_body_empty (l : TransferLink) : bool :=
  bool_decide (length (cq_list (link_frame_body l)) = 0%nat).

(** ** [Route]: the link it shares is passed along. *)
Record Route := mkRoute {
  router_tx : chan FrameSet_;
  seq_read : u24;
}.

Definition Route_new : Route := mkRoute chan_unbounded 0.

(** [for n in a..b { nack.insert(n.into()) }] *)
Fixpoint insert_gap {E} (ns : list Z) (nack : gset u24) : outcome E (gset u24) :=
  match ns with
  | [] => mret nack
  | n :: ns => v ← u24_from n; insert_gap ns ({[ v ]} ∪ nack)
  end.

Definition Route_deliver {E} (now : Z) (pack : CPacket) (rt : Route) (l : TransferLink) (r : Reactor) :
    outcome E (bool * Route * TransferLink * Reactor * list nat) :=
  if chan_closed (router_tx rt) then mret (false, rt, l, r, [])
  else
    match pack with
    | CFrameSet frames =>
        let seq := seq_num frames in
        let acks := heap_push ack_key seq (outgoing_ack l) in
        let nack := outgoing_nack l ∖ {[ seq ]} in
        '(read, nack) ←
          (if seq_read rt <=? seq then
             next ← u24_add seq 1;
             nack ← insert_gap (u24_range (u24_to_u32 (seq_read rt)) (u24_to_u32 seq)) nack;
             mret (next, nack)
           else mret (seq_read rt, nack));
        let l := set_outgoing acks nack l in
        let '(ok, tx) := chan_try_send frames (router_tx rt) in
        mret (ok, mkRoute tx read, l, r, [])
    | CAck ack =>
        let '(l, r, woken) := incoming_ack now ack l r in
        mret (true, rt, l, r, woken)
    | CNack nack => mret (true, rt, incoming_nack nack l, r, [])
    end.

(** Delivering a list of packets. *)
Fixpoint deliver_all {E} (now : Z) (packs : list CPacket) (rt : Route) (l : TransferLink) (r : Reactor) :
    outcome E (Route * TransferLink * Reactor) :=
  match packs with
  | [] => mret (rt, l, r)
  | pack :: packs =>
      '(_, rt, l, r, _) ← Route_deliver now pack rt l r;
      deliver_all now packs rt l r
  end.

(** ** Lemmas *)

Lemma insert_gap_spec {E} a b nack :
  0 ≤ a → b ≤ 2 ^ 24 →
  ∃ s, insert_gap (E:=E) (u24_range a b) nack = Ok s ∧ ∀ x, x ∈ s ↔ a ≤ x < b ∨ x ∈ nack.
Proof.
  intros Ha Hb.
  assert (∀ ns nack, Forall u24_valid ns →
    ∃ s, insert_gap (E:=E) ns nack = Ok s ∧ ∀ x, x ∈ s ↔ x ∈ ns ∨ x ∈ nack) as H.
  { induction ns as [|n ns IH]; intros s0 Hns; cbn; [exists s0; set_solver|].
    apply Forall_cons in Hns as [Hn Hns]. rewrite u24_from_Ok by done. cbn.
    destruct (IH ({[ n ]} ∪ s0) Hns) as (s & -> & Hs). exists s. split; [done|]. set_solver. }
  destruct (H (u24_range a b) nack) as (s & Hs & Hx).
  { apply Forall_forall. intros x Hx%elem_of_u24_range. unfold u24_valid, uint. lia. }
  exists s. split; [done|]. intros x. by rewrite Hx, elem_of_u24_range.
Qed.

(** What is owed to the peer after the frame sets numbered [xs] arrived: an
    acknowledgement for each of them, and a negative one for every gap. *)
Definition owes (xs : list Z) (rt : Route) (l : TransferLink) : Prop :=
  heap_ok ack_key (outgoing_ack l) ∧ outgoing_ack l ≡ₚ xs ∧
  0 ≤ seq_read rt < 2 ^ 24 ∧ (∀ x, x ∈ xs → x < seq_read rt) ∧
  ∀ x, x ∈ outgoing_nack l ↔ 0 ≤ x < seq_read rt ∧ x ∉ xs.

Lemma Route_deliver_frames {E} now frames xs rt l r :
  chan_closed (router_tx rt) = false → owes xs rt l → countable (seq_num frames) →
  ∃ rt' l', Route_deliver (E:=E) now (CFrameSet frames) rt l r = Ok (true, rt', l', r, []) ∧
    owes (xs ++ [seq_num frames]) rt' l' ∧ chan_closed (router_tx rt') = false ∧
    chan_sent (router_tx rt') = chan_sent (router_tx rt) ++ [frames] ∧
    seq_read rt' = Z.max (seq_read rt) (seq_num frames + 1).
Proof.
  intros Hopen (Hh & Hp & Hr & Hlt & Hn) Hc. unfold Route_deliver. rewrite Hopen.
  set (s := seq_num frames) in *. destruct Hc as [Hc0 Hc1].
  assert (heap_push ack_key s (outgoing_ack l) ≡ₚ xs ++ [s]) as Hperm.
  { rewrite heap_push_Permutation, Hp. apply Permutation_cons_append. }
  pose proof (chan_try_send_spec frames (router_tx rt)) as (H1 & H2 & H3). rewrite Hopen in *.
  destruct (Z.leb_spec (seq_read rt) s) as [Hle|Hgt].
  - rewrite u24_add_Ok by lia. cbn [mbind outcome_bind]. unfold u24_to_u32.
    destruct (insert_gap_spec (E:=E) (seq_read rt) s (outgoing_nack l ∖ {[s]})) as (nack & -> & Hx);
      [lia|lia|]. cbn [mbind outcome_bind].
    destruct (chan_try_send frames (router_tx rt)) as [ok tx]. cbn in H1, H2, H3. subst ok.
    eexists _, _. split; [done|]. split; [|split_and!; [done|done|cbn; lia]].
    split_and!; cbn [outgoing_ack outgoing_nack set_outgoing seq_read];
      [by apply heap_push_ok|done|lia|lia| |].
    + intros x [Hx'|Hx'%list_elem_of_singleton]%elem_of_app; [apply Hlt in Hx'; lia|lia].
    + intros x. rewrite Hx, elem_of_difference, elem_of_singleton, Hn, elem_of_app, list_elem_of_singleton.
      split.
      * intros [?|[? ?]]; (split; [lia|]); [intros [Hin|]; [apply Hlt in Hin|]; lia|tauto].
      * intros [? ?]. destruct (decide (x < seq_read rt)); [right|left; lia].
        split; [split; [lia|tauto]|tauto].
  - cbn [mbind outcome_bind].
    destruct (chan_try_send frames (router_tx rt)) as [ok tx]. cbn in H1, H2, H3. subst ok.
    eexists _, _. split; [done|]. split; [|split_and!; [done|done|cbn; lia]].
    split_and!; cbn [outgoing_ack outgoing_nack set_outgoing seq_read];
      [by apply heap_push_ok|done|lia|lia| |].
    + intros x [Hx'|Hx'%list_elem_of_singleton]%elem_of_app; [by apply Hlt|lia].
    + intros x. rewrite elem_of_difference, elem_of_singleton, Hn, elem_of_app, list_elem_of_singleton.
      tauto.
Qed.

Lemma owes_new role peer : owes [] Route_new (TransferLink_new role peer).
Proof.
  split_and!; cbn; [apply heap_ok_nil|done|lia|lia|set_solver|].
  intros x. split; [set_solver|lia].
Qed.

Lemma deliver_all_frames {E} now fss xs rt l r :
  chan_closed (router_tx rt) = false → owes xs rt l → Forall (λ f, countable (seq_num f)) fss →
  ∃ rt' l', deliver_all (E:=E) now (CFrameSet <$> fss) rt l r = Ok (rt', l', r) ∧
    owes (xs ++ (seq_num <$> fss)) rt' l' ∧
    chan_sent (router_tx rt') = chan_sent (router_tx rt) ++ fss.
Proof.
  intros Ho Hw Hf. revert xs rt l Ho Hw. induction Hf as [|f fss Hf Hfs IH]; intros xs rt l Ho Hw; cbn.
  { exists rt, l. by rewrite !app_nil_r. }
  destruct (Route_deliver_frames (E:=E) now f xs rt l r Ho Hw Hf) as (rt1 & l1 & -> & Hw1 & Ho1 & Hs1 & _).
  cbn. destruct (IH _ rt1 l1 Ho1 Hw1) as (rt2 & l2 & -> & Hw2 & Hs2).
  exists rt2, l2. split_and!; [done|by rewrite <-app_assoc in Hw2|]. by rewrite Hs2, Hs1, <-app_assoc.
Qed.

Lemma into_iter_sorted_length {A} (key : A → Z) h : heap_ok key h → length (into_iter_sorted key h) = length h.
Proof. intros Hh. by apply Permutation_length, into_iter_sorted_spec. Qed.

Lemma process_outgoing_ack_spec {E} mtu l :
  7 ≤ mtu < 2 ^ 16 → heap_ok ack_key (outgoing_ack l) → Forall countable (outgoing_ack l) →
  outgoing_ack l ≠ [] →
  ∃ ack h', process_outgoing_ack (E:=E) mtu l = Ok (Some ack, set_outgoing h' (outgoing_nack l) l) ∧
    into_iter_sorted ack_key (outgoing_ack l) = expand_all (records ack) ++ into_iter_sorted ack_key h' ∧
    Forall Record_ok (records ack) ∧ expand_all (records ack) ≠ [] ∧ heap_ok ack_key h' ∧
    3 + records_len (records ack) ≤ mtu.
Proof.
  intros Hm Hh Hc Hne. unfold process_outgoing_ack.
  destruct (into_iter_sorted_spec ack_key _ Hh) as [Hp _].
  set (seqs := into_iter_sorted ack_key (outgoing_ack l)) in *.
  destruct (extend_from_spec (E:=E) seqs mtu) as (ack & rest & -> & Hsplit & Hok & Hrne & Hlen & _).
  { intros Hn. rewrite Hn in Hp. apply Permutation_nil_l in Hp. by rewrite Hp in Hne. }
  { rewrite Hp. done. }
  { lia. }
  cbn [mbind outcome_bind]. eexists ack, _. split; [done|].
  assert (length seqs = length (outgoing_ack l)) as Hls by (by rewrite Hp).
  destruct (heap_pop_n_spec ack_key (length seqs - length rest) (outgoing_ack l) Hh) as [Hh' Hd]; [lia|].
  fold (into_iter_sorted ack_key (outgoing_ack l)) in Hd. fold seqs in Hd.
  fold (into_iter_sorted ack_key (heap_pop_n ack_key (length seqs - length rest) (outgoing_ack l))) in Hd.
  assert (length seqs - length rest = length (expand_all (records ack)))%nat as Hk.
  { rewrite Hsplit, length_app. lia. }
  split_and!; try done; [|by apply expand_all_ne].
  rewrite Hd at 1. f_equal. rewrite Hk, Hsplit. by rewrite take_app_length.
Qed.

Lemma set_outgoing_id l : set_outgoing (outgoing_ack l) (outgoing_nack l) l = l.
Proof. by destruct l. Qed.

(** Nothing pending, nothing to send. *)
Lemma process_outgoing_ack_nil {E} mtu l :
  7 ≤ mtu → outgoing_ack l = [] → process_outgoing_ack (E:=E) mtu l = Ok (None, l).
Proof.
  intros Hm Hl. unfold process_outgoing_ack, extend_from, debug_assert. rewrite Hl, (proj2 (Z.leb_le _ _)) by lia.
  cbn. destruct debug_assertions; cbn; rewrite <-Hl at 1; by rewrite set_outgoing_id.
Qed.

Lemma process_outgoing_nack_nil {E} mtu l :
  7 ≤ mtu → outgoing_nack l = ∅ → process_outgoing_nack (E:=E) mtu l = Ok (None, l).
Proof.
  intros Hm Hl. unfold process_outgoing_nack, extend_from, debug_assert, btree_sorted.
  rewrite Hl, elements_empty, (proj2 (Z.leb_le _ _)) by lia.
  cbn. destruct debug_assertions; cbn; rewrite <-Hl at 1; by rewrite set_outgoing_id.
Qed.

(** The same of the set of missing numbers. *)
Lemma process_outgoing_nack_spec {E} mtu l :
  7 ≤ mtu < 2 ^ 16 → (∀ x, x ∈ outgoing_nack l → countable x) → outgoing_nack l ≠ ∅ →
  ∃ nack n', process_outgoing_nack (E:=E) mtu l = Ok (Some nack, set_outgoing (outgoing_ack l) n' l) ∧
    Forall Record_ok (records nack) ∧ expand_all (records nack) ≠ [] ∧
    3 + records_len (records nack) ≤ mtu ∧
    (∀ x, x ∈ outgoing_nack l ↔ x ∈ expand_all (records nack) ∨ x ∈ n') ∧
    (∀ x, x ∈ expand_all (records nack) → x ∉ n') ∧ NoDup (expand_all (records nack)).
Proof.
  intros Hm Hc Hne. unfold process_outgoing_nack, btree_sorted.
  pose proof (merge_sort_Permutation Z.le (elements (outgoing_nack l))) as Hp.
  set (seqs := merge_sort Z.le (elements (outgoing_nack l))) in *.
  destruct (extend_from_spec (E:=E) seqs mtu) as (nack & rest & -> & Hsplit & Hok & Hrne & Hlen & _).
  { intros Hn. rewrite Hn in Hp. apply Permutation_nil_l in Hp. symmetry in Hp. apply elements_empty_inv in Hp. set_solver. }
  { apply Forall_forall. intros x Hx. apply Hc. rewrite <-elem_of_elements. by rewrite <-Hp. }
  { lia. }
  cbn [mbind outcome_bind]. eexists nack, _. split; [done|].
  pose proof (NoDup_elements (outgoing_nack l)) as Hnd. rewrite <-Hp, Hsplit in Hnd.
  apply NoDup_app in Hnd as (Hnd & Hdis & _).
  assert (∀ x, x ∈ outgoing_nack l ↔ x ∈ expand_all (records nack) ∨ x ∈ rest) as Hin.
  { intros x. rewrite <-elem_of_elements, <-Hp, Hsplit. apply elem_of_app. }
  split_and!; try done.
  - by apply expand_all_ne.
  - intros x. by rewrite Hin, elem_of_list_to_set.
  - intros x. rewrite elem_of_list_to_set. auto.
Qed.

(** C23. Receive accounting is exact: after any sequence of frame sets with sequence
    numbers below 0xFFFFFF arrived on a fresh route, in any order and with repetitions,
    every one of them was forwarded, an acknowledgement is pending for each, and the
    pending negative acknowledgements are exactly the numbers below the largest one
    received that did not arrive.  At the number 0xFFFFFF itself the route panics
    ([Route_deliver_last_seq_panics]). *)
Theorem Route_accounting_exact {E} now role peer r (fss : list FrameSet_) :
  Forall (λ f, countable (seq_num f)) fss →
  ∃ rt l, deliver_all (E:=E) now (CFrameSet <$> fss) Route_new (TransferLink_new role peer) r = Ok (rt, l, r) ∧
    chan_sent (router_tx rt) = fss ∧
    outgoing_ack l ≡ₚ seq_num <$> fss ∧
    (∀ x, x ∈ outgoing_nack l ↔
      0 ≤ x ∧ (∃ f, f ∈ fss ∧ x < seq_num f) ∧ ¬ ∃ f, f ∈ fss ∧ x = seq_num f).
Proof.
  intros Hf. destruct (deliver_all_frames (E:=E) now fss [] Route_new (TransferLink_new role peer) r)
    as (rt & l & Hd & Hw & Hs); [apply chan_unbounded_spec|apply owes_new|done|].
  exists rt, l. cbn in Hs. rewrite (proj1 chan_unbounded_spec) in Hs.
  assert (∀ fss (xs : list Z) (rt : Route) (l : TransferLink),
    chan_closed (router_tx rt) = false → owes xs rt l → Forall (λ f, countable (seq_num f)) fss →
    ∀ rt' l', deliver_all (E:=E) now (CFrameSet <$> fss) rt l r = Ok (rt', l', r) →
    seq_read rt' = foldl (λ m f, Z.max m (seq_num f + 1)) (seq_read rt) fss) as Hread.
  { clear. induction fss as [|f fss IH]; intros xs rt l Ho Hw Hf rt' l' Hd; cbn in *.
    { by injection Hd as <- _. }
    apply Forall_cons in Hf as [Hf Hfs].
    destruct (Route_deliver_frames (E:=E) now f xs rt l r Ho Hw Hf) as (rt1 & l1 & Heq & Hw1 & Ho1 & _ & Hr1).
    rewrite Heq in Hd. cbn in Hd. rewrite <-Hr1. by eapply IH. }
  specialize (Hread fss [] Route_new (TransferLink_new role peer)
    (proj2 chan_unbounded_spec) (owes_new role peer) Hf _ _ Hd). cbn in Hread.
  assert (∀ x m, x < foldl (λ m f, Z.max m (seq_num f + 1)) m fss ↔ x < m ∨ ∃ f, f ∈ fss ∧ x ≤ seq_num f)
    as Hmax.
  { clear. induction fss as [|f fss IH]; intros x m; cbn; [set_solver|]. rewrite IH.
    rewrite Z.max_lt_iff. setoid_rewrite elem_of_cons. split.
    - intros [[?|?]|(g & ? & ?)]; [by left|right; exists f; split; [by left|lia]|right; eauto].
    - intros [?|(g & [->|?] & ?)]; [by left; left|left; right; lia|right; eauto]. }
  destruct Hw as (_ & Hp & _ & _ & Hn). change ([] ++ (seq_num <$> fss)) with (seq_num <$> fss) in *.
  split_and!; [done|done|done|].
  intros x. rewrite Hn, Hread, list_elem_of_fmap. cbn. split.
  - intros [[H0 Hlt] Hnin]. apply Hmax in Hlt as [?|(f & Hin & Hle)]; [lia|]. split_and!; [done| |naive_solver].
    exists f. split; [done|]. destruct (decide (x = seq_num f)) as [->|]; [|lia]. exfalso. apply Hnin. by exists f.
  - intros (H0 & (f & Hin & Hlt) & Hnin). split; [|naive_solver]. split; [done|]. apply Hmax. right.
    exists f. split; [done|lia].
Qed.

(** Acknowledgements are sent for the oldest frame sets first and none is
    lost: a flush turns a non-empty prefix of the pending numbers, in increasing
    order, into one packet that fits into the MTU, and keeps the others pending. *)
Theorem process_outgoing_ack_splits {E} mtu l :
  7 ≤ mtu < 2 ^ 16 → heap_ok ack_key (outgoing_ack l) → Forall countable (outgoing_ack l) →
  outgoing_ack l ≠ [] →
  ∃ ack l', process_outgoing_ack (E:=E) mtu l = Ok (Some ack, l') ∧
    into_iter_sorted ack_key (outgoing_ack l) =
      expand_all (records ack) ++ into_iter_sorted ack_key (outgoing_ack l') ∧
    (length (outgoing_ack l') < length (outgoing_ack l))%nat ∧
    3 + records_len (records ack) ≤ mtu ∧ outgoing_nack l' = outgoing_nack l.
Proof.
  intros Hm Hh Hc Hne.
  destruct (process_outgoing_ack_spec (E:=E) mtu l Hm Hh Hc Hne) as (ack & h' & H1 & H2 & H3 & H4 & H5 & H6).
  eexists ack, _. split_and!; try done. cbn [outgoing_ack set_outgoing].
  apply (f_equal length) in H2. rewrite length_app, !into_iter_sorted_length in H2 by done.
  destruct (expand_all (records ack)); [done|cbn in H2; lia].
Qed.

(** A frame set with the last sequence number panics the receiving side in
    every build profile; the number is chosen by the remote peer. *)
Theorem Route_deliver_last_seq_panics {E} now rt l r frames :
  chan_closed (router_tx rt) = false → u24_valid (seq_read rt) → seq_num frames = 2 ^ 24 - 1 →
  Route_deliver (E:=E) now (CFrameSet frames) rt l r = Panic.
Proof.
  intros Ho Hr Hs. unfold Route_deliver. rewrite Ho, Hs. unfold u24_valid, uint in Hr.
  rewrite (proj2 (Z.leb_le _ _)) by lia. rewrite u24_add_spec by (unfold u24_valid, uint; lia). done.
Qed.
End link.

Lemma Route_accounting_exact_witness :
  ∃ rt l, deliver_all (B:=true) (BH:=heap_sorted) (CQ:=queue_reference) (AC:=channel_reference) (E:=io_error)
      0 (CFrameSet <$> [mkFrameSet 2 []; mkFrameSet 0 []; mkFrameSet 5 []])
      (Route_new (AC:=channel_reference))
      (TransferLink_new (CQ:=queue_reference) (Server 1) (mkPeer 2 (V4 0 0) 1400)) Reactor_new =
      Ok (rt, l, Reactor_new) ∧
    chan_sent (AsyncChannelCrate:=channel_reference) (router_tx (AC:=channel_reference) rt) =
      [mkFrameSet 2 []; mkFrameSet 0 []; mkFrameSet 5 []] ∧
    outgoing_ack (CQ:=queue_reference) l ≡ₚ [2; 0; 5] ∧
    (∀ x, x ∈ outgoing_nack (CQ:=queue_reference) l ↔
      0 ≤ x ∧ (∃ f, f ∈ [mkFrameSet 2 []; mkFrameSet 0 []; mkFrameSet 5 []] ∧ x < seq_num f) ∧
      ¬ ∃ f, f ∈ [mkFrameSet 2 []; mkFrameSet 0 []; mkFrameSet 5 []] ∧ x = seq_num f).
Proof.
  apply (Route_accounting_exact (B:=true) (BH:=heap_sorted) (CQ:=queue_reference) (AC:=channel_reference)).
  by repeat constructor.
Defined.

Definition sample_link : TransferLink (CQ:=queue_reference) :=
  set_outgoing (CQ:=queue_reference) [3; 4; 9] ∅
    (TransferLink_new (CQ:=queue_reference) (Server 1) (mkPeer 2 (V4 0 0) 1400)).

Lemma process_outgoing_ack_splits_witness :
  ∃ ack l', process_outgoing_ack (B:=true) (BH:=heap_sorted) (CQ:=queue_reference) (E:=io_error) 10 sample_link =
      Ok (Some ack, l') ∧
    into_iter_sorted (BH:=heap_sorted) ack_key (outgoing_ack (CQ:=queue_reference) sample_link) =
      expand_all (records ack) ++ into_iter_sorted (BH:=heap_sorted) ack_key (outgoing_ack (CQ:=queue_reference) l') ∧
    (length (outgoing_ack (CQ:=queue_reference) l') < length (outgoing_ack (CQ:=queue_reference) sample_link))%nat ∧
    3 + records_len (records ack) ≤ 10 ∧
    outgoing_nack (CQ:=queue_reference) l' = outgoing_nack (CQ:=queue_reference) sample_link.
Proof.
  apply (process_outgoing_ack_splits (B:=true) (BH:=heap_sorted) (CQ:=queue_reference)).
  - lia.
  - cbn. repeat (constructor; [|by repeat constructor; vm_compute]). constructor.
  - by repeat constructor.
  - done.
Defined.

Lemma Route_deliver_last_seq_panics_witness :
  Route_deliver (B:=false) (BH:=heap_sorted) (CQ:=queue_reference) (AC:=channel_reference) (E:=io_error) 0
    (CFrameSet (mkFrameSet 16777215 [])) (Route_new (AC:=channel_reference)) sample_link Reactor_new = Panic.
Proof.
  apply (Route_deliver_last_seq_panics (B:=false) (BH:=heap_sorted) (CQ:=queue_reference)
    (AC:=channel_reference)); done.
Defined.
