(* ===== verification/Sink.v ===== *)
(** * Sinks

    [futures::Sink] as a class of the four operations on a state; the answers of
    a poll are [Pending], or [Ready] with an [io::Error] or with success. *)
From S2P Require Import Prelude Errors.

(** [Result<(), io::Error>] *)
Abbreviation io_result := (io_error + unit)%type.

(** A poll that has not returned within the steps its loop was given. *)
Inductive spinning := OutOfFuel.

(** [Poll<Result<(), io::Error>>] with the state it leaves. *)
Abbreviation sink_poll S := (outcome spinning (poll io_result * S)).
Abbreviation sink_send S := (outcome spinning (io_result * S)).

Class Sink (S A : Type) := {
  poll_ready : S → sink_poll S;
  start_send : A → S → sink_send S;
  poll_flush : S → sink_poll S;
  poll_close : S → sink_poll S;
}.

(** [ready!(m)?; k]: go on with the state when [m] is ready and successful. *)
Definition and_then {S T} (m : sink_poll S) (ret : S → T) (k : S → sink_poll T) : sink_poll T :=
  '(r, s) ← m;
  match r with
  | Pending => mret (Pending, ret s)
  | Ready (inl e) => mret (Ready (inl e), ret s)
  | Ready (inr _) => k s
  end.

(** [m?; k] *)
Definition send_then {S T} (m : sink_send S) (ret : S → T) (k : S → sink_poll T) : sink_poll T :=
  '(r, s) ← m;
  match r with
  | inl e => mret (Ready (inl e), ret s)
  | inr _ => k s
  end.

(** [SinkExt::feed], in one poll: hand the item over when the sink is ready. *)
Definition feed {S A} `{!Sink S A} (x : A) (s : S) : sink_poll S :=
  and_then (poll_ready (A:=A) s) id (λ s,
  '(r, s) ← start_send x s; mret (Ready r, s)).

(** Feed the items one after the other and flush. *)
Fixpoint send_all {S A} `{!Sink S A} (xs : list A) (s : S) : sink_poll S :=
  match xs with
  | [] => poll_flush (A:=A) s
  | x :: xs => and_then (feed x s) id (send_all xs)
  end.

(** A sink whose calls return, with any answer. *)
Definition returning (F A : Type) `{!Sink F A} : Prop :=
  ∀ s : F, (∃ r, poll_ready (A:=A) s = Ok r) ∧ (∀ x : A, ∃ r, start_send x s = Ok r) ∧
    (∃ r, poll_flush (A:=A) s = Ok r) ∧ (∃ r, poll_close (A:=A) s = Ok r).

(** ** A sink that takes what it is given

    The contract the reliable layer has with the socket below it: after a poll
    that says ready, an item can be handed over and is added to the history.
    [taken h s]: [s] has taken the items [h]; [free h s]: it is ready for one more. *)
Class ReadySink (S A : Type) `{!Sink S A} := {
  sendable : A → Prop;
  taken : list A → S → Prop;
  free : list A → S → Prop;
  free_taken h s : free h s → taken h s;
  poll_ready_free h s : taken h s →
    ∃ s', poll_ready (A:=A) s = Ok (Ready (inr tt), s') ∧ free h s';
  start_send_taken h s x : free h s → sendable x →
    ∃ s', start_send x s = Ok (inr tt, s') ∧ taken (h ++ [x]) s';
  poll_flush_taken h s : taken h s →
    ∃ s', poll_flush (A:=A) s = Ok (Ready (inr tt), s') ∧ taken h s';
  poll_close_taken h s : taken h s →
    ∃ s', poll_close (A:=A) s = Ok (Ready (inr tt), s') ∧ taken h s';
}.

Section ready_sink.
Context {S A : Type} `{!Sink S A} `{!ReadySink S A}.

Lemma feed_taken h s (x : A) :
  taken h s → sendable x → ∃ s' : S, feed x s = Ok (Ready (inr tt), s') ∧ taken (h ++ [x]) s'.
Proof.
  intros Ht Hx. destruct (poll_ready_free h s Ht) as (s1 & H1 & Hf).
  destruct (start_send_taken h s1 x Hf Hx) as (s2 & H2 & Ht2).
  exists s2. unfold feed, and_then. rewrite H1. cbn. by rewrite H2.
Qed.

Lemma send_all_taken h s (xs : list A) :
  taken h s → Forall sendable xs →
  ∃ s1 s2 : S, taken (h ++ xs) s1 ∧ poll_flush (A:=A) s1 = Ok (Ready (inr tt), s2) ∧ taken (h ++ xs) s2 ∧
    send_all xs s = Ok (Ready (inr tt), s2).
Proof.
  intros Ht Hxs. revert h s Ht. induction Hxs as [|x xs Hx _ IH]; intros h s Ht.
  - destruct (poll_flush_taken h s Ht) as (s2 & H & Ht2). exists s, s2. by rewrite app_nil_r.
  - destruct (feed_taken h s x Ht Hx) as (s1 & H1 & Ht1).
    destruct (IH _ s1 Ht1) as (s2 & s3 & H2 & H3 & H4 & H5).
    rewrite <-app_assoc in *. exists s2, s3. split_and!; [done..|]. cbn. unfold and_then. by rewrite H1.
Qed.
End ready_sink.

(** A sink that records what it is given and answers [poll_ready] from a list
    (ready when the list is exhausted); the end of the concrete sink stacks. *)
Record LogSink (A : Type) := mkLogSink {
  log_ready : list (poll io_result);
  log_sent : list A;
  log_flushes : nat;
  log_closes : nat;
}.
Arguments mkLogSink {A} _ _ _ _.
Arguments log_ready {A} _.
Arguments log_sent {A} _.
Arguments log_flushes {A} _.
Arguments log_closes {A} _.

Definition log_poll {A} (s : LogSink A) (k : LogSink A → LogSink A) : sink_poll (LogSink A) :=
  match log_ready s with
  | [] => mret (Ready (inr tt), k s)
  | r :: rs => mret (r, k (mkLogSink rs (log_sent s) (log_flushes s) (log_closes s)))
  end.

Global Instance LogSink_sink A : Sink (LogSink A) A := {
  poll_ready s := log_poll s (λ s, s);
  start_send x s :=
    mret (inr tt, mkLogSink (log_ready s) (log_sent s ++ [x]) (log_flushes s) (log_closes s));
  poll_flush s :=
    mret (Ready (inr tt), mkLogSink (log_ready s) (log_sent s) (S (log_flushes s)) (log_closes s));
  poll_close s :=
    mret (Ready (inr tt), mkLogSink (log_ready s) (log_sent s) (log_flushes s) (S (log_closes s)));
}.

(** A recording sink that never blocks. *)
Global Program Instance LogSink_ready A : ReadySink (LogSink A) A := {
  sendable _ := True;
  taken h s := log_ready s = [] ∧ log_sent s = h;
  free h s := log_ready s = [] ∧ log_sent s = h;
}.
Next Obligation. done. Qed.
Next Obligation. intros A h s [H1 H2]. exists s. cbn. unfold log_poll. by rewrite H1. Qed.
Next Obligation. intros A h s x [H1 H2] _. eexists. split; [done|]. cbn. by rewrite H2. Qed.
Next Obligation. intros A h s [H1 H2]. eexists. by split. Qed.
Next Obligation. intros A h s [H1 H2]. eexists. by split. Qed.

(** ** The sink side of [Log] (src/utils/log.rs): every call is forwarded, errors
    are returned to the caller and not logged. *)
Record Logged (F : Type) := mkLogged { logged_source : F }.
Arguments mkLogged {F} _.
Arguments logged_source {F} _.

(** A poll of the source. *)
Definition logged_poll {F} (op : F → sink_poll F) (s : Logged F) : sink_poll (Logged F) :=
  '(r, f) ← op (logged_source s); mret (r, mkLogged f).

Definition logged_send {F A} `{!Sink F A} (x : A) (s : Logged F) : sink_send (Logged F) :=
  '(r, f) ← start_send x (logged_source s); mret (r, mkLogged f).

Global Instance Logged_sink F A `{!Sink F A} : Sink (Logged F) A := {
  poll_ready := logged_poll (poll_ready (A:=A));
  start_send := logged_send;
  poll_flush := logged_poll (poll_flush (A:=A));
  poll_close := logged_poll (poll_close (A:=A));
}.

(** Logging keeps the contract of the sink it wraps. *)
Global Program Instance Logged_ready F A `{!Sink F A} `{!ReadySink F A} : ReadySink (Logged F) A := {
  sendable := sendable (S:=F);
  taken h s := taken h (logged_source s);
  free h s := free h (logged_source s);
}.
Next Obligation. intros F A ? ? h s. apply free_taken. Qed.
Next Obligation.
  intros F A ? ? h s (f & Hf & Hfree)%poll_ready_free. exists (mkLogged f). cbn. unfold logged_poll. by rewrite Hf.
Qed.
Next Obligation.
  intros F A ? ? h s x Hs Hx. destruct (start_send_taken h (logged_source s) x Hs Hx) as (f & Hf & Ht).
  exists (mkLogged f). cbn. unfold logged_send. by rewrite Hf.
Qed.
Next Obligation.
  intros F A ? ? h s (f & Hf & Ht)%poll_flush_taken. exists (mkLogged f). cbn. unfold logged_poll. by rewrite Hf.
Qed.
Next Obligation.
  intros F A ? ? h s (f & Hf & Ht)%poll_close_taken. exists (mkLogged f). cbn. unfold logged_poll. by rewrite Hf.
Qed.
