(* ===== verification/Encoder.v ===== *)
(** * The encoding pipeline (src/codec/encoder/fragment.rs)

    [Fragment] splits a message into frames that fit into the MTU, numbers them
    and hands them to the sink below. *)
From S2P Require Import Prelude Bytes Errors Reader SeqNum Types PackType AckNack FrameSet Packet Sink Stream.
From S2P Require Import Collections Dedup DeFragment.
Open Scope Z_scope.

Record FragmentSink (F : Type) := mkFragmentSink {
  frag_frame : F;
  frag_mtu : Z;
  reliable_write_index : u24;
  order_write_index : list u24;
  parted_id_write : Z;
  frag_buf : list (Priority * Frame);
}.
Arguments mkFragmentSink {F} _ _ _ _ _ _.
Arguments frag_frame {F} _.
Arguments frag_mtu {F} _.
Arguments reliable_write_index {F} _.
Arguments order_write_index {F} _.
Arguments parted_id_write {F} _.
Arguments frag_buf {F} _.

Definition fragmented {F} (frame : F) (mtu : Z) (max_channels : nat) : FragmentSink F :=
  mkFragmentSink frame mtu 0 (replicate max_channels 0) 0 [].

Definition set_frag {F} (frame : F) (buf : list (Priority * Frame)) (s : FragmentSink F) : FragmentSink F :=
  mkFragmentSink frame (frag_mtu s) (reliable_write_index s) (order_write_index s) (parted_id_write s) buf.

Section fragment.
Context {B : Build} {F : Type} `{!Sink F (Priority * Frame)}.

(** [while let Some(frame) = buf.pop_front()]: the frame leaves the buffer before
    the sink below is asked whether it is ready. *)
Fixpoint poll_empty_loop (s : FragmentSink F) (frame : F) (buf : list (Priority * Frame)) :
    sink_poll (FragmentSink F) :=
  match buf with
  | [] => mret (Ready (inr tt), set_frag frame [] s)
  | f :: buf =>
      and_then (poll_ready (A:=Priority * Frame) frame) (λ frame, set_frag frame buf s) (λ frame,
      send_then (start_send f frame) (λ frame, set_frag frame buf s) (λ frame,
      poll_empty_loop s frame buf))
  end.

Definition Fragment_poll_empty (s : FragmentSink F) : sink_poll (FragmentSink F) :=
  match frag_buf s with
  | [] => mret (Ready (inr tt), s)
  | _ => poll_empty_loop s (frag_frame s) (frag_buf s)
  end.

(** A poll of the sink below, once the buffer is empty. *)
Definition Fragment_poll_then (op : F → sink_poll F) (s : FragmentSink F) : sink_poll (FragmentSink F) :=
  and_then (Fragment_poll_empty s) (λ s, s) (λ s,
    '(r, frame) ← op (frag_frame s);
    mret (r, set_frag frame (frag_buf s) s)).

Definition Fragment_poll_ready := Fragment_poll_then (poll_ready (A:=Priority * Frame)).
Definition Fragment_poll_flush := Fragment_poll_then (poll_flush (A:=Priority * Frame)).
Definition Fragment_poll_close := Fragment_poll_then (poll_close (A:=Priority * Frame)).

(** A message that must be split becomes reliable. *)
Definition adjust_reliability (r : Reliability) : Reliability :=
  match r with
  | Unreliable => Reliable
  | UnreliableSequenced => ReliableSequenced
  | UnreliableWithAckReceipt => ReliableWithAckReceipt
  | r => r
  end.

(** [indices_for_frame]: the reliable index (and the next one to use) and the
    order.  [then_some] evaluates its argument in any case, so the channel is
    looked up whether the message is ordered or not. *)
Definition indices_for_frame {E} (r : Reliability) (order_channel : nat) (next : u24) (orders : list u24) :
    outcome E (option u24 * option Ordered * u24) :=
  '(idx, next) ←
    (if is_reliable r then n ← u24_add_assign next 1; mret (Some next, n) else mret (None, next));
  match orders !! order_channel with
  | None => Panic
  | Some frame_index =>
      let o := mkOrdered frame_index (wrap 8 (Z.of_nat order_channel)) in
      mret (idx, if is_sequenced_or_ordered r then Some o else None, next)
  end.

(** [order_write_index[order_channel] += 1] *)
Definition bump_order {E} (r : Reliability) (order_channel : nat) (orders : list u24) : outcome E (list u24) :=
  if is_sequenced_or_ordered r then
    match orders !! order_channel with
    | None => Panic
    | Some i => n ← u24_add_assign i 1; mret (<[order_channel := n]> orders)
    end
  else mret orders.

(** [for parted_index in 0..parted_size]: [n] fragments are left. *)
Fixpoint split_loop {E} (n : nat) (parted_index parted_size parted_id : Z) (per_len max_len : nat)
    (r : Reliability) (order_channel : nat) (prio : Priority) (next : u24) (orders : list u24)
    (body : list Z) (buf : list (Priority * Frame)) : outcome E (u24 * list Z * list (Priority * Frame)) :=
  match n with
  | O => mret (next, body, buf)
  | S n =>
      '(idx, ord, next) ← indices_for_frame r order_channel next orders;
      let len := Nat.min per_len (length body) in
      let frame := mkFrame (Flags_new r true) idx None ord
        (Some (mkFragment parted_size parted_id parted_index)) (take len body) in
      debug_assert (bool_decide (length (FrameSet.body frame) ≤ max_len)%nat);;
      split_loop n (parted_index + 1) parted_size parted_id per_len max_len r order_channel prio
        next orders (drop len body) (buf ++ [(prio, frame)])
  end.

(** [body.len().div_ceil(per_len)] *)
Definition div_ceil {E} (a b : Z) : outcome E Z :=
  if b =? 0 then Panic else mret ((a + b - 1) / b).

(** [start_send] always returns [Ok(())]; it may panic. *)
Definition Fragment_start_send {E} (msg : Message) (s : FragmentSink F) : outcome E (FragmentSink F) :=
  let r := msg_reliability msg in
  let order_channel := Z.to_nat (msg_order_channel msg) in
  debug_assert (bool_decide (order_channel < length (order_write_index s))%nat);;
  let data := msg_data msg in
  let len := Z.of_nat (length data) in
  m ← usub 64 (frag_mtu s) FRAME_SET_HEADER_SIZE;
  max_len ← usub 64 m (Reliability_size r);
  '(r, max_len) ←
    (if max_len <? len then
       let r := adjust_reliability r in
       m ← usub 64 (frag_mtu s) FRAME_SET_HEADER_SIZE;
       max_len ← usub 64 m (Reliability_size r);
       mret (r, max_len)
     else mret (r, max_len));
  if len <=? max_len then
    '(idx, ord, next) ← indices_for_frame r order_channel (reliable_write_index s) (order_write_index s);
    orders ← bump_order r order_channel (order_write_index s);
    let frame := mkFrame (Flags_new r false) idx None ord None data in
    mret (mkFragmentSink (frag_frame s) (frag_mtu s) next orders (parted_id_write s)
            (frag_buf s ++ [(msg_priority msg, frame)]))
  else
    per_len ← usub 64 max_len FRAGMENT_PART_SIZE;
    n ← div_ceil len per_len;
    let parted_size := wrap 32 n in
    let parted_id := parted_id_write s in
    let parted_id_write := wrap 16 (parted_id + 1) in
    '(next, rest, buf) ← split_loop (Z.to_nat parted_size) 0 parted_size parted_id
      (Z.to_nat per_len) (Z.to_nat max_len) r order_channel (msg_priority msg)
      (reliable_write_index s) (order_write_index s) data (frag_buf s);
    orders ← bump_order r order_channel (order_write_index s);
    debug_assert (bool_decide (length rest = 0%nat));;
    mret (mkFragmentSink (frag_frame s) (frag_mtu s) next orders parted_id_write buf).
End fragment.

Global Instance Fragment_sink {B : Build} F `{!Sink F (Priority * Frame)} : Sink (FragmentSink F) Message := {
  poll_ready := Fragment_poll_ready;
  start_send msg s := s ← Fragment_start_send msg s; mret (inr tt, s);
  poll_flush := Fragment_poll_flush;
  poll_close := Fragment_poll_close;
}.

(** ** What the splitter produces *)

Section fragment_spec.
Context {B : Build} {F : Type} `{!Sink F (Priority * Frame)}.

Definition is_Some_b {A} (o : option A) : bool := match o with Some _ => true | None => false end.

Definition opt_if {A} (b : bool) (a : A) : option A := if b then Some a else None.

(** The frame of a message: reliability, index, order and fragment header. *)
Definition frame_shape (r : Reliability) (parted : bool) (idx : Z) (o : Ordered) (g : option Fragment)
    (f : Frame) : Prop :=
  flags f = Flags_new r parted ∧ reliable_frame_index f = opt_if (is_reliable r) idx ∧
  seq_frame_index f = None ∧ ordered f = opt_if (is_sequenced_or_ordered r) o ∧ fragment f = g.

Lemma indices_for_frame_Ok {E} r c next orders i :
  orders !! c = Some i → 0 ≤ next < 2 ^ 24 - 1 → (c < 256)%nat →
  indices_for_frame (E:=E) r c next orders =
    Ok (opt_if (is_reliable r) next, opt_if (is_sequenced_or_ordered r) (mkOrdered i (Z.of_nat c)),
        if is_reliable r then next + 1 else next).
Proof.
  intros Hc Hn Hlt. unfold indices_for_frame. rewrite Hc.
  rewrite wrap_small by (unfold uint; lia).
  destruct (is_reliable r); cbn; [|done].
  rewrite u24_add_assign_eq, u24_add_Ok by lia. done.
Qed.

Lemma bump_order_Ok {E} r c orders i :
  orders !! c = Some i → 0 ≤ i < 2 ^ 24 - 1 →
  bump_order (E:=E) r c orders =
    Ok (if is_sequenced_or_ordered r then <[c := i + 1]> orders else orders).
Proof.
  intros Hc Hi. unfold bump_order. destruct (is_sequenced_or_ordered r); [|done].
  rewrite Hc, u24_add_assign_eq, u24_add_Ok by lia. done.
Qed.

Lemma split_loop_spec {E} n k size id per max r c prio next orders data buf i :
  (0 < per ≤ max)%nat → orders !! c = Some i → (c < 256)%nat →
  0 ≤ next → next + Z.of_nat n < 2 ^ 24 →
  (length data ≤ n * per)%nat → ((n - 1) * per < length data ∨ n = 0)%nat →
  ∃ fs, split_loop (E:=E) n k size id per max r c prio next orders data buf =
      Ok (if is_reliable r then next + Z.of_nat n else next, [], buf ++ (pair prio <$> fs)) ∧
    length fs = n ∧ (fs ≫= body) = data ∧
    ∀ j f, fs !! j = Some f →
      frame_shape r true (next + Z.of_nat j) (mkOrdered i (Z.of_nat c))
        (Some (mkFragment size id (k + Z.of_nat j))) f ∧ (0 < length (body f) ≤ per)%nat.
Proof.
  intros Hper Hi Hc. revert k next data buf.
  induction n as [|n IH]; intros k next data buf Hn0 Hn Hle Hlt.
  { assert (data = []) as -> by (apply nil_length_inv; lia). exists []. cbn.
    rewrite app_nil_r, Z.add_0_r. split_and!; try done. by destruct (is_reliable r). }
  cbn [split_loop]. rewrite (indices_for_frame_Ok _ _ _ _ i) by (done || lia). cbn [mbind outcome_bind].
  assert (0 < length data)%nat as Hpos by lia.
  set (len := Nat.min per (length data)).
  assert (debug_assert (E:=E) (bool_decide (length (take len data) ≤ max)%nat) = Ok tt) as Hda.
  { rewrite bool_decide_true; [by unfold debug_assert; destruct debug_assertions|].
    rewrite length_take. lia. }
  cbn [FrameSet.body]. rewrite Hda. cbn [mbind outcome_bind].
  set (f := mkFrame _ _ _ _ _ _).
  destruct (IH (k + 1) (if is_reliable r then next + 1 else next) (drop len data) (buf ++ [(prio, f)]))
    as (fs & Hr & Hlen & Hb & Hfs).
  - destruct (is_reliable r); lia.
  - destruct (is_reliable r); lia.
  - rewrite length_drop. cbn in Hle. lia.
  - rewrite length_drop. destruct n as [|n]; [by right|left]. destruct Hlt as [Hlt|]; [|done].
    cbn in Hlt |- *. rewrite Nat.sub_0_r. lia.
  - exists (f :: fs). split_and!.
    + rewrite Hr. f_equal. rewrite <-app_assoc. cbn [app fmap list_fmap]. f_equal. f_equal.
      destruct (is_reliable r); lia.
    + cbn. by rewrite Hlen.
    + cbn. by rewrite Hb, take_drop.
    + intros [|j] g Hg; cbn in Hg.
      * injection Hg as <-. rewrite !Z.add_0_r. split; [done|]. cbn. rewrite length_take. lia.
      * apply Hfs in Hg as [(H1 & H2 & H3 & H4 & H5) H6]. split; [|done].
        split_and!; try done.
        -- rewrite H2. destruct (is_reliable r); cbn; [|done]. f_equal. lia.
        -- rewrite H5. do 2 f_equal. lia.
Qed.

(** What a connection guarantees when it sends a message: a usable MTU, an
    existing channel, and numbers that have not run out. *)
Record encodable (msg : Message) (s : FragmentSink F) : Prop := {
  en_mtu : 27 < frag_mtu s < 2 ^ 13;
  en_channel : 0 ≤ msg_order_channel msg < 256;
  en_order : ∃ i, order_write_index s !! Z.to_nat (msg_order_channel msg) = Some i ∧ 0 ≤ i < 2 ^ 24 - 1;
  en_index : 0 ≤ reliable_write_index s;
  en_size : reliable_write_index s + Z.of_nat (length (msg_data msg)) + 1 < 2 ^ 24;
}.

(** The reliability the frames of a message get, and whether it is split. *)
Definition must_split (msg : Message) (s : FragmentSink F) : bool :=
  frag_mtu s - FRAME_SET_HEADER_SIZE - Reliability_size (msg_reliability msg) <?
  Z.of_nat (length (msg_data msg)).

Definition sent_reliability (msg : Message) (s : FragmentSink F) : Reliability :=
  if must_split msg s then adjust_reliability (msg_reliability msg) else msg_reliability msg.

Lemma adjust_size r : Reliability_size r ≤ Reliability_size (adjust_reliability r) ≤ 13.
Proof. destruct r; cbn; lia. Qed.

Lemma debug_assert_true {E} (b : bool) : b = true → debug_assert (E:=E) b = Ok tt.
Proof. intros ->. unfold debug_assert. by destruct debug_assertions. Qed.

Lemma div_ceil_spec (a b : Z) : 0 < b → 0 < a →
  let n := (a + b - 1) / b in (n - 1) * b < a ≤ n * b ∧ 0 < n ≤ a.
Proof. intros Hb Ha. cbn. Z.to_euclidean_division_equations. nia. Qed.

Lemma Frame_size_shape r p idx o g f :
  frame_shape r p idx o g f →
  Frame_size f = Reliability_size r + (if g is Some _ then FRAGMENT_PART_SIZE else 0) + Z.of_nat (length (body f)).
Proof.
  intros (Hf & _ & _ & _ & Hg). unfold Frame_size. rewrite Hf, Hg. cbn. destruct g; lia.
Qed.

Lemma Fragment_start_send_spec {E} msg s :
  encodable msg s →
  ∃ fs i, order_write_index s !! Z.to_nat (msg_order_channel msg) = Some i ∧
    let r := sent_reliability msg s in
    let n := Z.of_nat (length fs) in
    Fragment_start_send (E:=E) msg s =
      Ok (mkFragmentSink (frag_frame s) (frag_mtu s)
        (if is_reliable r then reliable_write_index s + n else reliable_write_index s)
        (if is_sequenced_or_ordered r then <[Z.to_nat (msg_order_channel msg) := i + 1]> (order_write_index s)
         else order_write_index s)
        (if must_split msg s then wrap 16 (parted_id_write s + 1) else parted_id_write s)
        (frag_buf s ++ (pair (msg_priority msg) <$> fs))) ∧
    (fs ≫= body) = msg_data msg ∧ 0 < n ≤ Z.of_nat (length (msg_data msg)) + 1 ∧
    (if must_split msg s then 1 < n else n = 1) ∧
    ∀ j f, fs !! j = Some f →
      frame_shape r (must_split msg s) (reliable_write_index s + Z.of_nat j)
        (mkOrdered i (msg_order_channel msg))
        (if must_split msg s then Some (mkFragment n (parted_id_write s) (Z.of_nat j)) else None) f ∧
      (must_split msg s = true → body f ≠ []) ∧ Frame_size f ≤ frag_mtu s - FRAME_SET_HEADER_SIZE.
Proof.
  intros [Hm Hch (i & Hi & Hib) Hn0 Hsz].
  pose proof (Reliability_size_bounds (msg_reliability msg)) as Hrs.
  pose proof (adjust_size (msg_reliability msg)) as Has.
  assert (mkOrdered i (msg_order_channel msg) = mkOrdered i (Z.of_nat (Z.to_nat (msg_order_channel msg))))
    as Ho by (f_equal; lia).
  unfold Fragment_start_send, must_split, sent_reliability, must_split, FRAME_SET_HEADER_SIZE.
  rewrite debug_assert_true by (apply bool_decide_true; by apply lookup_lt_Some in Hi).
  cbn [mbind outcome_bind]. rewrite !usub_Ok by lia. cbn [mbind outcome_bind].
  rewrite !usub_Ok by lia. cbn [mbind outcome_bind].
  destruct (Z.ltb_spec (frag_mtu s - 4 - Reliability_size (msg_reliability msg))
    (Z.of_nat (length (msg_data msg)))) as [Hbig|Hsmall].
  - rewrite ?usub_Ok by lia. cbn [mbind outcome_bind]. rewrite ?usub_Ok by lia.
    cbn [mbind outcome_bind mret outcome_ret].
    rewrite (proj2 (Z.leb_gt _ _)) by lia. unfold FRAGMENT_PART_SIZE.
    rewrite !usub_Ok by lia. cbn [mbind outcome_bind].
    set (r := adjust_reliability (msg_reliability msg)) in *.
    set (max := frag_mtu s - 4 - Reliability_size r) in *. set (len := Z.of_nat (length (msg_data msg))) in *.
    unfold div_ceil. rewrite (proj2 (Z.eqb_neq _ _)) by lia. cbn [mbind outcome_bind].
    destruct (div_ceil_spec len (max - 10)) as [Hd1 Hd2]; [lia|lia|].
    set (n := (len + (max - 10) - 1) / (max - 10)) in *.
    assert (1 < n) as Hn1 by nia.
    cbn [mret outcome_ret mbind outcome_bind]. rewrite (wrap_small 32 n) by (unfold uint; lia).
    destruct (split_loop_spec (E:=E) (Z.to_nat n) 0 n (parted_id_write s) (Z.to_nat (max - 10)) (Z.to_nat max)
      r (Z.to_nat (msg_order_channel msg)) (msg_priority msg) (reliable_write_index s) (order_write_index s)
      (msg_data msg) (frag_buf s) i) as (fs & Hsp & Hlen & Hbody & Hfs); [lia|done|lia|lia|lia|nia|left; nia|].
    exists fs, i. split; [done|]. cbn zeta. rewrite Hsp. cbn [mbind outcome_bind].
    rewrite (bump_order_Ok _ _ _ i) by done. cbn [mbind outcome_bind].
    rewrite debug_assert_true by done. cbn [mbind outcome_bind].
    replace (Z.of_nat (length fs)) with n by lia.
    rewrite Z2Nat.id by lia. split_and!; [done|done|lia|lia|lia|].
    intros j f Hf. apply Hfs in Hf as [Hsh Hl]. rewrite <-Ho in Hsh.
    rewrite (Frame_size_shape _ _ _ _ _ _ Hsh). unfold FRAGMENT_PART_SIZE.
    split_and!; [done| |lia]. intros _ Hnil. rewrite Hnil in Hl. cbn in Hl. lia.
  - cbn [mret outcome_ret mbind outcome_bind]. rewrite (proj2 (Z.leb_le _ _)) by lia.
    rewrite (indices_for_frame_Ok _ _ _ _ i) by (done || lia). cbn [mbind outcome_bind].
    rewrite (bump_order_Ok _ _ _ i) by done. cbn [mbind outcome_bind].
    eexists [_], i. split; [done|]. cbn zeta. split; [done|]. cbn [mbind list_bind body length app].
    rewrite app_nil_r. split_and!; [done|lia|lia|done|].
    intros [|j] f Hf; [|done]. cbn in Hf. injection Hf as <-. rewrite Z.add_0_r, <-Ho.
    split_and!; [done|done|]. unfold Frame_size. cbn. lia.
Qed.

(** A split message is a complete list of fragments in order. *)
Lemma start_send_fragments {E} msg s s' :
  encodable msg s → must_split msg s = true → Fragment_start_send (E:=E) msg s = Ok s' →
  ∃ fs f, frag_buf s' = frag_buf s ++ (pair (msg_priority msg) <$> fs) ∧
    fragments_of (parted_id_write s) fs ∧ fs !! 0%nat = Some f ∧ (fs ≫= body) = msg_data msg ∧
    is_sequenced_or_ordered (sent_reliability msg s) = is_Some_b (ordered f).
Proof.
  intros Hen Hms Hs. destruct (Fragment_start_send_spec (E:=E) msg s Hen)
    as (fs & i & _ & Heq & Hb & Hn & _ & Hfs). rewrite Heq in Hs. injection Hs as <-.
  rewrite Hms in Hfs. destruct fs as [|f fs]; [cbn in Hn; lia|].
  exists (f :: fs), f. split_and!; try done.
  - intros j g Hg. by apply Hfs in Hg as [(_ & _ & _ & _ & ?) _].
  - destruct (Hfs 0%nat f eq_refl) as [(_ & _ & _ & -> & _) _].
    by destruct (is_sequenced_or_ordered _).
Qed.

Lemma reliable_indices_from fs k :
  (∀ j f, fs !! j = Some f → reliable_frame_index f = Some (k + Z.of_nat j)) →
  reliable_indices fs = u24_range k (k + Z.of_nat (length fs)).
Proof.
  revert k. induction fs as [|f fs IH]; intros k Hk; cbn; [by rewrite Z.add_0_r, u24_range_nil|].
  rewrite (Hk 0%nat f eq_refl), Z.add_0_r. cbn. rewrite (u24_range_cons k) by lia. f_equal.
  replace (k + Z.of_nat (S (length fs))) with (k + 1 + Z.of_nat (length fs)) by lia.
  apply IH. intros j g Hg. rewrite (Hk (S j) g Hg). f_equal. lia.
Qed.

(** Frames of a message that is neither sequenced nor empty are well formed. *)
Lemma start_send_frames_ok r p idx o g f mtu :
  frame_shape r p idx o g f → is_sequenced r = false → u24_valid idx → Ordered_ok o →
  (if p : bool then ∃ x, g = Some x ∧ Fragment_ok x else g = None) →
  bytes_ok (body f) → body f ≠ [] → Frame_size f ≤ mtu - FRAME_SET_HEADER_SIZE → mtu < 2 ^ 13 →
  Frame_ok f ∧ Frame_fits f.
Proof.
  intros Hsh Hseq Hidx Ho Hg Hb Hne Hsize Hmtu. rewrite (Frame_size_shape _ _ _ _ _ _ Hsh) in Hsize.
  pose proof (Reliability_size_bounds r). unfold FRAME_SET_HEADER_SIZE, FRAGMENT_PART_SIZE in *.
  destruct Hsh as (Hf & Hi & Hs & Hor & Hgf).
  assert (0 < Z.of_nat (length (body f)) < 8191) as Hl.
  { split; [destruct (body f); [done|cbn; lia]|]. destruct g; lia. }
  split; [|unfold Frame_fits; lia].
  unfold Frame_ok. rewrite Hf, Hi, Hs, Hor, Hgf. cbn [reliability parted Flags_new]. split_and!.
  - apply Flags_new_ok.
  - destruct (is_reliable r); cbn; auto.
  - done.
  - destruct (is_sequenced_or_ordered r); cbn; auto.
  - destruct p; [destruct Hg as (x & -> & Hx); cbn; auto|by rewrite Hg].
  - done.
  - lia.
  - lia.
Qed.

(** Splitting a message loses nothing and respects the MTU: the frames put
    into the buffer carry the data of the message in order, every one of them fits
    into a datagram of the MTU with the frame set header, they have consecutive
    reliable indices, and an ordered message takes one order index. *)
Theorem Fragment_start_send_splits {E} msg s :
  encodable msg s →
  ∃ fs s', Fragment_start_send (E:=E) msg s = Ok s' ∧
    frag_buf s' = frag_buf s ++ (pair (msg_priority msg) <$> fs) ∧ fs ≠ [] ∧
    (fs ≫= body) = msg_data msg ∧
    Forall (λ f, FRAME_SET_HEADER_SIZE + Frame_size f ≤ frag_mtu s) fs ∧
    (is_reliable (sent_reliability msg s) = true →
      reliable_indices fs = u24_range (reliable_write_index s) (reliable_write_index s') ∧
      reliable_write_index s' = reliable_write_index s + Z.of_nat (length fs)) ∧
    (is_sequenced_or_ordered (sent_reliability msg s) = true →
      ∃ i, order_write_index s !! Z.to_nat (msg_order_channel msg) = Some i ∧
        Forall (λ f, ordered f = Some (mkOrdered i (msg_order_channel msg))) fs ∧
        order_write_index s' !! Z.to_nat (msg_order_channel msg) = Some (i + 1)).
Proof.
  intros Hen. destruct (Fragment_start_send_spec (E:=E) msg s Hen)
    as (fs & i & Hi & Heq & Hb & Hn & _ & Hfs). eexists fs, _. split; [exact Heq|].
  cbn [frag_buf reliable_write_index order_write_index].
  split_and!; [done|intros ->; cbn in Hn; lia|done| | |].
  - apply Forall_lookup. intros j f Hf. apply Hfs in Hf as (_ & _ & ?). lia.
  - intros Hr. rewrite Hr in *. split; [|done].
    apply reliable_indices_from. intros j f Hf. apply Hfs in Hf as ((_ & -> & _) & _). by rewrite Hr.
  - intros Ho. exists i. rewrite Ho in *. split_and!; [done| |].
    + apply Forall_lookup. intros j f Hf. apply Hfs in Hf as ((_ & _ & _ & -> & _) & _). by rewrite Ho.
    + rewrite list_lookup_insert_eq; [done|]. by apply lookup_lt_Some in Hi.
Qed.

(** Sending and reassembling are inverse: the fragments of a message too
    large for one frame, whatever order the network delivers them in and whatever
    other fragments it delivers between them, are put together by the receiver to
    a frame with exactly the data that was sent. *)
Theorem fragment_then_defragment {BH : BinaryHeap} {LC : LruCrate} {E} msg s s' cap limit n (up : tape FrameSet_) :
  encodable msg s → must_split msg s = true → Fragment_start_send (E:=E) msg s = Ok s' →
  (0 < cap)%nat → Forall (frame_valid limit) (tape_pairs up).*2 →
  (length (remove_dups ((tape_pairs up).*2 ≫= frame_ids)) ≤ cap)%nat →
  ∃ fs out st used up', frag_buf s' = frag_buf s ++ (pair (msg_priority msg) <$> fs) ∧
    polls DeFragment_poll_next n (mkDeFragment limit (lru_new cap) []) up = Ok (out, st, up') ∧
    up = used ++ up' ∧
    (filter (is_part (parted_id_write s)) (tape_pairs used).*2 ≡ₚ fs →
     ∃ b1 seq m b2, items out ++ buffer st = b1 ++ mkFrameOne seq m :: b2 ∧
       body m = msg_data msg ∧ fragment m = None ∧ parted (flags m) = false).
Proof.
  intros Hen Hms Hs Hcap Hv Hids.
  destruct (start_send_fragments (E:=E) msg s s' Hen Hms Hs) as (fs & f & Hbuf & Hfo & Hf0 & Hb & _).
  destruct (DeFragment_reassembles_used cap limit n (parted_id_write s) fs up Hcap Hv Hids Hfo)
    as (out & st & used & up' & Hp & Hu & _ & Hres); [by destruct fs|].
  exists fs, out, st, used, up'. split_and!; [done..|]. intros Hperm.
  destruct (Hres Hperm) as (b1 & seq & m & b2 & Hm & Hout). exists b1, seq, m, b2. split; [done|].
  destruct fs as [|g fs]; [done|]. cbn in Hf0. injection Hf0 as ->. unfold merged in Hm. rewrite Hb in Hm.
  injection Hm as <-. destruct (Fragment_start_send_spec (E:=E) msg s Hen) as (fs2 & i & _ & Heq & _ & _ & _ & Hfs).
  rewrite Heq in Hs. injection Hs as <-. cbn [frag_buf] in Hbuf. apply app_inv_head in Hbuf.
  assert (f :: fs = fs2) as <-.
  { apply (f_equal (fmap snd)) in Hbuf. rewrite <-!list_fmap_compose in Hbuf. by rewrite !list_fmap_id in Hbuf. }
  destruct (Hfs 0%nat f eq_refl) as [(Hfl & _) _].
  unfold Frame_reassembled. cbn [flags with_body]. rewrite Hfl, Hms. done.
Qed.

(** Sequenced messages are not decoded as they were sent: the splitter gives
    them no sequencing index, which the reader expects, so that no datagram that
    carries such a frame reads back as it was written. *)
Theorem sequenced_frame_misread {BC : BytesCrate} {E} msg s s' n bs :
  encodable msg s → is_sequenced (msg_reliability msg) = true →
  Fragment_start_send (E:=E) msg s = Ok s' → frag_buf s = [] →
  Packet_write (E:=CodecError) (PConnected (CFrameSet (mkFrameSet n (snd <$> frag_buf s')))) [] = Ok bs →
  bytes_ok bs →
  Packet_read bs ≠ Ok (PConnected (CFrameSet (mkFrameSet n (snd <$> frag_buf s'))), []).
Proof.
  intros Hen Hsq Hs Hbuf0 Hw Hbs Hr.
  destruct (Fragment_start_send_spec (E:=E) msg s Hen) as (fs & i & _ & Heq & _ & Hn & _ & Hfs).
  rewrite Heq in Hs. injection Hs as <-. cbn [frag_buf] in *. rewrite Hbuf0 in *. cbn [app] in *.
  rewrite <-list_fmap_compose in *.
  assert (fs = snd ∘ pair (msg_priority msg) <$> fs) as Hid by (by rewrite list_fmap_id).
  rewrite <-Hid in *. destruct fs as [|f fs]; [cbn in Hn; lia|].
  destruct (Hfs 0%nat f eq_refl) as [(Hfl & _ & Hsf & _) _].
  assert (is_sequenced (reliability (flags f)) = true) as Hs2.
  { rewrite Hfl. cbn. unfold sent_reliability. destruct (must_split msg s); [|done].
    by destruct (msg_reliability msg). }
  destruct bs as [|b l]; [done|].
  apply Forall_cons in Hbs as [Hb Hl]. rewrite Packet_read_cons in Hr by done.
  destruct (PackType_from_u8 b) as [t| |]; [|done..].
  unfold read_frame_set, read_ack, read_nack, mbind, reader_bind in Hr.
  destruct (is_frame_set t).
  - pose proof (FrameSet_read_spec l Hl) as Hspec.
    destruct (FrameSet_read l) as [[fset l']| |]; [|done..]. cbn in Hr. injection Hr as -> _.
    destruct Hspec as (_ & _ & _ & Hok). cbn [set] in Hok. apply Forall_cons in Hok as [Hok _].
    destruct Hok as (_ & _ & Hfield & _). rewrite Hsf in Hfield. cbn in Hfield. congruence.
  - destruct (is_ack t); [destruct (AckOrNack_read l) as [[]| |]; cbn in Hr; done|].
    destruct (is_nack t); [destruct (AckOrNack_read l) as [[]| |]; cbn in Hr; done|].
    destruct (read_unconnected t l) as [[]| |]; cbn in Hr; done.
Qed.

(** A frame is lost under backpressure: when the sink below is not ready,
    flushing the buffer has already taken the first frame out of it, and returns
    without having sent it. *)
Theorem poll_empty_loses_frame s f buf frame' :
  frag_buf s = f :: buf →
  poll_ready (A:=Priority * Frame) (frag_frame s) = Ok (Pending, frame') →
  Fragment_poll_flush s = Ok (Pending, set_frag frame' buf s).
Proof.
  intros Hb Hp. unfold Fragment_poll_flush, Fragment_poll_then, Fragment_poll_empty. rewrite Hb.
  cbn [poll_empty_loop]. unfold and_then. rewrite Hp. done.
Qed.
End fragment_spec.

(** An encoder above a recording sink. *)
Definition sample_sink (mtu : Z) : FragmentSink (LogSink (Priority * Frame)) :=
  fragmented (mkLogSink [] [] 0 0) mtu 2.

Definition sample_message : Message := Message_new (seqZ 1 30).

Lemma sample_encodable : encodable sample_message (sample_sink 40).
Proof. split; [cbn; lia|cbn; lia|exists 0; split; [done|lia]|cbn; lia|by vm_compute]. Defined.

Lemma Fragment_start_send_splits_witness :
  ∃ fs s', Fragment_start_send (B:=true) (E:=io_error) sample_message (sample_sink 40) = Ok s' ∧
    frag_buf s' = frag_buf (sample_sink 40) ++ (pair (msg_priority sample_message) <$> fs) ∧ fs ≠ [] ∧
    (fs ≫= body) = msg_data sample_message ∧
    Forall (λ f, FRAME_SET_HEADER_SIZE + Frame_size f ≤ frag_mtu (sample_sink 40)) fs ∧
    (is_reliable (sent_reliability sample_message (sample_sink 40)) = true →
      reliable_indices fs = u24_range (reliable_write_index (sample_sink 40)) (reliable_write_index s') ∧
      reliable_write_index s' = reliable_write_index (sample_sink 40) + Z.of_nat (length fs)) ∧
    (is_sequenced_or_ordered (sent_reliability sample_message (sample_sink 40)) = true →
      ∃ i, order_write_index (sample_sink 40) !! Z.to_nat (msg_order_channel sample_message) = Some i ∧
        Forall (λ f, ordered f = Some (mkOrdered i (msg_order_channel sample_message))) fs ∧
        order_write_index s' !! Z.to_nat (msg_order_channel sample_message) = Some (i + 1)).
Proof.
  apply (Fragment_start_send_splits (B:=true) (E:=io_error) sample_message (sample_sink 40)).
  apply sample_encodable.
Defined.

Definition sample_sent : FragmentSink (LogSink (Priority * Frame)) :=
  match Fragment_start_send (B:=true) (E:=io_error) sample_message (sample_sink 40) with
  | Ok s => s
  | _ => sample_sink 40
  end.

(** The fragments of the sample message, arriving last first. *)
Definition sample_reversed : tape FrameSet_ :=
  [Ready (Some (inr (mkFrameSet 0 (reverse (snd <$> frag_buf sample_sent)))))].

Lemma fragment_then_defragment_witness :
  ∃ fs out st used up',
    frag_buf sample_sent = frag_buf (sample_sink 40) ++ (pair (msg_priority sample_message) <$> fs) ∧
    polls (DeFragment_poll_next (BH:=heap_sorted) (LC:=lru_reference)) 1
      (mkDeFragment (LC:=lru_reference) 16 (lru_new (LruCrate:=lru_reference) 1) []) sample_reversed =
      Ok (out, st, up') ∧
    sample_reversed = used ++ up' ∧
    (filter (is_part (parted_id_write (sample_sink 40))) (tape_pairs used).*2 ≡ₚ fs →
     ∃ b1 seq m b2, items out ++ buffer (LC:=lru_reference) st = b1 ++ mkFrameOne seq m :: b2 ∧
       body m = msg_data sample_message ∧ fragment m = None ∧ parted (flags m) = false).
Proof.
  apply (fragment_then_defragment (B:=true) (BH:=heap_sorted) (LC:=lru_reference) (E:=io_error)
    sample_message (sample_sink 40) sample_sent 1 16 1 sample_reversed).
  - apply sample_encodable.
  - reflexivity.
  - reflexivity.
  - lia.
  - vm_compute. repeat (apply Forall_cons; split; [split; [done|right; done]|]). constructor.
  - vm_compute. lia.
Defined.

Definition sample_sequenced : Message := Message_reliability ReliableSequenced (Message_new [254; 1; 2]).

Lemma sequenced_frame_misread_witness :
  ∃ s' bs, Fragment_start_send (B:=true) (E:=io_error) sample_sequenced (sample_sink 40) = Ok s' ∧
    Packet_write (B:=true) (BC:=bytes_reference) (E:=CodecError)
      (PConnected (CFrameSet (mkFrameSet 0 (snd <$> frag_buf s')))) [] = Ok bs ∧
    Packet_read (B:=true) (BC:=bytes_reference) bs ≠
      Ok (PConnected (CFrameSet (mkFrameSet 0 (snd <$> frag_buf s'))), []).
Proof.
  eexists _, _. split; [reflexivity|]. split; [reflexivity|].
  eapply (sequenced_frame_misread (B:=true) (BC:=bytes_reference) (E:=io_error)
    sample_sequenced (sample_sink 40)); try reflexivity.
  - split; [cbn; lia|cbn; lia|exists 0; split; [done|lia]|cbn; lia|by vm_compute].
  - repeat constructor; vm_compute; done.
Defined.

Lemma poll_empty_loses_frame_witness :
  ∃ s, Fragment_poll_flush (mkFragmentSink (mkLogSink [Pending] [] 0 0) 40 0 [0] 0
      [(Medium, reliable_frame 0); (Medium, reliable_frame 1)]) = Ok (Pending, s) ∧
    frag_buf s = [(Medium, reliable_frame 1)] ∧ log_sent (frag_frame s) = [].
Proof.
  eexists. split.
  - apply (poll_empty_loses_frame (F:=LogSink (Priority * Frame))
      (mkFragmentSink (mkLogSink [Pending] [] 0 0) 40 0 [0] 0
        [(Medium, reliable_frame 0); (Medium, reliable_frame 1)])
      (Medium, reliable_frame 0) [(Medium, reliable_frame 1)] (mkLogSink [] [] 0 0)); reflexivity.
  - done.
Defined.
