(* ===== verification/Estimator.v ===== *)
(** * Round trip time estimation (src/estimator.rs)

    Durations are nanoseconds.  [Duration]'s arithmetic panics beyond 2^64
    seconds, which the model does not represent. *)
From S2P Require Import Prelude.
Open Scope Z_scope.

(** The trait [Estimator]. *)
Class Estimator (T : Type) := {
  est_rto : T → Z;
  est_rtt : T → Z;
  est_update : Z → T → T;
  est_clear : T → T;
}.

Record RFC6298Impl := mkRFC6298 {
  latest : Z;
  smoothed : option Z;
  var : Z;
}.

Definition INITIAL_RTT : Z := 500000000.       (* 500 ms *)
Definition TIMER_GRANULARITY : Z := 1000000.   (* 1 ms *)

Definition RFC6298_new : RFC6298Impl := mkRFC6298 INITIAL_RTT None 0.

Definition RFC6298_rtt (e : RFC6298Impl) : Z := default (latest e) (smoothed e).

Definition RFC6298_rto (e : RFC6298Impl) : Z :=
  RFC6298_rtt e + Z.max TIMER_GRANULARITY (4 * var e).

Definition RFC6298_clear (e : RFC6298Impl) : RFC6298Impl := mkRFC6298 (latest e) None (var e).

(** The divisions are those of [Duration] by an integer: they round down. *)
Definition RFC6298_update (rtt : Z) (e : RFC6298Impl) : RFC6298Impl :=
  match smoothed e with
  | Some s =>
      let var_sample := if rtt <? s then s - rtt else rtt - s in
      mkRFC6298 rtt (Some ((7 * s + rtt) / 8)) ((3 * var e + var_sample) / 4)
  | None => mkRFC6298 rtt (Some rtt) (rtt / 2)
  end.

Global Instance RFC6298_estimator : Estimator RFC6298Impl := {
  est_rto := RFC6298_rto;
  est_rtt := RFC6298_rtt;
  est_update := RFC6298_update;
  est_clear := RFC6298_clear;
}.

(** What the resend map relies on: on measured (non-negative) round trips, the
    timeout of an estimator is positive. *)
Class EstimatorLaws (T : Type) `{!Estimator T} := {
  est_ok : T → Prop;
  est_ok_rto e : est_ok e → 0 < est_rto e;
  est_ok_update rtt e : 0 ≤ rtt → est_ok e → est_ok (est_update rtt e);
  est_ok_clear e : est_ok e → est_ok (est_clear e);
}.

Global Program Instance RFC6298_laws : EstimatorLaws RFC6298Impl := {
  est_ok e := 0 ≤ latest e ∧ (∀ s, smoothed e = Some s → 0 ≤ s) ∧ 0 ≤ var e;
}.
Next Obligation.
  intros e (H1 & H2 & H3). cbn. unfold RFC6298_rto, RFC6298_rtt, TIMER_GRANULARITY.
  destruct (smoothed e) as [s|]; cbn; [specialize (H2 s eq_refl)|]; lia.
Qed.
Next Obligation.
  intros rtt e Hr (H1 & H2 & H3). cbn. unfold RFC6298_update. destruct (smoothed e) as [s|]; cbn.
  - specialize (H2 s eq_refl). split_and!; [done|intros s' [= <-]; zlia|]. destruct (Z.ltb_spec rtt s); zlia.
  - split_and!; [done|by intros s' [= <-]|zlia].
Qed.
Next Obligation. intros e (H1 & H2 & H3). cbn. by split_and!. Qed.

(** The history of an estimator: samples and clears. *)
Inductive est_op :=
| OpUpdate (rtt : Z)
| OpEstClear.

Definition est_step (e : RFC6298Impl) (o : est_op) : RFC6298Impl :=
  match o with
  | OpUpdate rtt => RFC6298_update rtt e
  | OpEstClear => RFC6298_clear e
  end.

(** The estimate lies between the smallest and the largest sample; the variance
    is bounded by the largest sample. *)
Definition est_between (lo hi : Z) (e : RFC6298Impl) : Prop :=
  lo ≤ latest e ≤ hi ∧ (∀ s, smoothed e = Some s → lo ≤ s ≤ hi) ∧ 0 ≤ var e ≤ hi.

Lemma est_step_between lo hi e o :
  0 ≤ lo → (∀ rtt, o = OpUpdate rtt → lo ≤ rtt ≤ hi) →
  est_between lo hi e → est_between lo hi (est_step e o).
Proof.
  intros Hlo Ho (H1 & H2 & H3). destruct o as [rtt|]; cbn.
  - specialize (Ho rtt eq_refl). unfold RFC6298_update. destruct (smoothed e) as [s|] eqn:Hs.
    + specialize (H2 s eq_refl). split_and!; cbn; [lia|lia| | |].
      * intros s' [= <-]. zlia.
      * destruct (rtt <? s) eqn:Hlt; [apply Z.ltb_lt in Hlt|apply Z.ltb_ge in Hlt]; zlia.
      * destruct (rtt <? s) eqn:Hlt; [apply Z.ltb_lt in Hlt|apply Z.ltb_ge in Hlt]; zlia.
    + split_and!; cbn; [lia|lia| |zlia|zlia]. by intros s' [= <-].
  - split_and!; cbn; try lia. done.
Qed.

Lemma est_run_between lo hi ops e :
  0 ≤ lo → Forall (λ o, ∀ rtt, o = OpUpdate rtt → lo ≤ rtt ≤ hi) ops →
  est_between lo hi e → est_between lo hi (foldl est_step e ops).
Proof.
  intros Hlo Hops. revert e. induction Hops as [|o ops Ho Hops IH]; intros e He; cbn; [done|].
  apply IH. by apply est_step_between.
Qed.

(** The retransmission timeout is bounded by what was measured: after any
    history of samples between [lo] and [hi] (the initial 500 ms included), the
    estimate is between them and the timeout is at least a timer tick above the
    estimate and at most five times the largest sample (or a tick above it). *)
Theorem RFC6298_rto_bounds lo hi ops :
  0 ≤ lo ≤ INITIAL_RTT → INITIAL_RTT ≤ hi →
  Forall (λ o, ∀ rtt, o = OpUpdate rtt → lo ≤ rtt ≤ hi) ops →
  let e := foldl est_step RFC6298_new ops in
  lo ≤ RFC6298_rtt e ≤ hi ∧
  RFC6298_rtt e + TIMER_GRANULARITY ≤ RFC6298_rto e ≤ hi + Z.max TIMER_GRANULARITY (4 * hi).
Proof.
  intros Hlo Hhi Hops e. assert (est_between lo hi e) as (H1 & H2 & H3).
  { apply est_run_between; [lia|done|]. unfold est_between, RFC6298_new, INITIAL_RTT in *. cbn.
    split_and!; [lia|lia|done|lia|lia]. }
  assert (lo ≤ RFC6298_rtt e ≤ hi) as Hr.
  { unfold RFC6298_rtt. destruct (smoothed e) as [s|]; cbn; [by apply H2|done]. }
  split; [done|]. unfold RFC6298_rto. lia.
Qed.

(** [n] equal samples. *)
Fixpoint est_repeat (n : nat) (r : Z) (e : RFC6298Impl) : RFC6298Impl :=
  match n with
  | O => e
  | S n => est_repeat n r (RFC6298_update r e)
  end.

Lemma est_repeat_converges n r e :
  0 ≤ r → smoothed e = Some r → 0 ≤ var e →
  smoothed (est_repeat n r e) = Some r ∧ 0 ≤ var (est_repeat n r e) ∧
  4 ^ Z.of_nat n * var (est_repeat n r e) ≤ 3 ^ Z.of_nat n * var e.
Proof.
  intros Hr. revert e. induction n as [|n IH]; intros e Hs Hv; [cbn; split_and!; [done|done|lia]|].
  cbn [est_repeat].
  assert (smoothed (RFC6298_update r e) = Some r ∧ 0 ≤ var (RFC6298_update r e) ∧
    4 * var (RFC6298_update r e) ≤ 3 * var e) as (H1 & H2 & H3).
  { unfold RFC6298_update. rewrite Hs, Z.ltb_irrefl. cbn. split_and!; [|zlia|zlia].
    f_equal. replace (7 * r + r) with (r * 8) by lia. by rewrite Z.div_mul by lia. }
  destruct (IH _ H1 H2) as (H4 & H5 & H6). split_and!; [done|done|].
  rewrite Nat2Z.inj_succ, !Z.pow_succ_r by lia. nia.
Qed.

(** On a stable link the estimate converges: once a sample initialised the
    estimator, further samples of the same value keep the estimate exact and
    shrink the variance by a quarter each. *)
Theorem RFC6298_converges n r e :
  0 ≤ r → smoothed e = None →
  let e' := est_repeat n r (RFC6298_update r e) in
  RFC6298_rtt e' = r ∧ 0 ≤ var e' ∧ 4 ^ Z.of_nat n * (2 * var e') ≤ 3 ^ Z.of_nat n * r.
Proof.
  intros Hr Hs e'. destruct (est_repeat_converges n r (RFC6298_update r e) Hr) as (H1 & H2 & H3).
  - unfold RFC6298_update. by rewrite Hs.
  - unfold RFC6298_update. rewrite Hs. cbn. zlia.
  - unfold e', RFC6298_rtt. rewrite H1. split_and!; [done|done|].
    unfold RFC6298_update in H3 at 2. rewrite Hs in H3. cbn [var] in H3.
    assert (0 < 3 ^ Z.of_nat n) by (apply Z.pow_pos_nonneg; lia).
    assert (2 * (r / 2) ≤ r) by zlia. nia.
Qed.

Lemma RFC6298_rto_bounds_witness :
  let e := foldl est_step RFC6298_new [OpUpdate 300000000; OpEstClear; OpUpdate 700000000; OpUpdate 400000000] in
  300000000 ≤ RFC6298_rtt e ≤ 700000000 ∧
  RFC6298_rtt e + TIMER_GRANULARITY ≤ RFC6298_rto e ≤ 700000000 + Z.max TIMER_GRANULARITY (4 * 700000000).
Proof.
  apply (RFC6298_rto_bounds 300000000 700000000); [unfold INITIAL_RTT; lia|unfold INITIAL_RTT; lia|].
  repeat (constructor; [intros rtt H; (discriminate H || (injection H as <-; lia))|]). constructor.
Defined.

Lemma RFC6298_converges_witness :
  let e' := est_repeat 10 40000000 (RFC6298_update 40000000 RFC6298_new) in
  RFC6298_rtt e' = 40000000 ∧ 0 ≤ var e' ∧ 4 ^ Z.of_nat 10 * (2 * var e') ≤ 3 ^ Z.of_nat 10 * 40000000.
Proof. apply (RFC6298_converges 10 40000000 RFC6298_new); [lia|done]. Defined.
