(* ===== verification/SendBuffer.v ===== *)
(** * The send buffer (src/reliable.rs, [SendBuffer])

    Frames wait in tiers: frames to send again, then high, medium and low
    priority.  [pop] fills one frame set from the tiers in order. *)
From S2P Require Import Prelude Errors SeqNum Types PackType FrameSet Collections.
Open Scope Z_scope.

(** [PenaltyFrame]: the smaller the penalty, the earlier the frame. *)
Record PenaltyFrame := mkPenaltyFrame {
  penalty : Z;
  pf_frame : Frame;
}.

Definition pf_key (p : PenaltyFrame) : Z := - penalty p.

Record SendBuffer := mkSendBuffer {
  send_high : list PenaltyFrame;
  send_medium : list Frame;
  send_low : list PenaltyFrame;
  sb_resend : list PenaltyFrame;
}.

Definition SendBuffer_new : SendBuffer := mkSendBuffer [] [] [] [].

Definition SendBuffer_len (b : SendBuffer) : nat :=
  length (send_high b) + length (send_medium b) + length (send_low b) + length (sb_resend b).

Definition SendBuffer_is_empty (b : SendBuffer) : bool := bool_decide (SendBuffer_len b = 0%nat).

Section send_buffer.
Context {B : Build} {BH : BinaryHeap}.

Definition SendBuffer_send (item : Priority * Frame) (b : SendBuffer) : SendBuffer :=
  let '(prio, frame) := item in
  match prio with
  | High p =>
      mkSendBuffer (heap_push pf_key (mkPenaltyFrame p frame) (send_high b)) (send_medium b) (send_low b) (sb_resend b)
  | Medium => mkSendBuffer (send_high b) (send_medium b ++ [frame]) (send_low b) (sb_resend b)
  | Low p =>
      mkSendBuffer (send_high b) (send_medium b) (heap_push pf_key (mkPenaltyFrame p frame) (send_low b)) (sb_resend b)
  end.

(** [max(penalty, 1).saturating_mul(2)] on a [u8] *)
Definition backoff (p : PenaltyFrame) : PenaltyFrame :=
  mkPenaltyFrame (Z.min 255 (Z.max (penalty p) 1 * 2)) (pf_frame p).

Definition SendBuffer_resend (frames : list PenaltyFrame) (b : SendBuffer) : SendBuffer :=
  mkSendBuffer (send_high b) (send_medium b) (send_low b) (heap_extend pf_key (backoff <$> frames) (sb_resend b)).

(** What [pop] accumulates: the bytes left, the reliable flag, the frames taken and
    the sum of the penalties. *)
Record popping := mkPopping {
  pop_remain : Z;
  pop_reliable : bool;
  pop_frames : list Frame;
  pop_penalty_sum : Z;
}.

(** One frame is taken; [sum] is the new sum of the penalties. *)
Definition take_frame (f : Frame) (sum : Z) (p : popping) : popping :=
  mkPopping (pop_remain p - Frame_size f)
    (pop_reliable p || is_reliable (reliability (flags f))) (pop_frames p ++ [f]) sum.

(** [while let Some(item) = heap.peek()] of the three heaps: the frames of the
    resend heap add their penalty, a first-time frame resets the sum. *)
Fixpoint pop_heap {E} (inherit : bool) (fuel : nat) (heap : list PenaltyFrame) (p : popping) :
    outcome E (list PenaltyFrame * popping) :=
  match fuel with
  | O => mret (heap, p)
  | S fuel =>
      match heap_peek pf_key heap with
      | Some item =>
          if Frame_size (pf_frame item) <=? pop_remain p then
            match heap_pop pf_key heap with
            | Some (frame, heap) =>
                pop_heap inherit fuel heap
                  (take_frame (pf_frame frame) (if inherit then pop_penalty_sum p + penalty frame else 0) p)
            | None => Panic
            end
          else mret (heap, p)
      | None => mret (heap, p)
      end
  end.

(** The loop over [send_medium]. *)
Fixpoint pop_queue (queue : list Frame) (p : popping) : list Frame * popping :=
  match queue with
  | frame :: rest =>
      if Frame_size frame <=? pop_remain p then pop_queue rest (take_frame frame 0 p)
      else (queue, p)
  | [] => ([], p)
  end.

(** [pop] with [reliable = false] and no frames, as its only caller uses it:
    returns the flag, the penalty and the frames. *)
Definition SendBuffer_pop {E} (mtu : Z) (b : SendBuffer) :
    outcome E (bool * Z * list Frame * SendBuffer) :=
  remain ← usub 64 mtu FRAME_SET_HEADER_SIZE;
  '(resend, p) ← pop_heap true (length (sb_resend b)) (sb_resend b) (mkPopping remain false [] 0);
  '(high, p) ← pop_heap false (length (send_high b)) (send_high b) p;
  let '(medium, p) := pop_queue (send_medium b) p in
  '(low, p) ← pop_heap false (length (send_low b)) (send_low b) p;
  let b := mkSendBuffer high medium low resend in
  debug_assert (SendBuffer_is_empty b || negb (bool_decide (pop_frames p = [])));;
  let pen :=
    match pop_frames p with
    | [] => 0
    | fs => wrap 8 (pop_penalty_sum p / Z.of_nat (length fs))
    end in
  mret (pop_reliable p, pen, pop_frames p, b).

(** ** Lemmas *)

Record SendBuffer_ok (b : SendBuffer) : Prop := {
  sb_high_ok : heap_ok pf_key (send_high b);
  sb_low_ok : heap_ok pf_key (send_low b);
  sb_resend_ok : heap_ok pf_key (sb_resend b);
  sb_penalties : Forall (λ p, 0 ≤ penalty p ≤ 255) (sb_resend b);
}.

(** All frames of the buffer, tier by tier. *)
Definition buffered (b : SendBuffer) : list Frame :=
  (pf_frame <$> sb_resend b) ++ (pf_frame <$> send_high b) ++ send_medium b ++ (pf_frame <$> send_low b).

Definition frames_size (fs : list Frame) : Z := foldr (λ f n, Frame_size f + n) 0 fs.

Lemma frames_size_app fs gs : frames_size (fs ++ gs) = frames_size fs + frames_size gs.
Proof. unfold frames_size. induction fs; cbn in *; lia. Qed.

Lemma SendBuffer_new_ok : SendBuffer_ok SendBuffer_new.
Proof. split; cbn; first [apply heap_ok_nil|constructor]. Qed.

Lemma SendBuffer_send_ok item b :
  SendBuffer_ok b → SendBuffer_ok (SendBuffer_send item b) ∧
  buffered (SendBuffer_send item b) ≡ₚ item.2 :: buffered b.
Proof.
  intros [H1 H2 H3 H4]. destruct item as [[p| |p] f]; cbn.
  - split; [split; cbn; auto; by apply heap_push_ok|]. unfold buffered. cbn.
    rewrite heap_push_Permutation. cbn. solve_Permutation.
  - split; [by split|]. unfold buffered. cbn. solve_Permutation.
  - split; [split; cbn; auto; by apply heap_push_ok|]. unfold buffered. cbn.
    rewrite heap_push_Permutation. cbn. solve_Permutation.
Qed.

Lemma SendBuffer_resend_ok ps b :
  SendBuffer_ok b → SendBuffer_ok (SendBuffer_resend ps b) ∧
  buffered (SendBuffer_resend ps b) ≡ₚ (pf_frame <$> ps) ++ buffered b.
Proof.
  intros [H1 H2 H3 H4]. unfold SendBuffer_resend, buffered. cbn.
  destruct (heap_extend_ok pf_key (backoff <$> ps) _ H3) as [Hok Hp]. split.
  - split; cbn; [done|done|done|]. rewrite Hp. apply Forall_app. split; [|done].
    apply Forall_fmap, Forall_forall. intros x _. cbn. lia.
  - rewrite Hp, fmap_app, <-app_assoc, <-list_fmap_compose. done.
Qed.

(** What a loop takes: [fs], in order, as far as they fit. *)
Record took (p : popping) (fs : list Frame) (p' : popping) : Prop := {
  tk_remain : pop_remain p' = pop_remain p - frames_size fs;
  tk_fits : 0 ≤ pop_remain p → 0 ≤ pop_remain p';
  tk_frames : pop_frames p' = pop_frames p ++ fs;
  tk_reliable : pop_reliable p' = pop_reliable p || existsb (λ f, is_reliable (reliability (flags f))) fs;
}.

Lemma took_nil p : took p [] p.
Proof. split; cbn; [lia|lia|by rewrite app_nil_r|by rewrite orb_false_r]. Qed.

Lemma took_trans p fs p' gs p'' : took p fs p' → took p' gs p'' → took p (fs ++ gs) p''.
Proof.
  intros [A1 A2 A3 A4] [B1 B2 B3 B4]. split; [rewrite frames_size_app; lia|auto| |].
  - by rewrite B3, A3, app_assoc.
  - by rewrite B4, A4, existsb_app, orb_assoc.
Qed.

Lemma took_one p f sum : Frame_size f ≤ pop_remain p → took p [f] (take_frame f sum p).
Proof. intros Hf. split; cbn; [lia|lia|done|by rewrite orb_false_r]. Qed.

(** A tier that is a heap gives its frames by penalty, until the next one does not
    fit into what remains. *)
Record popped (heap taken rest : list PenaltyFrame) (remain : Z) : Prop := {
  po_perm : heap ≡ₚ taken ++ rest;
  po_sorted : StronglySorted (λ x y, penalty x ≤ penalty y) taken;
  po_first : ∀ x y, x ∈ taken → y ∈ rest → penalty x ≤ penalty y;
  po_next : rest = [] ∨ ∃ q, q ∈ rest ∧ (∀ y, y ∈ rest → penalty q ≤ penalty y) ∧ remain < Frame_size (pf_frame q);
}.

Definition penalties (qs : list PenaltyFrame) : Z := foldr (λ q n, penalty q + n) 0 qs.

Lemma popped_nil remain : popped [] [] [] remain.
Proof. split; [done|constructor|by intros ?? ?%not_elem_of_nil|by left]. Qed.

Lemma pop_heap_exact {E} inherit fuel heap p :
  heap_ok pf_key heap → (length heap ≤ fuel)%nat →
  ∃ heap' p' qs, pop_heap (E:=E) inherit fuel heap p = Ok (heap', p') ∧ heap_ok pf_key heap' ∧
    took p (pf_frame <$> qs) p' ∧ popped heap qs heap' (pop_remain p') ∧
    pop_penalty_sum p' = if inherit then pop_penalty_sum p + penalties qs else if qs is [] then pop_penalty_sum p else 0.
Proof.
  revert heap p. induction fuel as [|fuel IH]; intros heap p Hok Hlen; cbn.
  { assert (heap = []) as -> by (apply nil_length_inv; lia).
    exists [], p, []. split_and!; [done|done|apply took_nil|apply popped_nil|destruct inherit; cbn; lia]. }
  unfold heap_peek. destruct (heap_pop pf_key heap) as [[q h]|] eqn:Hp; cbn.
  2: { apply heap_pop_None in Hp as ->. exists [], p, [].
       split_and!; [done|done|apply took_nil|apply popped_nil|destruct inherit; cbn; lia]. }
  destruct (heap_pop_Some _ _ _ _ Hok Hp) as (Hok' & Hperm & Hmax). rewrite Forall_forall in Hmax.
  assert (∀ y, y ∈ h → penalty q ≤ penalty y) as Hmin by (intros y Hy%Hmax; unfold pf_key in Hy; lia).
  destruct (Z.leb_spec (Frame_size (pf_frame q)) (pop_remain p)) as [Hle|Hgt].
  - destruct (IH h (take_frame (pf_frame q) (if inherit then pop_penalty_sum p + penalty q else 0) p) Hok')
      as (h' & p' & qs & -> & H1 & H2 & [P1 P2 P3 P4] & H4).
    { apply Permutation_length in Hperm. cbn in Hperm. lia. }
    exists h', p', (q :: qs). split_and!; [done|done| | |].
    + change (pf_frame <$> q :: qs) with ([pf_frame q] ++ (pf_frame <$> qs)). eapply took_trans; [by apply took_one|exact H2].
    + split; [by rewrite Hperm, P1| | |done].
      * constructor; [done|]. apply Forall_forall. intros y Hy. apply Hmin. rewrite P1. set_solver.
      * intros x y [->|Hx]%elem_of_cons Hy; [|by apply P3]. apply Hmin. rewrite P1. set_solver.
    + rewrite H4. destruct inherit; unfold penalties; cbn; [lia|]. by destruct qs.
  - exists heap, p, []. split_and!; [done|done|apply took_nil| |destruct inherit; cbn; lia].
    split; [done|constructor|by intros ?? ?%not_elem_of_nil|right]. exists q. rewrite Hperm. split_and!; [left| |done].
    intros y. rewrite Hperm. intros [->|Hy]%elem_of_cons; [lia|auto].
Qed.

Lemma pop_queue_exact queue p :
  ∃ queue' p' fs, pop_queue queue p = (queue', p') ∧ took p fs p' ∧ queue = fs ++ queue' ∧
    (∀ f, head queue' = Some f → pop_remain p' < Frame_size f) ∧
    pop_penalty_sum p' = if fs is [] then pop_penalty_sum p else 0.
Proof.
  revert p. induction queue as [|f queue IH]; intros p; cbn.
  { exists [], p, []. split_and!; [done|apply took_nil|done|done|done]. }
  destruct (Z.leb_spec (Frame_size f) (pop_remain p)).
  - destruct (IH (take_frame f 0 p)) as (q' & p' & fs & -> & H1 & -> & H3 & H4).
    exists q', p', (f :: fs). split_and!; [done| |done|done|rewrite H4; by destruct fs].
    change (f :: fs) with ([f] ++ fs). eapply took_trans; [by apply took_one|exact H1].
  - exists (f :: queue), p, []. split_and!; [done|apply took_nil|done| |done]. by intros g [= <-].
Qed.

(** Every frame of the buffer fits into a frame set of its own. *)
Definition all_fit (mtu : Z) (b : SendBuffer) : Prop :=
  Forall (λ f, Frame_size f ≤ mtu - FRAME_SET_HEADER_SIZE) (buffered b).

Lemma buffered_nil b : buffered b = [] ↔ SendBuffer_len b = 0%nat.
Proof.
  unfold SendBuffer_len, buffered. split.
  - intros H. apply (f_equal length) in H. rewrite !length_app, !length_fmap in H. cbn in H. lia.
  - intros H. apply nil_length_inv. rewrite !length_app, !length_fmap. lia.
Qed.

(** The frames taken from the tiers, in the order of the frame set. *)
Definition tiers (rs hs : list PenaltyFrame) (ms : list Frame) (ls : list PenaltyFrame) : list Frame :=
  (pf_frame <$> rs) ++ (pf_frame <$> hs) ++ ms ++ (pf_frame <$> ls).

(** What [pop] takes: from each tier, in order, as much as fits after the tiers
    before it. *)
Record filled (mtu : Z) (b : SendBuffer) (rs hs : list PenaltyFrame) (ms : list Frame) (ls : list PenaltyFrame)
    (b' : SendBuffer) : Prop := {
  fi_resend : popped (sb_resend b) rs (sb_resend b') (mtu - FRAME_SET_HEADER_SIZE - frames_size (tiers rs [] [] []));
  fi_high : popped (send_high b) hs (send_high b') (mtu - FRAME_SET_HEADER_SIZE - frames_size (tiers rs hs [] []));
  fi_medium : send_medium b = ms ++ send_medium b' ∧ ∀ f, head (send_medium b') = Some f →
    mtu - FRAME_SET_HEADER_SIZE - frames_size (tiers rs hs ms []) < Frame_size f;
  fi_low : popped (send_low b) ls (send_low b') (mtu - FRAME_SET_HEADER_SIZE - frames_size (tiers rs hs ms ls));
  fi_fits : FRAME_SET_HEADER_SIZE + frames_size (tiers rs hs ms ls) ≤ mtu;
}.

(** The penalty of the frame set: the mean of those that are sent again, unless a
    frame is sent for the first time. *)
Definition mean_penalty (rs hs : list PenaltyFrame) (ms : list Frame) (ls : list PenaltyFrame) : Z :=
  match rs, tiers [] hs ms ls with
  | _ :: _, [] => penalties rs / Z.of_nat (length rs)
  | _, _ => 0
  end.

Lemma filled_Permutation mtu b rs hs ms ls b' : filled mtu b rs hs ms ls b' → buffered b ≡ₚ tiers rs hs ms ls ++ buffered b'.
Proof.
  intros [[P1 _ _ _] [P2 _ _ _] [P3 _] [P4 _ _ _] _]. unfold buffered, tiers. rewrite P1, P2, P3, P4, !fmap_app.
  solve_Permutation.
Qed.

Lemma popped_fits heap rest remain :
  popped heap [] rest remain → Forall (λ f, Frame_size f ≤ remain) (pf_frame <$> heap) → heap = [].
Proof.
  intros [P1 _ _ P4] Hf. cbn in P1. destruct P4 as [->|(q & Hq & _ & Hlt)]; [by apply Permutation_nil_r|].
  rewrite Forall_forall in Hf. specialize (Hf (pf_frame q)). rewrite P1 in Hf. specialize (Hf (list_elem_of_fmap_2 _ _ _ Hq)). lia.
Qed.

(** As long as there is a frame, one is taken. *)
Lemma filled_progress mtu b rs hs ms ls b' :
  filled mtu b rs hs ms ls b' → all_fit mtu b → tiers rs hs ms ls = [] → buffered b = [].
Proof.
  intros [P1 P2 [P3 P3'] P4 _] Hfit Hnil. unfold tiers in Hnil.
  apply app_eq_nil in Hnil as [->%fmap_nil_inv [->%fmap_nil_inv [-> ->%fmap_nil_inv]%app_eq_nil]%app_eq_nil].
  unfold all_fit, buffered in *. rewrite !Forall_app in Hfit. destruct Hfit as (F1 & F2 & F3 & F4).
  change (frames_size (tiers [] [] [] [])) with 0 in *. rewrite !Z.sub_0_r in *.
  rewrite (popped_fits _ _ _ P1 F1), (popped_fits _ _ _ P2 F2), (popped_fits _ _ _ P4 F4). cbn in *.
  rewrite P3 in F3 |- *. destruct (send_medium b') as [|f l]; [done|]. apply Forall_cons in F3 as [F3 _].
  specialize (P3' f eq_refl). lia.
Qed.

Lemma penalties_bound qs : Forall (λ p, 0 ≤ penalty p ≤ 255) qs → 0 ≤ penalties qs ≤ 255 * Z.of_nat (length qs).
Proof. unfold penalties. induction 1; cbn in *; lia. Qed.

Lemma mean_penalty_bound rs hs ms ls :
  Forall (λ p, 0 ≤ penalty p ≤ 255) rs → 0 ≤ mean_penalty rs hs ms ls ≤ 255.
Proof.
  intros Hb%penalties_bound. unfold mean_penalty. destruct rs as [|r rs]; [lia|]. destruct (tiers _ _ _ _); [|lia].
  set (n := Z.of_nat (length (r :: rs))) in *. assert (0 < n) by (subst n; cbn; lia).
  split; [apply Z.div_pos; lia|apply Z.div_le_upper_bound; lia].
Qed.

Lemma filled_penalty mtu b rs hs ms ls b' :
  SendBuffer_ok b → filled mtu b rs hs ms ls b' → 0 ≤ mean_penalty rs hs ms ls ≤ 255.
Proof.
  intros Hok Hfi. apply mean_penalty_bound. pose proof (sb_penalties _ Hok) as K.
  rewrite (po_perm _ _ _ _ (fi_resend _ _ _ _ _ _ _ Hfi)) in K. by apply Forall_app in K as [? _].
Qed.

(** The code divides the sum that it accumulates. *)
Lemma mean_penalty_code rs hs ms ls sum :
  Forall (λ p, 0 ≤ penalty p ≤ 255) rs →
  sum = (if tiers [] hs ms ls is [] then penalties rs else 0) →
  match tiers rs hs ms ls with [] => 0 | fs => wrap 8 (sum / Z.of_nat (length fs)) end = mean_penalty rs hs ms ls.
Proof.
  intros Hb ->. pose proof (mean_penalty_bound rs hs ms ls Hb) as Hm. unfold mean_penalty in *.
  destruct (tiers [] hs ms ls) as [|f l] eqn:Ht.
  - assert (tiers rs hs ms ls = pf_frame <$> rs) as ->.
    { unfold tiers in *. cbn in Ht. by rewrite Ht, app_nil_r. }
    destruct rs as [|r rs]; [done|]. rewrite fmap_cons. cbn [length] in *. rewrite length_fmap. apply wrap_small. unfold uint. lia.
  - assert (∃ g k, tiers rs hs ms ls = g :: k) as (g & k & ->).
    { unfold tiers in *. destruct rs; cbn in *; rewrite ?Ht; by eexists _, _. }
    rewrite Z.div_0_l by (cbn; lia). by destruct rs.
Qed.

Lemma SendBuffer_pop_tiers {E} mtu b :
  4 ≤ mtu → SendBuffer_ok b → all_fit mtu b →
  ∃ rs hs ms ls b', SendBuffer_pop (E:=E) mtu b =
      Ok (existsb (λ f, is_reliable (reliability (flags f))) (tiers rs hs ms ls), mean_penalty rs hs ms ls, tiers rs hs ms ls, b') ∧
    SendBuffer_ok b' ∧ filled mtu b rs hs ms ls b'.
Proof.
  intros Hm [K1 K2 K3 K4] Hfit. unfold SendBuffer_pop, FRAME_SET_HEADER_SIZE in *.
  rewrite usub_Ok by lia. cbn [mbind outcome_bind].
  destruct (pop_heap_exact (E:=E) true (length (sb_resend b)) (sb_resend b) (mkPopping (mtu - 4) false [] 0) K3)
    as (h1 & p1 & rs & -> & O1 & T1 & P1 & S1); [done|]. cbn [mbind outcome_bind].
  destruct (pop_heap_exact (E:=E) false (length (send_high b)) (send_high b) p1 K1)
    as (h2 & p2 & hs & -> & O2 & T2 & P2 & S2); [done|]. cbn [mbind outcome_bind].
  destruct (pop_queue_exact (send_medium b) p2) as (q3 & p3 & ms & -> & T3 & P3 & R3 & S3).
  destruct (pop_heap_exact (E:=E) false (length (send_low b)) (send_low b) p3 K2)
    as (h4 & p4 & ls & -> & O4 & T4 & P4 & S4); [done|]. cbn [mbind outcome_bind].
  set (b' := mkSendBuffer h2 q3 h4 h1).
  assert (filled mtu b rs hs ms ls b') as Hfi.
  { destruct T1 as [Q1 V1 _ _], T2 as [Q2 V2 _ _], T3 as [Q3 V3 _ _], T4 as [Q4 V4 _ _]. cbn in Q1, V1.
    split; unfold FRAME_SET_HEADER_SIZE, tiers; cbn [fmap list_fmap]; rewrite ?app_nil_r, ?frames_size_app;
      cbn [send_high send_medium send_low sb_resend b'].
    - by rewrite <-Q1.
    - rewrite Q1 in Q2. by replace (mtu - 4 - _) with (pop_remain p2) by lia.
    - split; [done|]. intros f Hf%R3. lia.
    - by replace (mtu - 4 - _) with (pop_remain p4) by lia.
    - lia. }
  destruct (took_trans _ _ _ _ _ T1 (took_trans _ _ _ _ _ T2 (took_trans _ _ _ _ _ T3 T4))) as [_ _ A3 A4].
  cbn [pop_frames pop_reliable app orb] in A3, A4. fold (tiers rs hs ms ls) in A3, A4.
  exists rs, hs, ms, ls, b'. split_and!; [| |done].
  - assert (SendBuffer_is_empty b' || negb (bool_decide (pop_frames p4 = [])) = true) as Hda.
    { rewrite A3. case_bool_decide as Hn; [|by rewrite orb_true_r]. unfold SendBuffer_is_empty. rewrite bool_decide_true; [done|].
      apply buffered_nil. pose proof (filled_Permutation _ _ _ _ _ _ _ Hfi) as Hp.
      rewrite (filled_progress _ _ _ _ _ _ _ Hfi Hfit Hn), Hn in Hp. by apply Permutation_nil_l in Hp. }
    unfold debug_assert. rewrite Hda. replace (if debug_assertions then _ else _) with (Ok (E:=E) tt) by (by destruct debug_assertions).
    cbn [mbind outcome_bind]. rewrite A3, A4, (mean_penalty_code rs hs ms ls); [done| |].
    + rewrite (po_perm _ _ _ _ P1) in K4. by apply Forall_app in K4 as [? _].
    + rewrite S4, S3, S2, S1. cbn. unfold tiers. cbn. destruct hs, ms, ls; cbn; lia.
  - split; cbn; try done. rewrite (po_perm _ _ _ _ P1) in K4. by apply Forall_app in K4 as [_ ?].
Qed.

Lemma SendBuffer_pop_spec {E} mtu b :
  4 ≤ mtu → SendBuffer_ok b → all_fit mtu b →
  ∃ pen fs b', SendBuffer_pop (E:=E) mtu b =
      Ok (existsb (λ f, is_reliable (reliability (flags f))) fs, pen, fs, b') ∧
    SendBuffer_ok b' ∧ buffered b ≡ₚ fs ++ buffered b' ∧
    FRAME_SET_HEADER_SIZE + frames_size fs ≤ mtu ∧ 0 ≤ pen ≤ 255 ∧
    (fs = [] → buffered b = []).
Proof.
  intros Hm Hok Hfit. destruct (SendBuffer_pop_tiers (E:=E) mtu b Hm Hok Hfit) as (rs & hs & ms & ls & b' & Hp & Hok' & Hfi).
  destruct (filled_penalty _ _ _ _ _ _ _ Hok Hfi). eexists _, _, b'. split; [exact Hp|].
  split_and!; [done|by eapply filled_Permutation|apply Hfi|done|done|]. by eapply filled_progress.
Qed.
End send_buffer.

(** C31. A frame set is filled by priority: [pop] takes the frames that are sent again
    before those of high, of medium and of low priority, each tier by its penalties
    (the medium one in the order of sending) and as far as the next frame fits into
    the MTU.  The others stay, at least one frame is taken from a buffer that is not
    empty, the flag tells whether one of them is reliable, and the frame set inherits
    the mean penalty of its frames if all of them are sent again, and none
    otherwise. *)
Theorem SendBuffer_pop_by_priority {B : Build} {BH : BinaryHeap} {E} mtu b :
  4 ≤ mtu → SendBuffer_ok b → all_fit mtu b →
  ∃ rs hs ms ls b', SendBuffer_pop (E:=E) mtu b =
      Ok (existsb (λ f, is_reliable (reliability (flags f))) (tiers rs hs ms ls), mean_penalty rs hs ms ls,
          tiers rs hs ms ls, b') ∧
    filled mtu b rs hs ms ls b' ∧ SendBuffer_ok b' ∧ 0 ≤ mean_penalty rs hs ms ls ≤ 255 ∧
    (tiers rs hs ms ls = [] ↔ SendBuffer_is_empty b = true).
Proof.
  intros Hm Hok Hfit. destruct (SendBuffer_pop_tiers (E:=E) mtu b Hm Hok Hfit) as (rs & hs & ms & ls & b' & Hp & Hok' & Hfi).
  destruct (filled_penalty _ _ _ _ _ _ _ Hok Hfi). exists rs, hs, ms, ls, b'. split; [done|]. split_and!; [done|done|done|done|split].
  - intros Hn. unfold SendBuffer_is_empty. apply bool_decide_eq_true, buffered_nil. by eapply filled_progress.
  - unfold SendBuffer_is_empty. rewrite bool_decide_eq_true, <-buffered_nil. intros Hn.
    pose proof (filled_Permutation _ _ _ _ _ _ _ Hfi) as Hperm. rewrite Hn in Hperm. apply Permutation_nil_l in Hperm.
    symmetry in Hperm. by apply app_eq_nil in Hperm as [? _].
Qed.

(** A frame to send again, two of high priority, one of medium priority, and one of
    low priority that no longer fits. *)
Definition sample_buffer : SendBuffer :=
  let plain d := mkFrame (Flags_new Unreliable false) None None None None d in
  mkSendBuffer [mkPenaltyFrame 1 (plain [3]); mkPenaltyFrame 4 (plain [4; 4])]
    [mkFrame (Flags_new Reliable false) (Some 0) None None None [1; 2; 3]] [mkPenaltyFrame 0 (plain [9; 9; 9; 9])]
    [mkPenaltyFrame 2 (plain [7])].

Lemma SendBuffer_pop_by_priority_witness :
  ∃ rs hs ms ls b', SendBuffer_pop (B:=true) (BH:=heap_sorted) (E:=io_error) 32 sample_buffer =
      Ok (true, 0, tiers rs hs ms ls, b') ∧
    filled 32 sample_buffer rs hs ms ls b' ∧ tiers rs hs ms ls ≠ [].
Proof.
  destruct (SendBuffer_pop_by_priority (B:=true) (BH:=heap_sorted) (E:=io_error) 32 sample_buffer)
    as (rs & hs & ms & ls & b' & Hp & Hf & _ & _ & He).
  - lia.
  - split; vm_compute; repeat constructor; discriminate.
  - repeat constructor; vm_compute; discriminate.
  - exists rs, hs, ms, ls, b'. split_and!; [|exact Hf|intros Hn%He; vm_compute in Hn; discriminate Hn].
    rewrite Hp. clear -Hp. revert Hp. generalize (existsb (λ f, is_reliable (reliability (flags f))) (tiers rs hs ms ls)) (mean_penalty rs hs ms ls).
    intros x y Hp. vm_compute in Hp. injection Hp as <- <- _ _. reflexivity.
Defined.
