(* ===== verification/Resend.v ===== *)
(** * The resend map (src/reliable.rs, [ResendMap])

    The reliable frame sets in flight, by sequence number.  An acknowledgement
    removes a frame set, a negative one or a timeout moves its frames back to the
    send buffer.  Instants and durations are nanoseconds. *)
From S2P Require Import Prelude Errors SeqNum Types AckNack FrameSet Collections Reactor Estimator SendBuffer.
Open Scope Z_scope.

Record ResendEntry := mkResendEntry {
  re_penalty : Z;
  re_frames : option (list Frame);
  send_at : Z;
  expired_at : Z;
}.

Record ResendMap (T : Type) := mkResendMap {
  rm_reliable : gmap u24 ResendEntry;
  inflight : Z;
  rm_role : Role;
  rm_peer : Peer;
  last_record_expired_at : Z;
  estimator : T;
}.
Arguments mkResendMap {T} _ _ _ _ _ _.
Arguments rm_reliable {T} _.
Arguments inflight {T} _.
Arguments rm_role {T} _.
Arguments rm_peer {T} _.
Arguments last_record_expired_at {T} _.
Arguments estimator {T} _.

Definition MAX_PENALTY_DUR : Z := 30000000000.   (* 30 s *)
Definition MAX_SKIP_SCAN_RTO : Z := 3000000000.  (* 3 s *)

Section resend.
Context {B : Build} {BH : BinaryHeap} {HI : HashIter} {T : Type} `{!Estimator T}.

Definition ResendMap_new (now : Z) (role : Role) (peer : Peer) (e : T) : ResendMap T :=
  mkResendMap ∅ 0 role peer now e.

Definition set_map (m : gmap u24 ResendEntry) (n : Z) (e : T) (r : ResendMap T) : ResendMap T :=
  mkResendMap m n (rm_role r) (rm_peer r) (last_record_expired_at r) e.

(** The frames an entry still holds. *)
Definition entry_frames (e : ResendEntry) : list Frame := default [] (re_frames e).

(** [debug_assert_inflight], compiled in a debug build only; [unwrap] panics. *)
Definition debug_assert_inflight {E} (r : ResendMap T) : outcome E unit :=
  if debug_assertions then
    let es := (hash_iter (rm_reliable r)).*2 in
    assert_ (forallb (λ e, if re_frames e is Some _ then true else false) es);;
    assert_ (foldr (λ e n, Z.of_nat (length (entry_frames e)) + n) 0 es =? inflight r)
  else mret tt.

Definition ResendMap_record {E} (now : Z) (seq_num : u24) (pen : Z) (frames : list Frame) (r : ResendMap T) :
    outcome E (ResendMap T) :=
  let rto := est_rto (estimator r) in
  let penalty_dur := Z.min (rto * pen) MAX_PENALTY_DUR in
  let entry := mkResendEntry pen (Some frames) now (now + rto + penalty_dur) in
  let r := set_map (<[seq_num := entry]> (rm_reliable r))
    (inflight r + Z.of_nat (length frames)) (estimator r) r in
  debug_assert_inflight r;;
  mret r.

(** One acknowledged number. *)
Definition ack_one {E} (received_at : Z) (i : u24) (r : ResendMap T) : outcome E (ResendMap T) :=
  let m := delete i (rm_reliable r) in
  match rm_reliable r !! i with
  | Some (mkResendEntry _ (Some frames) send_at _) =>
      let rtt := Z.max 0 (received_at - send_at) in   (* saturating_duration_since *)
      n ← usub 64 (inflight r) (Z.of_nat (length frames));
      mret (set_map m n (est_update rtt (estimator r)) r)
  | _ => mret (set_map m (inflight r) (estimator r) r)
  end.

(** The numbers of a record as the loops enumerate them ([start..=end] is empty
    when [end < start]). *)
Definition record_seqs (rec : Record_) : list u24 :=
  match rec with
  | Range start end_ => u24_range (u24_to_u32 start) (u24_to_u32 end_ + 1)
  | Single idx => [idx]
  end.

Fixpoint ack_seqs {E} (received_at : Z) (seqs : list u24) (r : ResendMap T) : outcome E (ResendMap T) :=
  match seqs with
  | [] => mret r
  | i :: seqs => i ← u24_from i; r ← ack_one received_at i r; ack_seqs received_at seqs r
  end.

Fixpoint ack_records {E} (received_at : Z) (recs : list Record_) (r : ResendMap T) : outcome E (ResendMap T) :=
  match recs with
  | [] => mret r
  | rec :: recs => r ← ack_seqs received_at (record_seqs rec) r; ack_records received_at recs r
  end.

Definition on_ack {E} (ack : AckOrNack) (received_at : Z) (r : ResendMap T) : outcome E (ResendMap T) :=
  r ← ack_records received_at (records ack) r;
  debug_assert_inflight r;;
  mret r.

(** [frames.into_iter().map(|frame| PenaltyFrame { penalty, frame })] *)
Definition penalize (pen : Z) (frames : list Frame) : list PenaltyFrame := mkPenaltyFrame pen <$> frames.

(** One number reported as missing; [unwrap] panics on an entry without frames. *)
Definition nack_one {E} (i : u24) (r : ResendMap T) (buf : SendBuffer) : outcome E (ResendMap T * SendBuffer) :=
  match rm_reliable r !! i with
  | Some entry =>
      match re_frames entry with
      | None => Panic
      | Some frames =>
          n ← usub 64 (inflight r) (Z.of_nat (length frames));
          mret (set_map (delete i (rm_reliable r)) n (estimator r) r,
                SendBuffer_resend (penalize (re_penalty entry) frames) buf)
      end
  | None => mret (r, buf)
  end.

Fixpoint nack_seqs {E} (seqs : list u24) (r : ResendMap T) (buf : SendBuffer) :
    outcome E (ResendMap T * SendBuffer) :=
  match seqs with
  | [] => mret (r, buf)
  | i :: seqs => i ← u24_from i; '(r, buf) ← nack_one i r buf; nack_seqs seqs r buf
  end.

Fixpoint nack_records {E} (recs : list Record_) (r : ResendMap T) (buf : SendBuffer) :
    outcome E (ResendMap T * SendBuffer) :=
  match recs with
  | [] => mret (r, buf)
  | rec :: recs => '(r, buf) ← nack_seqs (record_seqs rec) r buf; nack_records recs r buf
  end.

Definition on_nack_into {E} (nack : AckOrNack) (r : ResendMap T) (buf : SendBuffer) :
    outcome E (ResendMap T * SendBuffer) :=
  '(r, buf) ← nack_records (records nack) r buf;
  debug_assert_inflight r;;
  mret (r, buf).

(** [retain] of [process_stales], over the entries in iteration order: the map that
    is kept, the frames in flight, the smallest expiry seen and the buffer. *)
Fixpoint retain_stales {E} (now : Z) (es : list (u24 * ResendEntry)) (m : gmap u24 ResendEntry)
    (n min_expired_at : Z) (buf : SendBuffer) : outcome E (gmap u24 ResendEntry * Z * Z * SendBuffer) :=
  match es with
  | [] => mret (m, n, min_expired_at, buf)
  | (i, entry) :: es =>
      if expired_at entry <=? now then
        match re_frames entry with
        | None => Panic
        | Some frames =>
            n ← usub 64 n (Z.of_nat (length frames));
            retain_stales now es (delete i m) n min_expired_at
              (SendBuffer_resend (penalize (re_penalty entry) frames) buf)
        end
      else retain_stales now es m n (Z.min min_expired_at (expired_at entry)) buf
  end.

Definition process_stales {E} (now : Z) (r : ResendMap T) (buf : SendBuffer) :
    outcome E (ResendMap T * SendBuffer) :=
  if decide (rm_reliable r = ∅) then mret (r, buf)
  else if now <? last_record_expired_at r then mret (r, buf)
  else
    let min_expired_at := now + Z.min (est_rto (estimator r)) MAX_SKIP_SCAN_RTO in
    '(m, n, min_expired_at, buf) ←
      retain_stales now (hash_iter (rm_reliable r)) (rm_reliable r) (inflight r) min_expired_at buf;
    debug_assert (now <=? min_expired_at);;
    let e := if bool_decide (size m < size (rm_reliable r))%nat then est_clear (estimator r) else estimator r in
    let r := mkResendMap m n (rm_role r) (rm_peer r) min_expired_at e in
    debug_assert_inflight r;;
    mret (r, buf).

Definition ResendMap_is_empty (r : ResendMap T) : bool := bool_decide (rm_reliable r = ∅).

(** [min_by_key(expired_at)] over the entries: the first of the smallest ones. *)
Definition min_by_expiry (es : list (u24 * ResendEntry)) : option (u24 * ResendEntry) :=
  foldl (λ acc e, match acc with
    | Some a => if expired_at e.2 <? expired_at a.2 then Some e else acc
    | None => Some e
    end) None es.

(** [poll_wait]: registers a timer for the next expiry unless it has passed. *)
Definition poll_wait (now : Z) (waker : nat) (r : ResendMap T) (re : Reactor) : poll unit * Reactor :=
  match min_by_expiry (hash_iter (rm_reliable r)) with
  | Some (_, entry) =>
      if now <? expired_at entry then
        let key := combine_hashes (Role_guid (rm_role r)) (peer_guid (rm_peer r)) in
        (Pending, insert_timer key (expired_at entry) waker re)
      else (Ready tt, re)
  | None => (Ready tt, re)
  end.

(** ** Invariant

    Every entry has its frames, and [inflight] counts them. *)

Definition map_frames (m : gmap u24 ResendEntry) : list Frame := (map_to_list m).*2 ≫= entry_frames.

Context `{!EstimatorLaws T}.

Record Resend_inv (r : ResendMap T) : Prop := {
  ri_frames : map_Forall (λ _ e, re_frames e ≠ None) (rm_reliable r);
  ri_inflight : inflight r = Z.of_nat (length (map_frames (rm_reliable r)));
  ri_estimator : est_ok (estimator r);
}.

Lemma map_frames_delete m i e :
  m !! i = Some e → map_frames m ≡ₚ entry_frames e ++ map_frames (delete i m).
Proof.
  intros Hi. unfold map_frames. rewrite <-(insert_delete_id m i e Hi) at 1.
  rewrite map_to_list_insert by apply lookup_delete_eq. done.
Qed.

Lemma map_frames_insert m i e :
  m !! i = None → map_frames (<[i := e]> m) ≡ₚ entry_frames e ++ map_frames m.
Proof. intros Hi. unfold map_frames. by rewrite map_to_list_insert. Qed.

Lemma debug_assert_inflight_Ok {E} r : Resend_inv r → debug_assert_inflight (E:=E) r = Ok tt.
Proof.
  intros [H1 H2 _]. unfold debug_assert_inflight. destruct debug_assertions; [|done].
  assert (forallb (λ e, if re_frames e is Some _ then true else false) (hash_iter (rm_reliable r)).*2 = true) as ->.
  { apply Is_true_true, forallb_True, Forall_forall. intros e He.
    rewrite hash_iter_Permutation in He. apply list_elem_of_fmap in He as ([i e'] & -> & Hin).
    apply elem_of_map_to_list in Hin. apply H1 in Hin. cbn. by destruct (re_frames e'). }
  cbn [assert_ mbind outcome_bind].
  assert (∀ es : list ResendEntry, foldr (λ e n, Z.of_nat (length (entry_frames e)) + n) 0 es =
    Z.of_nat (length (es ≫= entry_frames))) as Hsum.
  { induction es as [|e es IH]; cbn; [done|]. rewrite length_app. cbn in IH. lia. }
  rewrite Hsum, H2. unfold map_frames.
  rewrite (Permutation_length (l:=(hash_iter (rm_reliable r)).*2 ≫= entry_frames)
    (l':=(map_to_list (rm_reliable r)).*2 ≫= entry_frames)) by (by rewrite hash_iter_Permutation).
  by rewrite Z.eqb_refl.
Qed.

Lemma Resend_inv_new now role peer e : est_ok e → Resend_inv (ResendMap_new now role peer e).
Proof. split; cbn; [apply map_Forall_empty|done|done]. Qed.

Lemma Resend_inv_delete r i e n t :
  Resend_inv r → rm_reliable r !! i = Some e → n = inflight r - Z.of_nat (length (entry_frames e)) →
  est_ok t → Resend_inv (set_map (delete i (rm_reliable r)) n t r).
Proof.
  intros [H1 H2 _] Hi -> Ht. split; cbn; [by apply map_Forall_delete| |done].
  pose proof (Permutation_length (map_frames_delete _ _ _ Hi)) as Hl. rewrite length_app in Hl. lia.
Qed.

Definition seqs_of (a : AckOrNack) : list u24 := records a ≫= record_seqs.

(** Every number the records name is a 24-bit number. *)
Definition records_valid (recs : list Record_) : Prop :=
  Forall (λ rec, match rec with
    | Range start end_ => u24_valid start ∧ u24_valid end_
    | Single idx => u24_valid idx
    end) recs.

Lemma record_seqs_valid recs : records_valid recs → Forall u24_valid (recs ≫= record_seqs).
Proof.
  intros Hr. apply Forall_bind. eapply Forall_impl; [exact Hr|]. intros [a b|a]; cbn.
  - intros [Ha Hb]. apply Forall_forall. intros x Hx%elem_of_u24_range.
    unfold u24_to_u32, u24_valid, uint in *. lia.
  - intros Ha. by apply Forall_singleton.
Qed.

(** The map without some numbers. *)
Definition without (seqs : list u24) (m m' : gmap u24 ResendEntry) : Prop :=
  ∀ i, m' !! i = if decide (i ∈ seqs) then None else m !! i.

Lemma without_nil m : without [] m m.
Proof. intros i. by rewrite decide_False by set_solver. Qed.

Lemma without_trans s t m m' m'' : without s m m' → without t m' m'' → without (s ++ t) m m''.
Proof. intros H1 H2 i. rewrite H2, H1. repeat case_decide; set_solver. Qed.

Lemma without_delete i m : without [i] m (delete i m).
Proof.
  intros j. case_decide as Hd.
  - apply list_elem_of_singleton in Hd as ->. apply lookup_delete_eq.
  - apply lookup_delete_ne. set_solver.
Qed.

(** The frames of the entries that [seqs] names. *)
Definition retired (seqs : list u24) (m : gmap u24 ResendEntry) : list Frame :=
  map_frames (filter (λ x, x.1 ∈ seqs) m).

Lemma map_frames_filter (P : u24 * ResendEntry → Prop) `{!∀ x, Decision (P x)} m :
  map_frames m ≡ₚ map_frames (filter P m) ++ map_frames (filter (λ x, ¬ P x) m).
Proof.
  induction m as [|i x m Hi IH] using map_ind; [by rewrite !map_filter_empty|].
  assert (∀ (Q : u24 * ResendEntry → Prop) `{!∀ x, Decision (Q x)}, filter Q m !! i = None) as Hn.
  { intros Q ?. apply map_lookup_filter_None. by left. }
  rewrite map_frames_insert, IH by done. destruct (decide (P (i, x))) as [Hp|Hp].
  - rewrite map_filter_insert_True by done. rewrite map_frames_insert by apply Hn.
    rewrite map_filter_insert_False, delete_id by (done || naive_solver). by rewrite app_assoc.
  - rewrite (map_filter_insert_False P), delete_id by done.
    rewrite map_filter_insert_True by done. rewrite map_frames_insert by apply Hn. solve_Permutation.
Qed.

Lemma without_frames seqs m m' : without seqs m m' → map_frames m ≡ₚ retired seqs m ++ map_frames m'.
Proof.
  intros Hw. rewrite (map_frames_filter (λ x, x.1 ∈ seqs) m). unfold retired. do 2 f_equiv.
  apply map_eq. intros i. rewrite Hw, map_lookup_filter. destruct (m !! i); cbn; by repeat case_decide.
Qed.

Lemma inflight_bound r i e :
  Resend_inv r → rm_reliable r !! i = Some e → Z.of_nat (length (entry_frames e)) ≤ inflight r.
Proof.
  intros [_ ->] Hi. pose proof (Permutation_length (map_frames_delete _ _ _ Hi)) as Hl.
  rewrite length_app in Hl. lia.
Qed.

Lemma ack_one_spec {E} at_ i r :
  Resend_inv r → ∃ r', ack_one (E:=E) at_ i r = Ok r' ∧ Resend_inv r' ∧
    without [i] (rm_reliable r) (rm_reliable r').
Proof.
  intros Hr. unfold ack_one. destruct (rm_reliable r !! i) as [[p [fs|] s x]|] eqn:Hi.
  - rewrite usub_Ok by (by apply (inflight_bound _ _ _ Hr) in Hi). cbn.
    eexists. split; [done|]. split; [|apply without_delete].
    eapply Resend_inv_delete; [done..|]. apply est_ok_update; [lia|apply Hr].
  - exfalso. by apply (ri_frames _ Hr) in Hi.
  - eexists. split; [done|]. split; [|apply without_delete]. rewrite delete_id by done.
    destruct Hr as [H1 H2]. by split.
Qed.

Lemma ack_seqs_spec {E} at_ seqs r :
  Resend_inv r → Forall u24_valid seqs → ∃ r', ack_seqs (E:=E) at_ seqs r = Ok r' ∧ Resend_inv r' ∧
    without seqs (rm_reliable r) (rm_reliable r').
Proof.
  intros Hr Hs. revert r Hr. induction Hs as [|i seqs Hi Hs IH]; intros r Hr; cbn.
  { exists r. split_and!; [done..|apply without_nil]. }
  rewrite u24_from_Ok by done. cbn.
  destruct (ack_one_spec (E:=E) at_ i r Hr) as (r1 & -> & Hr1 & Hw1). cbn.
  destruct (IH r1 Hr1) as (r2 & -> & Hr2 & Hw2). exists r2. split_and!; [done|done|].
  by apply (without_trans [i] seqs _ _ _ Hw1 Hw2).
Qed.

Lemma ack_records_spec {E} at_ recs r :
  Resend_inv r → records_valid recs → ∃ r', ack_records (E:=E) at_ recs r = Ok r' ∧ Resend_inv r' ∧
    without (recs ≫= record_seqs) (rm_reliable r) (rm_reliable r').
Proof.
  intros Hr Hv%record_seqs_valid. revert r Hr. induction recs as [|rec recs IH]; intros r Hr; cbn.
  { exists r. split_and!; [done..|apply without_nil]. }
  cbn in Hv. apply Forall_app in Hv as [Hv1 Hv2].
  destruct (ack_seqs_spec (E:=E) at_ (record_seqs rec) r Hr Hv1) as (r1 & -> & Hr1 & Hw1). cbn.
  destruct (IH Hv2 r1 Hr1) as (r2 & -> & Hr2 & Hw2). exists r2. split_and!; [done|done|].
  by apply (without_trans _ _ _ _ _ Hw1 Hw2).
Qed.

Lemma on_ack_spec {E} ack at_ r :
  Resend_inv r → records_valid (records ack) → ∃ r', on_ack (E:=E) ack at_ r = Ok r' ∧ Resend_inv r' ∧
    without (seqs_of ack) (rm_reliable r) (rm_reliable r').
Proof.
  intros Hr Hv. unfold on_ack.
  destruct (ack_records_spec (E:=E) at_ (records ack) r Hr Hv) as (r' & -> & Hr' & Hw). cbn.
  rewrite debug_assert_inflight_Ok by done. by exists r'.
Qed.

(** Frames only move between the map and the buffer. *)
Definition conserves (r : ResendMap T) (buf : SendBuffer) (r' : ResendMap T) (buf' : SendBuffer) : Prop :=
  map_frames (rm_reliable r) ++ buffered buf ≡ₚ map_frames (rm_reliable r') ++ buffered buf'.

Lemma conserves_refl r buf : conserves r buf r buf.
Proof. unfold conserves. done. Qed.

Lemma conserves_trans r b r1 b1 r2 b2 :
  conserves r b r1 b1 → conserves r1 b1 r2 b2 → conserves r b r2 b2.
Proof. unfold conserves. intros H1 H2. by rewrite H1. Qed.

Lemma penalize_frames p fs : pf_frame <$> penalize p fs = fs.
Proof. unfold penalize. rewrite <-list_fmap_compose. by rewrite list_fmap_id. Qed.

Lemma nack_one_spec {E} i r buf :
  Resend_inv r → SendBuffer_ok buf →
  ∃ r' buf', nack_one (E:=E) i r buf = Ok (r', buf') ∧ Resend_inv r' ∧ SendBuffer_ok buf' ∧
    without [i] (rm_reliable r) (rm_reliable r') ∧ conserves r buf r' buf'.
Proof.
  intros Hr Hb. unfold nack_one. destruct (rm_reliable r !! i) as [e|] eqn:Hi.
  - pose proof (ri_frames _ Hr _ _ Hi) as Hne. cbn in Hne.
    destruct (re_frames e) as [fs|] eqn:Hf; [|done].
    assert (entry_frames e = fs) as He by (unfold entry_frames; by rewrite Hf).
    pose proof (inflight_bound _ _ _ Hr Hi) as Hle. rewrite He in Hle.
    rewrite usub_Ok by done. cbn. eexists _, _. split; [done|].
    destruct (SendBuffer_resend_ok (penalize (re_penalty e) fs) buf Hb) as [Hok Hperm].
    split_and!; [eapply Resend_inv_delete; [done|done|by rewrite He|apply Hr]|done|apply without_delete|].
    unfold conserves. cbn. rewrite Hperm, penalize_frames, (map_frames_delete _ _ _ Hi), He.
    solve_Permutation.
  - exists r, buf. split_and!; [done..| |apply conserves_refl]. intros j. case_decide as Hd; [|done].
    by apply list_elem_of_singleton in Hd as ->.
Qed.

Lemma nack_seqs_spec {E} seqs r buf :
  Resend_inv r → SendBuffer_ok buf → Forall u24_valid seqs →
  ∃ r' buf', nack_seqs (E:=E) seqs r buf = Ok (r', buf') ∧ Resend_inv r' ∧ SendBuffer_ok buf' ∧
    without seqs (rm_reliable r) (rm_reliable r') ∧ conserves r buf r' buf'.
Proof.
  intros Hr Hb Hs. revert r buf Hr Hb. induction Hs as [|i seqs Hi Hs IH]; intros r buf Hr Hb; cbn.
  { exists r, buf. split_and!; [done..|apply without_nil|apply conserves_refl]. }
  rewrite u24_from_Ok by done. cbn.
  destruct (nack_one_spec (E:=E) i r buf Hr Hb) as (r1 & b1 & -> & Hr1 & Hb1 & Hw1 & Hc1). cbn.
  destruct (IH r1 b1 Hr1 Hb1) as (r2 & b2 & -> & Hr2 & Hb2 & Hw2 & Hc2). exists r2, b2.
  split_and!; [done..|by apply (without_trans [i] seqs _ _ _ Hw1 Hw2)|].
  by eapply conserves_trans.
Qed.

Lemma on_nack_into_spec {E} nack r buf :
  Resend_inv r → SendBuffer_ok buf → records_valid (records nack) →
  ∃ r' buf', on_nack_into (E:=E) nack r buf = Ok (r', buf') ∧ Resend_inv r' ∧ SendBuffer_ok buf' ∧
    without (seqs_of nack) (rm_reliable r) (rm_reliable r') ∧ conserves r buf r' buf'.
Proof.
  intros Hr Hb Hv%record_seqs_valid. unfold on_nack_into, seqs_of.
  assert (∀ recs r buf, Forall u24_valid (recs ≫= record_seqs) → Resend_inv r → SendBuffer_ok buf →
    ∃ r' buf', nack_records (E:=E) recs r buf = Ok (r', buf') ∧ Resend_inv r' ∧ SendBuffer_ok buf' ∧
    without (recs ≫= record_seqs) (rm_reliable r) (rm_reliable r') ∧ conserves r buf r' buf') as Hall.
  { clear. induction recs as [|rec recs IH]; intros r buf Hv Hr Hb; cbn.
    { exists r, buf. split_and!; [done..|apply without_nil|apply conserves_refl]. }
    cbn in Hv. apply Forall_app in Hv as [Hv1 Hv2].
    destruct (nack_seqs_spec (E:=E) _ r buf Hr Hb Hv1) as (r1 & b1 & -> & Hr1 & Hb1 & Hw1 & Hc1). cbn.
    destruct (IH r1 b1 Hv2 Hr1 Hb1) as (r2 & b2 & -> & Hr2 & Hb2 & Hw2 & Hc2). exists r2, b2.
    split_and!; [done..|by apply (without_trans _ _ _ _ _ Hw1 Hw2)|]. by eapply conserves_trans. }
  destruct (Hall (records nack) r buf Hv Hr Hb) as (r' & b' & -> & Hr' & Hb' & Hw & Hc). cbn.
  rewrite debug_assert_inflight_Ok by done. by exists r', b'.
Qed.

(** The scan over the entries [es] of the map [m]. *)
Lemma retain_stales_spec {E} now es m n mn buf :
  NoDup es.*1 → (∀ i e, (i, e) ∈ es → m !! i = Some e ∧ re_frames e ≠ None) →
  n = Z.of_nat (length (map_frames m)) → SendBuffer_ok buf →
  ∃ m' mn' buf', retain_stales (E:=E) now es m n mn buf =
      Ok (m', Z.of_nat (length (map_frames m')), mn', buf') ∧ SendBuffer_ok buf' ∧
    map_frames m ++ buffered buf ≡ₚ map_frames m' ++ buffered buf' ∧
    (∀ i e, m' !! i = Some e ↔ m !! i = Some e ∧ ((i, e) ∈ es → now < expired_at e)) ∧
    mn' ≤ mn ∧ (now ≤ mn → now ≤ mn') ∧ (∀ i e, (i, e) ∈ es → now < expired_at e → mn' ≤ expired_at e).
Proof.
  revert m n mn buf. induction es as [|[i e] es IH]; intros m n mn buf Hnd Hes Hn Hb; cbn.
  { exists m, mn, buf. subst n. split_and!; try done; set_solver. }
  cbn in Hnd. apply NoDup_cons in Hnd as [Hnin Hnd].
  destruct (Hes i e) as [Hi Hf]; [set_solver|].
  destruct (Z.leb_spec (expired_at e) now) as [Hle|Hgt].
  - destruct (re_frames e) as [fs|] eqn:Hfs; [|done].
    assert (entry_frames e = fs) as He by (unfold entry_frames; by rewrite Hfs).
    pose proof (map_frames_delete _ _ _ Hi) as Hmf. pose proof (Permutation_length Hmf) as Hl.
    rewrite He, length_app in Hl. rewrite usub_Ok by lia. cbn.
    destruct (SendBuffer_resend_ok (penalize (re_penalty e) fs) buf Hb) as [Hok Hperm].
    destruct (IH (delete i m) (n - Z.of_nat (length fs)) mn
      (SendBuffer_resend (penalize (re_penalty e) fs) buf) Hnd)
      as (m' & mn' & b' & -> & H1 & H2 & H3 & H4 & H5 & H6); [|lia|done|].
    { intros j f Hj. destruct (Hes j f) as [Hj1 Hj2]; [set_solver|]. split; [|done].
      rewrite lookup_delete_ne; [done|]. intros <-. apply Hnin. apply list_elem_of_fmap. by exists (i, f). }
    exists m', mn', b'. split_and!; [done|done| | |done|done|].
    + rewrite <-H2, Hmf, He, Hperm, penalize_frames. solve_Permutation.
    + intros j f. rewrite H3. split.
      * intros [[Hne Hj]%lookup_delete_Some Hjs]. split; [done|].
        intros [[= -> ->]|Hin]%elem_of_cons; [done|auto].
      * intros [Hj Hjs]. destruct (decide (i = j)) as [<-|Hne].
        -- rewrite Hi in Hj. injection Hj as <-. specialize (Hjs ltac:(left)). lia.
        -- split; [by rewrite lookup_delete_ne|]. intros Hin. apply Hjs. by right.
    + intros j f [[= -> ->]|Hin]%elem_of_cons Hlt; [lia|by eapply H6].
  - destruct (IH m n (Z.min mn (expired_at e)) buf Hnd) as (m' & mn' & b' & -> & H1 & H2 & H3 & H4 & H5 & H6);
      [set_solver|done|done|].
    exists m', mn', b'. split_and!; [done|done|done| |lia|lia|].
    + intros j f. rewrite H3. split; [|naive_solver set_solver].
      intros [Hj Hjs]. split; [done|]. intros [[= -> ->]|Hin]%elem_of_cons; [done|auto].
    + intros j f [[= -> ->]|Hin]%elem_of_cons Hlt; [lia|by eapply H6].
Qed.

Lemma process_stales_spec {E} now r buf :
  Resend_inv r → SendBuffer_ok buf →
  ∃ r' buf', process_stales (E:=E) now r buf = Ok (r', buf') ∧ Resend_inv r' ∧ SendBuffer_ok buf' ∧
    conserves r buf r' buf' ∧
    (∀ i e, rm_reliable r' !! i = Some e ↔ rm_reliable r !! i = Some e ∧
      (last_record_expired_at r ≤ now → now < expired_at e)) ∧
    (rm_reliable r ≠ ∅ → last_record_expired_at r ≤ now →
      now ≤ last_record_expired_at r' ≤ now + MAX_SKIP_SCAN_RTO ∧
      ∀ i e, rm_reliable r' !! i = Some e → last_record_expired_at r' ≤ expired_at e).
Proof.
  intros Hr Hb. pose proof (est_ok_rto _ (ri_estimator _ Hr)) as Hrto. unfold process_stales. case_decide as Hem.
  { exists r, buf. split_and!; [done..|apply conserves_refl| |done].
    intros i e. rewrite Hem, lookup_empty. naive_solver. }
  destruct (Z.ltb_spec now (last_record_expired_at r)) as [Hlt|Hge].
  { exists r, buf. split_and!; [done..|apply conserves_refl| |lia]. intros i e. naive_solver lia. }
  set (mn := now + Z.min (est_rto (estimator r)) MAX_SKIP_SCAN_RTO).
  assert (now ≤ mn ≤ now + MAX_SKIP_SCAN_RTO) as Hmn by (unfold mn, MAX_SKIP_SCAN_RTO; lia).
  assert (∀ i e, (i, e) ∈ hash_iter (rm_reliable r) ↔ rm_reliable r !! i = Some e) as Hiter.
  { intros i e. by rewrite hash_iter_Permutation, elem_of_map_to_list. }
  destruct (retain_stales_spec (E:=E) now (hash_iter (rm_reliable r)) (rm_reliable r) (inflight r) mn buf)
    as (m' & mn' & b' & -> & H1 & H2 & H3 & H4 & H5 & H6).
  { rewrite hash_iter_Permutation. apply NoDup_fst_map_to_list. }
  { intros i e Hin%Hiter. split; [done|]. by apply (ri_frames _ Hr) in Hin. }
  { apply (ri_inflight _ Hr). }
  { done. }
  cbn [mbind outcome_bind]. specialize (H5 ltac:(lia)).
  unfold debug_assert. rewrite (proj2 (Z.leb_le _ _)) by lia. cbn [assert_].
  replace (if debug_assertions then Ok tt else Ok tt) with (Ok (E:=E) tt) by (by destruct debug_assertions).
  cbn [mbind outcome_bind]. set (r' := mkResendMap m' _ _ _ _ _). assert (Resend_inv r') as Hr'.
  { split; cbn; [|done|].
    - intros i e Hi. apply H3 in Hi as [Hi _]. by apply (ri_frames _ Hr) in Hi.
    - case_bool_decide; [apply est_ok_clear|]; apply Hr. }
  rewrite debug_assert_inflight_Ok.
  - cbn [mbind outcome_bind]. eexists _, b'. split; [done|]. split_and!; try done; cbn; try lia.
    + intros i e. rewrite H3, Hiter. naive_solver.
    + intros _ _. split; [lia|]. intros i e Hi. apply H3 in Hi as [Hi He].
      apply (H6 i); [by apply Hiter|]. apply He. by apply Hiter.
  - done.
Qed.

Lemma record_spec {E} now seq pen fs r :
  Resend_inv r → rm_reliable r !! seq = None →
  ∃ r', ResendMap_record (E:=E) now seq pen fs r = Ok r' ∧ Resend_inv r' ∧
    map_frames (rm_reliable r') ≡ₚ fs ++ map_frames (rm_reliable r) ∧
    dom (rm_reliable r') = {[ seq ]} ∪ dom (rm_reliable r) ∧ estimator r' = estimator r.
Proof.
  intros [H1 H2 H3] Hs. unfold ResendMap_record. set (e := mkResendEntry _ _ _ _).
  set (r' := set_map _ _ _ _).
  pose proof (map_frames_insert (rm_reliable r) seq e Hs) as Hp.
  assert (Resend_inv r') as Hr'.
  { split; cbn; [by apply map_Forall_insert_2| |done].
    rewrite (Permutation_length Hp), length_app. cbn. lia. }
  rewrite debug_assert_inflight_Ok by done. cbn [mbind outcome_bind]. exists r'.
  split_and!; [done|done|exact Hp|cbn; apply dom_insert_L|done].
Qed.

(** Acknowledgements retire exactly what they name: after [on_ack], the frame
    sets the records name are no longer in flight, all others still are, the
    in-flight counter is the number of frames in flight, and nothing panics, even
    for numbers that were never sent or inverted ranges. *)
Theorem on_ack_retires {E} ack at_ r :
  Resend_inv r → records_valid (records ack) →
  ∃ r', on_ack (E:=E) ack at_ r = Ok r' ∧ Resend_inv r' ∧
    inflight r' = Z.of_nat (length (map_frames (rm_reliable r'))) ∧
    ∀ i, rm_reliable r' !! i = if decide (i ∈ seqs_of ack) then None else rm_reliable r !! i.
Proof.
  intros Hr Hv. destruct (on_ack_spec (E:=E) ack at_ r Hr Hv) as (r' & H1 & H2 & H3).
  exists r'. split_and!; [done|done|apply H2|done].
Qed.

(** A negative acknowledgement loses no frame: the frames of the frame sets
    it names move from the map to the send buffer, everything else stays. *)
Theorem on_nack_conserves {E} nack r buf :
  Resend_inv r → SendBuffer_ok buf → records_valid (records nack) →
  ∃ r' buf', on_nack_into (E:=E) nack r buf = Ok (r', buf') ∧ Resend_inv r' ∧ SendBuffer_ok buf' ∧
    map_frames (rm_reliable r) ++ buffered buf ≡ₚ map_frames (rm_reliable r') ++ buffered buf' ∧
    ∀ i, rm_reliable r' !! i = if decide (i ∈ seqs_of nack) then None else rm_reliable r !! i.
Proof.
  intros Hr Hb Hv. destruct (on_nack_into_spec (E:=E) nack r buf Hr Hb Hv) as (r' & b' & H1 & H2 & H3 & H4 & H5).
  by exists r', b'.
Qed.

(** Timeouts are complete and bounded: a scan moves exactly the expired frame
    sets back to the send buffer, loses no frame, and plans the next scan not
    after the next expiry and at most 3 seconds ahead. *)
Theorem process_stales_collects {E} now r buf :
  Resend_inv r → SendBuffer_ok buf →
  rm_reliable r ≠ ∅ → last_record_expired_at r ≤ now →
  ∃ r' buf', process_stales (E:=E) now r buf = Ok (r', buf') ∧ Resend_inv r' ∧ SendBuffer_ok buf' ∧
    map_frames (rm_reliable r) ++ buffered buf ≡ₚ map_frames (rm_reliable r') ++ buffered buf' ∧
    (∀ i e, rm_reliable r' !! i = Some e ↔ rm_reliable r !! i = Some e ∧ now < expired_at e) ∧
    now ≤ last_record_expired_at r' ≤ now + MAX_SKIP_SCAN_RTO ∧
    (∀ i e, rm_reliable r' !! i = Some e → last_record_expired_at r' ≤ expired_at e).
Proof.
  intros Hr Hb Hne Hle.
  destruct (process_stales_spec (E:=E) now r buf Hr Hb) as (r' & b' & H1 & H2 & H3 & H4 & H5 & H6).
  destruct (H6 Hne Hle) as [H7 H8]. exists r', b'. split_and!; try done; try lia.
  intros i e. rewrite H5. naive_solver.
Qed.
End resend.

(** Two frame sets in flight. *)
Definition sample_resend : ResendMap RFC6298Impl :=
  mkResendMap
    {[ 3 := mkResendEntry 0 (Some [mkFrame (Flags_new Reliable false) (Some 0) None None None [1]]) 0 100;
       4 := mkResendEntry 1 (Some [mkFrame (Flags_new Reliable false) (Some 1) None None None [2];
                                   mkFrame (Flags_new Reliable false) (Some 2) None None None [3]]) 10 900 ]}
    3 (Server 1) (mkPeer 2 (V4 0 0) 1400) 0 RFC6298_new.

Lemma sample_resend_inv : Resend_inv sample_resend.
Proof. split; [apply map_Forall_to_list; vm_compute; repeat constructor; done|by vm_compute|by vm_compute]. Defined.

Lemma on_ack_retires_witness :
  ∃ r', on_ack (B:=true) (HI:=hash_iter_reference) (E:=io_error) (mkAckOrNack [Range 4 9; Single 77]) 50 sample_resend = Ok r' ∧
    Resend_inv r' ∧ inflight r' = Z.of_nat (length (map_frames (rm_reliable r'))) ∧
    ∀ i, rm_reliable r' !! i =
      if decide (i ∈ seqs_of (mkAckOrNack [Range 4 9; Single 77])) then None else rm_reliable sample_resend !! i.
Proof.
  apply (on_ack_retires (B:=true) (HI:=hash_iter_reference) (E:=io_error)); [apply sample_resend_inv|].
  repeat constructor; vm_compute; done.
Defined.

Lemma on_nack_conserves_witness :
  ∃ r' buf', on_nack_into (B:=true) (BH:=heap_sorted) (HI:=hash_iter_reference) (E:=io_error)
      (mkAckOrNack [Single 3]) sample_resend SendBuffer_new = Ok (r', buf') ∧
    Resend_inv r' ∧ SendBuffer_ok (BH:=heap_sorted) buf' ∧
    map_frames (rm_reliable sample_resend) ++ buffered SendBuffer_new ≡ₚ
      map_frames (rm_reliable r') ++ buffered buf' ∧
    ∀ i, rm_reliable r' !! i =
      if decide (i ∈ seqs_of (mkAckOrNack [Single 3])) then None else rm_reliable sample_resend !! i.
Proof.
  apply (on_nack_conserves (B:=true) (BH:=heap_sorted) (HI:=hash_iter_reference) (E:=io_error));
    [apply sample_resend_inv|apply SendBuffer_new_ok|]. repeat constructor; vm_compute; done.
Defined.

Lemma process_stales_collects_witness :
  ∃ r' buf', process_stales (B:=true) (BH:=heap_sorted) (HI:=hash_iter_reference) (E:=io_error)
      200 sample_resend SendBuffer_new = Ok (r', buf') ∧
    Resend_inv r' ∧ SendBuffer_ok (BH:=heap_sorted) buf' ∧
    map_frames (rm_reliable sample_resend) ++ buffered SendBuffer_new ≡ₚ
      map_frames (rm_reliable r') ++ buffered buf' ∧
    (∀ i e, rm_reliable r' !! i = Some e ↔ rm_reliable sample_resend !! i = Some e ∧ 200 < expired_at e) ∧
    200 ≤ last_record_expired_at r' ≤ 200 + MAX_SKIP_SCAN_RTO ∧
    (∀ i e, rm_reliable r' !! i = Some e → last_record_expired_at r' ≤ expired_at e).
Proof.
  apply (process_stales_collects (B:=true) (BH:=heap_sorted) (HI:=hash_iter_reference) (E:=io_error) 200 sample_resend);
    [apply sample_resend_inv|apply SendBuffer_new_ok|done|by vm_compute].
Defined.
