(* ===== verification/Opts.v ===== *)
(** * Flush strategies (src/opts.rs, [FlushStrategy])

    A strategy travels as the extension of the task's context: it selects what a
    flush sends and comes back with the number of items sent.  A tag is -1 when
    the kind is not to be flushed. *)
From S2P Require Import Prelude Bytes Errors SeqNum Types AckNack FrameSet Collections Channels Reactor Link.
From S2P Require Import SendBuffer.
Open Scope Z_scope.

Record FlushStrategy := mkFlushStrategy {
  ack_tag : Z;
  nack_tag : Z;
  pack_tag : Z;
}.

(** [#[derive(Default)]] *)
Definition FlushStrategy_default : FlushStrategy := mkFlushStrategy 0 0 0.

Definition FlushStrategy_new (ack nack pack : bool) : FlushStrategy :=
  mkFlushStrategy (if ack then 0 else -1) (if nack then 0 else -1) (if pack then 0 else -1).

Definition flushed_ack {E} (s : FlushStrategy) : outcome E Z :=
  assert_ (negb (ack_tag s =? -1));; mret (wrap 64 (ack_tag s)).
Definition flushed_nack {E} (s : FlushStrategy) : outcome E Z :=
  assert_ (negb (nack_tag s =? -1));; mret (wrap 64 (nack_tag s)).
Definition flushed_pack {E} (s : FlushStrategy) : outcome E Z :=
  assert_ (negb (pack_tag s =? -1));; mret (wrap 64 (pack_tag s)).

Definition flush_ack (s : FlushStrategy) : bool := negb (ack_tag s =? -1).
Definition flush_nack (s : FlushStrategy) : bool := negb (nack_tag s =? -1).
Definition flush_pack (s : FlushStrategy) : bool := negb (pack_tag s =? -1).

Definition check_flushed {CQ : ConcurrentQueueCrate} (s : FlushStrategy) (link : TransferLink) (buf : SendBuffer) :
    bool :=
  let ret := true in
  let ret := if negb (ack_tag s =? -1) then ret && outgoing_ack_empty link else ret in
  let ret := if negb (nack_tag s =? -1) then ret && outgoing_nack_empty link else ret in
  if negb (pack_tag s =? -1) then ret && (unconnected_empty link && SendBuffer_is_empty buf) else ret.

(** [self.tag += cnt as isize] unless the kind is disabled. *)
Definition mark_tag {E} {B : Build} (tag cnt : Z) : outcome E Z :=
  if tag =? -1 then mret tag else iadd 64 tag (to_signed 64 cnt).

Definition mark_flushed_ack {E} {B : Build} (cnt : Z) (s : FlushStrategy) : outcome E FlushStrategy :=
  t ← mark_tag (ack_tag s) cnt; mret (mkFlushStrategy t (nack_tag s) (pack_tag s)).
Definition mark_flushed_nack {E} {B : Build} (cnt : Z) (s : FlushStrategy) : outcome E FlushStrategy :=
  t ← mark_tag (nack_tag s) cnt; mret (mkFlushStrategy (ack_tag s) t (pack_tag s)).
Definition mark_flushed_pack {E} {B : Build} (cnt : Z) (s : FlushStrategy) : outcome E FlushStrategy :=
  t ← mark_tag (pack_tag s) cnt; mret (mkFlushStrategy (ack_tag s) (nack_tag s) t).

Lemma mark_tag_Ok {E} {B : Build} tag cnt :
  -1 ≤ tag → 0 ≤ cnt → tag + cnt < 2 ^ 63 →
  mark_tag (E:=E) tag cnt = Ok (if tag =? -1 then -1 else tag + cnt).
Proof.
  intros Ht Hc Hs. unfold mark_tag. destruct (Z.eqb_spec tag (-1)) as [->|Hne]; [done|].
  unfold to_signed. rewrite (proj2 (Z.ltb_lt _ _)) by lia. apply iadd_Ok. unfold sint. lia.
Qed.

Lemma check_flushed_spec {CQ : ConcurrentQueueCrate} s link buf :
  check_flushed s link buf = true ↔
    (flush_ack s = true → outgoing_ack link = []) ∧
    (flush_nack s = true → outgoing_nack link = ∅) ∧
    (flush_pack s = true → cq_list (link_unconnected link) = [] ∧ SendBuffer_len buf = 0%nat).
Proof.
  unfold check_flushed, flush_ack, flush_nack, flush_pack, outgoing_ack_empty, outgoing_nack_empty,
    unconnected_empty, SendBuffer_is_empty.
  destruct (ack_tag s =? -1), (nack_tag s =? -1), (pack_tag s =? -1); cbn;
    rewrite ?andb_true_iff, ?bool_decide_eq_true, ?length_zero_iff_nil; naive_solver.
Qed.
