(* ===== verification/Reliable.v ===== *)
(** * The reliable layer (src/reliable.rs, [ReliableLayer])

    The bottom of the sending side of a connection: it collects frames in the send
    buffer, packs them into numbered frame sets, keeps the reliable ones for
    resending, and flushes acknowledgements. *)
From S2P Require Import Prelude Bytes Errors Reader SeqNum Types PackType Unconnected AckNack FrameSet.
From S2P Require Import FrameBody Packet Sink Collections Channels Reactor Dedup Link Estimator SendBuffer.
From S2P Require Import Resend Opts.
Open Scope Z_scope.

Section reliable.
Context {B : Build} {BH : BinaryHeap} {HI : HashIter} {CQ : ConcurrentQueueCrate}.

(** What the sinks of a connection share: the link, the global reactor, and the
    task that polls them, with the time of the poll, the waker and the extension
    of its context.  The clock does not advance within one operation. *)
Record World := mkWorld {
  w_link : TransferLink;
  w_reactor : Reactor;
  cx_now : Z;
  cx_waker : nat;
  cx_ext : option FlushStrategy;
}.

Definition world_link (l : TransferLink) (w : World) : World :=
  mkWorld l (w_reactor w) (cx_now w) (cx_waker w) (cx_ext w).
Definition world_reactor (r : Reactor) (w : World) : World :=
  mkWorld (w_link w) r (cx_now w) (cx_waker w) (cx_ext w).
Definition world_ext (e : option FlushStrategy) (w : World) : World :=
  mkWorld (w_link w) (w_reactor w) (cx_now w) (cx_waker w) e.
Definition world_now (now : Z) (w : World) : World :=
  mkWorld (w_link w) (w_reactor w) now (cx_waker w) (cx_ext w).

Context {F T : Type} `{!Sink F (Packet * SocketAddr)} `{!Estimator T}.

Record ReliableLayer := mkReliableLayer {
  rl_frame : F;
  rl_world : World;
  seq_num_write_index : u24;
  rl_peer : Peer;
  rl_role : Role;
  rl_buf : SendBuffer;
  rl_resend : ResendMap T;
}.

Definition wrap_reliable (frame : F) (w : World) (peer : Peer) (role : Role) (e : T) : ReliableLayer :=
  mkReliableLayer frame w 0 peer role SendBuffer_new (ResendMap_new (cx_now w) role peer e).

Definition rl_link (st : ReliableLayer) : TransferLink := w_link (rl_world st).

Definition set_rl_frame (frame : F) (st : ReliableLayer) : ReliableLayer :=
  mkReliableLayer frame (rl_world st) (seq_num_write_index st) (rl_peer st) (rl_role st) (rl_buf st) (rl_resend st).
Definition set_rl_world (w : World) (st : ReliableLayer) : ReliableLayer :=
  mkReliableLayer (rl_frame st) w (seq_num_write_index st) (rl_peer st) (rl_role st) (rl_buf st) (rl_resend st).
Definition set_rl_link (l : TransferLink) (st : ReliableLayer) : ReliableLayer :=
  set_rl_world (world_link l (rl_world st)) st.
Definition set_rl_out (seq : u24) (buf : SendBuffer) (r : ResendMap T) (st : ReliableLayer) : ReliableLayer :=
  mkReliableLayer (rl_frame st) (rl_world st) seq (rl_peer st) (rl_role st) buf r.

Fixpoint ack_all {E} (acks : list (AckOrNack * Z)) (r : ResendMap T) : outcome E (ResendMap T) :=
  match acks with
  | [] => mret r
  | (ack, received_at) :: acks => r ← on_ack ack received_at r; ack_all acks r
  end.

Fixpoint nack_all {E} (nacks : list AckOrNack) (r : ResendMap T) (buf : SendBuffer) :
    outcome E (ResendMap T * SendBuffer) :=
  match nacks with
  | [] => mret (r, buf)
  | nack :: nacks => '(r, buf) ← on_nack_into nack r buf; nack_all nacks r buf
  end.

Definition process_inflight {E} (st : ReliableLayer) : outcome E ReliableLayer :=
  let '(acks, l) := process_ack (rl_link st) in
  r ← ack_all acks (rl_resend st);
  let '(nacks, l) := process_nack l in
  '(r, buf) ← nack_all nacks r (rl_buf st);
  '(r, buf) ← process_stales (cx_now (rl_world st)) r buf;
  mret (set_rl_out (seq_num_write_index st) buf r (set_rl_link l st)).

(** The state of the loop of [try_empty]: the layer and the counters of sent
    acknowledgements, negative acknowledgements and packets. *)
Definition emptying : Type := ReliableLayer * (Z * Z * Z).

(** [ready!(this.frame.poll_ready(cx))?] *)
Definition when_ready (x : emptying) (k : emptying → sink_poll emptying) : sink_poll emptying :=
  and_then (poll_ready (A:=Packet * SocketAddr) (rl_frame x.1)) (λ frame, (set_rl_frame frame x.1, x.2))
    (λ frame, k (set_rl_frame frame x.1, x.2)).

(** [this.frame.start_send((packet, this.peer.addr))?] *)
Definition send_packet (p : Packet) (x : emptying) (k : emptying → sink_poll emptying) : sink_poll emptying :=
  send_then (start_send (p, peer_addr (rl_peer x.1)) (rl_frame x.1)) (λ frame, (set_rl_frame frame x.1, x.2))
    (λ frame, k (set_rl_frame frame x.1, x.2)).

(** 1. empty the outgoing ack *)
Definition empty_ack (s : FlushStrategy) (x : emptying) (k : emptying → sink_poll emptying) :
    sink_poll emptying :=
  when_ready x (λ '(st, (a, n, p)),
    if flush_ack s then
      '(ack, l) ← process_outgoing_ack (peer_mtu (rl_peer st)) (rl_link st);
      let st := set_rl_link l st in
      match ack with
      | Some ack =>
          c ← AckOrNack_total_cnt ack;
          send_packet (PConnected (CAck ack)) (st, (a + c, n, p)) k
      | None => k (st, (a, n, p))
      end
    else k (st, (a, n, p))).

(** 2. empty the outgoing nack *)
Definition empty_nack (s : FlushStrategy) (x : emptying) (k : emptying → sink_poll emptying) :
    sink_poll emptying :=
  when_ready x (λ '(st, (a, n, p)),
    if flush_nack s then
      '(nack, l) ← process_outgoing_nack (peer_mtu (rl_peer st)) (rl_link st);
      let st := set_rl_link l st in
      match nack with
      | Some nack =>
          c ← AckOrNack_total_cnt nack;
          send_packet (PConnected (CNack nack)) (st, (a, n + c, p)) k
      | None => k (st, (a, n, p))
      end
    else k (st, (a, n, p))).

(** 3. empty the unconnected packets, one each time *)
Definition empty_unconnected (x : emptying) (k : emptying → sink_poll emptying) : sink_poll emptying :=
  when_ready x (λ '(st, (a, n, p)),
    let '(packet, l) := process_unconnected (rl_link st) in
    let st := set_rl_link l st in
    match packet with
    | Some packet =>
        send_packet (PUnconnected packet) (st, (a, n, p)) (λ '(st, (a, n, p)), k (st, (a, n, p + 1)))
    | None => k (st, (a, n, p))
    end).

(** 4. empty the frame set; it is kept for resending when a frame is reliable *)
Definition empty_frame_set (x : emptying) (k : emptying → sink_poll emptying) : sink_poll emptying :=
  when_ready x (λ '(st, (a, n, p)),
    '(reliable, pen, frames, buf) ← SendBuffer_pop (peer_mtu (rl_peer st)) (rl_buf st);
    let st := set_rl_out (seq_num_write_index st) buf (rl_resend st) st in
    match frames with
    | [] => k (st, (a, n, p))
    | _ =>
        send_packet (PConnected (CFrameSet (mkFrameSet (seq_num_write_index st) frames))) (st, (a, n, p))
          (λ '(st, (a, n, p)),
          r ← (if (reliable : bool)
               then ResendMap_record (cx_now (rl_world st)) (seq_num_write_index st) pen frames (rl_resend st)
               else mret (rl_resend st));
          seq ← u24_add_assign (seq_num_write_index st) 1;
          k (set_rl_out seq (rl_buf st) r st, (a, n, p + 1)))
    end).

(** One round of the loop. *)
Definition empty_round (s : FlushStrategy) (x : emptying) (k : emptying → sink_poll emptying) :
    sink_poll emptying :=
  empty_ack s x (λ x, empty_nack s x (λ x,
    if flush_pack s then empty_unconnected x (λ x, empty_frame_set x k) else k x)).

(** [while !strategy.check_flushed(this.link, this.buf)] *)
Fixpoint empty_loop (s : FlushStrategy) (fuel : nat) (x : emptying) : sink_poll emptying :=
  if check_flushed s (rl_link x.1) (rl_buf x.1) then mret (Ready (inr tt), x)
  else
    match fuel with
    | O => Err OutOfFuel
    | S fuel => empty_round s x (empty_loop s fuel)
    end.

(** What is waiting to be sent; every round sends at least one of it. *)
Definition pending (st : ReliableLayer) : nat :=
  length (outgoing_ack (rl_link st)) + size (outgoing_nack (rl_link st)) +
  length (cq_list (link_unconnected (rl_link st))) + SendBuffer_len (rl_buf st).

(** [strategy_.mark_flushed_*], on the strategy of the context if it has one *)
Definition mark_flushed {E} (cnt : Z * Z * Z) (w : World) : outcome E World :=
  match cx_ext w with
  | Some s =>
      s ← mark_flushed_ack cnt.1.1 s;
      s ← mark_flushed_nack cnt.1.2 s;
      s ← mark_flushed_pack cnt.2 s;
      mret (world_ext (Some s) w)
  | None => mret w
  end.

Definition try_empty (st : ReliableLayer) : sink_poll ReliableLayer :=
  st ← process_inflight st;
  let strategy := default FlushStrategy_default (cx_ext (rl_world st)) in
  '(res, (st, cnt)) ← empty_loop strategy (pending st) (st, (0, 0, 0));
  match res with
  | Ready (inr _) =>
      w ← mark_flushed cnt (rl_world st);
      mret (Ready (inr tt), set_rl_world w st)
  | res => mret (res, st)
  end.

Definition Reliable_poll_ready (st : ReliableLayer) : sink_poll ReliableLayer :=
  st ← process_inflight st;
  mret (Ready (inr tt), st).

Definition Reliable_start_send (item : Priority * Frame) (st : ReliableLayer) : sink_send ReliableLayer :=
  mret (inr tt, set_rl_out (seq_num_write_index st) (SendBuffer_send item (rl_buf st)) (rl_resend st) st).

(** A poll of the sink below. *)
Definition poll_below (op : F → sink_poll F) (st : ReliableLayer) : sink_poll ReliableLayer :=
  '(r, frame) ← op (rl_frame st); mret (r, set_rl_frame frame st).

Definition Reliable_poll_flush (st : ReliableLayer) : sink_poll ReliableLayer :=
  and_then (try_empty st) id (poll_below (poll_flush (A:=Packet * SocketAddr))).

(** The loop of [poll_close], [nows] being the times at which its rounds run; when
    they are used up, the poll has not returned yet. *)
Fixpoint close_loop (nows : list Z) (st : ReliableLayer) : sink_poll ReliableLayer :=
  match nows with
  | [] => Err OutOfFuel
  | now :: nows =>
      and_then (try_empty (set_rl_world (world_now now (rl_world st)) st)) id (λ st,
      debug_assert (SendBuffer_is_empty (rl_buf st) && unconnected_empty (rl_link st)
        && outgoing_ack_empty (rl_link st) && outgoing_nack_empty (rl_link st));;
      and_then (poll_below (poll_flush (A:=Packet * SocketAddr)) st) id (λ st,
      if ResendMap_is_empty (rl_resend st) then
        poll_below (poll_close (A:=Packet * SocketAddr)) (set_rl_link (turn_off_waking (rl_link st)) st)
      else
        let '(r, reactor) := poll_wait now (cx_waker (rl_world st)) (rl_resend st) (w_reactor (rl_world st)) in
        let st := set_rl_world (world_reactor reactor (rl_world st)) st in
        match r with
        | Pending => mret (Pending, st)
        | Ready _ => close_loop nows st
        end))
  end.

Definition Reliable_poll_close (nows : list Z) (st : ReliableLayer) : sink_poll ReliableLayer :=
  close_loop nows (set_rl_link (turn_on_waking (rl_link st)) st).

(** ** What a list of packets carries *)

Definition acks_of (ps : list (Packet * SocketAddr)) : list u24 :=
  ps ≫= λ x, match x.1 with PConnected (CAck a) => expand_all (records a) | _ => [] end.
Definition nacks_of (ps : list (Packet * SocketAddr)) : list u24 :=
  ps ≫= λ x, match x.1 with PConnected (CNack a) => expand_all (records a) | _ => [] end.
Definition unconnected_of (ps : list (Packet * SocketAddr)) : list UPacket :=
  ps ≫= λ x, match x.1 with PUnconnected p => [p] | _ => [] end.
Definition sets_of (ps : list (Packet * SocketAddr)) : list FrameSet_ :=
  ps ≫= λ x, match x.1 with PConnected (CFrameSet s) => [s] | _ => [] end.

(** A frame set with a reliable frame is kept whole. *)
Definition has_reliable (fs : list Frame) : bool := existsb (λ f, is_reliable (reliability (flags f))) fs.
Definition kept_of (ss : list FrameSet_) : list Frame :=
  ss ≫= λ s, if has_reliable (set s) then set s else [].

(** The counters after [ps] was sent. *)
Definition tally (ps : list (Packet * SocketAddr)) : Z * Z * Z :=
  (Z.of_nat (length (acks_of ps)), Z.of_nat (length (nacks_of ps)),
   Z.of_nat (length (unconnected_of ps) + length (sets_of ps))).

Context `{!EstimatorLaws T}.

(** ** Invariant of the layer

    The pending numbers are below the last one, every frame that waits or is in
    flight fits into a datagram, the kept frame sets have numbers already used, and the numbers left
    are enough for the buffered frames. *)
Record Reliable_inv (st : ReliableLayer) : Prop := {
  ri_mtu : 7 ≤ peer_mtu (rl_peer st) < 2 ^ 16;
  ri_ack_heap : heap_ok ack_key (outgoing_ack (rl_link st));
  ri_acks : Forall countable (outgoing_ack (rl_link st));
  ri_nacks : ∀ x, x ∈ outgoing_nack (rl_link st) → countable x;
  ri_buf : SendBuffer_ok (rl_buf st);
  ri_fit : Forall (λ f, Frame_size f ≤ peer_mtu (rl_peer st) - FRAME_SET_HEADER_SIZE)
    (map_frames (rm_reliable (rl_resend st)) ++ buffered (rl_buf st));
  ri_resend : Resend_inv (rl_resend st);
  ri_keys : ∀ i, i ∈ dom (rm_reliable (rl_resend st)) → i < seq_num_write_index st;
  ri_seq : 0 ≤ seq_num_write_index st ∧
    seq_num_write_index st + Z.of_nat (SendBuffer_len (rl_buf st)) < 2 ^ 24;
}.

(** The packets the layer may give to the socket. *)
Definition may_send (st : ReliableLayer) (p : Packet) : Prop :=
  match p with
  | PConnected (CAck a) | PConnected (CNack a) =>
      Forall Record_ok (records a) ∧ records a ≠ [] ∧ 3 + records_len (records a) ≤ peer_mtu (rl_peer st)
  | PConnected (CFrameSet s) =>
      countable (seq_num s) ∧ set s ≠ [] ∧
      set s ⊆ map_frames (rm_reliable (rl_resend st)) ++ buffered (rl_buf st) ∧
      FRAME_SET_HEADER_SIZE + frames_size (set s) ≤ peer_mtu (rl_peer st)
  | PUnconnected p => p ∈ cq_list (link_unconnected (rl_link st))
  end.

(** [st'] is [st] after [ps] was sent: nothing pending is lost or sent twice. *)
Record sent_from (st : ReliableLayer) (ps : list (Packet * SocketAddr)) (st' : ReliableLayer) : Prop := {
  sf_acks : into_iter_sorted ack_key (outgoing_ack (rl_link st)) =
    acks_of ps ++ into_iter_sorted ack_key (outgoing_ack (rl_link st'));
  sf_nacks : outgoing_nack (rl_link st') = outgoing_nack (rl_link st) ∖ list_to_set (nacks_of ps);
  sf_missing : NoDup (nacks_of ps) ∧ ∀ x, x ∈ nacks_of ps → x ∈ outgoing_nack (rl_link st);
  sf_unconnected : cq_list (link_unconnected (rl_link st)) =
    unconnected_of ps ++ cq_list (link_unconnected (rl_link st'));
  sf_frames : buffered (rl_buf st) ≡ₚ (sets_of ps ≫= set) ++ buffered (rl_buf st');
  sf_kept : map_frames (rm_reliable (rl_resend st')) ≡ₚ
    kept_of (sets_of ps) ++ map_frames (rm_reliable (rl_resend st));
  sf_seqs : seq_num <$> sets_of ps =
    u24_range (seq_num_write_index st) (seq_num_write_index st');
  sf_le : seq_num_write_index st ≤ seq_num_write_index st';
  sf_may : Forall (λ x, may_send st x.1 ∧ x.2 = peer_addr (rl_peer st)) ps;
  sf_peer : rl_peer st' = rl_peer st ∧ rl_role st' = rl_role st;
  sf_cx : cx_now (rl_world st') = cx_now (rl_world st) ∧ cx_ext (rl_world st') = cx_ext (rl_world st) ∧
    cx_waker (rl_world st') = cx_waker (rl_world st) ∧ w_reactor (rl_world st') = w_reactor (rl_world st);
  sf_link : link_frame_body (rl_link st') = link_frame_body (rl_link st) ∧
    link_incoming_ack (rl_link st') = link_incoming_ack (rl_link st) ∧
    link_incoming_nack (rl_link st') = link_incoming_nack (rl_link st) ∧
    forward_waking (rl_link st') = forward_waking (rl_link st);
}.

Lemma sent_from_refl st : sent_from st [] st.
Proof.
  split; try done; try lia; cbn; [by rewrite difference_empty_L|split; [constructor|set_solver]|by rewrite u24_range_nil].
Qed.

Lemma may_send_mono st ps st' p : sent_from st ps st' → may_send st' p → may_send st p.
Proof.
  intros H. pose proof (sf_frames _ _ _ H) as Hf. pose proof (sf_unconnected _ _ _ H) as Hu.
  destruct (sf_peer _ _ _ H) as [Hp _]. destruct p as [p|[s|a|a]]; cbn; rewrite ?Hp; [|..|done|done].
  - rewrite Hu. set_solver.
  - intros (? & ? & Hs & ?). split_and!; try done. intros f Hin%Hs. pose proof (sf_kept _ _ _ H) as Hk.
    rewrite Hk, Hf in *. rewrite !elem_of_app in *. destruct Hin as [[Hin|Hin]|Hin]; [|by left|by right; right].
    right; left. unfold kept_of in Hin. apply list_elem_of_bind in Hin as (fs & Hin & Hfs).
    apply list_elem_of_bind. exists fs. split; [|done]. revert Hin. destruct (has_reliable (set fs)); [done|set_solver].
Qed.

Lemma sent_app ps qs :
  acks_of (ps ++ qs) = acks_of ps ++ acks_of qs ∧ nacks_of (ps ++ qs) = nacks_of ps ++ nacks_of qs ∧
  unconnected_of (ps ++ qs) = unconnected_of ps ++ unconnected_of qs ∧
  sets_of (ps ++ qs) = sets_of ps ++ sets_of qs.
Proof. unfold acks_of, nacks_of, unconnected_of, sets_of. by rewrite !bind_app. Qed.

Lemma sent_from_trans st ps st' qs st'' :
  sent_from st ps st' → sent_from st' qs st'' → sent_from st (ps ++ qs) st''.
Proof.
  intros H H'. pose proof (λ p, may_send_mono _ _ _ p H) as Hmono.
  destruct H as [A1 A2 A2' A3 A4 A5 A6 A7 A8 A9 A10 A11], H' as [B1 B2 B2' B3 B4 B5 B6 B7 B8 B9 B10 B11].
  destruct (sent_app ps qs) as (E1 & E2 & E3 & E4).
  split; rewrite ?E1, ?E2, ?E3, ?E4; try lia.
  - by rewrite A1, B1, app_assoc.
  - rewrite B2, A2, list_to_set_app_L. set_solver.
  - destruct A2' as [A2n A2'], B2' as [B2n B2']. rewrite A2 in B2'. split; [apply NoDup_app; split_and!; set_solver|].
    set_solver.
  - by rewrite A3, B3, app_assoc.
  - by rewrite A4, B4, bind_app, app_assoc.
  - unfold kept_of in *. rewrite bind_app, B5, A5. solve_Permutation.
  - rewrite fmap_app, A6, B6. symmetry. by apply u24_range_app.
  - apply Forall_app. split; [done|]. eapply Forall_impl; [exact B8|].
    intros x [Hx ->]. split; [by apply Hmono|]. by destruct A9 as [-> _].
  - naive_solver congruence.
  - naive_solver congruence.
  - naive_solver congruence.
Qed.

Lemma tally_app ps qs : tally (ps ++ qs) =
  ((tally ps).1.1 + (tally qs).1.1, (tally ps).1.2 + (tally qs).1.2, (tally ps).2 + (tally qs).2).
Proof.
  destruct (sent_app ps qs) as (E1 & E2 & E3 & E4).
  unfold tally. rewrite E1, E2, E3, E4, !length_app. cbn [fst snd]. repeat f_equal; lia.
Qed.

(** ** Sending over a socket that is always ready *)

Context `{!ReadySink F (Packet * SocketAddr)}.

(** A step of the loop that sends [ps] and leaves [st']. *)
Record steps_to (f : emptying → (emptying → sink_poll emptying) → sink_poll emptying)
    (st : ReliableLayer) (ps : list (Packet * SocketAddr)) (st' : ReliableLayer) : Prop := {
  st_run : ∀ a n p k, f (st, (a, n, p)) k =
    k (st', (a + (tally ps).1.1, n + (tally ps).1.2, p + (tally ps).2));
  st_inv : Reliable_inv st';
  st_from : sent_from st ps st';
}.

(** The socket's history, and that it can take whatever the layer may send. *)
Definition socket_ok (h : list (Packet * SocketAddr)) (st : ReliableLayer) : Prop :=
  taken h (rl_frame st) ∧ ∀ p, may_send st p → sendable (p, peer_addr (rl_peer st)).

Lemma socket_ok_step h st ps st' :
  socket_ok h st → sent_from st ps st' → taken (h ++ ps) (rl_frame st') → socket_ok (h ++ ps) st'.
Proof.
  intros [_ Hs] Hf Ht. split; [done|]. intros p Hp. destruct (sf_peer _ _ _ Hf) as [-> _].
  apply Hs. by eapply may_send_mono.
Qed.

Lemma when_ready_run h st :
  taken h (rl_frame st) →
  ∃ frame, free h frame ∧ ∀ c k, when_ready (st, c) k = k (set_rl_frame frame st, c).
Proof.
  intros Ht. destruct (poll_ready_free h (rl_frame st) Ht) as (frame & Hr & Hf).
  exists frame. split; [done|]. intros c k. unfold when_ready, and_then. cbn [fst]. by rewrite Hr.
Qed.

Lemma send_packet_run h st p :
  free h (rl_frame st) → sendable (p, peer_addr (rl_peer st)) →
  ∃ frame, taken (h ++ [(p, peer_addr (rl_peer st))]) frame ∧
    ∀ c k, send_packet p (st, c) k = k (set_rl_frame frame st, c).
Proof.
  intros Hf Hs. destruct (start_send_taken h (rl_frame st) _ Hf Hs) as (frame & Hr & Ht).
  exists frame. split; [done|]. intros c k. unfold send_packet, send_then. cbn [fst]. by rewrite Hr.
Qed.

(** A step that sends nothing. *)
Lemma idle_step f h frame st :
  Reliable_inv st → socket_ok h st → free h frame →
  (∀ a n p k, f (st, (a, n, p)) k = k (set_rl_frame frame st, (a, n, p))) →
  steps_to f st [] (set_rl_frame frame st) ∧ socket_ok (h ++ []) (set_rl_frame frame st).
Proof.
  intros Hi [_ Hs] Hf Hrun. rewrite app_nil_r. split; split.
  - intros. rewrite Hrun. cbn. by rewrite !Z.add_0_r.
  - by destruct Hi.
  - by destruct (sent_from_refl st).
  - by apply free_taken.
  - done.
Qed.

Lemma SendBuffer_len_buffered b : SendBuffer_len b = length (buffered b).
Proof. unfold SendBuffer_len, buffered. rewrite !length_app, !length_fmap. lia. Qed.

Lemma empty_ack_steps h s st :
  Reliable_inv st → socket_ok h st →
  ∃ ps st', steps_to (empty_ack s) st ps st' ∧ socket_ok (h ++ ps) st' ∧
    (ps = [] → flush_ack s = true → outgoing_ack (rl_link st) = []).
Proof.
  intros Hi Hso. pose proof Hso as [Ht Hs]. destruct (when_ready_run h st Ht) as (frame & Hf & Hw).
  destruct (flush_ack s) eqn:Hfl; [destruct (decide (outgoing_ack (rl_link st) = [])) as [Hn|Hn]|].
  2: {
    destruct (process_outgoing_ack_spec (E:=spinning) (peer_mtu (rl_peer st)) (rl_link st) (ri_mtu _ Hi)
      (ri_ack_heap _ Hi) (ri_acks _ Hi) Hn) as (ack & q & Hp & Hsort & Hok & Hne & Hq & Hlen).
    set (l := set_outgoing q (outgoing_nack (rl_link st)) (rl_link st)) in *.
    assert (records ack ≠ []) as Hr by (intros Hr; by rewrite Hr in Hne).
    destruct (send_packet_run h (set_rl_link l (set_rl_frame frame st)) (PConnected (CAck ack)) Hf)
      as (frame' & Ht' & Hsend); [by apply Hs|].
    set (ps := [(PConnected (CAck ack), peer_addr (rl_peer st))]).
    set (st' := set_rl_frame frame' (set_rl_link l (set_rl_frame frame st))).
    assert (sent_from st ps st') as Hsf.
    { destruct (sent_from_refl st). split; try done; cbn.
      - by rewrite app_nil_r.
      - apply Forall_singleton. done. }
    exists ps, st'. split_and!; [split|by eapply socket_ok_step|done]; [|destruct Hi; split; try done|done].
    - intros a n p k. unfold empty_ack. rewrite Hw, Hfl.
      change (rl_link (set_rl_frame frame st)) with (rl_link st). cbn [rl_peer set_rl_frame]. rewrite Hp. cbn.
      rewrite total_cnt_Ok by done. cbn. rewrite Hsend, app_nil_r, !Z.add_0_r. done.
    - cbn. apply (into_iter_sorted_spec ack_key) in Hq as [Hq' _]. rewrite <-Hq'.
      rewrite <-(proj1 (into_iter_sorted_spec ack_key _ ri_ack_heap0)), Hsort in ri_acks0.
      by apply Forall_app in ri_acks0 as [_ ?]. }
  all: destruct (idle_step (empty_ack s) h frame st) as [H1 H2]; try done;
    [|by exists [], (set_rl_frame frame st)]; intros a n p k; unfold empty_ack; rewrite Hw, Hfl; try done.
  rewrite process_outgoing_ack_nil by (done || apply Hi). cbn. by destruct st as [? [] ? ? ? ? ?].
Qed.

Lemma empty_nack_steps h s st :
  Reliable_inv st → socket_ok h st →
  ∃ ps st', steps_to (empty_nack s) st ps st' ∧ socket_ok (h ++ ps) st' ∧
    (ps = [] → flush_nack s = true → outgoing_nack (rl_link st) = ∅).
Proof.
  intros Hi Hso. pose proof Hso as [Ht Hs]. destruct (when_ready_run h st Ht) as (frame & Hf & Hw).
  destruct (flush_nack s) eqn:Hfl; [destruct (decide (outgoing_nack (rl_link st) = ∅)) as [Hn|Hn]|].
  2: {
    destruct (process_outgoing_nack_spec (E:=spinning) (peer_mtu (rl_peer st)) (rl_link st) (ri_mtu _ Hi)
      (ri_nacks _ Hi) Hn) as (nack & q & Hp & Hok & Hne & Hlen & Hin & Hdis & Hnd).
    set (l := set_outgoing (outgoing_ack (rl_link st)) q (rl_link st)) in *.
    assert (records nack ≠ []) as Hr by (intros Hr; by rewrite Hr in Hne).
    destruct (send_packet_run h (set_rl_link l (set_rl_frame frame st)) (PConnected (CNack nack)) Hf)
      as (frame' & Ht' & Hsend); [by apply Hs|].
    set (ps := [(PConnected (CNack nack), peer_addr (rl_peer st))]).
    set (st' := set_rl_frame frame' (set_rl_link l (set_rl_frame frame st))).
    assert (sent_from st ps st') as Hsf.
    { destruct (sent_from_refl st). split; try done; cbn; rewrite ?app_nil_r.
      - apply set_eq. intros x. rewrite elem_of_difference, elem_of_list_to_set, Hin. naive_solver.
      - split; [done|]. naive_solver.
      - apply Forall_singleton. done. }
    exists ps, st'. split_and!; [split|by eapply socket_ok_step|done]; [|destruct Hi; split; try done|done].
    - intros a n p k. unfold empty_nack. rewrite Hw, Hfl.
      change (rl_link (set_rl_frame frame st)) with (rl_link st). cbn [rl_peer set_rl_frame]. rewrite Hp. cbn.
      rewrite total_cnt_Ok by done. cbn. rewrite Hsend, app_nil_r, !Z.add_0_r. done.
    - cbn. naive_solver. }
  all: destruct (idle_step (empty_nack s) h frame st) as [H1 H2]; try done;
    [|by exists [], (set_rl_frame frame st)]; intros a n p k; unfold empty_nack; rewrite Hw, Hfl; try done.
  rewrite process_outgoing_nack_nil by (done || apply Hi). cbn. by destruct st as [? [] ? ? ? ? ?].
Qed.

Lemma empty_unconnected_steps h st :
  Reliable_inv st → socket_ok h st →
  ∃ ps st', steps_to empty_unconnected st ps st' ∧ socket_ok (h ++ ps) st' ∧
    (ps = [] → cq_list (link_unconnected (rl_link st)) = []).
Proof.
  intros Hi Hso. pose proof Hso as [Ht Hs]. destruct (when_ready_run h st Ht) as (frame & Hf & Hw).
  pose proof (cq_pop_spec (link_unconnected (rl_link st))) as Hp.
  destruct (cq_list (link_unconnected (rl_link st))) as [|u us] eqn:Hu.
  - destruct (idle_step empty_unconnected h frame st) as [H1 H2]; try done;
      [|by exists [], (set_rl_frame frame st)].
    intros a n p k. unfold empty_unconnected, process_unconnected. rewrite Hw.
    change (rl_link (set_rl_frame frame st)) with (rl_link st). rewrite Hp. by destruct st as [? [] ? ? ? ? ?].
  - destruct Hp as (q & Hp & Hq & _).
    set (l := set_queues q (link_frame_body (rl_link st)) (rl_link st)).
    destruct (send_packet_run h (set_rl_link l (set_rl_frame frame st)) (PUnconnected u) Hf)
      as (frame' & Ht' & Hsend); [apply Hs; cbn; rewrite Hu; left|].
    set (ps := [(PUnconnected u, peer_addr (rl_peer st))]).
    set (st' := set_rl_frame frame' (set_rl_link l (set_rl_frame frame st))).
    assert (sent_from st ps st') as Hsf.
    { destruct (sent_from_refl st). split; try done; cbn.
      - by rewrite Hu, Hq.
      - apply Forall_singleton. cbn. rewrite Hu. split; [left|done]. }
    exists ps, st'. split_and!; [split|by eapply socket_ok_step|done]; [|by destruct Hi|done].
    intros a n p k. unfold empty_unconnected, process_unconnected. rewrite Hw.
    change (rl_link (set_rl_frame frame st)) with (rl_link st). rewrite Hp. cbv zeta. fold l.
    rewrite Hsend. cbn. by rewrite !Z.add_0_r.
Qed.

(** The resend map after a frame set was sent. *)
Lemma keep_spec {E} now seq pen fs (r : ResendMap T) :
  Resend_inv r → (∀ i, i ∈ dom (rm_reliable r) → i < seq) →
  ∃ r', (if has_reliable fs then ResendMap_record (E:=E) now seq pen fs r else mret r) = Ok r' ∧
    Resend_inv r' ∧ (∀ i, i ∈ dom (rm_reliable r') → i < seq + 1) ∧
    map_frames (rm_reliable r') ≡ₚ kept_of [mkFrameSet seq fs] ++ map_frames (rm_reliable r).
Proof.
  intros Hr Hk. unfold kept_of. cbn [mbind list_bind set]. rewrite app_nil_r. destruct (has_reliable fs).
  - destruct (record_spec (E:=E) now seq pen fs r Hr) as (r' & H1 & H2 & H3 & H4 & _).
    { apply not_elem_of_dom. intros Hd. apply Hk in Hd. lia. }
    exists r'. split_and!; try done. rewrite H4. intros i [->%elem_of_singleton|Hi]%elem_of_union; [lia|].
    apply Hk in Hi. lia.
  - exists r. split_and!; try done. intros i Hi. apply Hk in Hi. lia.
Qed.

Lemma buffered_nil_new b : buffered b = [] → b = SendBuffer_new.
Proof.
  intros H. destruct b as [h m l r]. unfold buffered in H. cbn in H.
  apply app_eq_nil in H as [Hr H]. apply app_eq_nil in H as [Hh H]. apply app_eq_nil in H as [-> Hl].
  apply fmap_nil_inv in Hr as ->. apply fmap_nil_inv in Hh as ->. by apply fmap_nil_inv in Hl as ->.
Qed.

Lemma empty_frame_set_steps h st :
  Reliable_inv st → socket_ok h st →
  ∃ ps st', steps_to empty_frame_set st ps st' ∧ socket_ok (h ++ ps) st' ∧
    (ps = [] → SendBuffer_len (rl_buf st) = 0%nat).
Proof.
  intros Hi Hso. pose proof Hso as [Ht Hs]. destruct (when_ready_run h st Ht) as (frame & Hf & Hw).
  destruct (SendBuffer_pop_spec (E:=spinning) (peer_mtu (rl_peer st)) (rl_buf st))
    as (pen & fs & b' & Hpop & Hb & Hperm & Hsz & Hpen & Hemp);
    [pose proof (ri_mtu _ Hi); lia|apply Hi|by destruct (proj1 (Forall_app _ _ _) (ri_fit _ Hi))|].
  destruct fs as [|f fs].
  - destruct (idle_step empty_frame_set h frame st) as [H1 H2]; try done.
    + intros a n p k. unfold empty_frame_set. rewrite Hw. cbn [rl_peer rl_buf set_rl_frame]. rewrite Hpop.
      specialize (Hemp eq_refl). rewrite Hemp in Hperm. symmetry in Hperm. cbn in Hperm.
      apply Permutation_nil_r, buffered_nil_new in Hperm as ->. apply buffered_nil_new in Hemp.
      cbn. unfold set_rl_out, set_rl_frame. cbn. by rewrite Hemp.
    + exists [], (set_rl_frame frame st). split_and!; try done. intros _. apply buffered_nil. auto.
  - clear Hemp. destruct (ri_seq _ Hi) as [Hq0 Hq]. set (seq := seq_num_write_index st) in *.
    pose proof (Permutation_length Hperm) as Hl. rewrite length_app in Hl. cbn in Hl.
    rewrite SendBuffer_len_buffered in Hq.
    destruct (keep_spec (E:=spinning) (cx_now (rl_world st)) seq pen (f :: fs) (rl_resend st))
      as (r' & Hkeep & Hr & Hk & Hmf); [apply Hi..|].
    set (st0 := set_rl_out seq b' (rl_resend st) (set_rl_frame frame st)).
    set (fset := mkFrameSet seq (f :: fs)).
    assert (may_send st (PConnected (CFrameSet fset))) as Hmay.
    { cbn. split_and!; [unfold countable; lia|done| |done]. intros x Hx. rewrite Hperm, !elem_of_app. by right; left. }
    destruct (send_packet_run h st0 (PConnected (CFrameSet fset)) Hf) as (frame' & Ht' & Hsend); [by apply Hs|].
    set (ps := [(PConnected (CFrameSet fset), peer_addr (rl_peer st))]).
    set (st' := set_rl_out (seq + 1) b' r' (set_rl_frame frame' st0)).
    assert (sent_from st ps st') as Hsf.
    { destruct (sent_from_refl st). split; try done; cbn [sets_of ps mbind list_bind fst app fset fmap list_fmap].
      - cbn. by rewrite app_nil_r.
      - cbn [seq_num]. change (seq_num_write_index st') with (seq + 1). fold seq.
        by rewrite u24_range_cons, u24_range_nil by lia.
      - change (seq_num_write_index st') with (seq + 1). fold seq. lia.
      - by apply Forall_singleton. }
    exists ps, st'. split_and!; [split|by eapply socket_ok_step|done]; [| |done].
    + intros a n p k. unfold empty_frame_set. rewrite Hw. cbn [rl_peer rl_buf set_rl_frame]. rewrite Hpop.
      cbn [mbind outcome_bind]. change (seq_num_write_index (set_rl_frame frame st)) with seq.
      change (rl_resend (set_rl_frame frame st)) with (rl_resend st). fold st0. change (seq_num_write_index st0) with seq.
      fold fset. rewrite Hsend. cbv beta iota.
      change (rl_resend (set_rl_frame frame' st0)) with (rl_resend st).
      change (seq_num_write_index (set_rl_frame frame' st0)) with seq.
      change (cx_now (rl_world (set_rl_frame frame' st0))) with (cx_now (rl_world st)).
      fold (has_reliable (f :: fs)). rewrite Hkeep. cbn [mbind outcome_bind].
      rewrite u24_add_assign_eq, u24_add_Ok by lia. cbn. by rewrite !Z.add_0_r.
    + destruct Hi. split; try done; cbn.
      * rewrite Hmf, <-app_assoc. apply Forall_app in ri_fit0 as [Hm Hbf]. rewrite Hperm in Hbf.
        apply Forall_app in Hbf as [Hfs Hb'']. rewrite !Forall_app. split_and!; [|done|done].
        unfold kept_of. cbn [mbind list_bind set fset]. rewrite app_nil_r. destruct (has_reliable (f :: fs)); [done|constructor].
      * rewrite SendBuffer_len_buffered. lia.
Qed.

Lemma steps_to_then f g st ps st1 qs st2 :
  steps_to f st ps st1 → steps_to g st1 qs st2 →
  steps_to (λ x k, f x (λ x, g x k)) st (ps ++ qs) st2.
Proof.
  intros [R1 I1 S1] [R2 I2 S2]. split; [|done|by eapply sent_from_trans].
  intros a n p k. rewrite R1, R2, tally_app. cbn [fst snd]. by rewrite !Z.add_assoc.
Qed.

Lemma sent_nothing st st' : sent_from st [] st' →
  outgoing_nack (rl_link st') = outgoing_nack (rl_link st) ∧
  cq_list (link_unconnected (rl_link st')) = cq_list (link_unconnected (rl_link st)) ∧
  length (buffered (rl_buf st')) = length (buffered (rl_buf st)).
Proof.
  intros [_ A2 _ A3 A4 _ _ _ _ _ _ _]. cbn in *. rewrite A2, A3, A4, difference_empty_L. done.
Qed.

(** A round sends something, unless all that is to be flushed was flushed. *)
Lemma empty_round_steps h s st :
  Reliable_inv st → socket_ok h st →
  ∃ ps st', steps_to (empty_round s) st ps st' ∧ socket_ok (h ++ ps) st' ∧
    (ps = [] → check_flushed s (rl_link st) (rl_buf st) = true).
Proof.
  intros Hi Hs. destruct (empty_ack_steps h s st Hi Hs) as (p1 & s1 & T1 & S1 & E1).
  destruct (empty_nack_steps _ s s1 (st_inv _ _ _ _ T1) S1) as (p2 & s2 & T2 & S2 & E2).
  pose proof (steps_to_then _ _ _ _ _ _ _ T1 T2) as T12.
  unfold empty_round. destruct (flush_pack s) eqn:Hfp.
  - destruct (empty_unconnected_steps _ s2 (st_inv _ _ _ _ T2) S2) as (p3 & s3 & T3 & S3 & E3).
    destruct (empty_frame_set_steps _ s3 (st_inv _ _ _ _ T3) S3) as (p4 & s4 & T4 & S4 & E4).
    exists ((p1 ++ p2) ++ (p3 ++ p4)), s4. split_and!.
    + apply (steps_to_then _ _ _ _ _ _ _ T12 (steps_to_then _ _ _ _ _ _ _ T3 T4)).
    + by rewrite !app_assoc in *.
    + intros Hn. apply check_flushed_spec. apply app_eq_nil in Hn as [H12 H34]. apply app_eq_nil in H12 as [-> ->].
      apply app_eq_nil in H34 as [-> ->].
      destruct (sent_nothing _ _ (st_from _ _ _ _ T1)) as (N1 & U1 & B1).
      destruct (sent_nothing _ _ (st_from _ _ _ _ T2)) as (N2 & U2 & B2).
      destruct (sent_nothing _ _ (st_from _ _ _ _ T3)) as (N3 & U3 & B3).
      rewrite <-N1, <-U1, <-U2. rewrite SendBuffer_len_buffered in *. rewrite <-B1, <-B2, <-B3. auto.
  - exists (p1 ++ p2), s2. split_and!; [done|by rewrite app_assoc|].
    intros Hn. apply check_flushed_spec. apply app_eq_nil in Hn as [-> ->].
    destruct (sent_nothing _ _ (st_from _ _ _ _ T1)) as (N1 & _). rewrite <-N1, Hfp. naive_solver.
Qed.

(** What was sent is no longer pending. *)
Lemma pending_decreases st ps st' :
  Reliable_inv st → Reliable_inv st' → sent_from st ps st' → ps ≠ [] → (pending st' < pending st)%nat.
Proof.
  intros Hi Hi' [A1 A2 [_ A2'] A3 A4 _ _ _ A8 _ _ _] Hne. unfold pending.
  apply (f_equal length) in A1. rewrite length_app, !into_iter_sorted_length in A1 by apply Hi || apply Hi'.
  apply (f_equal length) in A3. rewrite length_app in A3.
  apply Permutation_length in A4. rewrite length_app in A4. rewrite !SendBuffer_len_buffered.
  remember (list_to_set (nacks_of ps) : gset Z) as N eqn:HN.
  assert (size (outgoing_nack (rl_link st')) + size N = size (outgoing_nack (rl_link st)))%nat as Hsz.
  { rewrite A2. rewrite size_difference; [|set_solver].
    assert (size N ≤ size (outgoing_nack (rl_link st)))%nat by (apply subseteq_size; set_solver). lia. }
  destruct ps as [|x ps]; [done|]. apply Forall_cons in A8 as [[Hx _] _].
  assert (length (acks_of (x :: ps)) + size N + length (unconnected_of (x :: ps)) +
    length (sets_of (x :: ps) ≫= set) ≠ 0)%nat; [|lia].
  destruct x as [[u|[fs|a|a]] ad]; cbn in Hx |- *; [lia| | |].
  - destruct Hx as (_ & Hfs & _). rewrite length_app. destruct (set fs); [done|cbn; lia].
  - destruct Hx as (Hok & Hrn & _). pose proof (expand_all_ne _ Hok Hrn). rewrite length_app.
    destruct (expand_all (records a)); [done|cbn; lia].
  - destruct Hx as (Hok & Hrn & _). pose proof (expand_all_ne _ Hok Hrn) as Hx.
    destruct (decide (size N = 0%nat)) as [Hz|Hz]; [|lia]. apply size_empty_inv in Hz.
    cbn in HN. destruct (expand_all (records a)) as [|y ?]; [done|].
    exfalso. apply (not_elem_of_empty (C:=gset Z) y). rewrite <-Hz, HN. set_solver.
Qed.

Lemma empty_loop_run h s fuel st :
  Reliable_inv st → socket_ok h st → (pending st ≤ fuel)%nat →
  ∃ ps st', (∀ a n p, empty_loop s fuel (st, (a, n, p)) =
      Ok (Ready (inr tt), (st', (a + (tally ps).1.1, n + (tally ps).1.2, p + (tally ps).2)))) ∧
    check_flushed s (rl_link st') (rl_buf st') = true ∧
    Reliable_inv st' ∧ sent_from st ps st' ∧ socket_ok (h ++ ps) st'.
Proof.
  revert h st. induction fuel as [|fuel IH]; intros h st Hi Hs Hp; cbn [empty_loop fst].
  all: destruct (check_flushed s (rl_link st) (rl_buf st)) eqn:Hck.
  all: try (exists [], st; split_and!; [intros; cbn; by rewrite !Z.add_0_r|done|done|apply sent_from_refl|by rewrite app_nil_r]).
  all: destruct (empty_round_steps h s st Hi Hs) as (ps & st1 & [T1 T2 T3] & Hs1 & Hpr).
  all: assert (ps ≠ []) as Hne by (intros ->; specialize (Hpr eq_refl); congruence).
  all: pose proof (pending_decreases _ _ _ Hi T2 T3 Hne).
  { lia. }
  destruct (IH _ st1 T2 Hs1) as (qs & st2 & R & Hck2 & Hi2 & Hf2 & Hs2); [lia|].
  exists (ps ++ qs), st2. split_and!; [|done|done|by eapply sent_from_trans|by rewrite app_assoc].
  intros a n p. rewrite T1, R, tally_app. cbn [fst snd]. by rewrite !Z.add_assoc.
Qed.

(** ** Acknowledgements, negative acknowledgements and timeouts *)

Definition acked_seqs (st : ReliableLayer) : list u24 :=
  cq_list (link_incoming_ack (rl_link st)) ≫= λ a, seqs_of a.1.

Definition incoming_valid (st : ReliableLayer) : Prop :=
  Forall (λ a, records_valid (records a.1)) (cq_list (link_incoming_ack (rl_link st))) ∧
  Forall (λ a, records_valid (records a)) (cq_list (link_incoming_nack (rl_link st))).

Lemma ack_all_spec {E} acks (r : ResendMap T) :
  Resend_inv r → Forall (λ a, records_valid (records a.1)) acks →
  ∃ r', ack_all (E:=E) acks r = Ok r' ∧ Resend_inv r' ∧
    without (acks ≫= λ a, seqs_of a.1) (rm_reliable r) (rm_reliable r').
Proof.
  intros Hr Ha. revert r Hr. induction Ha as [|[a t] acks Ha Has IH]; intros r Hr; cbn.
  { exists r. split_and!; [done..|apply without_nil]. }
  destruct (on_ack_spec (E:=E) a t r Hr Ha) as (r1 & -> & Hr1 & Hw1). cbn.
  destruct (IH r1 Hr1) as (r2 & -> & Hr2 & Hw2). exists r2. split_and!; [done|done|].
  by apply (without_trans _ _ _ _ _ Hw1 Hw2).
Qed.

Lemma nack_all_spec {E} nacks (r : ResendMap T) buf :
  Resend_inv r → SendBuffer_ok buf → Forall (λ a, records_valid (records a)) nacks →
  ∃ r' buf', nack_all (E:=E) nacks r buf = Ok (r', buf') ∧ Resend_inv r' ∧ SendBuffer_ok buf' ∧
    without (nacks ≫= seqs_of) (rm_reliable r) (rm_reliable r') ∧ conserves r buf r' buf'.
Proof.
  intros Hr Hb Ha. revert r buf Hr Hb. induction Ha as [|a nacks Ha Has IH]; intros r buf Hr Hb; cbn.
  { exists r, buf. split_and!; [done..|apply without_nil|apply conserves_refl]. }
  destruct (on_nack_into_spec (E:=E) a r buf Hr Hb Ha) as (r1 & b1 & -> & Hr1 & Hb1 & Hw1 & Hc1). cbn.
  destruct (IH r1 b1 Hr1 Hb1) as (r2 & b2 & -> & Hr2 & Hb2 & Hw2 & Hc2). exists r2, b2.
  split_and!; [done..| |by eapply conserves_trans]. by apply (without_trans _ _ _ _ _ Hw1 Hw2).
Qed.

Lemma without_dom seqs m m' i : without seqs m m' → i ∈ dom m' → i ∈ dom m.
Proof. intros Hw. rewrite !elem_of_dom, Hw. case_decide; [intros [? [=]]|done]. Qed.

(** Sequence numbers are left for the frames that wait and those in flight. *)
Definition seqs_left (st : ReliableLayer) : Prop :=
  seq_num_write_index st +
    Z.of_nat (length (map_frames (rm_reliable (rl_resend st)) ++ buffered (rl_buf st))) < 2 ^ 24.

Lemma process_inflight_spec {E} st :
  Reliable_inv st → seqs_left st → incoming_valid st →
  ∃ l buf r, process_inflight (E:=E) st = Ok (set_rl_out (seq_num_write_index st) buf r (set_rl_link l st)) ∧
    Reliable_inv (set_rl_out (seq_num_write_index st) buf r (set_rl_link l st)) ∧
    map_frames (rm_reliable (rl_resend st)) ++ buffered (rl_buf st) ≡ₚ
      retired (acked_seqs st) (rm_reliable (rl_resend st)) ++ map_frames (rm_reliable r) ++ buffered buf ∧
    cq_list (link_incoming_ack l) = [] ∧ cq_list (link_incoming_nack l) = [] ∧
    (∃ a n, l = set_incoming a n (rl_link st)).
Proof.
  intros Hi Hl [Ha Hn]. unfold process_inflight, process_ack.
  destruct (cq_try_iter_spec (link_incoming_ack (rl_link st))) as (A1 & A2 & _).
  destruct (cq_try_iter (link_incoming_ack (rl_link st))) as [acks qa]. cbn in A1, A2. rewrite <-A1 in Ha.
  destruct (ack_all_spec (E:=E) acks (rl_resend st) (ri_resend _ Hi) Ha) as (r1 & -> & Hr1 & Hw1).
  cbn [mbind outcome_bind]. unfold process_nack. cbn [link_incoming_nack set_incoming].
  destruct (cq_try_iter_spec (link_incoming_nack (rl_link st))) as (N1 & N2 & _).
  destruct (cq_try_iter (link_incoming_nack (rl_link st))) as [nacks qn]. cbn in N1, N2. rewrite <-N1 in Hn.
  destruct (nack_all_spec (E:=E) nacks r1 (rl_buf st) Hr1 (ri_buf _ Hi) Hn) as (r2 & b2 & -> & Hr2 & Hb2 & Hw2 & Hc2).
  cbn [mbind outcome_bind].
  destruct (process_stales_spec (E:=E) (cx_now (rl_world st)) r2 b2 Hr2 Hb2) as (r3 & b3 & -> & Hr3 & Hb3 & Hc3 & Hd3 & _).
  cbn [mbind outcome_bind].
  assert (map_frames (rm_reliable (rl_resend st)) ++ buffered (rl_buf st) ≡ₚ
    retired (acked_seqs st) (rm_reliable (rl_resend st)) ++ map_frames (rm_reliable r3) ++ buffered b3) as Hp.
  { rewrite (without_frames _ _ _ Hw1). unfold acked_seqs. rewrite A1, <-app_assoc. f_equiv.
    apply (conserves_trans _ _ _ _ _ _ Hc2 Hc3). }
  eexists _, b3, r3. split; [done|]. split_and!; [|done|done|done|by eexists _, _].
  destruct Hi. split; try done; cbn.
  - rewrite Hp in ri_fit0. by apply Forall_app in ri_fit0 as [_ ?].
  - intros i Hin. apply ri_keys0, (without_dom _ _ _ _ Hw1), (without_dom _ _ _ _ Hw2).
    apply elem_of_dom in Hin as [e He]. apply Hd3 in He as [He _]. by apply elem_of_dom_2 in He.
  - unfold seqs_left in Hl. rewrite (Permutation_length Hp), !length_app in Hl. rewrite SendBuffer_len_buffered. lia.
Qed.

(** The counters of a strategy stay in the range of [isize]. *)
Definition marks_ok (st : ReliableLayer) : Prop :=
  let l := rl_link st in
  Z.of_nat (length (outgoing_ack l) + size (outgoing_nack l) + length (cq_list (link_unconnected l))) < 2 ^ 60 ∧
  ∀ s, cx_ext (rl_world st) = Some s →
    -1 ≤ ack_tag s < 2 ^ 61 ∧ -1 ≤ nack_tag s < 2 ^ 61 ∧ -1 ≤ pack_tag s < 2 ^ 61.

(** A strategy after [ps] was flushed. *)
Definition marked (ps : list (Packet * SocketAddr)) (s : FlushStrategy) : FlushStrategy :=
  let mark tag cnt := if tag =? -1 then -1 else tag + cnt in
  mkFlushStrategy (mark (ack_tag s) (tally ps).1.1) (mark (nack_tag s) (tally ps).1.2)
    (mark (pack_tag s) (tally ps).2).

(** The frames that were sent and need no acknowledgement. *)
Definition fire_and_forget (ss : list FrameSet_) : list Frame :=
  ss ≫= λ s, if has_reliable (set s) then [] else set s.

Lemma sent_split ss : ss ≫= set ≡ₚ kept_of ss ++ fire_and_forget ss.
Proof.
  unfold kept_of, fire_and_forget. induction ss as [|s ss IH]; cbn; [done|].
  rewrite IH. change (existsb _ (set s)) with (has_reliable (set s)).
  destruct (has_reliable (set s)); cbn; solve_Permutation.
Qed.

Lemma fire_and_forget_unreliable ss :
  Forall (λ f, is_reliable (reliability (flags f)) = false) (fire_and_forget ss).
Proof.
  apply Forall_forall. intros f Hf. unfold fire_and_forget in Hf.
  apply list_elem_of_bind in Hf as (s & Hf & _). destruct (has_reliable (set s)) eqn:Hr; [set_solver|].
  destruct (is_reliable (reliability (flags f))) eqn:Hrel; [|done].
  assert (has_reliable (set s) = true); [|congruence].
  unfold has_reliable. apply existsb_exists. exists f. split; [by apply list_elem_of_In|done].
Qed.

Lemma tally_bounds st ps st' :
  Reliable_inv st → Reliable_inv st' → sent_from st ps st' →
  let l := rl_link st in
  let n := Z.of_nat (length (outgoing_ack l) + size (outgoing_nack l) + length (cq_list (link_unconnected l))) in
  0 ≤ (tally ps).1.1 ≤ n ∧ 0 ≤ (tally ps).1.2 ≤ n ∧ 0 ≤ (tally ps).2 ≤ n + 2 ^ 24.
Proof.
  intros Hi Hi' [A1 A2 [An A2'] A3 _ _ A6 A7 _ _ _ _]. cbn -[Z.pow].
  apply (f_equal length) in A1. rewrite length_app, !into_iter_sorted_length in A1 by apply Hi || apply Hi'.
  apply (f_equal length) in A3. rewrite length_app in A3.
  apply (f_equal length) in A6. rewrite length_fmap, length_u24_range in A6.
  assert (length (nacks_of ps) ≤ size (outgoing_nack (rl_link st)))%nat as Hn.
  { rewrite <-(size_list_to_set (C:=gset Z) (nacks_of ps)) by done. apply subseteq_size. set_solver. }
  pose proof (ri_seq _ Hi). pose proof (ri_seq _ Hi'). unfold tally. cbn [fst snd]. lia.
Qed.

Lemma mark_flushed_spec {E} ps w :
  (∀ s, cx_ext w = Some s → -1 ≤ ack_tag s < 2 ^ 61 ∧ -1 ≤ nack_tag s < 2 ^ 61 ∧ -1 ≤ pack_tag s < 2 ^ 61) →
  (let '(a, n, p) := tally ps in 0 ≤ a < 2 ^ 61 ∧ 0 ≤ n < 2 ^ 61 ∧ 0 ≤ p < 2 ^ 61) →
  mark_flushed (E:=E) (tally ps) w = Ok (world_ext (marked ps <$> cx_ext w) w).
Proof.
  intros Hs Ht. unfold mark_flushed, marked. destruct (tally ps) as [[a n] p]. cbn [fst snd].
  destruct (cx_ext w) as [s|] eqn:Hx; [|by destruct w; cbn in *; subst].
  destruct (Hs s eq_refl) as (H1 & H2 & H3). unfold mark_flushed_ack, mark_flushed_nack, mark_flushed_pack.
  rewrite mark_tag_Ok by lia. cbn [mbind outcome_bind nack_tag pack_tag ack_tag mret outcome_ret].
  rewrite mark_tag_Ok by lia. cbn [mbind outcome_bind nack_tag pack_tag ack_tag mret outcome_ret].
  by rewrite mark_tag_Ok by lia.
Qed.

Lemma try_empty_spec h st :
  Reliable_inv st → seqs_left st → incoming_valid st → marks_ok st → socket_ok h st →
  ∃ st1 ps st2 w, try_empty st = Ok (Ready (inr tt), set_rl_world w st2) ∧
    w = world_ext (marked ps <$> cx_ext (rl_world st)) (rl_world st2) ∧
    check_flushed (default FlushStrategy_default (cx_ext (rl_world st))) (rl_link st2) (rl_buf st2) = true ∧
    Reliable_inv st2 ∧ sent_from st1 ps st2 ∧ taken (h ++ ps) (rl_frame st2) ∧
    Forall (λ x, may_send st x.1 ∧ x.2 = peer_addr (rl_peer st)) ps ∧
    map_frames (rm_reliable (rl_resend st)) ++ buffered (rl_buf st) ≡ₚ
      retired (acked_seqs st) (rm_reliable (rl_resend st)) ++
      map_frames (rm_reliable (rl_resend st1)) ++ buffered (rl_buf st1) ∧
    process_inflight (E:=spinning) st = Ok st1 ∧
    (∃ l a n buf r, st1 = set_rl_out (seq_num_write_index st) buf r (set_rl_link l st) ∧
      l = set_incoming a n (rl_link st) ∧ cq_list a = [] ∧ cq_list n = []).
Proof.
  intros Hi Hl Hv [Hm1 Hm2] [Ht Hs]. unfold try_empty.
  destruct (process_inflight_spec (E:=spinning) st Hi Hl Hv) as (l & b & r & Hpi & Hi1 & Hp & Ha & Hn & a & n & ->).
  rewrite Hpi. cbn [mbind outcome_bind]. set (st1 := set_rl_out _ _ _ _) in *.
  change (cx_ext (rl_world st1)) with (cx_ext (rl_world st)).
  assert (∀ p, may_send st1 p → may_send st p) as Hmay.
  { intros [u|[fs|?|?]]; cbn; try done. intros (? & ? & Hin & ?). split_and!; try done.
    intros f Hf%Hin. rewrite Hp, elem_of_app. by right. }
  destruct (empty_loop_run h (default FlushStrategy_default (cx_ext (rl_world st))) (pending st1) st1 Hi1)
    as (ps & st2 & Hrun & Hck & Hi2 & Hsf & Ht2 & _); [split; auto|done|].
  rewrite Hrun. cbn [mbind outcome_bind]. rewrite !Z.add_0_l.
  destruct (tally_bounds _ _ _ Hi1 Hi2 Hsf) as (B1 & B2 & B3). cbn zeta in B1, B2, B3.
  change (rl_link st1) with (set_incoming a n (rl_link st)) in B1, B2, B3. cbn -[Z.pow Z.of_nat tally] in B1, B2, B3.
  cbn zeta in Hm1.
  destruct (sf_cx _ _ _ Hsf) as (_ & Hx & _). change (cx_ext (rl_world st1)) with (cx_ext (rl_world st)) in Hx.
  destruct (tally ps) as [[ca cn] cp] eqn:Htl. cbn [fst snd] in *. rewrite <-Htl.
  rewrite mark_flushed_spec; [|by rewrite Hx|rewrite Htl; lia]. cbn [mbind outcome_bind]. rewrite Hx.
  exists st1, ps, st2. eexists. split; [done|]. split_and!; try done.
  - eapply Forall_impl; [apply (sf_may _ _ _ Hsf)|]. intros x [? ?]. split; [by apply Hmay|done].
  - eexists _, a, n, b, r. done.
Qed.

(** No reliable frame is lost: a flush leaves every frame that was waiting or
    in flight either acknowledged by the peer, or waiting, or in flight, except
    the unreliable frames it sent. *)
Theorem try_empty_keeps_reliable h st :
  Reliable_inv st → seqs_left st → incoming_valid st → marks_ok st → socket_ok h st →
  ∃ st' gone, try_empty st = Ok (Ready (inr tt), st') ∧ Reliable_inv st' ∧
    map_frames (rm_reliable (rl_resend st)) ++ buffered (rl_buf st) ≡ₚ
      retired (acked_seqs st) (rm_reliable (rl_resend st)) ++ gone ++
      map_frames (rm_reliable (rl_resend st')) ++ buffered (rl_buf st') ∧
    Forall (λ f, is_reliable (reliability (flags f)) = false) gone.
Proof.
  intros Hi Hl Hv Hm Hs.
  destruct (try_empty_spec h st Hi Hl Hv Hm Hs)
    as (st1 & ps & st2 & w & Hr & -> & Hck & Hi2 & Hsf & Ht & _ & Hp & _).
  eexists _, (fire_and_forget (sets_of ps)). split; [exact Hr|]. split_and!.
  - by destruct Hi2.
  - rewrite Hp. f_equiv. destruct Hsf. rewrite sf_frames0, sent_split. cbn. rewrite sf_kept0. solve_Permutation.
  - apply fire_and_forget_unreliable.
Qed.

(** ** Any socket

    What holds whatever the socket answers: [post s P r] says of the result [r] of
    a loop over the strategy [s] that the layer satisfies [P] when the poll returns
    without an error, and that everything was flushed when it is ready. *)
Definition post (s : FlushStrategy) (P : ReliableLayer → Prop) (r : sink_poll emptying) : Prop :=
  match r with
  | Ok (Pending, y) => P y.1
  | Ok (Ready (inr _), y) => P y.1 ∧ check_flushed s (rl_link y.1) (rl_buf y.1) = true
  | _ => True
  end.

Definition keeps (P : ReliableLayer → Prop)
    (f : emptying → (emptying → sink_poll emptying) → sink_poll emptying) : Prop :=
  ∀ s x k, P x.1 → (∀ x', P x'.1 → post s P (k x')) → post s P (f x k).

Definition frame_blind (P : ReliableLayer → Prop) : Prop := ∀ frame st, P st → P (set_rl_frame frame st).

Lemma when_ready_keeps P : frame_blind P → keeps P when_ready.
Proof.
  intros HP s x k Hx Hk. unfold when_ready, and_then.
  destruct (poll_ready (rl_frame x.1)) as [[[[e|[]]|] fr]| |]; cbn; try done; [|by apply HP].
  apply Hk. by apply HP.
Qed.

Lemma send_packet_keeps P p : frame_blind P → keeps P (send_packet p).
Proof.
  intros HP s x k Hx Hk. unfold send_packet, send_then.
  destruct (start_send _ _) as [[[e|[]] fr]| |]; cbn; try done. apply Hk. by apply HP.
Qed.

Lemma empty_loop_post P s fuel x :
  frame_blind P → keeps P (empty_ack s) → keeps P (empty_nack s) → keeps P empty_unconnected →
  keeps P empty_frame_set → P x.1 → post s P (empty_loop s fuel x).
Proof.
  intros HP H1 H2 H3 H4. revert x. induction fuel as [|fuel IH]; intros x Hx; cbn [empty_loop].
  all: destruct (check_flushed s (rl_link x.1) (rl_buf x.1)) eqn:Hck; try done.
  unfold empty_round. apply H1; [done|]. intros x1 Hx1. apply H2; [done|]. intros x2 Hx2.
  destruct (flush_pack s); [|auto]. apply H3; [done|]. intros x3 Hx3. apply H4; auto.
Qed.

(** The frames of [st0] that are not in [st] are unreliable. *)
Definition no_reliable_lost (st0 st : ReliableLayer) : Prop :=
  Reliable_inv st ∧
  ∃ gone, map_frames (rm_reliable (rl_resend st0)) ++ buffered (rl_buf st0) ≡ₚ
      gone ++ map_frames (rm_reliable (rl_resend st)) ++ buffered (rl_buf st) ∧
    Forall (λ f, is_reliable (reliability (flags f)) = false) gone.

Lemma Reliable_inv_blind : frame_blind Reliable_inv.
Proof. intros frame st Hi. by destruct Hi. Qed.

Lemma seqs_left_blind : frame_blind seqs_left.
Proof. by intros frame st H. Qed.

Lemma incoming_valid_blind : frame_blind incoming_valid.
Proof. by intros frame st H. Qed.

Lemma no_reliable_lost_blind st0 : frame_blind (no_reliable_lost st0).
Proof. intros frame st [Hi Hg]. split; [by apply Reliable_inv_blind|done]. Qed.

Lemma empty_ack_keeps st0 s : keeps (no_reliable_lost st0) (empty_ack s).
Proof.
  intros s' x k Hx Hk. unfold empty_ack.
  apply when_ready_keeps; [apply no_reliable_lost_blind|done|]. intros [st [[a n] p]] [Hi Hg]. cbn in Hi, Hg.
  destruct (flush_ack s); [|by apply Hk].
  destruct (decide (outgoing_ack (rl_link st) = [])) as [Hn|Hn].
  { rewrite process_outgoing_ack_nil by (done || apply Hi). cbn. apply Hk. split; [by destruct Hi|done]. }
  destruct (process_outgoing_ack_spec (E:=spinning) (peer_mtu (rl_peer st)) (rl_link st) (ri_mtu _ Hi)
    (ri_ack_heap _ Hi) (ri_acks _ Hi) Hn) as (ack & q & -> & Hsort & Hok & Hne & Hq & Hlen).
  cbn [mbind outcome_bind]. rewrite total_cnt_Ok by done. cbn [mbind outcome_bind].
  apply send_packet_keeps; [apply no_reliable_lost_blind| |done]. split; [|done].
  destruct Hi. split; try done; cbn. apply (into_iter_sorted_spec ack_key) in Hq as [Hq' _]. rewrite <-Hq'.
  rewrite <-(proj1 (into_iter_sorted_spec ack_key _ ri_ack_heap0)), Hsort in ri_acks0.
  by apply Forall_app in ri_acks0 as [_ ?].
Qed.

Lemma empty_nack_keeps st0 s : keeps (no_reliable_lost st0) (empty_nack s).
Proof.
  intros s' x k Hx Hk. unfold empty_nack.
  apply when_ready_keeps; [apply no_reliable_lost_blind|done|]. intros [st [[a n] p]] [Hi Hg]. cbn in Hi, Hg.
  destruct (flush_nack s); [|by apply Hk].
  destruct (decide (outgoing_nack (rl_link st) = ∅)) as [Hn|Hn].
  { rewrite process_outgoing_nack_nil by (done || apply Hi). cbn. apply Hk. split; [by destruct Hi|done]. }
  destruct (process_outgoing_nack_spec (E:=spinning) (peer_mtu (rl_peer st)) (rl_link st) (ri_mtu _ Hi)
    (ri_nacks _ Hi) Hn) as (nack & q & -> & Hok & Hne & Hlen & Hin & _).
  cbn [mbind outcome_bind]. rewrite total_cnt_Ok by done. cbn [mbind outcome_bind].
  apply send_packet_keeps; [apply no_reliable_lost_blind| |done]. split; [|done].
  destruct Hi. split; try done; cbn. naive_solver.
Qed.

Lemma empty_unconnected_keeps st0 : keeps (no_reliable_lost st0) empty_unconnected.
Proof.
  intros s x k Hx Hk. unfold empty_unconnected.
  apply when_ready_keeps; [apply no_reliable_lost_blind|done|]. intros [st [[a n] p]] [Hi Hg]. cbn in Hi, Hg.
  unfold process_unconnected. destruct (cq_pop (link_unconnected (rl_link st))) as [[u q]|].
  - apply send_packet_keeps; [apply no_reliable_lost_blind|split; [by destruct Hi|done]|].
    intros [st' [[a' n'] p']] Hst'. by apply Hk.
  - apply Hk. split; [by destruct Hi|done].
Qed.

(** A poll of the socket never separates taking a frame set from sending it. *)
Lemma empty_frame_set_keeps st0 : keeps (no_reliable_lost st0) empty_frame_set.
Proof.
  intros s x k Hx Hk. unfold empty_frame_set.
  apply when_ready_keeps; [apply no_reliable_lost_blind|done|].
  intros [st [[a n] p]] [Hi (gone & Hg & Hu)]. cbn in Hi, Hg.
  destruct (SendBuffer_pop_spec (E:=spinning) (peer_mtu (rl_peer st)) (rl_buf st))
    as (pen & fs & b' & -> & Hb & Hperm & Hsz & Hpen & _);
    [pose proof (ri_mtu _ Hi); lia|apply Hi|by destruct (proj1 (Forall_app _ _ _) (ri_fit _ Hi))|].
  pose proof (Permutation_length Hperm) as Hl. rewrite length_app in Hl.
  pose proof (ri_seq _ Hi) as [Hq0 Hq]. rewrite SendBuffer_len_buffered in Hq.
  pose proof (proj1 (Forall_app _ _ _) (ri_fit _ Hi)) as [Hm Hbf]. rewrite Hperm in Hbf.
  apply Forall_app in Hbf as [Hfs Hbf].
  cbn [mbind outcome_bind]. destruct fs as [|f fs].
  { apply Hk. split; [|exists gone; split; [by rewrite Hg, Hperm|done]]. destruct Hi. split; try done; cbn.
    - apply Forall_app. done.
    - rewrite SendBuffer_len_buffered. cbn in Hl. lia. }
  unfold send_packet, send_then. cbn [fst]. destruct (start_send _ _) as [[[e|[]] fr]| |]; try done.
  set (q := seq_num_write_index st) in *.
  destruct (keep_spec (E:=spinning) (cx_now (rl_world st)) q pen (f :: fs) (rl_resend st))
    as (r' & Hkeep & Hr & Hkeys & Hmf); [apply Hi..|].
  cbn [mbind outcome_bind snd]. cbv beta iota zeta.
  match goal with |- post _ _ (?m ≫= _) => replace m with (Ok (E:=spinning) r') by (symmetry; exact Hkeep) end.
  cbn [mbind outcome_bind]. change (seq_num_write_index (set_rl_frame fr _)) with q. cbn in Hl.
  rewrite u24_add_assign_eq, u24_add_Ok by lia. cbn [mbind outcome_bind]. apply Hk. split.
  - destruct Hi. split; try done; cbn.
    + rewrite Hmf, <-app_assoc, !Forall_app. split_and!; [|done|done].
      unfold kept_of. cbn [mbind list_bind set]. rewrite app_nil_r. destruct (has_reliable (f :: fs)); [done|constructor].
    + rewrite SendBuffer_len_buffered. lia.
  - exists (fire_and_forget [mkFrameSet q (f :: fs)] ++ gone). cbn [rl_resend rl_buf set_rl_out fst]. split.
    + pose proof (sent_split [mkFrameSet q (f :: fs)]) as Hsp. cbn [mbind list_bind set] in Hsp.
      rewrite app_nil_r in Hsp.
      generalize dependent (kept_of [mkFrameSet q (f :: fs)]). intros K Hmf Hsp.
      generalize dependent (fire_and_forget [mkFrameSet q (f :: fs)]). intros G Hsp.
      rewrite Hg, Hperm, Hmf, Hsp. solve_Permutation.
    + apply Forall_app. split; [apply fire_and_forget_unreliable|done].
Qed.

(** C5. Whatever the socket answers, no reliable frame is lost by a flush that
    does not fail: when [try_empty] is pending or done, every reliable frame that
    was waiting or in flight is acknowledged, waiting or in flight, and when it is
    done everything the strategy selects was flushed. *)
Theorem try_empty_safe st res st' :
  Reliable_inv st → seqs_left st → incoming_valid st →
  try_empty st = Ok (res, st') → (∀ e, res ≠ Ready (inl e)) →
  (∃ gone, map_frames (rm_reliable (rl_resend st)) ++ buffered (rl_buf st) ≡ₚ
      retired (acked_seqs st) (rm_reliable (rl_resend st)) ++ gone ++
      map_frames (rm_reliable (rl_resend st')) ++ buffered (rl_buf st') ∧
    Forall (λ f, is_reliable (reliability (flags f)) = false) gone) ∧
  Reliable_inv st' ∧
  (res = Ready (inr tt) →
    check_flushed (default FlushStrategy_default (cx_ext (rl_world st))) (rl_link st') (rl_buf st') = true).
Proof.
  intros Hi Hl Hv Hrun Hne. unfold try_empty in Hrun.
  destruct (process_inflight_spec (E:=spinning) st Hi Hl Hv) as (l & b & r & Hp & Hi1 & Hfr & _).
  rewrite Hp in Hrun. cbn [mbind outcome_bind] in Hrun. set (st1 := set_rl_out _ _ _ _) in *.
  change (cx_ext (rl_world st1)) with (cx_ext (rl_world st)) in Hrun.
  set (s := default FlushStrategy_default (cx_ext (rl_world st))) in *.
  pose proof (empty_loop_post (no_reliable_lost st1) s (pending st1) (st1, (0, 0, 0))
    (no_reliable_lost_blind st1) (empty_ack_keeps st1 s) (empty_nack_keeps st1 s) (empty_unconnected_keeps st1)
    (empty_frame_set_keeps st1)) as Hpost.
  destruct (empty_loop s (pending st1) (st1, (0, 0, 0))) as [[res' [st2 cnt]]| |]; cbn [mbind outcome_bind] in Hrun; try done.
  assert (no_reliable_lost st1 st1) as Hstart by (split; [done|by exists []]). specialize (Hpost Hstart).
  assert (∀ st2, no_reliable_lost st1 st2 → ∃ gone, map_frames (rm_reliable (rl_resend st)) ++ buffered (rl_buf st) ≡ₚ
      retired (acked_seqs st) (rm_reliable (rl_resend st)) ++ gone ++
      map_frames (rm_reliable (rl_resend st2)) ++ buffered (rl_buf st2) ∧
    Forall (λ f, is_reliable (reliability (flags f)) = false) gone) as Hfin.
  { intros st3 [_ (gone & Hg & Hu)]. exists gone. split; [by rewrite Hfr, <-Hg|done]. }
  destruct res' as [[e|[]]|]; cbn in Hpost.
  - injection Hrun as <- <-. by destruct (Hne e).
  - destruct (mark_flushed cnt (rl_world st2)) as [w| |] eqn:Hw; cbn in Hrun; try done.
    injection Hrun as <- <-. destruct Hpost as [Hpost Hck].
    assert (w_link w = rl_link st2) as Hwl.
    { unfold mark_flushed in Hw. destruct (cx_ext (rl_world st2)) as [s2|]; [|by injection Hw as <-].
      bind_inv. by subst. }
    split_and!; [exact (Hfin st2 Hpost)| |intros _; unfold rl_link; cbn; by rewrite Hwl].
    destruct Hpost as [[] _]. by split; unfold rl_link; cbn; rewrite ?Hwl.
  - injection Hrun as <- <-. split_and!; [by apply Hfin|apply Hpost|done].
Qed.

(** The strategy of the context is not changed by the loop. *)
Definition has_ext (e : option FlushStrategy) (st : ReliableLayer) : Prop := cx_ext (rl_world st) = e.

Lemma has_ext_blind e : frame_blind (has_ext e).
Proof. by intros frame st H. Qed.

Lemma post_bind_eq {A} s P (m : outcome spinning A) k : (∀ a, m = Ok a → post s P (k a)) → post s P (m ≫= k).
Proof. destruct m; cbn; auto. Qed.

Lemma post_bind {A} s P (m : outcome spinning A) k : (∀ a, post s P (k a)) → post s P (m ≫= k).
Proof. destruct m; cbn; auto. Qed.

(** What the loop does to a state, apart from the socket: it takes from the link and
    the buffer, and records what it sent. *)
Lemma empty_keeps P s :
  frame_blind P → (∀ l st, P st → P (set_rl_link l st)) →
  (∀ st rel pen fs buf, P st →
    SendBuffer_pop (E:=spinning) (peer_mtu (rl_peer st)) (rl_buf st) = Ok (rel, pen, fs, buf) →
    P (set_rl_out (seq_num_write_index st) buf (rl_resend st) st) ∧
    (fs = [] ∨ ∀ st' r q, P st' →
      (if (rel : bool)
       then ResendMap_record (E:=spinning) (cx_now (rl_world st')) (seq_num_write_index st') pen fs (rl_resend st')
       else mret (rl_resend st')) = Ok r → P (set_rl_out q (rl_buf st') r st'))) →
  keeps P (empty_ack s) ∧ keeps P (empty_nack s) ∧ keeps P empty_unconnected ∧ keeps P empty_frame_set.
Proof.
  intros HP HL HF. split_and!; intros s' x k Hx Hk; (apply when_ready_keeps; [done|done|]); intros [st [[a n] p]] Hst.
  - destruct (flush_ack s); [|by apply Hk]. apply post_bind. intros [[ack|] l]; [|by apply Hk, HL].
    apply post_bind. intros c. apply send_packet_keeps; [done|by apply HL|done].
  - destruct (flush_nack s); [|by apply Hk]. apply post_bind. intros [[ack|] l]; [|by apply Hk, HL].
    apply post_bind. intros c. apply send_packet_keeps; [done|by apply HL|done].
  - destruct (process_unconnected (rl_link st)) as [[u|] l]; [|by apply Hk, HL].
    apply send_packet_keeps; [done|by apply HL|]. intros [st' [[a' n'] p']] H'. by apply Hk.
  - apply post_bind_eq. intros [[[rel pen] fs] buf] Hpop. destruct (HF _ _ _ _ _ Hst Hpop) as [H1 H2].
    destruct fs as [|f fs]; [by apply Hk|]. destruct H2 as [?|H2]; [done|].
    apply send_packet_keeps; [done|done|]. intros [st' [[a' n'] p']] H'.
    apply post_bind_eq. intros r Hr. apply post_bind. intros q. apply Hk. by eapply H2.
Qed.

Lemma empty_keeps_ext e s :
  keeps (has_ext e) (empty_ack s) ∧ keeps (has_ext e) (empty_nack s) ∧
  keeps (has_ext e) empty_unconnected ∧ keeps (has_ext e) empty_frame_set.
Proof. apply empty_keeps; [apply has_ext_blind|by intros|]. intros st rel pen fs buf Hst _. split; [done|]. right. by intros. Qed.

Lemma try_empty_ready st st' :
  cx_ext (rl_world st) = None → try_empty st = Ok (Ready (inr tt), st') →
  cx_ext (rl_world st') = None ∧ check_flushed FlushStrategy_default (rl_link st') (rl_buf st') = true.
Proof.
  intros Hx Hrun. unfold try_empty in Hrun. apply outcome_bind_Ok in Hrun as (st1 & Hp & Hrun).
  assert (has_ext None st1) as H1.
  { unfold process_inflight in Hp. destruct (process_ack (rl_link st)) as [acks l].
    apply outcome_bind_Ok in Hp as (r & _ & Hp). destruct (process_nack l) as [nacks l2].
    apply outcome_bind_Ok in Hp as ([r2 b2] & _ & Hp). apply outcome_bind_Ok in Hp as ([r3 b3] & _ & Hp).
    by injection Hp as <-. }
  rewrite H1 in Hrun. cbn [default] in Hrun.
  destruct (empty_keeps_ext None FlushStrategy_default) as (K1 & K2 & K3 & K4).
  pose proof (empty_loop_post _ _ (pending st1) (st1, (0, 0, 0)) (has_ext_blind None) K1 K2 K3 K4 H1) as Hpost.
  apply outcome_bind_Ok in Hrun as ([res [st2 cnt]] & Hl & Hrun). rewrite Hl in Hpost.
  destruct res as [[e|[]]|]; [done| |done]. destruct Hpost as [Hx2 Hck]. cbn in Hx2, Hck.
  unfold mark_flushed in Hrun. rewrite Hx2 in Hrun. by injection Hrun as <-.
Qed.

(** A connection is closed only when all is received: when [poll_close] is
    ready, whatever the socket answered, the peer has acknowledged every frame set
    that was kept for resending, nothing waits to be sent, and the link no longer
    wakes the task. *)
Theorem poll_close_completes nows st st' :
  cx_ext (rl_world st) = None → Reliable_poll_close nows st = Ok (Ready (inr tt), st') →
  rm_reliable (rl_resend st') = ∅ ∧ SendBuffer_len (rl_buf st') = 0%nat ∧
  outgoing_ack (rl_link st') = [] ∧ outgoing_nack (rl_link st') = ∅ ∧
  cq_list (link_unconnected (rl_link st')) = [] ∧ forward_waking (rl_link st') = false.
Proof.
  unfold Reliable_poll_close. intros Hx.
  assert (cx_ext (rl_world (set_rl_link (turn_on_waking (rl_link st)) st)) = None) as Hx0 by done.
  generalize dependent (set_rl_link (turn_on_waking (rl_link st)) st). clear st Hx. intros st Hx.
  revert st Hx. induction nows as [|t nows IH]; intros st Hx Hrun; [done|]. cbn [close_loop] in Hrun.
  unfold and_then in Hrun at 1. apply outcome_bind_Ok in Hrun as ([[[e|[]]|] st1] & Ht & Hrun); try done.
  apply try_empty_ready in Ht as [Hx1 Hck]; [|done].
  apply outcome_bind_Ok in Hrun as (_ & _ & Hrun).
  unfold and_then in Hrun. apply outcome_bind_Ok in Hrun as ([[[e|[]]|] st2] & Hf & Hrun); try done.
  apply outcome_bind_Ok in Hf as ([r fr] & _ & Hf). injection Hf as -> <-.
  destruct (ResendMap_is_empty (rl_resend (set_rl_frame fr st1))) eqn:Hem.
  - apply outcome_bind_Ok in Hrun as ([r' fr'] & _ & Hrun). injection Hrun as -> <-.
    apply bool_decide_eq_true in Hem. apply check_flushed_spec in Hck as (C1 & C2 & C3).
    destruct (C3 eq_refl) as [C4 C5]. by split_and!; auto.
  - destruct (poll_wait _ _ _ _) as [[[]|] re]; [|done]. eapply IH; [|exact Hrun]. exact Hx1.
Qed.

(** Nothing waits to be sent and no acknowledgement waits to be processed. *)
Definition quiet (st : ReliableLayer) : Prop :=
  outgoing_ack (rl_link st) = [] ∧ outgoing_nack (rl_link st) = ∅ ∧
  cq_list (link_unconnected (rl_link st)) = [] ∧ SendBuffer_len (rl_buf st) = 0%nat ∧
  cq_list (link_incoming_ack (rl_link st)) = [] ∧ cq_list (link_incoming_nack (rl_link st)) = [].

Lemma quiet_flushed s st : quiet st → check_flushed s (rl_link st) (rl_buf st) = true.
Proof. intros (H1 & H2 & H3 & H4 & _). by apply check_flushed_spec. Qed.

Lemma cq_try_iter_nil {A} (q : cq A) : cq_list q = [] → cq_try_iter q = ([], q).
Proof. intros Hq. unfold cq_try_iter. by rewrite Hq. Qed.

(** Without acknowledgements to process and with nothing in flight, nothing happens. *)
Lemma process_inflight_idle {E} st :
  cq_list (link_incoming_ack (rl_link st)) = [] → cq_list (link_incoming_nack (rl_link st)) = [] →
  rm_reliable (rl_resend st) = ∅ → process_inflight (E:=E) st = Ok st.
Proof.
  intros Ha Hn He. unfold process_inflight, process_ack.
  rewrite cq_try_iter_nil by done. cbn [ack_all mbind outcome_bind mret outcome_ret]. unfold process_nack.
  cbn [link_incoming_nack set_incoming]. rewrite cq_try_iter_nil by done.
  cbn [nack_all mbind outcome_bind mret outcome_ret].
  unfold process_stales. rewrite decide_True by done. destruct st as [? [[] ? ? ? ?] ? ? ? ? ?]. done.
Qed.

Lemma process_inflight_quiet {E} st :
  quiet st → cx_now (rl_world st) < last_record_expired_at (rl_resend st) →
  process_inflight (E:=E) st = Ok st.
Proof.
  intros (_ & _ & _ & _ & Ha & Hn) Hlt. unfold process_inflight, process_ack.
  rewrite cq_try_iter_nil by done. cbn [ack_all mbind outcome_bind mret outcome_ret]. unfold process_nack.
  cbn [link_incoming_nack set_incoming]. rewrite cq_try_iter_nil by done.
  cbn [nack_all mbind outcome_bind mret outcome_ret].
  unfold process_stales. rewrite (proj2 (Z.ltb_lt _ _)) by done.
  assert (∀ (P : Prop) (d : Decision P) (a : ResendMap T * SendBuffer),
    (if d then mret (M:=outcome E) a else mret a) = mret a) as -> by (by intros ? []).
  cbn. destruct st as [? [[] ? ? ? ?] ? ? ? ? ?]. done.
Qed.

Lemma min_by_expiry_le es i e :
  (i, e) ∈ es → ∃ j e', min_by_expiry es = Some (j, e') ∧ expired_at e' ≤ expired_at e.
Proof.
  unfold min_by_expiry. set (f := λ acc x, _).
  assert (∀ es acc a, acc = Some a → ∃ b, foldl f acc es = Some b ∧ expired_at b.2 ≤ expired_at a.2 ∧
    ∀ x, x ∈ es → expired_at b.2 ≤ expired_at x.2) as H.
  { clear. induction es as [|x es IH]; intros acc a ->; cbn.
    - exists a. split_and!; [done|lia|set_solver].
    - destruct (Z.ltb_spec (expired_at x.2) (expired_at a.2)) as [Hlt|Hge].
      + destruct (IH (Some x) x eq_refl) as (b & -> & H1 & H2). exists b. split_and!; [done|lia|].
        intros y [->|Hy]%elem_of_cons; auto.
      + destruct (IH (Some a) a eq_refl) as (b & -> & H1 & H2). exists b. split_and!; [done|lia|].
        intros y [->|Hy]%elem_of_cons; [lia|auto]. }
  intros Hin. destruct es as [|x es]; [set_solver|]. cbn.
  destruct (H es (Some x) x eq_refl) as ([j e'] & Hb & H1 & H2). exists j, e'. split; [exact Hb|].
  apply elem_of_cons in Hin as [<-|Hin]; [done|]. by apply (H2 (i, e)).
Qed.

(** C36. Closing can burn the processor: when a frame set in flight has expired but
    the scan for expired frame sets is not due yet ([last_record_expired_at] lies
    in the future), [poll_close] neither resends the frame set nor goes to sleep;
    it goes round its loop, at every time until the scan is due. *)
Theorem poll_close_spins h nows st i e :
  quiet st → cx_ext (rl_world st) = None → taken h (rl_frame st) →
  rm_reliable (rl_resend st) !! i = Some e →
  Forall (λ t, expired_at e ≤ t < last_record_expired_at (rl_resend st)) nows →
  Reliable_poll_close nows st = Err OutOfFuel.
Proof.
  intros Hq Hx Ht He Hn. unfold Reliable_poll_close.
  assert (∀ st, quiet st → cx_ext (rl_world st) = None → taken h (rl_frame st) →
    rm_reliable (rl_resend st) !! i = Some e →
    Forall (λ t, expired_at e ≤ t < last_record_expired_at (rl_resend st)) nows →
    close_loop nows st = Err OutOfFuel) as H; [|by apply H].
  clear st Hq Hx Ht He Hn. intros st Hq Hx Ht He Hn. revert st Hq Hx Ht He Hn.
  induction nows as [|t nows IH]; intros st Hq Hx Ht He Hn; [done|].
  apply Forall_cons in Hn as [[Hn1 Hn2] Hn]. cbn [close_loop].
  set (st1 := set_rl_world (world_now t (rl_world st)) st).
  assert (try_empty st1 = Ok (Ready (inr tt), st1)) as ->.
  { unfold try_empty. rewrite process_inflight_quiet by done. cbn [mbind outcome_bind].
    change (cx_ext (rl_world st1)) with (cx_ext (rl_world st)). rewrite Hx. cbn [default].
    assert (∀ fuel c, empty_loop FlushStrategy_default fuel (st1, c) = Ok (Ready (inr tt), (st1, c))) as ->.
    { intros fuel c. assert (check_flushed FlushStrategy_default (rl_link st1) (rl_buf st1) = true) as Hck
        by (by apply quiet_flushed). destruct fuel; cbn [empty_loop fst]; by rewrite Hck. }
    cbn [mbind outcome_bind]. unfold mark_flushed.
    change (cx_ext (rl_world st1)) with (cx_ext (rl_world st)). by rewrite Hx. }
  cbn [and_then mbind outcome_bind id].
  assert (debug_assert (E:=spinning) (SendBuffer_is_empty (rl_buf st1) && unconnected_empty (rl_link st1)
    && outgoing_ack_empty (rl_link st1) && outgoing_nack_empty (rl_link st1)) = Ok tt) as ->.
  { destruct Hq as (H1 & H2 & H3 & H4 & _). unfold SendBuffer_is_empty, unconnected_empty,
      outgoing_ack_empty, outgoing_nack_empty, rl_link in *. cbn. rewrite H1, H2, H3, H4. cbn.
    unfold debug_assert. by destruct debug_assertions. }
  cbn [mbind outcome_bind]. unfold poll_below.
  destruct (poll_flush_taken h (rl_frame st1) Ht) as (fr & -> & Ht').
  cbn [and_then mbind outcome_bind mret outcome_ret].
  change (rl_resend (set_rl_frame fr st1)) with (rl_resend st).
  assert (ResendMap_is_empty (rl_resend st) = false) as ->.
  { unfold ResendMap_is_empty. apply bool_decide_false. intros Hem. by rewrite Hem in He. }
  unfold poll_wait.
  destruct (min_by_expiry_le (hash_iter (rm_reliable (rl_resend st))) i e) as (j & e' & -> & Hle).
  { by rewrite hash_iter_Permutation, elem_of_map_to_list. }
  rewrite (proj2 (Z.ltb_ge _ _)) by lia. by apply IH.
Qed.

(** The layer as the sink of the encoders.  The clock does not advance within a
    poll, so that a second round of [poll_close] that does not return repeats. *)
Global Instance Reliable_sink : Sink ReliableLayer (Priority * Frame) := {
  poll_ready := Reliable_poll_ready;
  start_send := Reliable_start_send;
  poll_flush := Reliable_poll_flush;
  poll_close st := Reliable_poll_close [cx_now (rl_world st); cx_now (rl_world st)] st;
}.

End reliable.

(** ** A connection over a socket that records what it is given *)

Abbreviation SampleLayer :=
  (ReliableLayer (CQ:=queue_reference) (F:=LogSink (Packet * SocketAddr)) (T:=RFC6298Impl)).

Definition sample_peer : Peer := mkPeer 2 (V4 0 0) 100.

Definition sample_world : World (CQ:=queue_reference) :=
  mkWorld (TransferLink_new (CQ:=queue_reference) (Server 1) sample_peer) Reactor_new 0 0 None.

Definition sample_layer : SampleLayer :=
  wrap_reliable (CQ:=queue_reference) (mkLogSink [] [] 0 0) sample_world sample_peer (Server 1) RFC6298_new.

(** Set the clock, in milliseconds. *)
Definition at_ms (t : Z) (st : SampleLayer) : SampleLayer :=
  set_rl_world (CQ:=queue_reference) (world_now (CQ:=queue_reference) (t * 1000000) (rl_world st)) st.

Definition state_of (st : SampleLayer) (m : sink_poll SampleLayer) : SampleLayer :=
  match m with Ok (_, st') => st' | _ => st end.

Definition with_frame (f : Frame) (st : SampleLayer) : SampleLayer :=
  match Reliable_start_send (BH:=heap_sorted) (Medium, f) st with Ok (_, st') => st' | _ => st end.

Definition flushed (st : SampleLayer) : SampleLayer :=
  state_of st (Reliable_poll_flush (B:=true) (BH:=heap_sorted) (HI:=hash_iter_reference) st).

Definition readied (st : SampleLayer) : SampleLayer :=
  state_of st (Reliable_poll_ready (B:=true) (BH:=heap_sorted) (HI:=hash_iter_reference) st).

Definition with_ack (t : Z) (a : AckOrNack) (st : SampleLayer) : SampleLayer :=
  let '(l, r, _) := incoming_ack (CQ:=queue_reference) (t * 1000000) a (rl_link st) (w_reactor (rl_world st)) in
  set_rl_world (CQ:=queue_reference) (world_link (CQ:=queue_reference) l (rl_world st)) st.

Definition sample_reliable_frame (i : Z) : Frame := mkFrame (Flags_new Reliable false) (Some i) None None None [i].

(** A frame set is sent at 0 ms and acknowledged after 2 ms, after a scan at 1 ms;
    the next one, sent at 3 ms, expires at 9 ms. *)
Definition sample_spinning : SampleLayer :=
  let st := flushed (with_frame (sample_reliable_frame 0) sample_layer) in
  let st := with_ack 2 (mkAckOrNack [Single 0]) (readied (at_ms 1 st)) in
  flushed (with_frame (sample_reliable_frame 1) (readied (at_ms 3 st))).

Lemma poll_close_spins_witness :
  Reliable_poll_close (B:=true) (BH:=heap_sorted) (HI:=hash_iter_reference)
    [10000000; 250000000; 500999999] sample_spinning = Err OutOfFuel.
Proof.
  apply (poll_close_spins (B:=true) (BH:=heap_sorted) (HI:=hash_iter_reference) (log_sent (rl_frame sample_spinning)) _ _ 1
    (mkResendEntry 0 (Some [sample_reliable_frame 1]) 3000000 9000000)).
  - unfold quiet. split_and!; vm_compute; reflexivity.
  - vm_compute. reflexivity.
  - split; vm_compute; reflexivity.
  - vm_compute. reflexivity.
  - repeat constructor; vm_compute; (reflexivity || discriminate).
Defined.

(** Acknowledgements, a missing number, a reply of the handshake and two frames
    wait; the frame set in flight is acknowledged meanwhile. *)
Definition sample_pending : SampleLayer :=
  let st := flushed (with_frame (sample_reliable_frame 0) sample_layer) in
  let st := with_frame (mkFrame (Flags_new Unreliable false) None None None None [9])
    (with_frame (sample_reliable_frame 1) (with_ack 2 (mkAckOrNack [Single 0]) st)) in
  let l := set_queues (CQ:=queue_reference) (None, [UAlreadyConnected 1]) (None, []) (rl_link st) in
  let l := set_outgoing (CQ:=queue_reference) [0; 2; 3] {[ 1 ]} l in
  set_rl_world (CQ:=queue_reference)
    (world_ext (CQ:=queue_reference) (Some (FlushStrategy_new true false true))
      (world_link (CQ:=queue_reference) l (rl_world st))) st.

(** The states above, as values. *)
Lemma sample_pending_value :
  ∃ e, sample_pending =
    mkReliableLayer (CQ:=queue_reference)
      (mkLogSink [] (log_sent (rl_frame sample_pending)) 1 0) (rl_world sample_pending) 1 sample_peer (Server 1)
      (mkSendBuffer [] [sample_reliable_frame 1; mkFrame (Flags_new Unreliable false) None None None None [9]] [] [])
      (mkResendMap {[ 0 := e ]} 1 (Server 1) sample_peer 0 RFC6298_new) ∧
    re_frames e = Some [sample_reliable_frame 0] ∧
    outgoing_ack (rl_link sample_pending) = [0; 2; 3] ∧ outgoing_nack (rl_link sample_pending) = {[ 1 ]}.
Proof. eexists. split; [vm_compute; reflexivity|]. split_and!; vm_compute; reflexivity. Qed.

Lemma sample_pending_ok :
  Reliable_inv (BH:=heap_sorted) sample_pending ∧ seqs_left sample_pending ∧ incoming_valid sample_pending ∧
  marks_ok sample_pending ∧ socket_ok (log_sent (rl_frame sample_pending)) sample_pending.
Proof.
  destruct sample_pending_value as (e & Hv & He & Ha & Hn). split_and!.
  - split; rewrite ?Ha, ?Hn.
    + rewrite Hv. cbn. lia.
    + vm_compute. repeat constructor; discriminate.
    + unfold countable. rewrite !Forall_cons, Forall_nil. lia.
    + intros x Hx. apply elem_of_singleton in Hx. subst x. unfold countable. lia.
    + rewrite Hv. split; cbn; repeat constructor.
    + rewrite Hv. cbn. unfold map_frames. rewrite map_to_list_singleton. cbn. unfold entry_frames. rewrite He.
      repeat constructor; vm_compute; discriminate.
    + rewrite Hv. cbn. split; cbn; [|unfold map_frames; rewrite map_to_list_singleton; cbn; unfold entry_frames; by rewrite He|].
      * apply map_Forall_singleton. by rewrite He.
      * unfold INITIAL_RTT. split_and!; cbn; [lia|done|lia].
    + rewrite Hv. cbn. intros i. rewrite dom_singleton_L. intros ->%elem_of_singleton. lia.
    + rewrite Hv. cbn. lia.
  - vm_compute. reflexivity.
  - split.
    + change (Forall (λ a : AckOrNack * Z, records_valid (records a.1)) [(mkAckOrNack [Single 0], 2000000)]).
      repeat constructor; cbn; unfold u24_valid, uint; lia.
    + change (Forall (λ a : AckOrNack, records_valid (records a)) []). constructor.
  - split; [vm_compute; reflexivity|]. intros s [= <-]. cbn. lia.
  - split; [split; vm_compute; reflexivity|]. intros p _. done.
Qed.

Lemma try_empty_keeps_reliable_witness :
  ∃ st' gone, try_empty (B:=true) (BH:=heap_sorted) (HI:=hash_iter_reference) sample_pending = Ok (Ready (inr tt), st') ∧
    Reliable_inv (BH:=heap_sorted) st' ∧
    map_frames (rm_reliable (rl_resend sample_pending)) ++ buffered (rl_buf sample_pending) ≡ₚ
      retired (acked_seqs sample_pending) (rm_reliable (rl_resend sample_pending)) ++ gone ++
      map_frames (rm_reliable (rl_resend st')) ++ buffered (rl_buf st') ∧
    Forall (λ f, is_reliable (reliability (flags f)) = false) gone.
Proof.
  destruct sample_pending_ok as (H1 & H2 & H3 & H4 & H5).
  apply (try_empty_keeps_reliable (B:=true) (BH:=heap_sorted) (HI:=hash_iter_reference)
    (log_sent (rl_frame sample_pending)) sample_pending H1 H2 H3 H4 H5).
Defined.

(** A socket that blocks after the acknowledgements were sent. *)
Definition sample_blocked : SampleLayer :=
  set_rl_frame (CQ:=queue_reference)
    (mkLogSink [Ready (inr tt); Ready (inr tt); Pending] (log_sent (rl_frame sample_pending)) 0 0) sample_pending.

Definition sample_blocked_after : SampleLayer :=
  state_of sample_blocked (try_empty (B:=true) (BH:=heap_sorted) (HI:=hash_iter_reference) sample_blocked).

Lemma try_empty_safe_witness :
  (∃ gone, map_frames (rm_reliable (rl_resend sample_blocked)) ++ buffered (rl_buf sample_blocked) ≡ₚ
      retired (acked_seqs sample_blocked) (rm_reliable (rl_resend sample_blocked)) ++ gone ++
      map_frames (rm_reliable (rl_resend sample_blocked_after)) ++ buffered (rl_buf sample_blocked_after) ∧
    Forall (λ f, is_reliable (reliability (flags f)) = false) gone) ∧
  Reliable_inv (BH:=heap_sorted) sample_blocked_after ∧
  ((Pending : poll io_result) = Ready (inr tt) →
    check_flushed (CQ:=queue_reference) (FlushStrategy_new true false true) (rl_link sample_blocked_after)
      (rl_buf sample_blocked_after) = true).
Proof.
  destruct sample_pending_ok as (H1 & H2 & H3 & _).
  apply (try_empty_safe (B:=true) (BH:=heap_sorted) (HI:=hash_iter_reference) sample_blocked Pending
    sample_blocked_after).
  - apply Reliable_inv_blind, H1.
  - apply seqs_left_blind, H2.
  - apply incoming_valid_blind, H3.
  - vm_compute. reflexivity.
  - done.
Defined.

(** Closing when the last frame set was acknowledged. *)
Definition sample_closing : SampleLayer :=
  with_ack 2 (mkAckOrNack [Single 0]) (flushed (with_frame (sample_reliable_frame 0) sample_layer)).

Definition sample_closed : SampleLayer :=
  state_of sample_closing (Reliable_poll_close (B:=true) (BH:=heap_sorted) (HI:=hash_iter_reference) [2000000] sample_closing).

Lemma poll_close_completes_witness :
  rm_reliable (rl_resend sample_closed) = ∅ ∧ SendBuffer_len (rl_buf sample_closed) = 0%nat ∧
  outgoing_ack (rl_link sample_closed) = [] ∧ outgoing_nack (rl_link sample_closed) = ∅ ∧
  cq_list (ConcurrentQueueCrate:=queue_reference) (link_unconnected (rl_link sample_closed)) = [] ∧
  forward_waking (rl_link sample_closed) = false.
Proof.
  apply (poll_close_completes (B:=true) (BH:=heap_sorted) (HI:=hash_iter_reference) [2000000] sample_closing);
    vm_compute; reflexivity.
Defined.
