(* ===== verification/Recovery.v ===== *)
(** * Recovery of lost frames (src/reliable.rs)

    What the resend map and the scan for timeouts promise about a lossy network:
    which frames a flush sends again, when, and that nothing else is sent again. *)
From S2P Require Import Prelude Bytes Errors Reader SeqNum Types PackType Unconnected AckNack FrameSet.
From S2P Require Import FrameBody Packet Sink Collections Channels Reactor Dedup Link Estimator SendBuffer.
From S2P Require Import Resend Opts Reliable.
Open Scope Z_scope.

Section recovery.
Context {B : Build} {BH : BinaryHeap} {HI : HashIter} {CQ : ConcurrentQueueCrate}.
Context {F T : Type} `{!Sink F (Packet * SocketAddr)} `{!Estimator T} `{!EstimatorLaws T}.
Implicit Types (r : ResendMap T) (st : ReliableLayer (F:=F) (T:=T)).

(** ** The plan of the next scan

    Entries are added without touching the plan, so that the next scan may come
    after the expiry of a younger entry; it is at most [MAX_SKIP_SCAN_RTO] late,
    counted from the time that entry was sent. *)
Definition planned_for (t : Z) (e : ResendEntry) : Prop :=
  t ≤ Z.max (expired_at e) (send_at e + MAX_SKIP_SCAN_RTO).

Record scan_planned (now : Z) (r : ResendMap T) : Prop := {
  pl_soon : last_record_expired_at r ≤ now + MAX_SKIP_SCAN_RTO;
  pl_entries : ∀ i e, rm_reliable r !! i = Some e → planned_for (last_record_expired_at r) e;
}.

(** An entry that the next flush has to send again. *)
Definition overdue (now : Z) (e : ResendEntry) : Prop :=
  expired_at e ≤ now ∧ send_at e + MAX_SKIP_SCAN_RTO ≤ now.

Lemma overdue_planned now t e : planned_for t e → overdue now e → t ≤ now.
Proof. unfold planned_for, overdue. lia. Qed.

Lemma scan_planned_new now role peer (e : T) : scan_planned now (ResendMap_new now role peer e).
Proof. split; cbn; [unfold MAX_SKIP_SCAN_RTO; lia|intros i e'; by rewrite lookup_empty]. Qed.

Lemma scan_planned_later now now' r : now ≤ now' → scan_planned now r → scan_planned now' r.
Proof. intros Hle []. split; [lia|done]. Qed.

Lemma scan_planned_shrink now r r' :
  last_record_expired_at r' = last_record_expired_at r →
  (∀ i e, rm_reliable r' !! i = Some e → rm_reliable r !! i = Some e) → scan_planned now r → scan_planned now r'.
Proof. intros Hl Hm []. split; rewrite Hl; eauto. Qed.

Lemma scan_planned_record {E} now seq pen fs r r' :
  ResendMap_record (E:=E) now seq pen fs r = Ok r' → scan_planned now r → scan_planned now r'.
Proof.
  intros Hr [Hs He]. unfold ResendMap_record in Hr. bind_inv. subst. split; cbn; [done|].
  intros i e [[<- <-]|[_ Hi]]%lookup_insert_Some; [unfold planned_for; cbn; lia|by eapply He].
Qed.

(** Acknowledgements do not touch the plan. *)
Local Abbreviation plan := last_record_expired_at.

Local Ltac plan_tac :=
  repeat match goal with
  | H : Panic = Ok _ |- _ => discriminate H
  | H : (let '(_, _) := ?p in _) = Ok _ |- _ => destruct p
  | H : (_ ≫= _) = Ok _ |- _ => apply outcome_bind_Ok in H as (? & ? & H)
  | p : (_ * _)%type |- _ => destruct p
  end; cbv [mret outcome_ret] in *; simplify_eq/=; eauto using eq_trans.

Lemma ack_one_plan {E} at_ i r r' : ack_one (E:=E) at_ i r = Ok r' → plan r' = plan r.
Proof. unfold ack_one. destruct (rm_reliable r !! i) as [[? [fs|] ? ?]|]; intros H; plan_tac. Qed.

Lemma nack_one_plan {E} i r buf r' buf' : nack_one (E:=E) i r buf = Ok (r', buf') → plan r' = plan r.
Proof. unfold nack_one. destruct (rm_reliable r !! i) as [[? [fs|] ? ?]|]; cbn; intros H; plan_tac. Qed.

Lemma ack_seqs_plan {E} at_ seqs r r' : ack_seqs (E:=E) at_ seqs r = Ok r' → plan r' = plan r.
Proof. revert r. induction seqs as [|i seqs IH]; cbn; intros r H; plan_tac. eauto using eq_trans, ack_one_plan. Qed.

Lemma ack_records_plan {E} at_ recs r r' : ack_records (E:=E) at_ recs r = Ok r' → plan r' = plan r.
Proof. revert r. induction recs as [|rec recs IH]; cbn; intros r H; plan_tac. eauto using eq_trans, ack_seqs_plan. Qed.

Lemma ack_all_plan {E} acks r r' : ack_all (E:=E) acks r = Ok r' → plan r' = plan r.
Proof.
  revert r. induction acks as [|[a t] acks IH]; cbn; intros r H; unfold on_ack in *; plan_tac.
  eauto using eq_trans, ack_records_plan.
Qed.

Lemma nack_seqs_plan {E} seqs r buf r' buf' : nack_seqs (E:=E) seqs r buf = Ok (r', buf') → plan r' = plan r.
Proof.
  revert r buf. induction seqs as [|i seqs IH]; cbn; intros r buf H; plan_tac.
  eauto using eq_trans, nack_one_plan.
Qed.

Lemma nack_records_plan {E} recs r buf r' buf' : nack_records (E:=E) recs r buf = Ok (r', buf') → plan r' = plan r.
Proof.
  revert r buf. induction recs as [|rec recs IH]; cbn; intros r buf H; plan_tac.
  eauto using eq_trans, nack_seqs_plan.
Qed.

Lemma nack_all_plan {E} nacks r buf r' buf' : nack_all (E:=E) nacks r buf = Ok (r', buf') → plan r' = plan r.
Proof.
  revert r buf. induction nacks as [|a nacks IH]; cbn; intros r buf H; unfold on_nack_into in *; plan_tac.
  eauto using eq_trans, nack_records_plan.
Qed.

Lemma process_stales_plan {E} now r buf r' buf' :
  Resend_inv r → SendBuffer_ok buf → process_stales (E:=E) now r buf = Ok (r', buf') →
  scan_planned now r → scan_planned now r'.
Proof.
  intros Hr Hb H Hp. destruct (process_stales_spec (E:=E) now r buf Hr Hb) as (r2 & b2 & H2 & _ & _ & _ & Hm & Hs).
  rewrite H in H2. injection H2 as <- <-. unfold process_stales in H.
  case_decide as He; [by injection H as <- <-|].
  destruct (Z.ltb_spec now (plan r)) as [Hlt|Hge]; [by injection H as <- <-|].
  destruct (Hs He Hge) as [H1 H2]. split; [lia|]. intros i e Hi%H2. unfold planned_for. lia.
Qed.

(** ** What is sent again *)

Definition nacked_seqs st : list u24 := cq_list (link_incoming_nack (rl_link st)) ≫= seqs_of.

(** The entries that acknowledgements, negative acknowledgements and the scan
    move back to the send buffer. *)
Definition resends st (i : u24) (e : ResendEntry) : Prop :=
  (i ∉ acked_seqs st) ∧
  (i ∈ nacked_seqs st ∨ plan (rl_resend st) ≤ cx_now (rl_world st) ∧ expired_at e ≤ cx_now (rl_world st)).

Global Instance resends_dec st i e : Decision (resends st i e) := _.

Definition lost_frames st : list Frame :=
  map_frames (filter (λ x, resends st x.1 x.2) (rm_reliable (rl_resend st))).

Lemma frames_partition (P Q : u24 * ResendEntry → Prop) `{!∀ x, Decision (P x)} `{!∀ x, Decision (Q x)}
    (m m' : gmap u24 ResendEntry) :
  (∀ i e, m' !! i = Some e ↔ m !! i = Some e ∧ ¬ P (i, e) ∧ ¬ Q (i, e)) → (∀ x, Q x → ¬ P x) →
  map_frames m ≡ₚ map_frames (filter P m) ++ map_frames (filter Q m) ++ map_frames m'.
Proof.
  intros Hm HQ. rewrite (map_frames_filter P m), (map_frames_filter Q (filter (λ x, ¬ P x) m)). do 3 f_equiv.
  - apply map_eq. intros i. apply option_eq. intros e. rewrite !map_lookup_filter_Some. naive_solver.
  - apply map_eq. intros i. apply option_eq. intros e. rewrite !map_lookup_filter_Some, Hm. naive_solver.
Qed.

Lemma process_inflight_exact {E} st st1 :
  Reliable_inv st → incoming_valid st → process_inflight (E:=E) st = Ok st1 →
  buffered (rl_buf st1) ≡ₚ buffered (rl_buf st) ++ lost_frames st ∧
  (∀ i e, rm_reliable (rl_resend st1) !! i = Some e ↔
    rm_reliable (rl_resend st) !! i = Some e ∧ (i ∉ acked_seqs st) ∧ ¬ resends st i e) ∧
  (scan_planned (cx_now (rl_world st)) (rl_resend st) → scan_planned (cx_now (rl_world st)) (rl_resend st1)).
Proof.
  intros Hi [Ha Hn] Hrun. unfold process_inflight, process_ack in Hrun.
  destruct (cq_try_iter_spec (link_incoming_ack (rl_link st))) as (A1 & _).
  destruct (cq_try_iter (link_incoming_ack (rl_link st))) as [acks qa]. cbn in A1. rewrite <-A1 in Ha.
  destruct (ack_all_spec (E:=E) acks (rl_resend st) (ri_resend _ Hi) Ha) as (r1 & E1 & Hr1 & Hw1).
  rewrite E1 in Hrun. cbn [mbind outcome_bind] in Hrun. unfold process_nack in Hrun.
  cbn [link_incoming_nack set_incoming] in Hrun.
  destruct (cq_try_iter_spec (link_incoming_nack (rl_link st))) as (N1 & _).
  destruct (cq_try_iter (link_incoming_nack (rl_link st))) as [nacks qn]. cbn in N1. rewrite <-N1 in Hn.
  destruct (nack_all_spec (E:=E) nacks r1 (rl_buf st) Hr1 (ri_buf _ Hi) Hn) as (r2 & b2 & E2 & Hr2 & Hb2 & Hw2 & Hc2).
  rewrite E2 in Hrun. cbn [mbind outcome_bind] in Hrun.
  destruct (process_stales_spec (E:=E) (cx_now (rl_world st)) r2 b2 Hr2 Hb2) as (r3 & b3 & E3 & _ & _ & Hc3 & Hd3 & _).
  rewrite E3 in Hrun. cbn [mbind outcome_bind] in Hrun. injection Hrun as <-. cbn [rl_buf rl_resend set_rl_out].
  pose proof (ack_all_plan _ _ _ E1) as P1. pose proof (nack_all_plan _ _ _ _ _ E2) as P2. rewrite P1 in P2.
  assert (∀ i e, rm_reliable r2 !! i = Some e ↔
    rm_reliable (rl_resend st) !! i = Some e ∧ (i ∉ acked_seqs st) ∧ i ∉ nacked_seqs st) as H2.
  { intros i e. rewrite Hw2, Hw1. unfold acked_seqs, nacked_seqs. rewrite A1, N1. repeat case_decide; naive_solver. }
  assert (∀ i e, rm_reliable r3 !! i = Some e ↔
    rm_reliable (rl_resend st) !! i = Some e ∧ (i ∉ acked_seqs st) ∧ ¬ resends st i e) as H3.
  { intros i e. rewrite Hd3, H2, P2. unfold resends.
    destruct (decide (plan (rl_resend st) ≤ cx_now (rl_world st))), (decide (expired_at e ≤ cx_now (rl_world st)));
      destruct (decide (i ∈ acked_seqs st)), (decide (i ∈ nacked_seqs st)); intuition lia. }
  split_and!; [|done|].
  - pose proof (frames_partition (λ x, x.1 ∈ acked_seqs st) (λ x, resends st x.1 x.2) _ _ H3) as Hp.
    specialize (Hp ltac:(by intros ? [? _])).
    assert (map_frames (rm_reliable (rl_resend st)) ++ buffered (rl_buf st) ≡ₚ
      retired (acked_seqs st) (rm_reliable (rl_resend st)) ++ map_frames (rm_reliable r3) ++ buffered b3) as Hq.
    { rewrite (without_frames _ _ _ Hw1). unfold acked_seqs. rewrite A1, <-app_assoc. f_equiv.
      apply (conserves_trans _ _ _ _ _ _ Hc2 Hc3). }
    rewrite Hp in Hq. unfold retired in Hq. rewrite <-!app_assoc in Hq. apply Permutation_app_inv_l in Hq.
    apply (Permutation_app_inv_l (map_frames (rm_reliable r3))). rewrite <-Hq. unfold lost_frames. solve_Permutation.
  - intros Hp. apply (process_stales_plan _ _ _ _ _ Hr2 Hb2 E3). revert Hp. apply scan_planned_shrink; [done|].
    intros i e. rewrite H2. naive_solver.
Qed.

(** ** The plan over a flush *)

Definition plan_kept (now : Z) st : Prop := cx_now (rl_world st) = now ∧ scan_planned now (rl_resend st).

Lemma plan_kept_blind now : frame_blind (plan_kept now).
Proof. by intros frame st H. Qed.

Lemma empty_keeps_plan now s :
  keeps (plan_kept now) (empty_ack s) ∧ keeps (plan_kept now) (empty_nack s) ∧
  keeps (plan_kept now) empty_unconnected ∧ keeps (plan_kept now) empty_frame_set.
Proof.
  apply empty_keeps; [apply plan_kept_blind|by intros|]. intros st rel pen fs buf Hst _. split; [done|]. right.
  intros st' r q [H1 H2] Hr. split; [done|]. cbn. destruct rel; [|by injection Hr as <-]. rewrite H1 in Hr.
  by eapply scan_planned_record.
Qed.

Lemma try_empty_plan st res st' :
  Reliable_inv st → seqs_left st → incoming_valid st → scan_planned (cx_now (rl_world st)) (rl_resend st) →
  try_empty st = Ok (res, st') → (∀ e, res ≠ Ready (inl e)) →
  scan_planned (cx_now (rl_world st)) (rl_resend st').
Proof.
  intros Hi Hl Hv Hp Hrun Hne. unfold try_empty in Hrun.
  destruct (process_inflight_spec (E:=spinning) st Hi Hl Hv) as (l & b & r & H1 & _).
  destruct (process_inflight_exact _ _ Hi Hv H1) as (_ & _ & Hp1). specialize (Hp1 Hp).
  rewrite H1 in Hrun. cbn [mbind outcome_bind] in Hrun. set (st1 := set_rl_out _ _ _ _) in *.
  assert (plan_kept (cx_now (rl_world st)) st1) as Hk by done.
  destruct (empty_keeps_plan (cx_now (rl_world st)) (default FlushStrategy_default (cx_ext (rl_world st1)))) as (K1 & K2 & K3 & K4).
  pose proof (empty_loop_post _ _ (pending st1) (st1, (0, 0, 0)) (plan_kept_blind _) K1 K2 K3 K4 Hk) as Hpost.
  apply outcome_bind_Ok in Hrun as ([res' [st2 cnt]] & Hloop & Hrun). rewrite Hloop in Hpost.
  destruct res' as [[e|[]]|].
  - injection Hrun as <- <-. by destruct (Hne e).
  - apply outcome_bind_Ok in Hrun as (w & _ & Hrun). injection Hrun as <- <-. apply Hpost.
  - injection Hrun as <- <-. apply Hpost.
Qed.

(** ** Nothing left to send or to wait for *)

Definition settled st : Prop := rm_reliable (rl_resend st) = ∅ ∧ rl_buf st = SendBuffer_new.

Lemma settled_blind : frame_blind settled.
Proof. by intros frame st H. Qed.

Lemma SendBuffer_pop_new {E} mtu x : SendBuffer_pop (E:=E) mtu SendBuffer_new = Ok x → ∃ rel pen, x = (rel, pen, [], SendBuffer_new).
Proof. unfold SendBuffer_pop. cbn. intros H. bind_inv. subst. by eexists _, _. Qed.

Lemma empty_keeps_settled s :
  keeps settled (empty_ack s) ∧ keeps settled (empty_nack s) ∧ keeps settled empty_unconnected ∧ keeps settled empty_frame_set.
Proof.
  apply empty_keeps; [apply settled_blind|by intros|]. intros st rel pen fs buf [H1 H2] Hpop. rewrite H2 in Hpop.
  apply SendBuffer_pop_new in Hpop as (? & ? & [= -> -> -> ->]). split; [done|by left].
Qed.

Section ready.
Context `{!ReadySink F (Packet * SocketAddr)}.

(** A flush when everything in flight is acknowledged. *)
Lemma try_empty_settles h st :
  Reliable_inv st → seqs_left st → incoming_valid st → marks_ok st → socket_ok h st →
  rl_buf st = SendBuffer_new → (∀ i, i ∈ dom (rm_reliable (rl_resend st)) → i ∈ acked_seqs st) →
  ∃ ps st', try_empty st = Ok (Ready (inr tt), st') ∧ taken (h ++ ps) (rl_frame st') ∧ settled st' ∧
    (cx_ext (rl_world st) = None → check_flushed FlushStrategy_default (rl_link st') (rl_buf st') = true).
Proof.
  intros Hi Hl Hv Hm Hs Hb Hack.
  destruct (try_empty_spec h st Hi Hl Hv Hm Hs) as (st1 & ps & st2 & w & Hr & Hw & Hck & _ & _ & Ht & _ & _ & Hpi & _).
  destruct (process_inflight_exact _ _ Hi Hv Hpi) as (X1 & X2 & _).
  assert (settled st1) as Hst1.
  { split.
    - apply map_eq. intros i. rewrite lookup_empty. destruct (rm_reliable (rl_resend st1) !! i) as [e|] eqn:He; [|done].
      apply X2 in He as (He & Hn & _). destruct Hn. by eapply Hack, elem_of_dom_2.
    - apply buffered_nil_new. rewrite Hb in X1. unfold lost_frames in X1.
      replace (filter _ _) with (∅ : gmap u24 ResendEntry) in X1; [by apply Permutation_nil_r in X1|].
      apply map_eq. intros i. rewrite lookup_empty. symmetry. apply map_lookup_filter_None_2. right.
      intros e He [Hn _]. destruct Hn. by eapply Hack, elem_of_dom_2. }
  exists ps. eexists. split; [exact Hr|]. split; [exact Ht|]. split; [|intros Hx; rewrite Hx in Hck; by rewrite Hw].
  unfold try_empty in Hr. rewrite Hpi in Hr. cbn [mbind outcome_bind] in Hr.
  destruct (empty_keeps_settled (default FlushStrategy_default (cx_ext (rl_world st1)))) as (K1 & K2 & K3 & K4).
  pose proof (empty_loop_post _ _ (pending st1) (st1, (0, 0, 0)) settled_blind K1 K2 K3 K4 Hst1) as Hpost.
  apply outcome_bind_Ok in Hr as ([res [st3 cnt]] & Hloop & Hr). rewrite Hloop in Hpost.
  destruct res as [[e|[]]|]; [done| |done]. apply outcome_bind_Ok in Hr as (w' & _ & Hr).
  destruct Hpost as [[P1 P2] _]. injection Hr. intros. split; cbn in *; congruence.
Qed.

(** A close completes as soon as the peer has acknowledged everything: over a
    socket that is ready, the first round of [poll_close] then finds nothing in
    flight, closes the socket and returns. *)
Lemma close_completes h now nows st :
  Reliable_inv st → seqs_left st → incoming_valid st → marks_ok st → socket_ok h st → cx_ext (rl_world st) = None →
  rl_buf st = SendBuffer_new → (∀ i, i ∈ dom (rm_reliable (rl_resend st)) → i ∈ acked_seqs st) →
  ∃ ps st', Reliable_poll_close (now :: nows) st = Ok (Ready (inr tt), st') ∧ taken (h ++ ps) (rl_frame st') ∧ settled st'.
Proof.
  intros Hi Hl Hv Hm Hs Hx Hb Hack. unfold Reliable_poll_close. cbn [close_loop].
  set (st0 := set_rl_world (world_now now (rl_world (set_rl_link (turn_on_waking (rl_link st)) st))) (set_rl_link (turn_on_waking (rl_link st)) st)).
  destruct (try_empty_settles h st0) as (ps & st1 & Hr & Ht & Hst & Hck); try done.
  { destruct Hi. by split. }
  specialize (Hck Hx). apply check_flushed_spec in Hck as (C1 & C2 & C3). destruct (C3 eq_refl) as [C4 C5].
  unfold and_then. rewrite Hr. cbn [mbind outcome_bind id].
  replace (debug_assert _) with (Ok (E:=spinning) tt).
  2: { unfold SendBuffer_is_empty, unconnected_empty, outgoing_ack_empty, outgoing_nack_empty. rewrite C1, C2, C4, C5 by done.
       symmetry. unfold debug_assert. by destruct debug_assertions. }
  cbn [mbind outcome_bind]. destruct (poll_flush_taken (h ++ ps) _ Ht) as (fr & Hfl & Htf). unfold poll_below. rewrite Hfl.
  cbn [mbind outcome_bind mret outcome_ret]. unfold ResendMap_is_empty. cbn [rl_resend set_rl_frame].
  rewrite bool_decide_true by apply Hst.
  destruct (poll_close_taken (h ++ ps) _ Htf) as (fr2 & Hcl & Htc). cbn [rl_frame set_rl_link set_rl_world set_rl_frame]. rewrite Hcl.
  cbn. exists ps. eexists. split; [done|]. by split.
Qed.

(** C3. What was lost is sent again, and nothing else: over a socket that is ready,
    while sequence numbers are left, a flush of packets sends exactly the frames
    that waited and those of the frame sets in flight, not acknowledged, that were
    reported missing or that the scan finds expired, each once.  The scan is made
    when [last_record_expired_at] has come; an expired entry is not sent before
    that, but the plan is kept by every flush, and by it the scan is due at the
    latest when [MAX_SKIP_SCAN_RTO] has passed since the entry was sent, so that an
    entry that is [overdue] in this sense is sent by the flush. *)
Theorem flush_recovers h st :
  Reliable_inv st → seqs_left st → incoming_valid st → marks_ok st → socket_ok h st →
  flush_pack (default FlushStrategy_default (cx_ext (rl_world st))) = true →
  scan_planned (cx_now (rl_world st)) (rl_resend st) →
  ∃ ps st', try_empty st = Ok (Ready (inr tt), st') ∧ taken (h ++ ps) (rl_frame st') ∧
    (sets_of ps ≫= set) ≡ₚ buffered (rl_buf st) ++ lost_frames st ∧
    (∀ i e, rm_reliable (rl_resend st) !! i = Some e → i ∉ acked_seqs st →
      i ∈ nacked_seqs st ∨ overdue (cx_now (rl_world st)) e → entry_frames e ⊆ (sets_of ps ≫= set)) ∧
    map_frames (rm_reliable (rl_resend st')) ≡ₚ kept_of (sets_of ps) ++
      map_frames (filter (λ x, (x.1 ∉ acked_seqs st) ∧ ¬ resends st x.1 x.2) (rm_reliable (rl_resend st))) ∧
    scan_planned (cx_now (rl_world st)) (rl_resend st').
Proof.
  intros Hi Hl Hv Hm Hs Hfl Hp.
  destruct (try_empty_spec h st Hi Hl Hv Hm Hs)
    as (st1 & ps & st2 & w & Hr & Hw & Hck & _ & Hsf & Ht & _ & _ & Hpi & _).
  destruct (process_inflight_exact _ _ Hi Hv Hpi) as (X1 & X2 & _).
  exists ps. eexists. split; [exact Hr|]. split; [exact Ht|].
  assert ((sets_of ps ≫= set) ≡ₚ buffered (rl_buf st) ++ lost_frames st) as Hsent.
  { rewrite <-X1. rewrite (sf_frames _ _ _ Hsf). apply check_flushed_spec in Hck as (_ & _ & Hck).
    destruct (Hck Hfl) as [_ Hlen]. rewrite SendBuffer_len_buffered in Hlen. apply nil_length_inv in Hlen.
    by rewrite Hlen, app_nil_r. }
  split_and!; [exact Hsent| | |].
  - intros i e He Hna Hlost f Hf. rewrite Hsent, elem_of_app. right. unfold lost_frames, map_frames.
    apply list_elem_of_bind. exists e. split; [done|]. apply list_elem_of_fmap. exists (i, e). split; [done|].
    apply elem_of_map_to_list, map_lookup_filter_Some. split; [done|]. split; [done|]. cbn.
    destruct Hlost as [?|Ho]; [by left|right]. split; [|apply Ho].
    eapply overdue_planned; [|exact Ho]. by eapply pl_entries.
  - cbn. rewrite (sf_kept _ _ _ Hsf). f_equiv. f_equiv. apply map_eq. intros i. apply option_eq. intros e.
    rewrite X2, map_lookup_filter_Some. done.
  - by eapply (try_empty_plan st _ _ Hi Hl Hv Hp Hr).
Qed.

(** C6. A flush delivers: over a socket that is ready and takes what the layer may
    send, while sequence numbers are left for the frames that wait and those in
    flight, [try_empty] returns and nothing that its strategy selects is left.  The
    frames in the frame sets that it sent, with those that still wait, are exactly
    those that waited and those that the acknowledgements, the negative ones and
    the scan gave back for resending, so that none was taken from the buffer
    without being sent.  The frame sets are numbered consecutively, the
    acknowledgements carry the pending numbers in order and once, the unconnected
    packets are sent as they are and in order, every frame set and acknowledgement
    fits into the MTU, every packet goes to the peer, and the strategy of the
    context counts what was sent. *)
Theorem try_empty_flushes h st :
  Reliable_inv st → seqs_left st → incoming_valid st → marks_ok st → socket_ok h st →
  ∃ ps st', try_empty st = Ok (Ready (inr tt), st') ∧ taken (h ++ ps) (rl_frame st') ∧
    check_flushed (default FlushStrategy_default (cx_ext (rl_world st))) (rl_link st') (rl_buf st') = true ∧
    cx_ext (rl_world st') = marked ps <$> cx_ext (rl_world st) ∧
    (sets_of ps ≫= set) ++ buffered (rl_buf st') ≡ₚ buffered (rl_buf st) ++ lost_frames st ∧
    seq_num <$> sets_of ps = u24_range (seq_num_write_index st) (seq_num_write_index st') ∧
    into_iter_sorted ack_key (outgoing_ack (rl_link st)) =
      acks_of ps ++ into_iter_sorted ack_key (outgoing_ack (rl_link st')) ∧
    outgoing_nack (rl_link st') = outgoing_nack (rl_link st) ∖ list_to_set (nacks_of ps) ∧
    NoDup (nacks_of ps) ∧
    cq_list (link_unconnected (rl_link st)) =
      unconnected_of ps ++ cq_list (link_unconnected (rl_link st')) ∧
    Forall (λ x, may_send st x.1 ∧ x.2 = peer_addr (rl_peer st)) ps.
Proof.
  intros Hi Hl Hv Hm Hs.
  destruct (try_empty_spec h st Hi Hl Hv Hm Hs)
    as (st1 & ps & st2 & w & Hr & -> & Hck & Hi2 & Hsf & Ht & Hmay & _ & Hpi & l & a & n & b & r & Hst1 & -> & _).
  destruct (process_inflight_exact _ _ Hi Hv Hpi) as (X1 & _ & _). rewrite (sf_frames _ _ _ Hsf) in X1. rewrite Hst1 in Hsf.
  exists ps. eexists. split; [exact Hr|]. destruct Hsf as [A1 A2 [A2n _] A3 _ _ A6 _ _ _ _ _].
  by split_and!.
Qed.
End ready.
End recovery.

(** Three frame sets are in flight at 4 seconds: the first is acknowledged, the
    second reported missing, and the third has expired; one more frame waits. *)
Definition sample_recovering : SampleLayer :=
  let st := foldl (λ st i, flushed (with_frame (sample_reliable_frame i) st)) sample_layer [0; 1; 2] in
  let st := with_ack 2 (mkAckOrNack [Single 0]) st in
  let st := set_rl_link (CQ:=queue_reference)
    (incoming_nack (CQ:=queue_reference) (mkAckOrNack [Single 1]) (rl_link st)) st in
  at_ms 4000 (with_frame (sample_reliable_frame 3) st).

Lemma sample_recovering_ok :
  Reliable_inv (BH:=heap_sorted) sample_recovering ∧ seqs_left sample_recovering ∧ incoming_valid sample_recovering ∧
  marks_ok sample_recovering ∧ socket_ok (log_sent (rl_frame sample_recovering)) sample_recovering ∧
  scan_planned (cx_now (rl_world sample_recovering)) (rl_resend sample_recovering).
Proof.
  assert (map_Forall (λ i e, i < 3 ∧ planned_for (last_record_expired_at (rl_resend sample_recovering)) e)
    (rm_reliable (rl_resend sample_recovering))) as Hm.
  { apply map_Forall_to_list. vm_compute. repeat constructor; discriminate. }
  assert (rl_buf sample_recovering = mkSendBuffer [] [sample_reliable_frame 3] [] []) as Hb by (vm_compute; reflexivity).
  assert (outgoing_ack (rl_link sample_recovering) = []) as Ha by (vm_compute; reflexivity).
  split_and!.
  - split; rewrite ?Hb, ?Ha.
    + vm_compute. split; [discriminate|reflexivity].
    + apply heap_ok_nil.
    + constructor.
    + change (outgoing_nack (rl_link sample_recovering)) with (∅ : gset u24). intros x Hx. exact (False_ind _ (not_elem_of_empty x Hx)).
    + split; cbn; repeat constructor.
    + vm_compute. repeat constructor; discriminate.
    + split; [apply map_Forall_to_list; vm_compute; repeat constructor; discriminate|vm_compute; reflexivity|]. vm_compute. repeat split; first [reflexivity|discriminate].
    + intros i [e He]%elem_of_dom. apply Hm in He as [He _]. exact He.
    + vm_compute. split; [discriminate|reflexivity].
  - vm_compute. reflexivity.
  - split.
    + change (Forall (λ a : AckOrNack * Z, records_valid (records a.1)) [(mkAckOrNack [Single 0], 2000000)]).
      repeat constructor; cbn; unfold u24_valid, uint; lia.
    + change (Forall (λ a : AckOrNack, records_valid (records a)) [mkAckOrNack [Single 1]]).
      repeat constructor; cbn; unfold u24_valid, uint; lia.
  - split; [vm_compute; reflexivity|]. intros s Hs. change (None = Some s) in Hs. discriminate Hs.
  - split; [split; vm_compute; reflexivity|]. intros p _. exact I.
  - split; [vm_compute; discriminate|]. intros i e He. apply Hm in He as [_ He]. exact He.
Qed.

Lemma flush_recovers_witness :
  ∃ ps st', try_empty (B:=true) (BH:=heap_sorted) (HI:=hash_iter_reference) sample_recovering = Ok (Ready (inr tt), st') ∧
    taken (log_sent (rl_frame sample_recovering) ++ ps) (rl_frame st') ∧
    (sets_of ps ≫= set) ≡ₚ sample_reliable_frame <$> [3; 2; 1].
Proof.
  destruct sample_recovering_ok as (H1 & H2 & H3 & H4 & H5 & H6).
  destruct (flush_recovers (B:=true) (BH:=heap_sorted) (HI:=hash_iter_reference)
    (log_sent (rl_frame sample_recovering)) sample_recovering H1 H2 H3 H4 H5 eq_refl H6) as (ps & st' & K1 & K2 & K3 & _).
  exists ps, st'. split_and!; [exact K1|exact K2|]. rewrite K3. vm_compute. reflexivity.
Defined.

Lemma try_empty_flushes_witness :
  ∃ ps st', try_empty (B:=true) (BH:=heap_sorted) (HI:=hash_iter_reference) sample_pending = Ok (Ready (inr tt), st') ∧
    taken (log_sent (rl_frame sample_pending) ++ ps) (rl_frame st') ∧
    check_flushed (CQ:=queue_reference) (FlushStrategy_new true false true) (rl_link st') (rl_buf st') = true ∧
    cx_ext (rl_world st') = marked ps <$> Some (FlushStrategy_new true false true) ∧
    (sets_of ps ≫= set) ++ buffered (rl_buf st') ≡ₚ buffered (rl_buf sample_pending) ++ lost_frames sample_pending.
Proof.
  destruct sample_pending_ok as (H1 & H2 & H3 & H4 & H5).
  destruct (try_empty_flushes (B:=true) (BH:=heap_sorted) (HI:=hash_iter_reference)
    (log_sent (rl_frame sample_pending)) sample_pending H1 H2 H3 H4 H5) as (ps & st' & K1 & K2 & K3 & K4 & K5 & _).
  exists ps, st'. split_and!; [exact K1|exact K2|exact K3|exact K4|exact K5].
Defined.
