(* ===== verification/Body.v ===== *)
(** * The body encoder (src/codec/encoder/body.rs, src/codec/mod.rs, src/opts.rs)

    [BodyEncoder] turns internal frame bodies into messages, those of the caller
    and those that the receiving side of the connection put into the link, and
    passes the messages of the user on.  [frame_encoded] stacks it over the
    fragmenting sink, and [ConnectionInfoWrapper] carries the peer on top. *)
From S2P Require Import Prelude Bytes Errors Reader SeqNum Types PackType AckNack FrameSet FrameBody.
From S2P Require Import Unconnected Packet Sink Collections Channels Reactor Dedup Link Encoder Decoder Estimator.
From S2P Require Import SendBuffer Resend Opts Reliable.
Open Scope Z_scope.

(** The link that the layers of a connection share, seen from a layer: it lives in
    the lowest layer, and every layer above reaches it through the one below. *)
Class SharesLink {CQ : ConcurrentQueueCrate} (F : Type) := {
  link_of : F → TransferLink;
  with_link : TransferLink → F → F;
}.

Global Instance Reliable_shares_link {CQ : ConcurrentQueueCrate} F T : SharesLink (ReliableLayer (F:=F) (T:=T)) := {
  link_of := rl_link;
  with_link := set_rl_link;
}.

Global Instance Fragment_shares_link {CQ : ConcurrentQueueCrate} F `{!SharesLink F} : SharesLink (FragmentSink F) := {
  link_of s := link_of (frag_frame s);
  with_link l s := set_frag (with_link l (frag_frame s)) (frag_buf s) s;
}.

Record BodyEncoder (F : Type) := mkBodyEncoder { be_frame : F }.
Arguments mkBodyEncoder {F} _.
Arguments be_frame {F} _.

Section body_encoder.
Context {BC : BytesCrate} {CQ : ConcurrentQueueCrate} {F : Type} `{!Sink F Message} `{!SharesLink F}.

Definition body_encoded (frame : F) : BodyEncoder F := mkBodyEncoder frame.

Definition DEFAULT_FRAME_BODY_ORDERED_CHANNEL : Z := 0.
Definition DEFAULT_FRAME_BODY_PRIORITY : Priority := Medium.

(** User data does not pass through [encode]. *)
Definition encode {E} (body : FrameBody) : outcome E Message :=
  r ← match body with
      | FConnectedPing _ => mret Unreliable
      | FConnectedPong _ _ => mret Unreliable
      | FConnectionRequest _ _ _ => mret ReliableOrdered
      | FConnectionRequestAccepted _ _ _ _ _ => mret Reliable
      | FNewIncomingConnection _ _ _ _ => mret ReliableOrdered
      | FDisconnectNotification => mret Reliable
      | FDetectLostConnections => mret Reliable
      | FUser _ => Panic
      end;
  let data := FrameBody_write body [] in
  mret (Message_priority DEFAULT_FRAME_BODY_PRIORITY
    (Message_order_channel DEFAULT_FRAME_BODY_ORDERED_CHANNEL (Message_reliability r (Message_new data)))).

(** [for body in this.link.process_frame_body()]: the body leaves the link before
    the sink below is asked whether it is ready.  The link holds [fuel] bodies. *)
Fixpoint bodies_loop (fuel : nat) (frame : F) : sink_poll (BodyEncoder F) :=
  match process_frame_body (link_of frame) with
  | (None, _) => mret (Ready (inr tt), mkBodyEncoder frame)
  | (Some body, l) =>
      match fuel with
      | O => Err OutOfFuel
      | S fuel =>
          let frame := with_link l frame in
          and_then (poll_ready (A:=Message) frame) mkBodyEncoder (λ frame,
          msg ← encode body;
          send_then (start_send msg frame) mkBodyEncoder (bodies_loop fuel))
      end
  end.

Definition Body_poll_empty (s : BodyEncoder F) : sink_poll (BodyEncoder F) :=
  if frame_body_empty (link_of (be_frame s)) then mret (Ready (inr tt), s)
  else bodies_loop (length (cq_list (link_frame_body (link_of (be_frame s))))) (be_frame s).

(** A poll of the sink below. *)
Definition body_below (op : F → sink_poll F) (s : BodyEncoder F) : sink_poll (BodyEncoder F) :=
  '(r, frame) ← op (be_frame s); mret (r, mkBodyEncoder frame).

Definition Body_poll_ready : BodyEncoder F → sink_poll (BodyEncoder F) := body_below (poll_ready (A:=Message)).

Definition Body_start_send (body : FrameBody) (s : BodyEncoder F) : sink_send (BodyEncoder F) :=
  msg ← encode body;
  '(r, frame) ← start_send msg (be_frame s); mret (r, mkBodyEncoder frame).

Definition Body_poll_flush (s : BodyEncoder F) : sink_poll (BodyEncoder F) :=
  and_then (Body_poll_empty s) id (body_below (poll_flush (A:=Message))).

Definition Body_poll_close (s : BodyEncoder F) : sink_poll (BodyEncoder F) :=
  and_then (Body_poll_empty s) id (body_below (poll_close (A:=Message))).

(** [Sink<Message>]: the data of the user is not encoded. *)
Definition Body_send_message (item : Message) (s : BodyEncoder F) : sink_send (BodyEncoder F) :=
  '(r, frame) ← start_send item (be_frame s); mret (r, mkBodyEncoder frame).

Global Instance Body_sink_body : Sink (BodyEncoder F) FrameBody := {
  poll_ready := Body_poll_ready;
  start_send := Body_start_send;
  poll_flush := Body_poll_flush;
  poll_close := Body_poll_close;
}.

Global Instance Body_sink_message : Sink (BodyEncoder F) Message := {
  poll_ready := Body_poll_ready;
  start_send := Body_send_message;
  poll_flush := Body_poll_flush;
  poll_close := Body_poll_close;
}.

Global Instance Body_shares_link : SharesLink (BodyEncoder F) := {
  link_of s := link_of (be_frame s);
  with_link l s := mkBodyEncoder (with_link l (be_frame s));
}.
End body_encoder.

(** [frame_encoded]: fragmenting below, bodies above. *)
Definition frame_encoded {F} (frame : F) (mtu : Z) (config : CodecConfig) : BodyEncoder (FragmentSink F) :=
  body_encoded (fragmented frame mtu (cfg_max_channels config)).

(** ** [ConnectionInfoWrapper] *)

Record ConnectionInfoWrapper (I : Type) := mkConnectionInfoWrapper {
  ci_inner : I;
  ci_peer : Peer;
}.
Arguments mkConnectionInfoWrapper {I} _ _.
Arguments ci_inner {I} _.
Arguments ci_peer {I} _.

Definition wrap_connection_info {I} (inner : I) (peer : Peer) : ConnectionInfoWrapper I :=
  mkConnectionInfoWrapper inner peer.

Definition info_mtu {I} (w : ConnectionInfoWrapper I) : Z := peer_mtu (ci_peer w).
Definition info_remote_addr {I} (w : ConnectionInfoWrapper I) : SocketAddr := peer_addr (ci_peer w).
Definition info_guid {I} (w : ConnectionInfoWrapper I) : Z := peer_guid (ci_peer w).

Definition info_poll {I} (op : I → sink_poll I) (w : ConnectionInfoWrapper I) : sink_poll (ConnectionInfoWrapper I) :=
  '(r, i) ← op (ci_inner w); mret (r, mkConnectionInfoWrapper i (ci_peer w)).

Global Instance ConnectionInfo_sink I A `{!Sink I A} : Sink (ConnectionInfoWrapper I) A := {
  poll_ready := info_poll (poll_ready (A:=A));
  start_send x w := '(r, i) ← start_send x (ci_inner w); mret (r, mkConnectionInfoWrapper i (ci_peer w));
  poll_flush := info_poll (poll_flush (A:=A));
  poll_close := info_poll (poll_close (A:=A));
}.

(** [SinkExt::send]: one poll of the future, which hands the item over once and
    then flushes.  [item] is [None] when it was handed over. *)
Definition send_poll {S A} `{!Sink S A} (item : option A) (s : S) : sink_poll (option A * S) :=
  match item with
  | Some x =>
      and_then (poll_ready (A:=A) s) (pair (Some x)) (λ s,
      send_then (start_send x s) (pair None) (λ s,
      '(r, s) ← poll_flush (A:=A) s; mret (r, (None, s))))
  | None => '(r, s) ← poll_flush (A:=A) s; mret (r, (None, s))
  end.

(** [Ping::ping], at the time [timestamp]. *)
Definition ping {S} `{!Sink S FrameBody} (timestamp : Z) (s : S) : sink_poll (option FrameBody * S) :=
  send_poll (Some (FConnectedPing timestamp)) s.

(** ** What is sent *)

(** A sink over a link: handing a message over does not touch the bodies that wait
    in the link, and the link can be exchanged without disturbing the sink. *)
Class LinkedSink {CQ : ConcurrentQueueCrate} (F A : Type) `{!Sink F A} `{!ReadySink F A} `{!SharesLink F} := {
  link_with_link l (s : F) : link_of (with_link l s) = l;
  taken_with_link h l (s : F) : taken h s → taken h (with_link l s);
  poll_ready_link (s : F) r s' : poll_ready (A:=A) s = Ok (r, s') →
    link_frame_body (link_of s') = link_frame_body (link_of s);
  start_send_link (x : A) (s : F) r s' : start_send x s = Ok (r, s') →
    link_frame_body (link_of s') = link_frame_body (link_of s);
}.

Definition is_user (b : FrameBody) : bool := match b with FUser _ => true | _ => false end.

Section body_spec.
Context {B : Build} {BC : BytesCrate} {CQ : ConcurrentQueueCrate}.

Lemma encode_Ok {E} b :
  is_user b = false → ∃ r, encode (E:=E) b = Ok (mkMessage r 0 Medium (FrameBody_write b [])).
Proof. destruct b; intros Hu; cbn in Hu; try done; eexists; done. Qed.

(** The message of a body. *)
Definition encoded (b : FrameBody) (m : Message) : Prop := encode (E:=spinning) b = Ok m.

Lemma encoded_total bs :
  Forall (λ b, is_user b = false) bs → ∃ ms, Forall2 encoded bs ms.
Proof.
  induction 1 as [|b bs Hb Hbs (ms & IH)]; [by exists []|].
  destruct (encode_Ok (E:=spinning) b Hb) as [r Hr]. eexists. by constructor.
Qed.

Context {F : Type} `{!Sink F Message} `{!ReadySink F Message} `{!SharesLink F} `{!LinkedSink F Message}.

Lemma bodies_loop_run fuel h (frame : F) ms :
  taken h frame → Forall2 encoded (cq_list (link_frame_body (link_of frame))) ms →
  Forall sendable ms → (length ms ≤ fuel)%nat →
  ∃ frame', bodies_loop fuel frame = Ok (Ready (inr tt), mkBodyEncoder frame') ∧ taken (h ++ ms) frame' ∧
    cq_list (link_frame_body (link_of frame')) = [].
Proof.
  revert h frame ms. induction fuel as [|fuel IH]; intros h frame ms Ht Hms Hs Hl.
  all: cbn [bodies_loop]; unfold process_frame_body; pose proof (cq_pop_spec (link_frame_body (link_of frame))) as Hp.
  all: destruct (cq_list (link_frame_body (link_of frame))) as [|b bs] eqn:Hq; inversion Hms as [|? m ? ms' Hm Hms']; subst.
  all: try (cbn in Hl; lia).
  1,2: rewrite Hp; exists frame; by rewrite app_nil_r.
  destruct Hp as (q & -> & Hql & _). set (l := set_queues _ _ _).
  destruct (poll_ready_free h (with_link l frame)) as (s1 & Hr1 & Hf1); [by apply taken_with_link|].
  pose proof (poll_ready_link _ _ _ Hr1) as Hl1. rewrite link_with_link in Hl1.
  unfold and_then. rewrite Hr1. cbn [mbind outcome_bind]. unfold encoded in Hm. rewrite Hm. cbn [mbind outcome_bind].
  apply Forall_cons in Hs as [Hsm Hs].
  destruct (start_send_taken h s1 m Hf1 Hsm) as (s2 & Hr2 & Ht2).
  pose proof (start_send_link _ _ _ _ Hr2) as Hl2. unfold send_then. rewrite Hr2. cbn [mbind outcome_bind].
  destruct (IH (h ++ [m]) s2 ms') as (s3 & Hr3 & Ht3 & Hq3); [done| |done|cbn in Hl; lia|].
  { rewrite Hl2, Hl1. cbn. by rewrite Hql. }
  exists s3. rewrite <-app_assoc in Ht3. done.
Qed.

(** The replies of the receiving side go out: over a sink that is ready,
    emptying the body encoder hands over the bodies that wait in the link, all of
    them and in order, each as a message that decodes to the body again. *)
Theorem Body_poll_empty_sends h (s : BodyEncoder F) :
  taken h (be_frame s) →
  Forall (λ b, is_user b = false ∧ FrameBody_ok b ∧ ∀ m, encoded b m → sendable m)
    (cq_list (link_frame_body (link_of (be_frame s)))) →
  ∃ ms s', Body_poll_empty s = Ok (Ready (inr tt), s') ∧ taken (h ++ ms) (be_frame s') ∧
    cq_list (link_frame_body (link_of (be_frame s'))) = [] ∧
    Forall2 (λ b m, FrameBody_read (msg_data m) = Ok b ∧ msg_order_channel m = 0)
      (cq_list (link_frame_body (link_of (be_frame s)))) ms.
Proof.
  intros Ht Hb. set (bs := cq_list (link_frame_body (link_of (be_frame s)))) in *.
  destruct (encoded_total bs) as (ms & Hms); [eapply Forall_impl; [done|]; by intros ? []|].
  assert (Forall sendable ms ∧
    Forall2 (λ b m, FrameBody_read (msg_data m) = Ok b ∧ msg_order_channel m = 0) bs ms) as [Hs Hdec].
  { clear -Hb Hms. induction Hms as [|b m bs ms Hm Hms IH]; [done|].
    apply Forall_cons in Hb as [(Hu & Hok & Hsend) Hb]. destruct (IH Hb) as [IH1 IH2].
    destruct (encode_Ok (E:=spinning) b Hu) as [r Hr].
    assert (m = mkMessage r 0 Medium (FrameBody_write b [])) as -> by (unfold encoded in Hm; congruence).
    split; constructor; auto. cbn. split; [by apply FrameBody_read_write|done]. }
  unfold Body_poll_empty, frame_body_empty. fold bs. case_bool_decide as Hlen.
  - apply nil_length_inv in Hlen. rewrite Hlen in *. inversion Hms; subst. exists [], s. rewrite app_nil_r.
    split_and!; try done.
  - destruct (bodies_loop_run (length bs) h (be_frame s) ms) as (f' & -> & Ht' & Hq'); try done.
    { by rewrite (Forall2_length _ _ _ Hms). }
    by eexists ms, _.
Qed.
End body_spec.

(** A recording sink beside a link. *)
Record LinkedLog {CQ : ConcurrentQueueCrate} := mkLinkedLog { ll_log : LogSink Message; ll_link : TransferLink }.

Section linked_log.
Context {CQ : ConcurrentQueueCrate}.

Definition ll_poll (op : LogSink Message → sink_poll (LogSink Message)) (s : LinkedLog) : sink_poll LinkedLog :=
  '(r, l) ← op (ll_log s); mret (r, mkLinkedLog _ l (ll_link s)).

Global Instance LinkedLog_sink : Sink LinkedLog Message := {
  poll_ready := ll_poll (poll_ready (A:=Message));
  start_send x s := '(r, l) ← start_send x (ll_log s); mret (r, mkLinkedLog _ l (ll_link s));
  poll_flush := ll_poll (poll_flush (A:=Message));
  poll_close := ll_poll (poll_close (A:=Message));
}.

Global Program Instance LinkedLog_ready : ReadySink LinkedLog Message := {
  sendable _ := True;
  taken h s := log_ready (ll_log s) = [] ∧ log_sent (ll_log s) = h;
  free h s := log_ready (ll_log s) = [] ∧ log_sent (ll_log s) = h;
}.
Next Obligation. done. Qed.
Next Obligation. intros h [l k] [H1 H2]. eexists. cbn. unfold ll_poll, poll_ready. cbn in *. unfold log_poll. by rewrite H1. Qed.
Next Obligation. intros h s x [H1 H2] _. eexists. split; [done|]. cbn. by rewrite H2. Qed.
Next Obligation. intros h s [H1 H2]. eexists. by split. Qed.
Next Obligation. intros h s [H1 H2]. eexists. by split. Qed.

Global Instance LinkedLog_shares : SharesLink LinkedLog := {
  link_of := ll_link;
  with_link l s := mkLinkedLog _ (ll_log s) l;
}.

Global Program Instance LinkedLog_linked : LinkedSink LinkedLog Message.
Next Obligation. done. Qed.
Next Obligation. done. Qed.
Next Obligation.
  intros [l k] r s' H. cbn in H. unfold ll_poll in H. cbn in H. unfold log_poll in H.
  destruct (log_ready l); cbn in H; by injection H as <- <-.
Qed.
Next Obligation. intros x s r s' H. cbn in H. by injection H as <- <-. Qed.
End linked_log.

Definition sample_bodies : list FrameBody := [FConnectedPong 3 4; FDisconnectNotification].

Definition sample_body_encoder : BodyEncoder (LinkedLog (CQ:=queue_reference)) :=
  mkBodyEncoder (mkLinkedLog queue_reference (mkLogSink [] [] 0 0)
    (set_queues (CQ:=queue_reference) (None, []) (None, sample_bodies) (rl_link sample_layer))).

Lemma Body_poll_empty_sends_witness :
  ∃ ms s', Body_poll_empty (BC:=bytes_reference) (CQ:=queue_reference) sample_body_encoder = Ok (Ready (inr tt), s') ∧
    taken ([] ++ ms) (be_frame s') ∧
    cq_list (ConcurrentQueueCrate:=queue_reference) (link_frame_body (link_of (CQ:=queue_reference) (be_frame s'))) = [] ∧
    Forall2 (λ b m, FrameBody_read (B:=true) (BC:=bytes_reference) (msg_data m) = Ok b ∧ msg_order_channel m = 0)
      sample_bodies ms.
Proof.
  destruct (Body_poll_empty_sends (B:=true) (BC:=bytes_reference) (CQ:=queue_reference) [] sample_body_encoder)
    as (ms & s' & H1 & H2 & H3 & H4); [by split| |exists ms, s'; split_and!].
  - cbn. unfold sint. repeat constructor; lia.
  - exact H1.
  - exact H2.
  - exact H3.
  - exact H4.
Defined.
