(* ===== verification/State.v ===== *)
(** * The life of a connection (src/state.rs)

    [StateManager] over the sending side performs the four steps of the close
    (drain, notify the peer, drain again, tell the server), and over the
    receiving side it ends the stream at the notification of the peer.  The close
    steps are shown to follow an abstract protocol over the calls that the sink
    below sees, whatever it answers and in whatever order the user polls. *)
From S2P Require Import Prelude Errors Types FrameSet FrameBody Stream Sink Channels.
Open Scope Z_scope.

Inductive OutgoingState := OConnecting | FirstCloseWait | FinWait | SecondCloseWait | OClosed.

Inductive IncomingState := IConnecting | IClosed.

Global Instance OutgoingState_eq_dec : EqDecision OutgoingState.
Proof. solve_decision. Defined.

Definition before_finish (s : OutgoingState) : bool :=
  match s with OConnecting | FirstCloseWait | FinWait => true | _ => false end.

(** [CloseOnDrop] is the address to report; the queue it reports to is shared with
    the server and is threaded through the operations that write to it. *)
Record CloseOnDrop := CloseOnDrop_new { cod_addr : SocketAddr }.

Definition closed_before : io_error := IoError NotConnected "connection was closed before".

Section outgoing.
Context {CQ : ConcurrentQueueCrate}.

Definition CloseOnDrop_drop {E} (c : CloseOnDrop) (close_events : cq SocketAddr) : outcome E (cq SocketAddr) :=
  match cq_push (cod_addr c) close_events with
  | Some q => mret q
  | None => Panic
  end.

(** A manager, with the shared queue of close events. *)
Record StateManager (F S : Type) := mkStateManager {
  sm_frame : F;
  sm_state : S;
  sm_close_on_drop : option CloseOnDrop;
  sm_close_events : cq SocketAddr;
}.
Global Arguments mkStateManager {F S} _ _ _ _.
Global Arguments sm_frame {F S} _.
Global Arguments sm_state {F S} _.
Global Arguments sm_close_on_drop {F S} _.
Global Arguments sm_close_events {F S} _.

Definition manage_outgoing_state {F} (frame : F) (close_on_drop : option CloseOnDrop) (close_events : cq SocketAddr) :
    StateManager F OutgoingState :=
  mkStateManager frame OConnecting close_on_drop close_events.

(** Dropping a manager drops what it still has of its [close_on_drop]. *)
Definition StateManager_drop {E F S} (s : StateManager F S) : outcome E (cq SocketAddr) :=
  match sm_close_on_drop s with
  | Some c => CloseOnDrop_drop c (sm_close_events s)
  | None => mret (sm_close_events s)
  end.

Definition set_sm_frame {F S} (f : F) (s : StateManager F S) : StateManager F S :=
  mkStateManager f (sm_state s) (sm_close_on_drop s) (sm_close_events s).
Definition set_sm_state {F S} (x : S) (s : StateManager F S) : StateManager F S :=
  mkStateManager (sm_frame s) x (sm_close_on_drop s) (sm_close_events s).

Section manager.
Context {F : Type} `{HFb : !Sink F FrameBody} `{HFm : !Sink F Message}.
Abbreviation Manager := (StateManager F OutgoingState).

(** A call of the sink below. *)
Definition sm_below {R} (op : F → outcome spinning (R * F)) (s : Manager) : outcome spinning (R * Manager) :=
  '(r, f) ← op (sm_frame s); mret (r, set_sm_frame f s).

Definition Outgoing_poll_ready (s : Manager) : sink_poll Manager :=
  if negb (before_finish (sm_state s)) then mret (Ready (inl closed_before), s)
  else sm_below (poll_ready (A:=FrameBody)) s.

Definition Outgoing_start_send (item : FrameBody) (s : Manager) : sink_send Manager :=
  if negb (before_finish (sm_state s)) then mret (inl closed_before, s)
  else sm_below (start_send item) s.

Definition Outgoing_poll_flush : Manager → sink_poll Manager := sm_below (poll_flush (A:=FrameBody)).

(** The [loop] of [poll_close]; every round returns or moves the state forward, so
    five rounds are enough ([close_rounds_total]). *)
Fixpoint close_rounds (fuel : nat) (s : Manager) : sink_poll Manager :=
  match fuel with
  | O => Err OutOfFuel
  | S fuel =>
      match sm_state s with
      | OConnecting => close_rounds fuel (set_sm_state FirstCloseWait s)
      | FirstCloseWait =>
          and_then (sm_below (poll_close (A:=FrameBody)) s) id (λ s,
          close_rounds fuel (set_sm_state FinWait s))
      | FinWait =>
          and_then (sm_below (poll_ready (A:=FrameBody)) s) id (λ s,
          send_then (sm_below (start_send FDisconnectNotification) s) id (λ s,
          close_rounds fuel (set_sm_state SecondCloseWait s)))
      | SecondCloseWait =>
          and_then (sm_below (poll_close (A:=FrameBody)) s) id (λ s,
          close_rounds fuel (set_sm_state OClosed s))
      | OClosed =>
          q ← StateManager_drop s;
          mret (Ready (inr tt), mkStateManager (sm_frame s) OClosed None q)
      end
  end.

Definition Outgoing_poll_close (s : Manager) : sink_poll Manager :=
  match sm_state s with
  | OClosed => mret (Ready (inl closed_before), s)
  | _ => close_rounds 5 s
  end.

(** [Sink<Message>]: only [start_send] differs, and it has no guard. *)
Definition Outgoing_send_message (item : Message) (s : Manager) : sink_send Manager :=
  sm_below (start_send item) s.

Global Instance Outgoing_sink_body : Sink Manager FrameBody := {
  poll_ready := Outgoing_poll_ready;
  start_send := Outgoing_start_send;
  poll_flush := Outgoing_poll_flush;
  poll_close := Outgoing_poll_close;
}.

Global Instance Outgoing_sink_message : Sink Manager Message := {
  poll_ready := Outgoing_poll_ready;
  start_send := Outgoing_send_message;
  poll_flush := Outgoing_poll_flush;
  poll_close := Outgoing_poll_close;
}.
End manager.

(** ** The receiving side *)

Definition manage_incoming_state : IncomingState := IConnecting.

(** [poll_next] over the tape of the bodies below; the answer and the state. *)
Definition Incoming_poll_next : layer IncomingState (item_answer FrameBody) (item_answer FrameBody) := λ st up,
  match st with
  | IClosed => mret (Ready None, st, up)
  | IConnecting =>
      match up with
      | [] => mret (Pending, st, [])
      | Pending :: up => mret (Pending, st, up)
      | Ready None :: up => mret (Ready None, IClosed, up)
      | Ready (Some FDisconnectNotification) :: up => mret (Ready None, IClosed, up)
      | Ready (Some body) :: up => mret (Ready (Some body), st, up)
      end
  end.
End outgoing.

(** ** The calls that the sink below sees *)

Inductive call :=
| CReady (r : poll io_result)
| CSendBody (x : FrameBody) (r : io_result)
| CSendMessage (m : Message) (r : io_result)
| CFlush (r : poll io_result)
| CClose (r : poll io_result).

(** Any sink, with the calls made of it. *)
Record Recorded (F : Type) := mkRecorded { rec_inner : F; rec_calls : list call }.
Arguments mkRecorded {F} _ _.
Arguments rec_inner {F} _.
Arguments rec_calls {F} _.

Definition record_call {F R} (c : R → call) (op : F → outcome spinning (R * F)) (s : Recorded F) :
    outcome spinning (R * Recorded F) :=
  '(r, f) ← op (rec_inner s); mret (r, mkRecorded f (rec_calls s ++ [c r])).

Global Instance Recorded_sink_body F `{!Sink F FrameBody} : Sink (Recorded F) FrameBody := {
  poll_ready := record_call CReady (poll_ready (A:=FrameBody));
  start_send x := record_call (CSendBody x) (start_send x);
  poll_flush := record_call CFlush (poll_flush (A:=FrameBody));
  poll_close := record_call CClose (poll_close (A:=FrameBody));
}.

Global Instance Recorded_sink_message F `{!Sink F Message} : Sink (Recorded F) Message := {
  poll_ready := record_call CReady (poll_ready (A:=Message));
  start_send x := record_call (CSendMessage x) (start_send x);
  poll_flush := record_call CFlush (poll_flush (A:=Message));
  poll_close := record_call CClose (poll_close (A:=Message));
}.

(** The close protocol: what may be asked of the sink below, phase by phase. *)
Inductive phase := Open | Drained | Notified | Done.

Definition protocol (p : phase) (c : call) : option phase :=
  match p, c with
  (* the user sends and flushes; a close that completes drains the connection *)
  | Open, CClose (Ready (inr _)) => Some Drained
  | Open, CSendBody FDisconnectNotification _ => None
  | Open, _ => Some Open
  (* the notification may be tried again until it is accepted *)
  | Drained, CSendBody FDisconnectNotification (inr _) => Some Notified
  | Drained, CClose _ => None
  | Drained, _ => Some Drained
  (* nothing more is sent; a second close that completes ends the connection *)
  | Notified, CClose (Ready (inr _)) => Some Done
  | Notified, CClose _ => Some Notified
  | Notified, CFlush _ => Some Notified
  | Notified, _ => None
  (* acknowledgements may still be flushed *)
  | Done, CFlush _ => Some Done
  | Done, _ => None
  end.

Fixpoint follows (p : phase) (cs : list call) : option phase :=
  match cs with
  | [] => Some p
  | c :: cs => p ← protocol p c; follows p cs
  end.

Definition phase_of (s : OutgoingState) : phase :=
  match s with
  | OConnecting | FirstCloseWait => Open
  | FinWait => Drained
  | SecondCloseWait => Notified
  | OClosed => Done
  end.

(** What the owner of a connection does with its sink.  [UFeedMessage] and
    [UFeedBody] are [SinkExt::feed]: the item is handed over when the sink says it
    is ready, as the contract of [start_send] asks. *)
Inductive user_op :=
| UFeedBody (x : FrameBody)
| UFeedMessage (m : Message)
| UFlush
| UClose.

Section user.
Context {CQ : ConcurrentQueueCrate} {F : Type} `{!Sink F FrameBody} `{!Sink F Message}.

Definition user_step (op : user_op) (s : StateManager F OutgoingState) : sink_poll (StateManager F OutgoingState) :=
  match op with
  | UFeedBody x => feed x s
  | UFeedMessage m => feed m s
  | UFlush => poll_flush (A:=Message) s
  | UClose => poll_close (A:=Message) s
  end.

Fixpoint user_run (ops : list user_op) (s : StateManager F OutgoingState) :
    outcome spinning (StateManager F OutgoingState) :=
  match ops with
  | [] => mret s
  | op :: ops => '(_, s) ← user_step op s; user_run ops s
  end.

(** The notification is the manager's to send. *)
Definition user_op_ok (op : user_op) : Prop :=
  match op with UFeedBody x => x ≠ FDisconnectNotification | _ => True end.
End user.

Lemma follows_snoc p cs c : follows p (cs ++ [c]) = follows p cs ≫= λ p, protocol p c.
Proof.
  revert p. induction cs as [|c' cs IH]; intros p; cbn; [by destruct (protocol p c)|].
  destruct (protocol p c'); cbn; auto.
Qed.

Definition reported (c : option CloseOnDrop) : list SocketAddr :=
  match c with Some c => [cod_addr c] | None => [] end.

Create HintDb returns.

Section protocol.
Context {CQ : ConcurrentQueueCrate} {F : Type} `{!Sink F FrameBody} `{!Sink F Message}.
Abbreviation Manager := (StateManager (Recorded F) OutgoingState).
Context (c0 : option CloseOnDrop) (e0 : list SocketAddr).

(** A manager that has not reported yet, and that is in the phase [p]. *)
Definition managing (p : phase) (s : Manager) : Prop :=
  follows Open (rec_calls (sm_frame s)) = Some p ∧ cq_cap (sm_close_events s) = None ∧
  sm_close_on_drop s = c0 ∧ cq_list (sm_close_events s) = e0.

(** A manager between two calls: it reports when it gets closed. *)
Definition managed (s : Manager) : Prop :=
  follows Open (rec_calls (sm_frame s)) = Some (phase_of (sm_state s)) ∧ cq_cap (sm_close_events s) = None ∧
  if bool_decide (sm_state s = OClosed)
  then sm_close_on_drop s = None ∧ cq_list (sm_close_events s) = e0 ++ reported c0
  else sm_close_on_drop s = c0 ∧ cq_list (sm_close_events s) = e0.

Lemma managing_managed s : sm_state s ≠ OClosed → managing (phase_of (sm_state s)) s ↔ managed s.
Proof. intros H. unfold managing, managed. by rewrite bool_decide_eq_false_2. Qed.

(** The sink below returns from its calls. *)
Definition below_returns : Prop := returning F FrameBody ∧ returning F Message.

(** The postcondition [P] of a call, which returns when the calls below do. *)
Definition post {R S} (m : outcome spinning (R * S)) (P : R → S → Prop) : Prop :=
  match m with Ok (r, s) => P r s | _ => ¬ below_returns end.

Lemma post_impl {R S} (m : outcome spinning (R * S)) (P Q : R → S → Prop) :
  post m P → (∀ r s, P r s → Q r s) → post m Q.
Proof. unfold post. destruct m as [[]| |]; auto. Qed.

Lemma post_and_then {S T} (m : sink_poll S) (ret : S → T) k (P : poll io_result → T → Prop) :
  post m (λ r s, match r with Ready (inr _) => post (k s) P | _ => P r (ret s) end) →
  post (and_then m ret k) P.
Proof. unfold post, and_then. by destruct m as [[[[]|] ?]| |]. Qed.

Lemma post_send_then {S T} (m : sink_send S) (ret : S → T) k (P : poll io_result → T → Prop) :
  post m (λ r s, match r with inr _ => post (k s) P | inl e => P (Ready (inl e)) (ret s) end) →
  post (send_then m ret k) P.
Proof. unfold post, send_then. by destruct m as [[[] ?]| |]. Qed.

Lemma sm_below_managing {R} (c : R → call) (op : F → outcome spinning (R * F)) p (s : Manager) :
  (below_returns → ∀ f, ∃ r, op f = Ok r) → managing p s →
  post (sm_below (record_call c op) s) (λ r s', sm_state s' = sm_state s ∧
    ∀ p', protocol p (c r) = Some p' → managing p' s').
Proof.
  unfold sm_below, record_call, post. intros Hret (Hf & Hcap & Hc & He).
  destruct (op (rec_inner (sm_frame s))) as [[r f]| |] eqn:Hop; cbn.
  - split; [done|]. intros p' Hp. split_and!; [|done..]. cbn. by rewrite follows_snoc, Hf.
  - intros H. destruct (Hret H (rec_inner (sm_frame s))). congruence.
  - intros H. destruct (Hret H (rec_inner (sm_frame s))). congruence.
Qed.

Lemma ready_returns : below_returns → ∀ f : F, ∃ r, poll_ready (A:=FrameBody) f = Ok r.
Proof. intros [H _] f. apply H. Qed.
Lemma close_returns : below_returns → ∀ f : F, ∃ r, poll_close (A:=FrameBody) f = Ok r.
Proof. intros [H _] f. apply H. Qed.
Lemma flush_returns : below_returns → ∀ f : F, ∃ r, poll_flush (A:=FrameBody) f = Ok r.
Proof. intros [H _] f. apply H. Qed.
Lemma send_body_returns x : below_returns → ∀ f : F, ∃ r, start_send (A:=FrameBody) x f = Ok r.
Proof. intros [H _] f. apply H. Qed.
Lemma send_message_returns x : below_returns → ∀ f : F, ∃ r, start_send (A:=Message) x f = Ok r.
Proof. intros [_ H] f. apply H. Qed.

Hint Resolve ready_returns close_returns flush_returns send_body_returns send_message_returns : returns.

Lemma drop_reports (s : Manager) :
  cq_cap (sm_close_events s) = None →
  ∃ q, StateManager_drop (E:=spinning) s = Ok q ∧ cq_cap q = None ∧
    cq_list q = cq_list (sm_close_events s) ++ reported (sm_close_on_drop s).
Proof.
  intros Hcap. unfold StateManager_drop, CloseOnDrop_drop. destruct (sm_close_on_drop s) as [c|]; cbn.
  - destruct (cq_push_spec (cod_addr c) (sm_close_events s)) as (q & -> & Hl & Hc); [by rewrite Hcap|].
    exists q. by rewrite Hc.
  - eexists. by rewrite app_nil_r.
Qed.

(** The rounds that the loop needs from a state. *)
Definition rounds_left (st : OutgoingState) : nat :=
  match st with OConnecting => 5 | FirstCloseWait => 4 | FinWait => 3 | SecondCloseWait => 2 | OClosed => 1 end.

Lemma close_rounds_managed fuel (s : Manager) :
  (rounds_left (sm_state s) ≤ fuel)%nat → managing (phase_of (sm_state s)) s →
  post (close_rounds fuel s) (λ r s', managed s' ∧ (r = Ready (inr tt) → sm_state s' = OClosed)).
Proof.
  revert s. induction fuel as [|fuel IH]; intros s Hfuel Hm; [destruct (sm_state s); cbn in Hfuel; lia|].
  cbn [close_rounds]. destruct (sm_state s) eqn:Hst; cbn in Hfuel.
  - apply IH; cbn; [lia|done].
  - apply post_and_then. eapply post_impl; [eapply sm_below_managing; eauto with returns|].
    cbn. intros r s1 [Hs1 Hp]. destruct r as [[e|[]]|].
    2: apply IH; [cbn; lia|]; by apply Hp.
    all: split; [|done]; apply managing_managed; rewrite Hs1, Hst; [done|by apply Hp].
  - apply post_and_then. eapply post_impl; [eapply sm_below_managing; eauto with returns|].
    cbn. intros r s1 [Hs1 Hp].
    assert (managing Drained s1) as Hm1 by (by apply Hp). destruct r as [[e|[]]|].
    2: { apply post_send_then. eapply post_impl; [eapply sm_below_managing; eauto with returns|].
      cbn. intros r s2 [Hs2 Hp2]. destruct r as [e|[]]; [|apply IH; [cbn; lia|]; by apply Hp2].
      split; [|done]. apply managing_managed; rewrite Hs2, Hs1, Hst; [done|by apply Hp2]. }
    all: split; [|done]; apply managing_managed; by rewrite Hs1, Hst.
  - apply post_and_then. eapply post_impl; [eapply sm_below_managing; eauto with returns|].
    cbn. intros r s1 [Hs1 Hp]. destruct r as [[e|[]]|].
    2: apply IH; [cbn; lia|]; by apply Hp.
    all: split; [|done]; apply managing_managed; rewrite Hs1, Hst; [done|by apply Hp].
  - destruct Hm as (Hf & Hcap & Hc & He). destruct (drop_reports s Hcap) as (q & -> & Hqc & Hql). cbn.
    split; [|done]. split_and!; [done|done|]. cbn. by rewrite Hql, Hc, He.
Qed.

(** A call that the protocol allows in the phase of the manager. *)
Lemma sm_below_managed {R} (c : R → call) (op : F → outcome spinning (R * F)) (s : Manager) :
  (below_returns → ∀ f, ∃ r, op f = Ok r) →
  (∀ r, protocol (phase_of (sm_state s)) (c r) = Some (phase_of (sm_state s))) → managed s →
  post (sm_below (record_call c op) s) (λ r s', managed s' ∧ sm_state s' = sm_state s).
Proof.
  unfold sm_below, record_call, post. intros Hret Hp (Hf & Hrest).
  destruct (op (rec_inner (sm_frame s))) as [[r f]| |] eqn:Hop; cbn.
  - split; [|done]. split; [|done]. cbn. by rewrite follows_snoc, Hf; cbn.
  - intros H. destruct (Hret H (rec_inner (sm_frame s))). congruence.
  - intros H. destruct (Hret H (rec_inner (sm_frame s))). congruence.
Qed.

(** Handing an item over, in one of the two ways. *)
Lemma feed_managed {A} (HA : Sink Manager A) (x : A) (s : Manager) :
  (∀ s, poll_ready (A:=A) s = Outgoing_poll_ready s) →
  (∀ s, before_finish (sm_state s) = true → managed s →
    post (start_send x s) (λ r s', managed s')) →
  managed s → post (feed x s) (λ r s', managed s').
Proof.
  intros Hr Hs Hm. unfold feed. apply post_and_then. rewrite Hr. unfold Outgoing_poll_ready.
  destruct (before_finish (sm_state s)) eqn:Hbf; cbn [negb]; [|done].
  eapply post_impl; [eapply sm_below_managed; eauto with returns|].
  { intros r. by destruct (sm_state s). }
  intros r s1 [Hm1 Hs1]. destruct r as [[]|]; try done.
  rewrite <-Hs1 in Hbf. specialize (Hs s1 Hbf Hm1). unfold post in *. by destruct (start_send x s1) as [[]| |].
Qed.

Lemma user_step_managed op (s : Manager) :
  user_op_ok op → managed s → post (user_step op s) (λ r s', managed s').
Proof.
  intros Hop Hm. destruct op as [x|m| |]; cbn [user_step].
  - apply feed_managed; [done| |done]. intros s1 Hbf Hm1. cbn. unfold Outgoing_start_send. rewrite Hbf.
    eapply post_impl; [eapply sm_below_managed; eauto with returns|by intros ? ? []].
    intros r. cbn in Hop. by destruct (sm_state s1), x.
  - apply feed_managed; [done| |done]. intros s1 Hbf Hm1. cbn.
    eapply post_impl; [eapply sm_below_managed; eauto with returns|by intros ? ? []].
    intros r. by destruct (sm_state s1).
  - eapply post_impl; [eapply sm_below_managed; eauto with returns|by intros ? ? []].
    intros r. by destruct (sm_state s).
  - cbn. unfold Outgoing_poll_close. destruct (decide (sm_state s = OClosed)) as [Hc|Hc]; [by rewrite Hc|].
    assert (post (close_rounds 5 s) (λ _ s', managed s')) as H.
    { eapply post_impl; [eapply close_rounds_managed|by intros ? ? []].
      - by destruct (sm_state s); cbn; lia.
      - by apply managing_managed. }
    by destruct (sm_state s).
Qed.

Lemma user_run_managed ops (s : Manager) :
  Forall user_op_ok ops → managed s →
  match user_run ops s with Ok s' => managed s' | _ => ¬ below_returns end.
Proof.
  intros Hops. revert s. induction Hops as [|op ops Hop _ IH]; intros s Hm; [done|].
  pose proof (user_step_managed op s Hop Hm) as H. unfold post in H. cbn.
  destruct (user_step op s) as [[r s1]| |]; cbn; [by apply IH|done..].
Qed.
End protocol.

(** C10. The close is the four-step exchange: over any sink, whatever it answers,
    and for any sequence of sends, flushes and close polls of the owner, the calls
    that the sink below sees follow the protocol (drain, then exactly one accepted
    notification, then drain, and nothing is sent after it), the address of the
    connection is reported to the server when the close completes and not before,
    and after the manager is dropped it was reported exactly once; the manager
    returns from every call when the sink below does. *)
Theorem Outgoing_follows_protocol {CQ : ConcurrentQueueCrate} {F : Type} `{!Sink F FrameBody} `{!Sink F Message}
    ops (f : F) c q :
  cq_cap q = None → Forall user_op_ok ops →
  match user_run ops (manage_outgoing_state (mkRecorded f []) c q) with
  | Ok s =>
      follows Open (rec_calls (sm_frame s)) = Some (phase_of (sm_state s)) ∧
      cq_list (sm_close_events s) =
        cq_list q ++ (if bool_decide (sm_state s = OClosed) then reported c else []) ∧
      ∃ q', StateManager_drop (E:=spinning) s = Ok q' ∧ cq_list q' = cq_list q ++ reported c
  | _ => ¬ (returning F FrameBody ∧ returning F Message)
  end.
Proof.
  intros Hq Hops. set (s0 := manage_outgoing_state _ _ _).
  assert (managed c (cq_list q) s0) as Hm0 by done.
  pose proof (user_run_managed c (cq_list q) ops s0 Hops Hm0) as H.
  destruct (user_run ops s0) as [s| |]; [|done..]. destruct H as (Hf & Hcap & Hr).
  destruct (drop_reports s Hcap) as (q' & Hd & _ & Hl). rewrite Hd.
  case_bool_decide; destruct Hr as [Hc He]; rewrite Hc, He in Hl; cbn in Hl; rewrite ?app_nil_r in *; by eauto.
Qed.

(** ** Over a sink that is ready *)

Section ready.
Context {CQ : ConcurrentQueueCrate} {F : Type} `{!Sink F FrameBody} `{!Sink F Message} `{!ReadySink F FrameBody}.

(** The close completes: over a sink that is ready, one poll of the close
    drains the connection, sends the notification, drains again, reports the
    address and answers success; from then on the connection refuses bodies and
    further closes with [NotConnected]. *)
Theorem Outgoing_close_completes h (s : StateManager F OutgoingState) c :
  sm_state s = OConnecting → taken h (sm_frame s) → sendable FDisconnectNotification →
  sm_close_on_drop s = Some c → cq_cap (sm_close_events s) = None →
  ∃ s', Outgoing_poll_close s = Ok (Ready (inr tt), s') ∧ sm_state s' = OClosed ∧
    taken (h ++ [FDisconnectNotification]) (sm_frame s') ∧
    cq_list (sm_close_events s') = cq_list (sm_close_events s) ++ [cod_addr c] ∧
    Outgoing_poll_ready s' = Ok (Ready (inl closed_before), s') ∧
    Outgoing_poll_close s' = Ok (Ready (inl closed_before), s') ∧
    ∀ x, Outgoing_start_send x s' = Ok (inl closed_before, s').
Proof.
  destruct s as [f st cod ev]. cbn. intros -> Ht Hs -> Hcap.
  destruct (poll_close_taken h f Ht) as (f1 & H1 & Ht1).
  destruct (poll_ready_free h f1 Ht1) as (f2 & H2 & Hf2).
  destruct (start_send_taken h f2 _ Hf2 Hs) as (f3 & H3 & Ht3).
  destruct (poll_close_taken _ f3 Ht3) as (f4 & H4 & Ht4).
  destruct (cq_push_spec (cod_addr c) ev) as (q & Hp & Hl & _); [by rewrite Hcap|].
  eexists. unfold Outgoing_poll_close. cbn. unfold sm_below, StateManager_drop, CloseOnDrop_drop. cbn.
  rewrite H1. cbn. rewrite H2. cbn. rewrite H3. cbn. rewrite H4. cbn. rewrite Hp. cbn.
  split_and!; try done.
Qed.

(** A message handed over without asking first still passes a closed manager. *)
Lemma send_message_after_close h (s : StateManager F OutgoingState) (HM : ReadySink F Message) m :
  sm_state s = OClosed → free h (sm_frame s) → sendable m →
  ∃ s', Outgoing_send_message m s = Ok (inr tt, s') ∧ taken (h ++ [m]) (sm_frame s').
Proof.
  intros _ Hf Hm. destruct (start_send_taken h (sm_frame s) m Hf Hm) as (f & Hr & Ht).
  eexists. unfold Outgoing_send_message, sm_below. rewrite Hr. cbn. done.
Qed.
End ready.

(** ** The stream of bodies *)

(** The bodies before the end of the stream or the notification of the peer. *)
Fixpoint until_close (t : list (item_answer FrameBody)) : list (item_answer FrameBody) :=
  match t with
  | [] => []
  | Ready None :: _ | Ready (Some FDisconnectNotification) :: _ => []
  | a :: t => a :: until_close t
  end.

Definition ends (t : list (item_answer FrameBody)) : bool :=
  bool_decide (length (until_close t) < length t)%nat.

Lemma closed_polls n up :
  polls Incoming_poll_next n IClosed up = Ok (replicate n (Ready None), IClosed, up).
Proof. induction n as [|n IH]; [done|]. cbn [polls]. cbn. by rewrite IH. Qed.

(** The receiving side ends once and for all: any number of polls answers what
    the stream below gives, up to its end or the notification of the peer, and
    [None] from then on, without polling the stream below again. *)
Theorem Incoming_ends_at_notification n (t : list (item_answer FrameBody)) :
  let live := until_close t in
  polls Incoming_poll_next (length t + n) IConnecting t =
    if ends t
    then Ok (live ++ replicate (length t + n - length live) (Ready None), IClosed, drop (S (length live)) t)
    else Ok (live ++ replicate n Pending, IConnecting, []).
Proof.
  cbn zeta. induction t as [|a t IH]; cbn [length].
  { cbn. induction n as [|n IH]; [done|]. cbn. by rewrite IH. }
  cbn [polls Nat.add]. unfold ends in *. cbn [until_close length].
  assert (∀ live : list (item_answer FrameBody), bool_decide (S (length live) < S (length t))%nat = bool_decide (length live < length t)%nat) as HS.
  { intros live. apply bool_decide_ext. lia. }
  destruct a as [[[]|]|]; cbn -[bool_decide Nat.sub drop];
    try (rewrite closed_polls; cbn; rewrite bool_decide_eq_true_2 by lia; done).
  all: rewrite IH, HS; by case_bool_decide; cbn -[bool_decide Nat.sub].
Qed.

(** ** Witnesses *)

(** A sink that takes bodies and messages, and answers from a list. *)
Record PairLog := mkPairLog { pl_bodies : LogSink FrameBody; pl_messages : list Message }.

Definition pl_poll (op : LogSink FrameBody → sink_poll (LogSink FrameBody)) (s : PairLog) : sink_poll PairLog :=
  '(r, l) ← op (pl_bodies s); mret (r, mkPairLog l (pl_messages s)).

Global Instance PairLog_body : Sink PairLog FrameBody := {
  poll_ready := pl_poll (poll_ready (A:=FrameBody));
  start_send x s := '(r, l) ← start_send x (pl_bodies s); mret (r, mkPairLog l (pl_messages s));
  poll_flush := pl_poll (poll_flush (A:=FrameBody));
  poll_close := pl_poll (poll_close (A:=FrameBody));
}.

Global Instance PairLog_message : Sink PairLog Message := {
  poll_ready := pl_poll (poll_ready (A:=FrameBody));
  start_send m s := mret (inr tt, mkPairLog (pl_bodies s) (pl_messages s ++ [m]));
  poll_flush := pl_poll (poll_flush (A:=FrameBody));
  poll_close := pl_poll (poll_close (A:=FrameBody));
}.

Definition sample_close_addr : CloseOnDrop := CloseOnDrop_new (V4 2130706433 19132).

(** The first close finds the sink blocked once, a message slips in, then it closes. *)
Definition sample_ops : list user_op :=
  [UFeedMessage (Message_new [1; 2]); UClose; UFeedMessage (Message_new [3]); UClose; UClose; UFlush].

Definition sample_pair_log : PairLog := mkPairLog (mkLogSink [Ready (inr tt); Pending] [] 0 0) [].

Lemma Outgoing_follows_protocol_witness :
  ∃ s q', user_run sample_ops (manage_outgoing_state (CQ:=queue_reference) (mkRecorded sample_pair_log [])
      (Some sample_close_addr) (None, [])) = Ok s ∧
    sm_state (CQ:=queue_reference) s = OClosed ∧
    follows Open (rec_calls (sm_frame (CQ:=queue_reference) s)) = Some (phase_of (sm_state (CQ:=queue_reference) s)) ∧
    cq_list (ConcurrentQueueCrate:=queue_reference) (sm_close_events (CQ:=queue_reference) s) = [cod_addr sample_close_addr] ∧
    StateManager_drop (E:=spinning) (CQ:=queue_reference) s = Ok q' ∧ cq_list (ConcurrentQueueCrate:=queue_reference) q' = [cod_addr sample_close_addr].
Proof.
  pose proof (Outgoing_follows_protocol (CQ:=queue_reference) sample_ops sample_pair_log (Some sample_close_addr) (None, [])
    eq_refl ltac:(repeat constructor)) as H.
  destruct (user_run sample_ops _) as [s| |] eqn:Hrun; [|exfalso; vm_compute in Hrun; discriminate..].
  destruct H as (H1 & H2 & q' & H3 & H4).
  assert (sm_state (CQ:=queue_reference) s = OClosed) as Hst by (vm_compute in Hrun; by injection Hrun as <-).
  exists s, q'. rewrite bool_decide_eq_true_2 in H2 by done. split_and!; try done.
Defined.

Lemma Outgoing_close_completes_witness :
  ∃ s', Outgoing_poll_close (F:=LogSink FrameBody) (manage_outgoing_state (CQ:=queue_reference) (mkLogSink [] [] 0 0)
      (Some sample_close_addr) (None, [])) = Ok (Ready (inr tt), s') ∧
    taken ([] ++ [FDisconnectNotification]) (sm_frame (CQ:=queue_reference) s').
Proof.
  destruct (Outgoing_close_completes (CQ:=queue_reference) [] (manage_outgoing_state (CQ:=queue_reference)
    (mkLogSink [] [] 0 0) (Some sample_close_addr) (None, [])) sample_close_addr)
    as (s' & H1 & _ & H3 & _); [done..|]. by exists s'.
Defined.
