(* ===== verification/Framed.v ===== *)
(** * Packets over a socket (src/codec/frame.rs)

    [Framed] reads datagrams into packets and writes packets into datagrams.  The
    receiving side of the socket is the tape of its answers, the sending side is
    an interface.  [Framed] over a socket that takes what it is given discharges
    the contract [ReadySink] of the layers above. *)
From S2P Require Import Prelude Bytes Errors Reader SeqNum Types PackType Unconnected AckNack FrameSet Packet.
From S2P Require Import Stream Sink.
Open Scope Z_scope.

(** [AsyncSocket::poll_send_to] *)
Class AsyncSocket (T : Type) := {
  poll_send_to : list Z → SocketAddr → T → poll (io_error + Z) * T;
}.

(** The answer of [AsyncSocket::poll_recv_from]: the datagram that is put into the
    buffer and where it comes from. *)
Abbreviation recv_answer := (poll (io_error + (list Z * SocketAddr))).

Record Framed (T : Type) := mkFramed {
  fr_socket : T;
  fr_mtu : Z;
  fr_rd : list Z;
  fr_wr : list Z;
  fr_out_addr : SocketAddr;
  fr_flushed : bool;
  fr_is_readable : bool;
  fr_current_addr : option SocketAddr;
}.
Arguments mkFramed {T} _ _ _ _ _ _ _ _.
Arguments fr_socket {T} _.
Arguments fr_mtu {T} _.
Arguments fr_rd {T} _.
Arguments fr_wr {T} _.
Arguments fr_out_addr {T} _.
Arguments fr_flushed {T} _.
Arguments fr_is_readable {T} _.
Arguments fr_current_addr {T} _.

Definition Framed_new {T} (socket : T) (mtu : Z) : Framed T :=
  mkFramed socket mtu [] [] (V4 0 0) true false None.

Definition set_rd {T} (rd : list Z) (readable : bool) (a : option SocketAddr) (s : Framed T) : Framed T :=
  mkFramed (fr_socket s) (fr_mtu s) rd (fr_wr s) (fr_out_addr s) (fr_flushed s) readable a.

Definition set_wr {T} (t : T) (wr : list Z) (a : SocketAddr) (flushed : bool) (s : Framed T) : Framed T :=
  mkFramed t (fr_mtu s) (fr_rd s) wr a flushed (fr_is_readable s) (fr_current_addr s).

Definition short_write : io_error := IoError Other "failed to write entire datagram to socket".

Section framed.
Context {B : Build} {BC : BytesCrate} {T : Type} `{!AsyncSocket T}.

(** A send that fails leaves the datagram in the buffer. *)
Definition poll_flush_0 (s : Framed T) : sink_poll (Framed T) :=
  if fr_flushed s then mret (Ready (inr tt), s)
  else
    match poll_send_to (fr_wr s) (fr_out_addr s) (fr_socket s) with
    | (Pending, t) => mret (Pending, set_wr t (fr_wr s) (fr_out_addr s) false s)
    | (Ready (inl e), t) => mret (Ready (inl e), set_wr t (fr_wr s) (fr_out_addr s) false s)
    | (Ready (inr n), t) =>
        let wrote_all := n =? Z.of_nat (length (fr_wr s)) in
        mret (Ready (if wrote_all then inr tt else inl short_write), set_wr t [] (fr_out_addr s) true s)
    end.

(** The head of the loop of [poll_next]: decode what is in the buffer. *)
Definition decode_buffer (s : Framed T) : outcome Empty_set (option (Packet * SocketAddr) * Framed T) :=
  if fr_is_readable s then
    match Packet_read (fr_rd s) with
    | Ok (frame, _) =>
        match fr_current_addr s with
        | Some a => mret (Some (frame, a), set_rd [] false (Some a) s)
        | None => Panic
        end
    | Err _ => mret (None, set_rd [] false (fr_current_addr s) s)
    | Panic => Panic
    end
  else mret (None, s).

Fixpoint framed_loop (up : list recv_answer) (s : Framed T) :
    outcome Empty_set (item_answer (Packet * SocketAddr) * Framed T * list recv_answer) :=
  '(o, s) ← decode_buffer s;
  match o with
  | Some x => mret (Ready (Some x), s, up)
  | None =>
      match up with
      | [] => mret (Pending, s, [])
      | Pending :: up => mret (Pending, s, up)
      | Ready (inl _) :: up => framed_loop up (set_rd [] (fr_is_readable s) (fr_current_addr s) s)
      | Ready (inr (d, a)) :: up => framed_loop up (set_rd (fr_rd s ++ d) true (Some a) s)
      end
  end.

Definition Framed_poll_next : layer (Framed T) recv_answer (item_answer (Packet * SocketAddr)) :=
  λ s up, framed_loop up s.

Definition Framed_start_send (item : Packet * SocketAddr) (s : Framed T) : sink_send (Framed T) :=
  wr ← Packet_write item.1 (fr_wr s);
  mret (inr tt, set_wr (fr_socket s) wr item.2 false s).

(** The sink of unconnected packets. *)
Definition Framed_start_send_unconnected (item : UPacket * SocketAddr) (s : Framed T) : sink_send (Framed T) :=
  mret (inr tt, set_wr (fr_socket s) (UPacket_write item.1 (fr_wr s)) item.2 false s).

Global Instance Framed_sink : Sink (Framed T) (Packet * SocketAddr) := {
  poll_ready := poll_flush_0;
  start_send := Framed_start_send;
  poll_flush := poll_flush_0;
  poll_close := poll_flush_0;
}.

Global Instance Framed_sink_unconnected : Sink (Framed T) (UPacket * SocketAddr) := {
  poll_ready := poll_flush_0;
  start_send := Framed_start_send_unconnected;
  poll_flush := poll_flush_0;
  poll_close := poll_flush_0;
}.
End framed.

(** ** Receiving *)

(** The packets of the datagrams that decode, with their senders. *)
Definition decoded {B : Build} {BC : BytesCrate} (up : list recv_answer) : list (Packet * SocketAddr) :=
  up ≫= λ r, match r with
    | Ready (inr (d, a)) => match Packet_read d with Ok (p, _) => [(p, a)] | _ => [] end
    | _ => []
    end.

(** A datagram on which the decoder does not panic ([Packet_read_no_panic]). *)
Definition harmless {B : Build} {BC : BytesCrate} (r : recv_answer) : Prop :=
  match r with Ready (inr (d, _)) => Packet_read d ≠ Panic | _ => True end.

Section receive.
Context {B : Build} {BC : BytesCrate} {T : Type} `{!AsyncSocket T}.

(** Between two polls the buffer is empty. *)
Definition at_rest (s : Framed T) : Prop := fr_rd s = [] ∧ fr_is_readable s = false.

(** The loop at a datagram. *)
Lemma framed_loop_recv d a up s :
  at_rest s →
  let s' := set_rd [] false (Some a) s in
  framed_loop (Ready (inr (d, a)) :: up) s =
    match Packet_read d with
    | Ok (p, _) => Ok (Ready (Some (p, a)), s', up)
    | Err _ => framed_loop up s'
    | Panic => Panic
    end.
Proof.
  destruct s as [t mtu rd wr out fl re cur]. intros [Hrd Hre]. cbn in Hrd, Hre. subst.
  destruct up; cbn; by destruct (Packet_read d) as [[]| |].
Qed.

Lemma framed_loop_next up s :
  at_rest s → Forall harmless up →
  ∃ a s' used up', framed_loop up s = Ok (a, s', up') ∧ up = used ++ up' ∧ at_rest s' ∧
    feed_items [a] = decoded used ∧ (length up' ≤ length up - 1)%nat ∧ a ≠ Ready None.
Proof.
  intros Hs Hup. revert s Hs. induction Hup as [|r up Hr Hup IH]; intros s Hs.
  { exists Pending, s, [], []. destruct Hs as [Hrd Hre]. cbn. unfold decode_buffer. by rewrite Hre. }
  destruct r as [[e|[d a]]|].
  - destruct Hs as [Hrd Hre]. cbn [framed_loop]. unfold decode_buffer. rewrite Hre.
    cbn [mbind outcome_bind mret outcome_ret]. rewrite Hre. destruct (IH (set_rd [] false (fr_current_addr s) s)) as (x & s' & used & up' & -> & -> & ? & ? & ? & ?).
    { by split. }
    exists x, s', (Ready (inl e) :: used), up'. split_and!; try done. cbn. rewrite length_app. lia.
  - rewrite framed_loop_recv by done.
    cbn in Hr. destruct (Packet_read d) as [[p l]|e|] eqn:Hd; [| |done].
    + eexists _, _, [Ready (inr (d, a))], up. split_and!; [done|done|done| |cbn; lia|done].
      unfold decoded. cbn. by rewrite Hd.
    + destruct (IH (set_rd [] false (Some a) s)) as (x & s' & used & up' & -> & -> & ? & Hf & ? & ?); [done|].
      exists x, s', (Ready (inr (d, a)) :: used), up'. split_and!; try done.
      * rewrite Hf. unfold decoded. cbn. by rewrite Hd.
      * cbn. rewrite length_app. lia.
  - exists Pending, s, [Pending], up. destruct Hs as [Hrd Hre]. cbn [framed_loop]. unfold decode_buffer. rewrite Hre.
    split_and!; try done. cbn. lia.
Qed.

Lemma Framed_polls_spec n (up : list recv_answer) (t : T) mtu :
  Forall harmless up →
  ∃ out s' used up', polls Framed_poll_next n (Framed_new t mtu) up = Ok (out, s', up') ∧
    up = used ++ up' ∧ feed_items out = decoded used ∧ (Ready None ∉ out) ∧
    ((length up ≤ n)%nat → up' = []).
Proof.
  intros Hup.
  destruct (polls_ind Framed_poll_next (λ _ used out _, feed_items out = decoded used ∧ (Ready None ∉ out))
    (λ up s, at_rest s ∧ Forall harmless up)) with n (Framed_new t mtu) up
    as (out & s' & used & up' & H1 & H2 & _ & [H3 H4] & _ & H5).
  - intros _. split; [done|apply not_elem_of_nil].
  - intros _ u a _ u' out' _ [H1 H2] [H3 H4].
    change (a :: out') with ([a] ++ out'). rewrite feed_items_app, H1, H3. unfold decoded. rewrite bind_app.
    split; [done|]. rewrite elem_of_app. tauto.
  - intros s up1 [Hs Hh].
    destruct (framed_loop_next up1 s Hs Hh) as (a & s' & used & up' & H1 & H2 & H3 & H4 & H5 & H6).
    exists a, s', used, up'. split_and!; try done.
    + by intros ?%list_elem_of_singleton.
    + rewrite H2 in Hh. by apply Forall_app in Hh as [_ ?].
  - by split.
  - exists out, s', used, up'. split_and!; try done. intros Hn. apply nil_length_inv. lia.
Qed.

(** Polled often enough, all of it. *)
Lemma Framed_polls_decode n (up : list recv_answer) (t : T) mtu :
  Forall harmless up → (length up ≤ n)%nat →
  ∃ out s', polls Framed_poll_next n (Framed_new t mtu) up = Ok (out, s', []) ∧ feed_items out = decoded up.
Proof.
  intros Hup Hn. destruct (Framed_polls_spec n up t mtu Hup) as (out & s' & used & up' & H1 & H2 & H3 & _ & H4).
  rewrite (H4 Hn) in *. rewrite app_nil_r in H2. subst used. by exists out, s'.
Qed.

(** Receiving is exact: whatever the socket gives (datagrams, errors, nothing),
    the polls of [Framed] deliver the packets of the datagrams that decode, each with
    its sender, in the order of arrival and nothing else; datagrams that do not
    decode and errors of the socket are skipped, and the stream does not end. *)
Theorem Framed_delivers n (up : list recv_answer) (t : T) mtu :
  Forall harmless up →
  ∃ out s' used up', polls Framed_poll_next n (Framed_new t mtu) up = Ok (out, s', up') ∧
    up = used ++ up' ∧ feed_items out = decoded used ∧ (Ready None ∉ out) ∧
    ((length up ≤ n)%nat → up' = []).
Proof. apply Framed_polls_spec. Qed.

(** The packet that makes the decoder panic brings the whole receiving task down. *)
Lemma Framed_poll_next_panics (s : Framed T) d a up :
  at_rest s → Packet_read d = Panic → Framed_poll_next s (Ready (inr (d, a)) :: up) = Panic.
Proof.
  intros Hs Hp. unfold Framed_poll_next. rewrite framed_loop_recv by done. by rewrite Hp.
Qed.
End receive.

(** ** Sending *)

(** A socket that takes every datagram whole. *)
Class OpenSocket (T : Type) `{!AsyncSocket T} := {
  sock_sent : T → list (list Z * SocketAddr);
  poll_send_to_sent d a (t : T) :
    ∃ t', poll_send_to d a t = (Ready (inr (Z.of_nat (length d))), t') ∧ sock_sent t' = sock_sent t ++ [(d, a)];
}.

Section send.
Context {B : Build} {BC : BytesCrate} {T : Type} `{!AsyncSocket T} `{!OpenSocket T}.

(** What was handed over, as datagrams: those on the wire and the one in the buffer. *)
Definition wire (s : Framed T) : list (list Z * SocketAddr) :=
  sock_sent (fr_socket s) ++ if fr_flushed s then [] else [(fr_wr s, fr_out_addr s)].

(** The datagram of an item. *)
Definition written (x : Packet * SocketAddr) (d : list Z * SocketAddr) : Prop :=
  Packet_write (E:=spinning) x.1 [] = Ok d.1 ∧ x.2 = d.2.

Definition framed_taken (h : list (Packet * SocketAddr)) (s : Framed T) : Prop :=
  Forall2 written h (wire s) ∧ (fr_flushed s = true → fr_wr s = []).

Lemma poll_flush_0_taken h s :
  framed_taken h s →
  ∃ s', poll_flush_0 s = Ok (Ready (inr tt), s') ∧ framed_taken h s' ∧ fr_flushed s' = true.
Proof.
  unfold framed_taken, wire, poll_flush_0. intros [Hw Hf]. destruct (fr_flushed s) eqn:Hfl.
  - exists s. rewrite Hfl. by split_and!; auto.
  - destruct (poll_send_to_sent (fr_wr s) (fr_out_addr s) (fr_socket s)) as (t & -> & Hs).
    eexists. rewrite Z.eqb_refl. split; [done|]. cbn. by rewrite Hs, app_nil_r.
Qed.

Global Program Instance Framed_ready : ReadySink (Framed T) (Packet * SocketAddr) := {
  sendable x := ∃ d, Packet_write (E:=spinning) x.1 [] = Ok d;
  taken := framed_taken;
  free h s := framed_taken h s ∧ fr_flushed s = true;
}.
Next Obligation. by intros h s []. Qed.
Next Obligation. intros h s Ht. destruct (poll_flush_0_taken h s Ht) as (s' & ? & ? & ?). by exists s'. Qed.
Next Obligation.
  intros h s x [[Hw Hf] Hfl] [d Hd]. cbn. unfold Framed_start_send. rewrite Hf, Hd by done. eexists. split; [done|].
  unfold framed_taken, wire in *. rewrite Hfl, app_nil_r in Hw. cbn. split; [|done].
  apply Forall2_app; [done|]. by constructor.
Qed.
Next Obligation. intros h s Ht. destruct (poll_flush_0_taken h s Ht) as (s' & ? & ? & ?). by exists s'. Qed.
Next Obligation. intros h s Ht. destruct (poll_flush_0_taken h s Ht) as (s' & ? & ? & ?). by exists s'. Qed.

(** The sink of unconnected packets, seen as packets. *)
Definition as_packets (h : list (UPacket * SocketAddr)) : list (Packet * SocketAddr) :=
  (λ x, (PUnconnected x.1, x.2)) <$> h.

Global Program Instance Framed_ready_unconnected : ReadySink (Framed T) (UPacket * SocketAddr) := {
  sendable _ := True;
  taken h := framed_taken (as_packets h);
  free h s := framed_taken (as_packets h) s ∧ fr_flushed s = true;
}.
Next Obligation. by intros h s []. Qed.
Next Obligation. intros h s Ht. destruct (poll_flush_0_taken _ s Ht) as (s' & ? & ? & ?). by exists s'. Qed.
Next Obligation.
  intros h s x [[Hw Hf] Hfl] _. cbn. unfold Framed_start_send_unconnected. rewrite Hf by done. eexists. split; [done|].
  unfold framed_taken, wire, as_packets in *. rewrite Hfl, app_nil_r in Hw. rewrite fmap_app. cbn. split; [|done].
  apply Forall2_app; [done|]. by constructor.
Qed.
Next Obligation. intros h s Ht. destruct (poll_flush_0_taken _ s Ht) as (s' & ? & ? & ?). by exists s'. Qed.
Next Obligation. intros h s Ht. destruct (poll_flush_0_taken _ s Ht) as (s' & ? & ? & ?). by exists s'. Qed.

(** The datagrams that the peer receives from the address [from]. *)
Definition arrive (from : SocketAddr) (ds : list (list Z * SocketAddr)) : list recv_answer :=
  (λ d, Ready (inr (d.1, from))) <$> ds.

Lemma polls_written {T'} `{!AsyncSocket T'} h ds from (s : Framed T') :
  Forall2 written h ds → Forall (λ x, Packet_wire x.1) h → at_rest s →
  ∃ s', polls Framed_poll_next (length h) s (arrive from ds) =
    Ok ((λ x, Ready (Some (x.1, from))) <$> h, s', []) ∧ at_rest s'.
Proof.
  intros Hw. revert s. induction Hw as [|[p a] [d b] h ds [Hd Ha] Hw IH]; intros s Hp Hs; [by exists s|].
  apply Forall_cons in Hp as [Hp1 Hp]. cbn in Hd, Hp1.
  destruct (Packet_read_write p Hp1) as (d' & Hd' & Hread). rewrite Hd' in Hd. injection Hd as <-.
  change (arrive from ((d', b) :: ds)) with (Ready (inr (d', from)) :: arrive from ds).
  cbn [length polls].
  replace (Framed_poll_next s _) with (framed_loop (Ready (inr (d', from)) :: arrive from ds) s) by done.
  rewrite framed_loop_recv, Hread by done. cbn [mbind outcome_bind].
  destruct (IH (set_rd [] false (Some from) s) Hp) as (s' & Hpolls & Hs'); [done|].
  exists s'. by rewrite Hpolls.
Qed.
End send.

(** C13. Packets travel: packets that are sent to a [Framed] over an open socket go out
    as one datagram each, to their addresses and in order, and a [Framed] that
    receives those datagrams delivers the same packets.  The packets are those that
    the wire format can carry: handshake packets with fields in range, no encryption
    flag, and an advertisement below 2^16 bytes; frame sets with at least one frame,
    where the header fields of each frame are the ones that its flags announce, its
    body is not empty and is shorter than 8191 bytes; and acknowledgements whose
    records are valid and stay within the limit of the reader.  The layers above also
    send packets outside of this: the frames of sequenced messages lack a field
    ([Encoder.sequenced_frame_misread]), and an acknowledgement of many numbers can
    exceed the limit ([AckNack.extend_from_exceeds_reader_limit]). *)
Theorem Framed_transfers {B : Build} {BC : BytesCrate} {T T' : Type} `{!AsyncSocket T} `{!OpenSocket T}
    `{!AsyncSocket T'} (h : list (Packet * SocketAddr)) (t : T) (t' : T') mtu mtu' from :
  sock_sent t = [] → Forall (λ x, Packet_wire x.1) h →
  ∃ s, send_all h (Framed_new t mtu) = Ok (Ready (inr tt), s) ∧ fr_flushed s = true ∧
    snd <$> sock_sent (fr_socket s) = snd <$> h ∧
    ∃ s', polls Framed_poll_next (length h) (Framed_new t' mtu') (arrive from (sock_sent (fr_socket s))) =
      Ok ((λ x, Ready (Some (x.1, from))) <$> h, s', []).
Proof.
  intros Ht Hh.
  destruct (send_all_taken [] (Framed_new t mtu) h) as (s1 & s2 & H1 & H2 & H3 & H4).
  { split; [|done]. unfold wire. cbn. by rewrite Ht. }
  { eapply Forall_impl; [done|]. intros x (d & Hd & _)%Packet_read_write. by exists d. }
  destruct (poll_flush_0_taken h s1 H1) as (s3 & H5 & _ & H6).
  assert (s3 = s2) as -> by (cbn in H2; congruence).
  destruct H3 as [Hw _]. unfold wire in Hw. rewrite H6, app_nil_r in Hw. cbn in Hw.
  exists s2. split_and!; [done|done| |].
  - clear -Hw. induction Hw as [|x d h ds [_ Ha] _ IH]; [done|]. cbn. by rewrite Ha, IH.
  - destruct (polls_written h _ from (Framed_new t' mtu') Hw Hh) as (s' & Hp & _); [done|]. by exists s'.
Qed.

(** ** A datagram that cannot be sent *)

Section poisoned.
Context {B : Build} {BC : BytesCrate} {T : Type} `{!AsyncSocket T}.

(** A send of the datagram that fails; the socket may change by it. *)
Definition refusal (d : list Z) (a : SocketAddr) (t t' : T) : Prop :=
  ∃ e, poll_send_to d a t = (Ready (inl e), t').

(** In the states [P] the socket refuses the datagram, however often it is tried. *)
Definition refuses (d : list Z) (a : SocketAddr) (P : T → Prop) : Prop :=
  ∀ t, P t → ∃ t', refusal d a t t' ∧ P t'.

(** The datagram waits in the buffer, over a socket in [P]. *)
Definition stuck (d : list Z) (a : SocketAddr) (P : T → Prop) (s : Framed T) : Prop :=
  fr_flushed s = false ∧ fr_wr s = d ∧ fr_out_addr s = a ∧ P (fr_socket s).

Lemma poll_flush_0_stuck d a P s :
  refuses d a P → stuck d a P s →
  ∃ e s', poll_flush_0 s = Ok (Ready (inl e), s') ∧ stuck d a P s' ∧ refusal d a (fr_socket s) (fr_socket s').
Proof.
  intros Hr (Hf & <- & <- & Ht). destruct (Hr _ Ht) as (t' & [e He] & Ht'). unfold poll_flush_0. rewrite Hf, He.
  eexists e, _. split; [done|]. split; [done|by exists e].
Qed.

(** Once the socket takes the datagram, it is sent and the buffer is free again. *)
Lemma poll_flush_0_recovers d a P s t :
  stuck d a P s → poll_send_to d a (fr_socket s) = (Ready (inr (Z.of_nat (length d))), t) →
  poll_flush_0 s = Ok (Ready (inr tt), set_wr t [] a true s).
Proof. intros (Hf & <- & <- & _) Hs. unfold poll_flush_0. by rewrite Hf, Hs, Z.eqb_refl. Qed.
End poisoned.

(** ** Concrete sockets *)

(** A socket that takes everything. *)
Record OpenLog := mkOpenLog { ol_sent : list (list Z * SocketAddr) }.

Global Instance OpenLog_socket : AsyncSocket OpenLog := {
  poll_send_to d a t := (Ready (inr (Z.of_nat (length d))), mkOpenLog (ol_sent t ++ [(d, a)]));
}.

Global Program Instance OpenLog_open : OpenSocket OpenLog := { sock_sent := ol_sent }.
Next Obligation. by eexists. Qed.

Definition no_route : io_error := IoError (OsError 101) "Network is unreachable".

(** A socket that cannot reach one address. *)
Record PickyLog := mkPickyLog { pk_refused : SocketAddr; pk_sent : list (list Z * SocketAddr) }.

Definition picky_send (d : list Z) (a : SocketAddr) (t : PickyLog) : poll (io_error + Z) * PickyLog :=
  if decide (a = pk_refused t) then (Ready (inl no_route), t)
  else (Ready (inr (Z.of_nat (length d))), mkPickyLog (pk_refused t) (pk_sent t ++ [(d, a)])).

Global Instance PickyLog_socket : AsyncSocket PickyLog := { poll_send_to := picky_send }.

Definition sample_from : SocketAddr := V4 2130706433 19132.
Definition sample_to : SocketAddr := V4 2130706433 50000.

Definition sample_recv : list recv_answer :=
  [Ready (inr ([5; 1], sample_to)); Pending; Ready (inl no_route);
   Ready (inr (UPacket_write (BC:=bytes_reference) (UAlreadyConnected 7) [], sample_to))].

Lemma Framed_delivers_witness :
  ∃ out s' used up', polls (Framed_poll_next (B:=true) (BC:=bytes_reference)) 4
      (Framed_new (mkOpenLog []) 1400) (sample_recv) = Ok (out, s', up') ∧
    sample_recv = used ++ up' ∧
    feed_items out = decoded (B:=true) (BC:=bytes_reference) used ∧ (Ready None ∉ out) ∧
    ((length sample_recv ≤ 4)%nat → up' = []).
Proof.
  apply (Framed_delivers (B:=true) (BC:=bytes_reference) 4 sample_recv (mkOpenLog []) 1400).
  repeat constructor; cbn; by vm_compute.
Defined.

Definition sample_packets : list (Packet * SocketAddr) :=
  [(PConnected (CAck (mkAckOrNack [Range 0 2; Single 7])), sample_to);
   (PUnconnected (UAlreadyConnected 7), sample_from)].

Lemma Framed_transfers_witness :
  ∃ s, send_all (Sink0:=Framed_sink (B:=true) (BC:=bytes_reference)) sample_packets
      (Framed_new (mkOpenLog []) 1400) = Ok (Ready (inr tt), s) ∧
    fr_flushed s = true ∧ snd <$> sock_sent (fr_socket s) = snd <$> sample_packets ∧
    ∃ s', polls (Framed_poll_next (B:=true) (BC:=bytes_reference)) (length sample_packets)
        (Framed_new (mkOpenLog []) 1400) (arrive sample_from (sock_sent (fr_socket s))) =
      Ok ((λ x, Ready (Some (x.1, sample_from))) <$> sample_packets, s', []).
Proof.
  apply (Framed_transfers (B:=true) (BC:=bytes_reference)); [done|].
  repeat constructor; cbn; by vm_compute.
Defined.
