(* ===== verification/ServerOffline.v ===== *)
(** * The offline handshake of the server (src/server/handler/offline.rs)

    [OfflineHandler] answers pings and the two open-connection requests of a
    client, and lets connected packets pass once their sender has completed both.
    It is shown to implement a session table without sending states, to admit no
    packet of a peer that has not completed the handshake, and to bound what a
    peer can make it keep. *)
From S2P Require Import Prelude Bytes Errors Types PackType Unconnected AckNack FrameSet Packet.
From S2P Require Import Stream Sink Collections Framed.
Open Scope Z_scope.

Record OfflineConfig := mkOfflineConfig {
  oc_sever_guid : Z;
  oc_advertisement : list Z;
  oc_min_mtu : Z;
  oc_max_mtu : Z;
  oc_support_version : list Z;
  oc_max_pending : Z;
}.

Inductive OfflineState :=
| Listening
| SendingPrepare (pack : option (UPacket * SocketAddr))
| SendingFlush.

(** ** The standard library *)

(** [slice::binary_search]: halve the range [left .. left + size). *)
Fixpoint binary_search_loop (fuel : nat) (l : list Z) (x : Z) (left size : nat) : bool :=
  match fuel with
  | O => false
  | S fuel =>
      if decide (size = 0)%nat then false
      else
        let mid := (left + size / 2)%nat in
        match l !! mid with
        | None => false
        | Some y =>
            if y =? x then true
            else if y <? x then binary_search_loop fuel l x (S mid) (left + size - S mid)
            else binary_search_loop fuel l x left (mid - left)
        end
  end.

(** [binary_search(x).is_ok()] *)
Definition binary_search (l : list Z) (x : Z) : bool := binary_search_loop (S (length l)) l x 0 (length l).

(** [Ord::clamp] asserts that its bounds are ordered. *)
Definition clamp {E} (x lo hi : Z) : outcome E Z :=
  assert_ (lo <=? hi);;
  mret (if x <? lo then lo else if hi <? x then hi else x).

Section offline.
Context {LC : LruCrate}.

Record OfflineHandler (F : Type) := mkOfflineHandler {
  oh_frame : F;
  oh_config : OfflineConfig;
  oh_pending : lru SocketAddr Z;
  oh_connected : gmap SocketAddr Peer;
  oh_state : OfflineState;
  oh_role : Role;
}.
Global Arguments mkOfflineHandler {F} _ _ _ _ _ _.
Global Arguments oh_frame {F} _.
Global Arguments oh_config {F} _.
Global Arguments oh_pending {F} _.
Global Arguments oh_connected {F} _.
Global Arguments oh_state {F} _.
Global Arguments oh_role {F} _.

Section handler.
Context {F : Type}.
Implicit Types s : OfflineHandler F.

Definition OfflineHandler_new {E} (frame : F) (config : OfflineConfig) : outcome E (OfflineHandler F) :=
  assert_ (negb (oc_max_pending config =? 0));;
  mret (mkOfflineHandler frame config (lru_new (Z.to_nat (oc_max_pending config))) ∅ Listening
    (Server (oc_sever_guid config))).

Definition set_oh_state (frame : F) (st : OfflineState) s : OfflineHandler F :=
  mkOfflineHandler frame (oh_config s) (oh_pending s) (oh_connected s) st (oh_role s).

Definition set_sessions (p : lru SocketAddr Z) (c : gmap SocketAddr Peer) s : OfflineHandler F :=
  mkOfflineHandler (oh_frame s) (oh_config s) p c (oh_state s) (oh_role s).

Definition disconnect (addr : SocketAddr) s : OfflineHandler F :=
  set_sessions (lru_pop addr (oh_pending s)).2 (delete addr (oh_connected s)) s.

Definition make_incompatible_version {E} (config : OfflineConfig) : outcome E UPacket :=
  match last (oc_support_version config) with
  | Some v => mret (UIncompatibleProtocol v (oc_sever_guid config))
  | None => Panic
  end.

Definition make_already_connected (config : OfflineConfig) : UPacket := UAlreadyConnected (oc_sever_guid config).

Definition make_connection_request_failed (config : OfflineConfig) : UPacket :=
  UConnectionRequestFailed (oc_sever_guid config).

(** [*this.state = OfflineState::SendingPrepare(Some((pack, addr)))] *)
Definition prepare (pack : UPacket) (addr : SocketAddr) s : OfflineHandler F :=
  set_oh_state (oh_frame s) (SendingPrepare (Some (pack, addr))) s.

(** The arms of [match pack] for an unconnected packet. *)
Definition handle_unconnected {E} (pack : UPacket) (addr : SocketAddr) s : outcome E (OfflineHandler F) :=
  let config := oh_config s in
  match pack with
  | UUnconnectedPing send_timestamp _ =>
      mret (prepare (UUnconnectedPong send_timestamp (oc_sever_guid config) (oc_advertisement config)) addr s)
  | UOpenConnectionRequest1 protocol_version mtu =>
      if negb (binary_search (oc_support_version config) protocol_version) then
        resp ← make_incompatible_version config;
        mret (prepare resp addr s)
      else
        let s := set_sessions (lru_put addr protocol_version (oh_pending s)).2 (oh_connected s) s in
        final_mtu ← clamp mtu (oc_min_mtu config) (oc_max_mtu config);
        mret (prepare (UOpenConnectionReply1 (oc_sever_guid config) false final_mtu) addr s)
  | UOpenConnectionRequest2 _ mtu guid =>
      let '(o, p) := lru_pop addr (oh_pending s) in
      let s := set_sessions p (oh_connected s) s in
      match o with
      | None => resp ← make_incompatible_version config; mret (prepare resp addr s)
      | Some _ =>
          if (mtu <? oc_min_mtu config) || (oc_max_mtu config <? mtu)
             || bool_decide (is_Some (oh_connected s !! addr)) then
            mret (prepare (make_already_connected config) addr s)
          else
            let s := set_sessions (oh_pending s) (<[addr := mkPeer guid addr mtu]> (oh_connected s)) s in
            mret (prepare (UOpenConnectionReply2 (oc_sever_guid config) addr mtu false) addr s)
      end
  | _ => mret s
  end.

(** A packet of the socket: passed on, or answered. *)
Definition handle_packet {E} (packet : Packet) (addr : SocketAddr) s :
    outcome E (option (CPacket * Peer) * OfflineHandler F) :=
  match packet with
  | PConnected pack =>
      match oh_connected s !! addr with
      | Some peer => mret (Some (pack, peer), s)
      | None => mret (None, prepare (make_connection_request_failed (oh_config s)) addr s)
      end
  | PUnconnected pack => s ← handle_unconnected pack addr s; mret (None, s)
  end.

Context `{!Sink F (UPacket * SocketAddr)}.

(** [SendingFlush]: [true] when the handler goes on to read. *)
Definition drive_flush s : outcome spinning (bool * OfflineHandler F) :=
  '(r, f) ← poll_flush (A:=UPacket * SocketAddr) (oh_frame s);
  match r with
  | Pending => mret (false, set_oh_state f SendingFlush s)
  | Ready _ => mret (true, set_oh_state f Listening s)
  end.

(** The rounds of the loop that finish a reply. *)
Definition drive_send s : outcome spinning (bool * OfflineHandler F) :=
  match oh_state s with
  | Listening => mret (true, s)
  | SendingPrepare pack =>
      '(r, f) ← poll_ready (A:=UPacket * SocketAddr) (oh_frame s);
      match r with
      | Pending => mret (false, set_oh_state f (oh_state s) s)
      | Ready (inl _) => mret (true, set_oh_state f Listening s)
      | Ready (inr _) =>
          match pack with
          | None => Panic
          | Some item =>
              '(r, f) ← start_send item f;
              match r with
              | inl _ => mret (true, set_oh_state f Listening s)
              | inr _ => drive_flush (set_oh_state f SendingFlush s)
              end
          end
      end
  | SendingFlush => drive_flush s
  end.

(** [poll_next] over the tape of the packets that the frame below gives. *)
Fixpoint offline_loop (up : list (item_answer (Packet * SocketAddr))) s :
    outcome spinning (item_answer (CPacket * Peer) * OfflineHandler F * list (item_answer (Packet * SocketAddr))) :=
  '(listening, s) ← drive_send s;
  if negb listening then mret (Pending, s, up)
  else
    match up with
    | [] => mret (Pending, s, [])
    | Pending :: up => mret (Pending, s, up)
    | Ready None :: up => mret (Ready None, s, up)
    | Ready (Some (packet, addr)) :: up =>
        '(o, s) ← handle_packet packet addr s;
        match o with
        | Some x => mret (Ready (Some x), s, up)
        | None => offline_loop up s
        end
    end.

Definition Offline_poll_next :
    layer_of spinning (OfflineHandler F) (item_answer (Packet * SocketAddr)) (item_answer (CPacket * Peer)) :=
  λ s up, offline_loop up s.
End handler.
End offline.

(** ** The search *)

Lemma sorted_lookup_le l i j y z :
  StronglySorted Z.le l → (i < j)%nat → l !! i = Some y → l !! j = Some z → y ≤ z.
Proof.
  intros Hs Hij Hi Hj. rewrite <-(take_drop j l) in Hs.
  eapply StronglySorted_app_1_elem_of; [exact Hs| |].
  - apply list_elem_of_lookup. exists i. by rewrite lookup_take_lt.
  - apply list_elem_of_lookup. exists 0%nat. by rewrite lookup_drop, Nat.add_0_r.
Qed.

Lemma binary_search_loop_spec fuel l x left size :
  StronglySorted Z.le l → (left + size ≤ length l)%nat → (size < fuel)%nat →
  binary_search_loop fuel l x left size = true ↔ ∃ i, (left ≤ i < left + size)%nat ∧ l !! i = Some x.
Proof.
  intros Hs. revert left size. induction fuel as [|fuel IH]; intros left size Hl Hf; [lia|].
  cbn [binary_search_loop]. case_decide as Hz; [split; [done|intros (i & ? & _); lia]|].
  assert (size / 2 < size)%nat as Hhalf by (apply Nat.div_lt; lia).
  set (mid := (left + size / 2)%nat). destruct (lookup_lt_is_Some_2 l mid) as [y Hy]; [unfold mid; lia|].
  rewrite Hy. destruct (Z.eqb_spec y x) as [->|Hne].
  { split; [|done]. intros _. exists mid. unfold mid in *. split; [lia|done]. }
  destruct (Z.ltb_spec y x) as [Hlt|Hge]; rewrite IH by (unfold mid; lia); split; intros (i & Hi & Hx); exists i.
  - split; [unfold mid in *; lia|done].
  - split; [|done]. destruct (decide (i < S mid)%nat) as [H|H]; [|unfold mid in *; lia].
    destruct (decide (i = mid)) as [->|]; [congruence|].
    assert (x ≤ y) by (apply (sorted_lookup_le l i mid x y); [done|lia|done|done]). lia.
  - split; [unfold mid in *; lia|done].
  - split; [|done]. destruct (decide (i < mid)%nat) as [H|H]; [unfold mid in *; lia|].
    destruct (decide (i = mid)) as [->|]; [congruence|].
    assert (y ≤ x) by (apply (sorted_lookup_le l mid i y x); [done|lia|done|done]). lia.
Qed.

Lemma binary_search_spec l x : StronglySorted Z.le l → binary_search l x = bool_decide (x ∈ l).
Proof.
  intros Hs. apply eq_true_iff_eq. rewrite bool_decide_eq_true.
  unfold binary_search. rewrite binary_search_loop_spec by (done || lia). rewrite list_elem_of_lookup.
  split; [intros (i & _ & ?); by exists i|]. intros [i Hi]. exists i. split; [|done].
  apply lookup_lt_Some in Hi. lia.
Qed.

(** ** What the handler was sent *)

Abbreviation offline_tape := (list (item_answer (Packet * SocketAddr))).

Section admission.
Context (config : OfflineConfig).

(** The first request with a version that the server supports. *)
Definition requested (past : offline_tape) (a : SocketAddr) : Prop :=
  ∃ v mtu, v ∈ oc_support_version config ∧
    Ready (Some (PUnconnected (UOpenConnectionRequest1 v mtu), a)) ∈ past.

(** Both requests, in order, the second one with the guid and an acceptable mtu. *)
Definition admitted (past : offline_tape) (peer : Peer) : Prop :=
  oc_min_mtu config ≤ peer_mtu peer ≤ oc_max_mtu config ∧
  ∃ u1 u2 server, requested u1 (peer_addr peer) ∧
    past = u1 ++ Ready (Some (PUnconnected (UOpenConnectionRequest2 server (peer_mtu peer) (peer_guid peer)),
      peer_addr peer)) :: u2.

Lemma requested_app u v a : requested u a → requested (u ++ v) a.
Proof. intros (x & m & ? & ?). exists x, m. rewrite elem_of_app. auto. Qed.

Lemma admitted_app u v p : admitted u p → admitted (u ++ v) p.
Proof.
  intros (Hm & u1 & u2 & a & Hr & ->). split; [done|]. exists u1, (u2 ++ v), a. split; [done|]. by rewrite <-app_assoc.
Qed.

Definition config_ok : Prop :=
  StronglySorted Z.le (oc_support_version config) ∧ oc_support_version config ≠ [] ∧
  oc_min_mtu config ≤ oc_max_mtu config ∧ 0 < oc_max_pending config.

Context {LC : LruCrate} {F : Type}.

Record offline_inv (past : offline_tape) (s : OfflineHandler F) : Prop := {
  oi_config : oh_config s = config;
  oi_pending : Forall (λ e, requested past e.1) (lru_list (oh_pending s));
  oi_cap : lru_cap (oh_pending s) = Z.to_nat (oc_max_pending config);
  oi_wf : lru_wf (Z.to_nat (oc_max_pending config)) (lru_list (oh_pending s));
  oi_connected : map_Forall (λ a p, peer_addr p = a ∧ admitted past p) (oh_connected s);
  oi_prepared : oh_state s ≠ SendingPrepare None;
}.

Lemma offline_inv_app past more s : offline_inv past s → offline_inv (past ++ more) s.
Proof.
  intros []. split; try done.
  - eapply Forall_impl; [done|]. intros e. apply requested_app.
  - intros a p Hp. destruct (oi_connected0 a p Hp). split; [done|by apply admitted_app].
Qed.

Lemma offline_inv_state past s f st :
  st ≠ SendingPrepare None → offline_inv past s → offline_inv past (set_oh_state f st s).
Proof. intros Hst []. by split. Qed.

Lemma disconnect_inv past a s : offline_inv past s → offline_inv past (disconnect a s).
Proof.
  intros []. unfold disconnect. destruct (lru_pop_spec a (oh_pending s)) as (_ & Hl & Hc).
  split; cbn; rewrite ?Hl, ?Hc; try done.
  - rewrite Forall_forall in *. intros e He%alist_del_elem. auto.
  - by apply lru_del_wf.
  - intros b p [_ Hp]%lookup_delete_Some. by apply oi_connected0.
Qed.

Lemma prepare_inv past s pack a : offline_inv past s → offline_inv past (prepare pack a s).
Proof. by apply offline_inv_state. Qed.

(** A request that is taken into the cache of half-open connections. *)
Lemma put_inv past s a v :
  0 < oc_max_pending config → requested past a → offline_inv past s →
  offline_inv past (set_sessions (lru_put a v (oh_pending s)).2 (oh_connected s) s).
Proof.
  intros Hp Hr []. destruct (lru_put_spec a v (oh_pending s)) as (_ & Hl & Hc).
  split; cbn; rewrite ?Hl, ?Hc; try done.
  - rewrite Forall_forall in *. intros e [->|He]%lru_touch_elem; auto.
  - rewrite oi_cap0. apply lru_touch_wf; [lia|done].
Qed.

Lemma pop_inv past s a :
  offline_inv past s → offline_inv past (set_sessions (lru_pop a (oh_pending s)).2 (oh_connected s) s).
Proof.
  intros []. destruct (lru_pop_spec a (oh_pending s)) as (_ & Hl & Hc).
  split; cbn; rewrite ?Hl, ?Hc; try done.
  - rewrite Forall_forall in *. intros e He%alist_del_elem. auto.
  - by apply lru_del_wf.
Qed.

Lemma admit_inv past s a p :
  peer_addr p = a → admitted past p → offline_inv past s →
  offline_inv past (set_sessions (oh_pending s) (<[a := p]> (oh_connected s)) s).
Proof. intros Ha Hp []. split; cbn; try done. by apply map_Forall_insert_2. Qed.

Context (Hok : config_ok).

Lemma make_incompatible_Ok {E} : ∃ p, make_incompatible_version (E:=E) config = Ok p.
Proof.
  destruct Hok as (_ & Hne & _). unfold make_incompatible_version.
  destruct (last (oc_support_version config)) eqn:Hl; [by eexists|]. by apply last_None in Hl.
Qed.

Lemma clamp_Ok {E} x : ∃ y, clamp (E:=E) x (oc_min_mtu config) (oc_max_mtu config) = Ok y.
Proof.
  destruct Hok as (_ & _ & Hle & _). unfold clamp. rewrite (proj2 (Z.leb_le _ _)) by done. by eexists.
Qed.

Lemma handle_unconnected_inv {E} past pack a s :
  offline_inv past s →
  ∃ s', handle_unconnected (E:=E) pack a s = Ok s' ∧
    offline_inv (past ++ [Ready (Some (PUnconnected pack, a))]) s'.
Proof.
  intros Hi. pose proof Hok as (Hsort & _ & _ & Hpend). pose proof (oi_config _ _ Hi) as Hc.
  destruct (make_incompatible_Ok (E:=E)) as [ip Hip].
  assert (∀ q, offline_inv (past ++ [q]) s) as Hi' by (intros; by apply offline_inv_app).
  destruct pack; cbn [handle_unconnected]; rewrite ?Hc, ?Hip; try (eexists; split; [done|]; auto using prepare_inv; done).
  - rewrite binary_search_spec by done. case_bool_decide as Hv; cbn [negb].
    + destruct (clamp_Ok (E:=E) mtu) as [m Hm]. rewrite Hm. eexists. split; [done|].
      apply prepare_inv, put_inv; [done| |done]. exists protocol_version, mtu. split; [done|]. set_solver.
    + eexists. split; [done|]. by apply prepare_inv.
  - destruct (lru_pop a (oh_pending s)) as [o p] eqn:Hpop.
    pose proof (lru_pop_spec a (oh_pending s)) as (Ho & _). rewrite Hpop in Ho. cbn in Ho.
    assert (∀ q, offline_inv (past ++ [q]) (set_sessions p (oh_connected s) s)) as Hi2.
    { intros q. replace p with (lru_pop a (oh_pending s)).2 by (by rewrite Hpop). by apply pop_inv. }
    destruct o as [v|]; [|eexists; split; [done|]; by apply prepare_inv]. symmetry in Ho.
    apply alist_get_Some_elem in Ho.
    assert (requested past a) as Hreq.
    { pose proof (oi_pending _ _ Hi) as Hp. rewrite Forall_forall in Hp. apply (Hp _ Ho). }
    destruct (Z.ltb_spec mtu (oc_min_mtu config)), (Z.ltb_spec (oc_max_mtu config) mtu);
      cbn [orb]; try (eexists; split; [done|]; by apply prepare_inv).
    case_bool_decide; (eexists; split; [done|]); [by apply prepare_inv|].
    apply prepare_inv, (admit_inv _ (set_sessions p (oh_connected s) s)); [done| |done].
    split; [cbn; lia|]. by exists past, [], server_address.
Qed.

Lemma handle_packet_inv {E} past packet a s :
  offline_inv past s →
  ∃ o s', handle_packet (E:=E) packet a s = Ok (o, s') ∧
    offline_inv (past ++ [Ready (Some (packet, a))]) s' ∧
    ∀ x, o = Some x → admitted past x.2 ∧ packet = PConnected x.1 ∧ a = peer_addr x.2.
Proof.
  intros Hi. destruct packet as [pack|pack]; cbn [handle_packet].
  - destruct (handle_unconnected_inv (E:=E) past pack a s Hi) as (s' & -> & Hi'). by eexists None, s'.
  - destruct (oh_connected s !! a) as [p|] eqn:Hp.
    + eexists _, s. split; [done|]. split; [by apply offline_inv_app|]. intros x [= <-].
      by destruct (oi_connected _ _ Hi a p Hp) as [<- ?].
    + eexists None, _. split; [done|]. split; [|done]. by apply prepare_inv, offline_inv_app.
Qed.
End admission.

Section admission_any_sink.
Context (config : OfflineConfig) (Hok : config_ok config).
Context {LC : LruCrate} {F : Type} `{!Sink F (UPacket * SocketAddr)}.
Implicit Types s : OfflineHandler F.

(** A call that returns when the calls of the sink below do. *)
Definition offline_post {A} (m : outcome spinning A) (P : A → Prop) : Prop :=
  match m with Ok x => P x | _ => ¬ returning F (UPacket * SocketAddr) end.

Lemma offline_post_bind {A A'} (m : outcome spinning A) (k : A → outcome spinning A') P :
  offline_post m (λ x, offline_post (k x) P) → offline_post (m ≫= k) P.
Proof. by destruct m. Qed.

Lemma drive_flush_inv past s :
  offline_inv config past s → offline_post (drive_flush s) (λ r, offline_inv config past r.2).
Proof.
  intros Hi. apply offline_post_bind. unfold offline_post.
  destruct (poll_flush (A:=UPacket * SocketAddr) (oh_frame s)) as [[[|] f]| |] eqn:H;
    [by apply offline_inv_state|by apply offline_inv_state|intros Hr; destruct (Hr (oh_frame s)) as (_ & _ & [? ?] & _); congruence..].
Qed.

Lemma drive_send_inv past s :
  offline_inv config past s → offline_post (drive_send s) (λ r, offline_inv config past r.2).
Proof.
  intros Hi. unfold drive_send. pose proof (oi_prepared _ _ _ Hi) as Hp.
  destruct (oh_state s) as [|pack|] eqn:Hst; [done| |by apply drive_flush_inv].
  apply offline_post_bind. unfold offline_post at 1.
  destruct (poll_ready (A:=UPacket * SocketAddr) (oh_frame s)) as [[r f]| |] eqn:H;
    [|intros Hr; destruct (Hr (oh_frame s)) as ([? ?] & _); congruence..].
  destruct r as [[e|[]]|]; [by apply offline_inv_state| |apply offline_inv_state; [congruence|done]].
  destruct pack as [item|]; [|done]. apply offline_post_bind. unfold offline_post at 1.
  destruct (start_send item f) as [[[e|[]] f']| |] eqn:Hs;
    [by apply offline_inv_state| |intros Hr; destruct (Hr f) as (_ & Hr' & _); destruct (Hr' item); congruence..].
  by apply drive_flush_inv, offline_inv_state.
Qed.

(** One poll, whatever the sink below answers. *)
Definition polled (past up : offline_tape) (r : item_answer (CPacket * Peer) * OfflineHandler F * offline_tape) : Prop :=
  let '(a, s', up') := r in
  ∃ used, up = used ++ up' ∧ offline_inv config (past ++ used) s' ∧
    ∀ pack peer, a = Ready (Some (pack, peer)) → admitted config (past ++ used) peer ∧
      Ready (Some (PConnected pack, peer_addr peer)) ∈ used.

Lemma polled_nothing past s a up used :
  offline_inv config (past ++ used) s → (∀ x, a ≠ Ready (Some x)) → polled past (used ++ up) (a, s, up).
Proof. intros Hi Ha. exists used. split_and!; [done|done|]. intros pack peer ->. by edestruct Ha. Qed.

Lemma offline_loop_inv past up s :
  offline_inv config past s → offline_post (offline_loop up s) (polled past up).
Proof.
  revert past s. induction up as [|x up IH]; intros past s Hi; cbn [offline_loop]; apply offline_post_bind;
    pose proof (drive_send_inv past s Hi) as Hd; unfold offline_post in Hd |- * at 1;
    (destruct (drive_send s) as [[b s1]| |]; [|done..]); cbn in Hd; destruct b; cbn [negb].
  1,2,4: by apply (polled_nothing _ _ _ _ []); [rewrite app_nil_r|].
  destruct x as [[[packet a]|]|];
    [|by apply (polled_nothing _ _ _ _ [_]); [apply offline_inv_app|]..].
  apply offline_post_bind.
  destruct (handle_packet_inv config Hok (E:=spinning) past packet a s1 Hd) as (o & s2 & -> & Hi2 & Ho). cbn.
  destruct o as [[pack peer]|].
  - destruct (Ho _ eq_refl) as (Hadm & -> & ->). exists [Ready (Some (PConnected pack, peer_addr peer))].
    split_and!; [done|done|]. intros ? ? [= <- <-]. split; [by apply admitted_app|]. by constructor.
  - specialize (IH _ s2 Hi2). unfold offline_post in *. destruct (offline_loop up s2) as [[[a' s3] up']| |]; [|done..].
    destruct IH as (used & -> & Hi3 & Hp). exists (Ready (Some (packet, a)) :: used).
    rewrite <-app_assoc in Hi3, Hp. split_and!; [done|done|]. intros pack peer Ha. destruct (Hp pack peer Ha).
    split; [done|]. by right.
Qed.

(** Sessions are only added by polling, and a packet that is passed on is of a session. *)
Lemma drive_send_connected s b s' : drive_send s = Ok (b, s') → oh_connected s' = oh_connected s.
Proof.
  assert (∀ s b s', drive_flush s = Ok (b, s') → oh_connected s' = oh_connected s) as Hf.
  { intros s1 b1 s1' H. unfold drive_flush in H. apply outcome_bind_Ok in H as ([r f] & _ & H).
    destruct r; by injection H as _ <-. }
  unfold drive_send. destruct (oh_state s) as [|pack|]; [by intros [= _ <-]| |apply Hf].
  intros H. apply outcome_bind_Ok in H as ([r f] & _ & H). destruct r as [[e|[]]|]; [by injection H as _ <-| |by injection H as _ <-].
  destruct pack as [item|]; [|done]. apply outcome_bind_Ok in H as ([r' f'] & _ & H).
  destruct r' as [e|[]]; [by injection H as _ <-|]. by apply Hf in H.
Qed.

Lemma handle_packet_connected {E} packet a s o s' :
  handle_packet (E:=E) packet a s = Ok (o, s') →
  oh_connected s ⊆ oh_connected s' ∧ ∀ x, o = Some x → oh_connected s' !! a = Some x.2.
Proof.
  destruct packet as [pack|pack]; cbn [handle_packet].
  2: { destruct (oh_connected s !! a) as [p|] eqn:Hp; intros [= <- <-]; (split; [done|]); [|done]. by intros x [= <-]. }
  intros H. apply outcome_bind_Ok in H as (s1 & H & [= <- <-]). split; [|done].
  destruct pack; cbn -[binary_search clamp make_incompatible_version bool_decide] in H; try by injection H as <-.
  - destruct (negb _); apply outcome_bind_Ok in H as (x & _ & H); by injection H as <-.
  - destruct (lru_pop a (oh_pending s)) as [[v|] p];
      [|apply outcome_bind_Ok in H as (x & _ & H); by injection H as <-].
    destruct (_ || _) eqn:Hcond; injection H as <-; [done|]. cbn in Hcond |- *.
    apply orb_false_iff in Hcond as [_ Hn%bool_decide_eq_false]. apply insert_subseteq.
    destruct (oh_connected s !! a) eqn:Ha; [|done]. exfalso. apply Hn. by eexists.
Qed.

Lemma offline_loop_connected past up s a s' up' :
  offline_inv config past s → offline_loop up s = Ok (a, s', up') →
  oh_connected s ⊆ oh_connected s' ∧
  ∀ pack peer, a = Ready (Some (pack, peer)) →
    oh_connected s' !! peer_addr peer = Some peer ∧ (length up' < length up)%nat.
Proof.
  revert past s. induction up as [|x up IH]; intros past s Hi; cbn [offline_loop]; intros H;
    apply outcome_bind_Ok in H as ([b s1] & Hd & H); pose proof (drive_send_inv past s Hi) as Hi1;
    rewrite Hd in Hi1; cbn in Hi1; apply drive_send_connected in Hd; rewrite <-Hd.
  all: destruct b; cbn [negb] in H; [|by injection H as <- <- <-].
  { by injection H as <- <- <-. }
  destruct x as [[[packet addr]|]|]; [|by injection H as <- <- <-..].
  apply outcome_bind_Ok in H as ([o s2] & Hp & H). pose proof (handle_packet_connected _ _ _ _ _ Hp) as [Hsub Hx].
  destruct (handle_packet_inv config Hok (E:=spinning) past packet addr s1 Hi1) as (o' & s2' & Hp' & Hi2 & Ho).
  rewrite Hp in Hp'. injection Hp' as <- <-.
  destruct o as [[pack peer]|].
  - injection H as <- <- <-. split; [done|]. intros ? ? [= <- <-]. split; [|cbn; lia].
    destruct (Ho _ eq_refl) as (_ & _ & Heq). cbn in Heq. rewrite <-Heq. by apply (Hx (pack, peer)).
  - destruct (IH _ s2 Hi2 H) as [H1 H2]. split; [by etrans|].
    intros pack peer Ha. destruct (H2 pack peer Ha). split; [done|cbn; lia].
Qed.

(** The states of a handler: made, polled on more packets, told of a close.  [past] is
    what was read and [outs] what was passed on, in order. *)
Inductive offline_reaches (f0 : F) : offline_tape → OfflineHandler F → list (CPacket * Peer) → Prop :=
| reaches_new s : OfflineHandler_new (E:=spinning) f0 config = Ok s → offline_reaches f0 [] s []
| reaches_poll past s outs used up' a s' :
    offline_reaches f0 past s outs → Offline_poll_next s (used ++ up') = Ok (a, s', up') →
    offline_reaches f0 (past ++ used) s' (outs ++ feed_items [a])
| reaches_disconnect past s outs addr :
    offline_reaches f0 past s outs → offline_reaches f0 past (disconnect addr s) outs.

Lemma reaches_inv f0 past s outs :
  offline_reaches f0 past s outs →
  offline_inv config past s ∧
  Forall (λ x, admitted config past x.2 ∧ Ready (Some (PConnected x.1, peer_addr x.2)) ∈ past) outs.
Proof.
  induction 1 as [s Hs|past s outs used up' a s' _ [Hi IH] Hpoll|past s outs addr _ [Hi IH]].
  - unfold OfflineHandler_new in Hs. pose proof Hok as (_ & _ & _ & Hp).
    rewrite (proj2 (Z.eqb_neq _ _)) in Hs by lia. injection Hs as <-. split; [|done].
    split; cbn; rewrite ?lru_new_list, ?lru_new_cap; try done. apply lru_wf_nil.
  - pose proof (offline_loop_inv past (used ++ up') s Hi) as H. unfold Offline_poll_next in Hpoll. rewrite Hpoll in H.
    destruct H as (used' & Hu & Hi' & Ha). apply app_inv_tail in Hu as <-. split; [done|].
    apply Forall_app. split.
    + eapply Forall_impl; [exact IH|]. intros x [H1 H2]. split; [by apply admitted_app|]. apply elem_of_app. by left.
    + destruct a as [[[pack peer]|]|]; [|constructor..]. destruct (Ha _ _ eq_refl).
      constructor; [|constructor]. split; [done|]. apply elem_of_app. by right.
  - split; [by apply disconnect_inv|done].
Qed.
End admission_any_sink.

(** C9. Nothing passes without a handshake: in every state that the handler of a
    server reaches, whatever the socket answers, each packet that it has passed on
    came from a peer that before had sent the first request with a supported
    version and then the second request, with the guid and the mtu that the server
    records for it and with the mtu within the limits; the half-open connections
    are at most [max_pending], of peers that sent a first request; and the next
    poll returns when the calls of the socket do. *)
Theorem Offline_admits {LC : LruCrate} {F : Type} `{!Sink F (UPacket * SocketAddr)} config (f0 : F) past s outs :
  config_ok config → offline_reaches config f0 past s outs →
  Forall (λ x, admitted config past x.2 ∧ Ready (Some (PConnected x.1, peer_addr x.2)) ∈ past) outs ∧
  map_Forall (λ a p, peer_addr p = a ∧ admitted config past p) (oh_connected s) ∧
  Forall (λ e, requested config past e.1) (lru_list (oh_pending s)) ∧
  Z.of_nat (length (lru_list (oh_pending s))) ≤ oc_max_pending config ∧
  ∀ up, returning F (UPacket * SocketAddr) → ∃ r, Offline_poll_next s up = Ok r.
Proof.
  intros Hok Hr. destruct (reaches_inv config Hok f0 past s outs Hr) as [Hi Ho].
  pose proof Hi as []. destruct oi_wf0 as [_ Hlen]. pose proof Hok as (_ & _ & _ & Hp).
  split_and!; [done..|lia|]. intros up Hret.
  pose proof (offline_loop_inv config Hok past up s Hi) as H. unfold offline_post in H. unfold Offline_poll_next.
  destruct (offline_loop up s); [by eexists|done..].
Qed.

(** ** The handler over a sink that is ready *)

(** The handler without its frame: the replies and the packets passed on for what
    was read, one after the other. *)
Section reference.
Context {LC : LruCrate}.

Definition prepared {F} (s : OfflineHandler F) : list (UPacket * SocketAddr) :=
  match oh_state s with SendingPrepare (Some x) => [x] | _ => [] end.

Fixpoint serve (past : offline_tape) (s : OfflineHandler unit) :
    outcome spinning (list (UPacket * SocketAddr) * list (CPacket * Peer) * OfflineHandler unit) :=
  match past with
  | [] => mret ([], [], s)
  | Ready (Some (packet, a)) :: past =>
      '(o, s) ← handle_packet packet a s;
      '(replies, outs, s') ← serve past (set_oh_state tt Listening s);
      mret (prepared s ++ replies, option_list o ++ outs, s')
  | _ :: past => serve past s
  end.

Definition unframed {F} (s : OfflineHandler F) : OfflineHandler unit :=
  mkOfflineHandler tt (oh_config s) (oh_pending s) (oh_connected s) (oh_state s) (oh_role s).

(** A packet is handled without the frame. *)
Lemma handle_packet_frame {F} packet a (s : OfflineHandler F) :
  match handle_packet (E:=spinning) packet a s with
  | Ok (o, s') => handle_packet (E:=spinning) packet a (unframed s) = Ok (o, unframed s') ∧
      oh_frame s' = oh_frame s ∧
      (oh_state s = Listening → oh_state s' = Listening ∨ ∃ x, o = None ∧ oh_state s' = SendingPrepare (Some x))
  | Err e => handle_packet (E:=spinning) packet a (unframed s) = Err e
  | Panic => handle_packet (E:=spinning) packet a (unframed s) = Panic
  end.
Proof.
  destruct packet as [pack|pack]; cbn [handle_packet].
  2: { cbn. destruct (oh_connected s !! a); split_and!; try done; eauto. }
  destruct pack; cbn -[binary_search clamp make_incompatible_version bool_decide]; try (split_and!; [done|done|eauto]; done).
  - destruct (binary_search (oc_support_version (oh_config s)) protocol_version); cbn [negb].
    + destruct (clamp mtu (oc_min_mtu (oh_config s)) (oc_max_mtu (oh_config s))); cbn; try done; split_and!; try done; eauto.
    + destruct (make_incompatible_version (oh_config s)); cbn; try done; split_and!; try done; eauto.
  - destruct (lru_pop a (oh_pending s)) as [[v|] p]; cbn -[bool_decide make_incompatible_version].
    + destruct (_ || _); cbn; split_and!; try done; eauto.
    + destruct (make_incompatible_version (oh_config s)); cbn; try done; split_and!; try done; eauto.
Qed.

Context {F : Type} `{!Sink F (UPacket * SocketAddr)} `{!ReadySink F (UPacket * SocketAddr)}.
Context (config : OfflineConfig) (Hok : config_ok config) (Hsend : ∀ x : UPacket * SocketAddr, sendable x).

Lemma drive_send_ready h (s : OfflineHandler F) :
  taken h (oh_frame s) → oh_state s = Listening ∨ (∃ x, oh_state s = SendingPrepare (Some x)) →
  ∃ f, drive_send s = Ok (true, set_oh_state f Listening s) ∧ taken (h ++ prepared s) f.
Proof.
  intros Ht Hst. unfold drive_send, prepared. destruct Hst as [Hst|[x Hst]]; rewrite Hst.
  - exists (oh_frame s). rewrite app_nil_r. split; [|done]. destruct s. cbn in Hst. by subst.
  - destruct (poll_ready_free h (oh_frame s) Ht) as (f1 & H1 & Hf).
    destruct (start_send_taken h f1 x Hf (Hsend x)) as (f2 & H2 & Ht2).
    destruct (poll_flush_taken _ f2 Ht2) as (f3 & H3 & Ht3).
    exists f3. rewrite H1. cbn. rewrite H2. cbn. unfold drive_flush. cbn. rewrite H3. by cbn.
Qed.

(** Where a poll may start: listening, or with a reply to send. *)
Definition resting (s : OfflineHandler F) : Prop :=
  oh_state s = Listening ∨ ∃ x, oh_state s = SendingPrepare (Some x).

Lemma offline_loop_serves h past up (s : OfflineHandler F) :
  offline_inv config past s → taken h (oh_frame s) → resting s →
  ∃ a s' used up' replies, offline_loop up s = Ok (a, s', up') ∧ up = used ++ up' ∧
    offline_inv config (past ++ used) s' ∧ oh_state s' = Listening ∧
    serve used (set_oh_state tt Listening (unframed s)) = Ok (replies, feed_items [a], unframed s') ∧
    taken (h ++ prepared s ++ replies) (oh_frame s') ∧ (length up' ≤ length up - 1)%nat.
Proof.
  revert h past s. induction up as [|x up IH]; intros h past s Hi Ht Hr; cbn [offline_loop].
  all: destruct (drive_send_ready h s Ht Hr) as (f & -> & Ht'); cbn [mbind outcome_bind negb].
  all: set (s1 := set_oh_state f Listening s).
  all: assert (offline_inv config past s1) as Hi1 by (by apply offline_inv_state).
  - exists Pending, s1, [], [], []. rewrite !app_nil_r. split_and!; done.
  - destruct x as [[[packet a]|]|].
    2,3: eexists _, s1, [_], up, []; rewrite !app_nil_r; split_and!; try done;
      [by apply offline_inv_app|cbn; lia].
    pose proof (handle_packet_frame packet a s1) as Hf.
    destruct (handle_packet_inv config Hok (E:=spinning) past packet a s1 Hi1) as (o & s2 & Hp & Hi2 & Ho).
    rewrite Hp in Hf |- *. destruct Hf as (Hu & Hfr & Hst2). cbn [mbind outcome_bind].
    change (set_oh_state tt Listening (unframed s)) with (unframed s1).
    destruct o as [x|].
    + destruct (Hst2 eq_refl) as [Hst|(? & ? & _)]; [|done].
      exists (Ready (Some x)), s2, [Ready (Some (packet, a))], up, []. cbn [serve mbind outcome_bind]. rewrite Hu. cbn -[unframed].
      unfold prepared. cbn. rewrite Hst, !app_nil_r, Hfr. split_and!; try done; [|lia].
      destruct s2. cbn in Hst. by subst.
    + assert (resting s2) as Hr2. { destruct (Hst2 eq_refl) as [?|(? & _ & ?)]; [by left|right; eauto]. }
      destruct (IH (h ++ prepared s) _ s2 Hi2) as (b & s3 & used & up' & replies & -> & -> & H1 & H2 & H3 & H4 & H5);
        [by rewrite Hfr|done|].
      exists b, s3, (Ready (Some (packet, a)) :: used), up', (prepared s2 ++ replies).
      rewrite <-app_assoc in H1, H4. split_and!; try done.
      * cbn [serve mbind outcome_bind]. rewrite Hu. cbn [mbind outcome_bind]. rewrite H3. cbn.
        by unfold prepared.
      * cbn in *. lia.
Qed.

Lemma serve_app u v s r o s1 :
  serve u s = Ok (r, o, s1) →
  serve (u ++ v) s = ('(r', o', s2) ← serve v s1; mret (r ++ r', o ++ o', s2)).
Proof.
  revert s r o. induction u as [|x u IH]; intros s r o H; cbn in H.
  { injection H as <- <- <-. cbn. by destruct (serve v s) as [[[]]| |]. }
  destruct x as [[[packet a]|]|]; cbn [app serve]; [|by apply IH..].
  destruct (handle_packet packet a s) as [[o1 s2]| |]; [|done..]. cbn in H |- *.
  destruct (serve u _) as [[[r2 o2] s3]| |] eqn:Hs; [|done..]. cbn in H. injection H as <- <- <-.
  rewrite (IH _ _ _ Hs). destruct (serve v s3) as [[[]]| |]; cbn; by rewrite <-?app_assoc.
Qed.

(** What some polls have done. *)
Definition served (s : OfflineHandler F) (used : offline_tape) (out : list (item_answer (CPacket * Peer)))
    (s' : OfflineHandler F) : Prop :=
  ∃ replies, serve used (unframed s) = Ok (replies, feed_items out, unframed s') ∧
    ∀ h, taken h (oh_frame s) → taken (h ++ replies) (oh_frame s').

Definition servable (s : OfflineHandler F) : Prop :=
  (∃ past, offline_inv config past s) ∧ oh_state s = Listening ∧ ∃ h, taken h (oh_frame s).

Lemma offline_poll_served s up :
  servable s → ∃ a s' used up', Offline_poll_next s up = Ok (a, s', up') ∧ up = used ++ up' ∧
    served s used [a] s' ∧ servable s' ∧ (length up' ≤ length up - 1)%nat.
Proof.
  intros ((past & Hi) & Hst & h & Ht).
  assert (set_oh_state tt Listening (unframed s) = unframed s) as Hu by (destruct s; cbn in *; by subst).
  assert (prepared s = []) as Hp by (unfold prepared; by rewrite Hst).
  destruct (offline_loop_serves h past up s Hi Ht (or_introl Hst))
    as (a & s' & used & up' & replies & H1 & H2 & H3 & H4 & H5 & H6 & H7).
  rewrite Hu in H5. rewrite Hp in H6. cbn in H6.
  exists a, s', used, up'. split_and!; try done; [|split_and!; eauto].
  exists replies. split; [done|]. intros h' Ht'.
  destruct (offline_loop_serves h' past up s Hi Ht' (or_introl Hst))
    as (a2 & s2 & used2 & up2 & replies2 & H1' & H2' & _ & _ & H5' & H6' & _).
  rewrite H1 in H1'. injection H1' as <- <- <-. rewrite H2 in H2'. apply app_inv_tail in H2' as <-.
  rewrite Hu, H5 in H5'. injection H5' as <-. by rewrite Hp in H6'.
Qed.

Lemma Offline_polls_served n s up :
  servable s → ∃ out s' used up', polls Offline_poll_next n s up = Ok (out, s', up') ∧ up = used ++ up' ∧
    served s used out s' ∧ servable s' ∧ ((length up ≤ n)%nat → up' = []).
Proof.
  intros Hs. destruct (polls_ind Offline_poll_next served (λ _, servable)) with n s up
    as (out & s' & used & up' & H1 & H2 & _ & H3 & H4 & H5); try done.
  - intros st. exists []. split; [done|]. intros h. by rewrite app_nil_r.
  - intros st u a st' u' out st'' (r1 & Hs1 & Ht1) (r2 & Hs2 & Ht2). exists (r1 ++ r2). split.
    + rewrite (serve_app _ _ _ _ _ _ Hs1), Hs2. cbn. by destruct a as [[]|].
    + intros h Hh. rewrite app_assoc. auto.
  - intros st up1 Hst. by apply offline_poll_served.
  - exists out, s', used, up'. split_and!; try done. intros Hn. apply nil_length_inv. lia.
Qed.
End reference.

(** C15. The handler answers everything: over a socket that is ready, any number of
    polls sends, in order, the reply of every request that was read, each once,
    and passes on exactly the packets of the connected peers; the replies, the
    packets and the sessions are those of the table without sending states. *)
Theorem Offline_serves {LC : LruCrate} {F : Type} `{!Sink F (UPacket * SocketAddr)}
    `{!ReadySink F (UPacket * SocketAddr)} config n (f : F) s up :
  config_ok config → (∀ x : UPacket * SocketAddr, sendable x) → taken [] f →
  OfflineHandler_new (E:=spinning) f config = Ok s →
  ∃ out s' used up' replies, polls Offline_poll_next n s up = Ok (out, s', up') ∧ up = used ++ up' ∧
    serve used (unframed s) = Ok (replies, feed_items out, unframed s') ∧
    taken replies (oh_frame s') ∧ ((length up ≤ n)%nat → up' = []).
Proof.
  intros Hok Hsend Ht Hs.
  destruct (reaches_inv config Hok f [] s []) as [Hi _]; [by constructor|].
  assert (oh_frame s = f ∧ oh_state s = Listening) as [Hf Hst].
  { unfold OfflineHandler_new in Hs. destruct (oc_max_pending config =? 0); [done|]. by injection Hs as <-. }
  destruct (Offline_polls_served config Hok Hsend n s up) as (out & s' & used & up' & H1 & H2 & (r & H3 & H4) & _ & H5).
  { split_and!; [by eexists|done|]. exists []. by rewrite Hf. }
  exists out, s', used, up', r. split_and!; try done. apply (H4 []). by rewrite Hf.
Qed.

(** ** A reply that cannot be sent *)

Section poisoned.
Context {LC : LruCrate} {B : Build} {BC : BytesCrate} {T : Type} `{!AsyncSocket T}.
Context (config : OfflineConfig) (Hok : config_ok config).
Context (d : list Z) (a : SocketAddr) (P : T → Prop) (Href : refuses d a P).
Implicit Types s : OfflineHandler (Framed T).

(** The frame with the datagram, before and after some sends of it that failed. *)
Definition held (f f' : Framed T) : Prop := stuck d a P f' ∧ rtc (refusal d a) (fr_socket f) (fr_socket f').

Lemma held_trans f1 f2 f3 : held f1 f2 → held f2 f3 → held f1 f3.
Proof. intros [_ H1] [? H2]. split; [done|by etrans]. Qed.

Lemma drive_send_stuck s :
  stuck d a P (oh_frame s) →
  ∃ f, drive_send s = Ok (true, set_oh_state f Listening s) ∧ held (oh_frame s) f.
Proof.
  intros Hs. destruct (poll_flush_0_stuck d a P _ Href Hs) as (e & f & Hf & Hs' & Hr).
  unfold drive_send, drive_flush. destruct (oh_state s) eqn:Hst; cbn.
  - exists (oh_frame s). split; [destruct s; cbn in *; by subst|]. by split.
  - exists f. rewrite Hf. split; [done|]. split; [done|by apply rtc_once].
  - exists f. rewrite Hf. split; [done|]. split; [done|by apply rtc_once].
Qed.

Lemma offline_loop_stuck past up s :
  stuck d a P (oh_frame s) → offline_inv config past s →
  ∃ x s' up' past', offline_loop up s = Ok (x, s', up') ∧ held (oh_frame s) (oh_frame s') ∧ offline_inv config past' s'.
Proof.
  revert past s. induction up as [|x up IH]; intros past s Hs Hi; cbn [offline_loop];
    destruct (drive_send_stuck s Hs) as (f & -> & Hh); cbn [mbind outcome_bind negb].
  all: set (s1 := set_oh_state f Listening s).
  all: assert (offline_inv config past s1) as Hi1 by (by apply offline_inv_state).
  { by eexists _, s1, _, past. }
  destruct x as [[[packet b]|]|]; [|by eexists _, s1, _, past..].
  pose proof (handle_packet_frame packet b s1) as Hf.
  destruct (handle_packet_inv config Hok (E:=spinning) past packet b s1 Hi1) as (o & s2 & Hp & Hi2 & _).
  rewrite Hp in Hf |- *. destruct Hf as (_ & Hfr & _). cbn [mbind outcome_bind].
  assert (held (oh_frame s) (oh_frame s2)) as Hh2 by (by rewrite Hfr).
  destruct o as [x|]; [by eexists _, s2, _, _|].
  destruct (IH (past ++ [Ready (Some (packet, b))]) s2) as (y & s3 & up' & past' & H1 & H2 & H3); [by apply Hh2|done|].
  exists y, s3, up', past'. split_and!; [done|by eapply held_trans|done].
Qed.

Lemma Offline_polls_stuck n past s up :
  stuck d a P (oh_frame s) → offline_inv config past s →
  ∃ out s' up', polls Offline_poll_next n s up = Ok (out, s', up') ∧ held (oh_frame s) (oh_frame s').
Proof.
  revert past s up. induction n as [|n IH]; intros past s up Hs Hi; cbn [polls].
  { eexists [], s, up. split; [done|]. by split. }
  destruct (offline_loop_stuck past up s Hs Hi) as (x & s1 & up1 & past1 & H1 & H2 & H3).
  replace (Offline_poll_next s up) with (offline_loop up s) by done. rewrite H1. cbn [mbind outcome_bind].
  destruct (IH past1 s1 up1) as (out & s2 & up2 & -> & H4); [apply H2|done|].
  exists (x :: out), s2, up2. split; [done|]. by eapply held_trans.
Qed.

(** C38. A reply that the socket keeps refusing silences the server: while every
    attempt to send the reply [pack] to [a] ends with an error, whatever else the
    socket would take, the reply stays in the buffer of the frame, the handler
    goes on reading and handling packets, but the only thing that it ever gives to
    the socket is this datagram, so that no reply to anybody else leaves, however
    often the handler is polled and whatever it reads.  (After a passing error the
    next attempt sends the reply and the server goes on,
    [poll_flush_0_recovers].) *)
Theorem Offline_poisoned n past s pack up :
  offline_inv config past s → oh_state s = SendingPrepare (Some (pack, a)) →
  fr_flushed (oh_frame s) = true → fr_wr (oh_frame s) = [] →
  UPacket_write pack [] = d → P (fr_socket (oh_frame s)) →
  ∃ out s' up', polls Offline_poll_next (S n) s up = Ok (out, s', up') ∧ length out = S n ∧
    stuck d a P (oh_frame s') ∧
    rtc (refusal d a) (fr_socket (oh_frame s)) (fr_socket (oh_frame s')).
Proof.
  intros Hi Hst Hfl Hwr Hd Ht.
  set (f := set_wr (fr_socket (oh_frame s)) d a false (oh_frame s)).
  assert (stuck d a P f) as Hs by done.
  set (s0 := set_oh_state f SendingFlush s).
  assert (offline_inv config past s0) as Hi0 by (by apply offline_inv_state).
  assert (∀ up, offline_loop up s = offline_loop up s0) as Heq.
  { intros up1. assert (drive_send s = drive_send s0) as Hds.
    { assert (poll_ready (A:=UPacket * SocketAddr) (oh_frame s) = Ok (Ready (inr tt), oh_frame s)) as H1
        by (cbn; unfold poll_flush_0; by rewrite Hfl).
      assert (start_send (pack, a) (oh_frame s) = Ok (inr tt, f)) as H2
        by (unfold f; rewrite <-Hd; cbn; unfold Framed_start_send_unconnected; by rewrite Hwr).
      unfold drive_send at 1. rewrite Hst, H1. cbn [mbind outcome_bind]. by rewrite H2. }
    destruct up1; cbn [offline_loop]; by rewrite Hds. }
  destruct (Offline_polls_stuck (S n) past s0 up Hs Hi0) as (out & s' & up' & H1 & [H2 H3]).
  exists out, s', up'. split_and!; [|by eapply polls_length|done|done].
  rewrite <-H1. cbn [polls]. unfold Offline_poll_next. by rewrite Heq.
Qed.
End poisoned.

(** ** Witnesses *)

Definition sample_offline_config : OfflineConfig := mkOfflineConfig 7 [77; 67] 510 1500 [9; 11; 13] 2.

Lemma sample_offline_config_ok : config_ok sample_offline_config.
Proof. split_and!; cbn; try done. repeat constructor; cbn; lia. Defined.

(** A handshake of one client, a packet of it, and a packet of a stranger. *)
Definition sample_handshake : offline_tape :=
  [Ready (Some (PUnconnected (UOpenConnectionRequest1 9 2000), sample_to));
   Ready (Some (PUnconnected (UOpenConnectionRequest2 sample_from 1500 42), sample_to));
   Ready (Some (PConnected (CAck (mkAckOrNack [Single 1])), sample_from));
   Ready (Some (PConnected (CAck (mkAckOrNack [Single 0])), sample_to))].

Abbreviation SampleServer := (OfflineHandler (LC:=lru_reference) (LogSink (UPacket * SocketAddr))).

Definition sample_server : SampleServer :=
  mkOfflineHandler (LC:=lru_reference) (mkLogSink [] [] 0 0) sample_offline_config
    (lru_new (LruCrate:=lru_reference) 2) ∅ Listening (Server 7).

Lemma Offline_admits_witness :
  ∃ (s : SampleServer) outs, offline_reaches (LC:=lru_reference) sample_offline_config (oh_frame (LC:=lru_reference) sample_server) sample_handshake s outs ∧
    outs = [(CAck (mkAckOrNack [Single 0]), mkPeer 42 sample_to 1500)] ∧
    Forall (λ x, admitted sample_offline_config sample_handshake x.2 ∧
      Ready (Some (PConnected x.1, peer_addr x.2)) ∈ sample_handshake) outs.
Proof.
  destruct (Offline_poll_next (LC:=lru_reference) sample_server sample_handshake) as [[[a s'] up']| |] eqn:H;
    [|exfalso; vm_compute in H; discriminate..].
  assert (a = Ready (Some (CAck (mkAckOrNack [Single 0]), mkPeer 42 sample_to 1500)) ∧ up' = []) as [-> ->]
    by (vm_compute in H; by injection H as <- _ <-).
  assert (offline_reaches (LC:=lru_reference) sample_offline_config (oh_frame (LC:=lru_reference) sample_server) ([] ++ sample_handshake) s'
    ([] ++ feed_items [Ready (Some (CAck (mkAckOrNack [Single 0]), mkPeer 42 sample_to 1500))])) as Hr.
  { eapply (reaches_poll _ _ _ sample_server _ _ []); [by apply reaches_new|by rewrite app_nil_r]. }
  eexists s', _. split; [exact Hr|]. split; [done|].
  apply (Offline_admits (LC:=lru_reference) sample_offline_config (oh_frame (LC:=lru_reference) sample_server) _ s' _ sample_offline_config_ok Hr).
Defined.

Lemma Offline_serves_witness :
  ∃ out s' used up' replies, polls (Offline_poll_next (LC:=lru_reference)) 4 sample_server sample_handshake = Ok (out, s', up') ∧
    sample_handshake = used ++ up' ∧
    serve (LC:=lru_reference) used (unframed (LC:=lru_reference) sample_server) =
      Ok (replies, feed_items out, unframed (LC:=lru_reference) s') ∧
    taken replies (oh_frame (LC:=lru_reference) s') ∧ ((length sample_handshake ≤ 4)%nat → up' = []).
Proof.
  by apply (Offline_serves (LC:=lru_reference) sample_offline_config 4 (mkLogSink [] [] 0 0) sample_server
    sample_handshake sample_offline_config_ok).
Defined.

(** The client at [sample_to] cannot be reached, the one at [sample_from] can. *)
Definition sample_poisoned : OfflineHandler (LC:=lru_reference) (Framed PickyLog) :=
  mkOfflineHandler (LC:=lru_reference) (Framed_new (mkPickyLog sample_to []) 1500) sample_offline_config
    (lru_new (LruCrate:=lru_reference) 2) ∅ (SendingPrepare (Some (UAlreadyConnected 7, sample_to))) (Server 7).

Lemma Offline_poisoned_witness :
  ∃ out s' up', polls (Offline_poll_next (LC:=lru_reference) (Sink0:=Framed_sink_unconnected (BC:=bytes_reference))) 3
      sample_poisoned [Ready (Some (PUnconnected (UUnconnectedPing 5 6), sample_from))] = Ok (out, s', up') ∧
    fr_socket (oh_frame (LC:=lru_reference) s') = mkPickyLog sample_to [].
Proof.
  destruct (Offline_poisoned (LC:=lru_reference) (BC:=bytes_reference) sample_offline_config sample_offline_config_ok
    (UPacket_write (BC:=bytes_reference) (UAlreadyConnected 7) []) sample_to (λ t, t = mkPickyLog sample_to []))
    with (n := 2%nat) (past := @nil (poll (option (Packet * SocketAddr)))) (s := sample_poisoned) (pack := UAlreadyConnected 7)
    (up := [Ready (Some (PUnconnected (UUnconnectedPing 5 6), sample_from))]) as (out & s' & up' & H1 & _ & (_ & _ & _ & H2) & _); try done.
  - intros t ->. eexists. split; [by eexists|done].
  - split; cbn; try done. apply lru_wf_nil.
  - by exists out, s', up'.
Defined.
