(* ===== verification/TestsSender.v ===== *)
(** * The unit tests of the sender and the handlers

    The tests that the sources carry for the fragmenting sink, the resend map, the
    state of a connection, the timer reactor and the offline handler of the server,
    run on the model.  Clocks are arguments of the model, so that a test that sleeps
    is run with a later time. *)
From S2P Require Import Prelude Bytes Errors Reader SeqNum Types PackType Unconnected AckNack FrameSet FrameBody Packet.
From S2P Require Import Stream Sink Collections Dedup DeFragment Order TestsDecoder Channels Reactor ReactorLoop Encoder.
From S2P Require Import Estimator SendBuffer Resend State Framed ServerOffline.
Open Scope Z_scope.

Abbreviation stest := (outcome spinning unit).

#[local] Instance sender_build : Build := true.
#[local] Instance sender_heap : BinaryHeap := heap_sorted.
#[local] Instance sender_lru : LruCrate := lru_reference.
#[local] Instance sender_iter : HashIter := hash_iter_reference.
#[local] Instance sender_queue : ConcurrentQueueCrate := queue_reference.

(** ** A sink that takes everything *)

(** [DstSink] of the tests. *)
Record DstSink (A : Type) := mkDstSink { dst_buf : list A }.
Arguments mkDstSink {A} _.
Arguments dst_buf {A} _.

Definition DstSink_sink {X A} (keep : X → option A) : Sink (DstSink A) X := {|
  poll_ready s := mret (Ready (inr tt), s);
  start_send x s := mret (inr tt, mkDstSink (dst_buf s ++ option_list (keep x)));
  poll_flush s := mret (Ready (inr tt), s);
  poll_close s := mret (Ready (inr tt), s);
|}.

(** [fut.await.unwrap()] of a future that is ready at once *)
Definition await {S} (m : sink_poll S) : outcome spinning S :=
  '(r, s) ← m;
  match r with
  | Ready (inr _) => mret s
  | _ => Panic
  end.

(** [fut.await.unwrap_err()] *)
Definition await_err {S} (m : sink_poll S) : outcome spinning (io_error * S) :=
  '(r, s) ← m;
  match r with
  | Ready (inl e) => mret (e, s)
  | _ => Panic
  end.

(** ** The fragmenting sink (codec/encoder/fragment.rs) *)

#[local] Instance frames_dst : Sink (DstSink Frame) (Priority * Frame) := DstSink_sink (λ x : Priority * Frame, Some x.2).

Definition test_dst : FragmentSink (DstSink Frame) := fragmented (mkDstSink []) 50 8.

(** [dst.send(Message::new(data).reliability(r).order_channel(c)).await.unwrap()] *)
Definition test_send (data : list Z) (r : Reliability) (c : Z) (dst : FragmentSink (DstSink Frame)) :
    outcome spinning (FragmentSink (DstSink Frame)) :=
  await (send_all [Message_order_channel c (Message_reliability r (Message_new data))] dst).

Definition hello : list Z := bytes_of "hello world".
Definition hello4 : list Z := bytes_of "hello world, hello world, hello world, hello world".

Definition test_fragmented_works : stest :=
  dst ← test_send hello ReliableOrdered 0 test_dst;
  dst ← test_send hello4 ReliableOrdered 1 dst;
  dst ← test_send hello Reliable 0 dst;
  dst ← test_send hello4 Unreliable 0 dst;
  dst ← test_send hello Unreliable 0 dst;
  assert_eq (u24_to_u32 <$> order_write_index dst !! 0%nat) (Some 1);;
  assert_eq (u24_to_u32 <$> order_write_index dst !! 1%nat) (Some 1);;
  assert_eq (u24_to_u32 (reliable_write_index dst)) 6;;
  let buf := dst_buf (frag_frame dst) in
  assert_eq (length buf) 7%nat;;
  f4 ← unwrap (buf !! 4%nat);
  assert_eq (reliability (flags f4)) Reliable;;
  f5 ← unwrap (buf !! 5%nat);
  assert_eq (reliability (flags f5)) Reliable.

Definition test_fragmented_panic : stest := test_send hello ReliableOrdered 100 test_dst;; mret tt.

Definition test_fragmented_fulfill_one_packet : stest :=
  dst ← test_send (replicate (Z.to_nat (50 - FRAME_SET_HEADER_SIZE - 10)) 254) ReliableOrdered 0 test_dst;
  let buf := dst_buf (frag_frame dst) in
  assert_eq (length buf) 1%nat;;
  f ← unwrap (buf !! 0%nat);
  assert_eq (fragment f) None;;
  assert_eq (Frame_size f) (50 - FRAME_SET_HEADER_SIZE).

Definition test_fragmented_split_packet : stest :=
  dst ← test_send (replicate 50 254) ReliableOrdered 0 test_dst;
  let buf := dst_buf (frag_frame dst) in
  assert_eq (length buf) 2%nat;;
  f ← unwrap (buf !! 0%nat);
  fragment_ ← unwrap (fragment f);
  let r := Reliability_size (reliability (flags f)) in
  assert_eq (parted_size fragment_) 2;;
  assert_eq (parted_id fragment_) 0;;
  assert_eq (parted_index fragment_) 0;;
  assert_eq (Frame_size f) (50 - FRAME_SET_HEADER_SIZE);;
  assert_eq (Z.of_nat (length (body f))) (50 - FRAME_SET_HEADER_SIZE - r - FRAGMENT_PART_SIZE);;
  f ← unwrap (buf !! 1%nat);
  fragment_ ← unwrap (fragment f);
  assert_eq (parted_size fragment_) 2;;
  assert_eq (parted_id fragment_) 0;;
  assert_eq (parted_index fragment_) 1.

Definition test_fragmented_adjust_not_exceed : stest :=
  dst ← test_send (replicate 50 254) Unreliable 0 test_dst;
  let buf := dst_buf (frag_frame dst) in
  assert_eq (length buf) 2%nat;;
  f0 ← unwrap (buf !! 0%nat);
  f1 ← unwrap (buf !! 1%nat);
  assert_eq (reliability (flags f0)) Reliable;;
  assert_eq (reliability (flags f1)) Reliable;;
  assert_eq (Frame_size f0) (50 - FRAME_SET_HEADER_SIZE).

(** ** The resend map (reliable.rs) *)

Definition ms : Z := 1000000.
Definition TEST_RTO : Z := 520 * ms.

Definition Role_test_server : Role := Server 114514.
Definition Peer_test : Peer := mkPeer 114514 (V4 (((11 * 256 + 45) * 256 + 14) * 256 + 19) 19810) 1919.

(** The estimator of the tests, and a map that starts at time zero. *)
Definition test_map : ResendMap RFC6298Impl :=
  ResendMap_new 0 Role_test_server Peer_test (Nat.iter 1000 (RFC6298_update TEST_RTO) RFC6298_new).

Definition test_frame (b : string) : Frame := mkFrame (Flags_new Unreliable false) None None None None (bytes_of b).

Definition compressed (seqs : list Z) : outcome spinning AckOrNack :=
  '(ack, _) ← extend_from seqs 100; unwrap ack.

Definition pop_resend (b : SendBuffer) : outcome spinning (Frame * SendBuffer) :=
  '(p, h) ← unwrap (heap_pop pf_key (sb_resend b));
  mret (pf_frame p, mkSendBuffer (send_high b) (send_medium b) (send_low b) h).

Definition test_resend_map_works : stest :=
  map ← for_each [0; 1; 2; 3] (λ i map, ResendMap_record 0 i 0 [] map) test_map;
  assert_ (negb (ResendMap_is_empty map));;
  ack ← compressed [0; 1; 2; 3];
  map ← on_ack ack 0 map;
  assert_ (ResendMap_is_empty map);;
  assert_eq (inflight map) 0;;
  map ← ResendMap_record 0 4 0 [test_frame "1"] map;
  map ← ResendMap_record 0 5 0 [test_frame "2"; test_frame "3"] map;
  nack ← compressed [4; 5];
  '(map, buffer) ← on_nack_into nack map SendBuffer_new;
  assert_ (ResendMap_is_empty map);;
  assert_eq (SendBuffer_len buffer) 3%nat;;
  '(f1, buffer) ← pop_resend buffer;
  assert_eq (body f1) (bytes_of "1");;
  '(f2, buffer) ← pop_resend buffer;
  assert_eq (body f2) (bytes_of "2");;
  '(f3, _) ← pop_resend buffer;
  assert_eq (body f3) (bytes_of "3").

(** The sleep ends at the time it is asked for. *)
Definition test_resend_map_stales : stest :=
  map ← for_each [0; 1; 2] (λ i map, ResendMap_record 0 i 0 [] map) test_map;
  let now := TEST_RTO + 5 * ms in
  map ← ResendMap_record now 3 0 [] map;
  '(map, _) ← process_stales now map SendBuffer_new;
  assert_eq (size (rm_reliable map)) 1%nat.

Definition is_ready {A} (p : poll A) : bool := match p with Ready _ => true | Pending => false end.

(** [poll_fn(|cx| map.poll_wait(cx)).await]: a pending poll has set a timer, at
    whose time the task is polled again. *)
Definition await_wait (now : Z) (map : ResendMap RFC6298Impl) : outcome spinning Z :=
  let '(r, reactor) := poll_wait now 0 map Reactor_new in
  if is_ready r then mret now
  else
    when ← unwrap (head ((map_to_list (conn_timers reactor)) ≫= λ t, (map_to_list t.2).*1.*1));
    assert_ (is_ready (poll_wait when 0 map Reactor_new).1);;
    mret when.

Definition test_resend_map_poll_wait : stest :=
  map ← ResendMap_record 0 0 0 [] test_map;
  let now := TEST_RTO + 5 * ms in
  map ← for_each [1; 2; 3] (λ i map, ResendMap_record now i 0 [] map) map;
  assert_ (is_ready (poll_wait now 0 map Reactor_new).1);;
  '(map, buffer) ← process_stales now map SendBuffer_new;
  assert_eq (size (rm_reliable map)) 3%nat;;
  now ← await_wait now map;
  '(map, _) ← process_stales now map buffer;
  assert_ (bool_decide (size (rm_reliable map) < 3)%nat).

(** ** The state of a connection (state.rs) *)

#[local] Instance bodies_dst : Sink (DstSink FrameBody) FrameBody := DstSink_sink Some.
#[local] Instance bodies_dst_message : Sink (DstSink FrameBody) Message := DstSink_sink (λ _ : Message, None).

Definition test_goodbye_works : stest :=
  let addr := V4 0 0 in
  let goodbye : StateManager (DstSink FrameBody) OutgoingState :=
    mkStateManager (mkDstSink []) OConnecting (Some (CloseOnDrop_new addr)) (cq_new None) in
  goodbye ← await (poll_close (A:=FrameBody) goodbye);
  assert_eq (dst_buf (sm_frame goodbye)) [FDisconnectNotification];;
  '(closed, goodbye) ← await_err (poll_close (A:=FrameBody) goodbye);
  assert_eq (io_kind closed) NotConnected;;
  assert_eq (length (dst_buf (sm_frame goodbye))) 1%nat;;
  '(a, queue) ← unwrap (cq_pop (sm_close_events goodbye));
  assert_eq a addr;;
  assert_eq (cq_list queue) [];;
  await_err (poll_ready (A:=FrameBody) goodbye);; mret tt.

(** ** The timer reactor (utils/reactor.rs) *)

Definition test_reactor_works : stest :=
  let reactor := Reactor_get 0 None in
  let when := 100 * ms in
  reactor ← unwrap (thread_round reactor);
  reactor ← unwrap (reactor_step EvSleep reactor);
  reactor ← unwrap (reactor_step (EvInsert 1 when 1) reactor);
  assert_eq (length (cancel_all_timers 1 (rs_reactor reactor)).1) 1%nat;;
  reactor ← unwrap (reactor_step (EvCancel 1) reactor);
  assert_ (negb (bool_decide (1%nat ∈ rs_woken reactor)));;
  reactor ← unwrap (reactor_step (EvInsert 2 when 2) reactor);
  reactor ← unwrap (reactor_step (EvTick (110 * ms)) reactor);
  reactor ← unwrap (thread_round reactor);
  assert_eq (length (cancel_all_timers 2 (rs_reactor reactor)).1) 0%nat;;
  assert_ (bool_decide (2%nat ∈ rs_woken reactor)).

(** ** The offline handler (server/handler/offline.rs) *)

#[local] Instance packets_dst : Sink (DstSink UPacket) (UPacket * SocketAddr) := DstSink_sink (λ x : UPacket * SocketAddr, Some x.1).

Definition test_config : OfflineConfig := mkOfflineConfig 1919810 (bytes_of "hello") 800 1400 [8; 11; 12] 10.

(** [handler.next().await], and what was sent *)
Definition case_answer (x : item_answer (CPacket * Peer) * OfflineHandler (DstSink UPacket) * offline_tape) :
    outcome spinning (option CPacket * list UPacket) :=
  match x.1.1 with
  | Ready r => Ok (fst <$> r, dst_buf (oh_frame x.1.2))
  | Pending => Panic
  end.

(** A handler over the packets of a test case. *)
Definition run_case (addr : SocketAddr) (source : list Packet) : outcome spinning (option CPacket * list UPacket) :=
  handler ← OfflineHandler_new (E:=spinning) (F:=DstSink UPacket) (mkDstSink []) test_config;
  x ← Offline_poll_next handler (((λ pack : Packet, Ready (Some (pack, addr))) <$> source) ++ [Ready None]);
  case_answer x.

Definition empty_set : CPacket := CFrameSet (mkFrameSet 0 []).

Definition request1 (version mtu : Z) : Packet := PUnconnected (UOpenConnectionRequest1 version mtu).
Definition request2 (mtu : Z) : Packet := PUnconnected (UOpenConnectionRequest2 (V4 0 1) mtu 114514).

Definition test_offline_handshake_works : stest :=
  let client_addr := V4 1 1 in
  '(r, dst) ← run_case client_addr
    [PUnconnected (UUnconnectedPing 0 114514); request1 11 1000; request2 1000; PConnected empty_set];
  assert_eq r (Some empty_set);;
  assert_eq dst
    [UUnconnectedPong 0 1919810 (bytes_of "hello");
     UOpenConnectionReply1 1919810 false 1000;
     UOpenConnectionReply2 1919810 client_addr 1000 false].

Definition test_offline_reject_unconnected_packet : stest :=
  '(r, dst) ← run_case (V4 2 1) [PConnected empty_set];
  assert_eq r None;;
  assert_eq dst [UConnectionRequestFailed 1919810].

(** The four cases of the test, with what is expected to be sent. *)
Definition wrong_flows : list (SocketAddr * list Packet * list UPacket) :=
  [(V4 3 1, [request2 1000; request1 11 1000],
    [UIncompatibleProtocol 12 1919810; UOpenConnectionReply1 1919810 false 1000]);
   (V4 4 1, [request1 100 1000], [UIncompatibleProtocol 12 1919810]);
   (V4 5 1, [request1 11 1000; request2 1000; request1 11 1000; request2 1000],
    [UOpenConnectionReply1 1919810 false 1000; UOpenConnectionReply2 1919810 (V4 5 1) 1000 false;
     UOpenConnectionReply1 1919810 false 1000; UAlreadyConnected 1919810]);
   (V4 6 1, [request1 11 10; request2 10],
    [UOpenConnectionReply1 1919810 false 800; UAlreadyConnected 1919810])].

Definition test_offline_reject_wrong_connect_flow : stest :=
  for_each wrong_flows (λ '(addr, source, expect) _,
    '(r, dst) ← run_case addr source;
    assert_eq r None;;
    assert_eq dst expect) tt.

(** ** The tests pass *)

Definition sender_tests : list stest :=
  [test_fragmented_works; test_fragmented_fulfill_one_packet; test_fragmented_split_packet;
   test_fragmented_adjust_not_exceed; test_resend_map_works; test_resend_map_stales; test_resend_map_poll_wait;
   test_goodbye_works; test_reactor_works; test_offline_handshake_works; test_offline_reject_unconnected_packet;
   test_offline_reject_wrong_connect_flow].

Definition s_passes (t : stest) : bool := match t with Ok _ => true | _ => false end.

Lemma sender_tests_pass : forallb s_passes sender_tests = true ∧ test_fragmented_panic = Panic.
Proof. split; vm_compute; reflexivity. Qed.

(** The model passes the unit tests of the sources: those of the sequence numbers,
    the bit queue, the acknowledgements, the layers of the decoder, the fragmenting
    sink, the resend map, the connection state, the reactor and the offline handler
    end without a failed assertion, and those that should panic do; the test of the
    bit queue passes at every size, and the fuzzing test of the deduplication for
    every choice of at least one index, all below the last one. *)
Theorem unit_tests_pass :
  forallb passes decoder_tests = true ∧ forallb s_passes sender_tests = true ∧
  forallb panics decoder_should_panic = true ∧ test_fragmented_panic = Panic ∧
  (∀ n, test_large_store n = Ok tt) ∧
  (∀ idx1 idx2, idx1 ≠ [] → Forall countable idx1 → Forall countable idx2 → test_dedup_fuzzing idx1 idx2 = Ok tt).
Proof.
  destruct decoder_tests_pass as [H1 H2]. destruct sender_tests_pass as [H3 H4].
  exact (conj H1 (conj H3 (conj H2 (conj H4 (conj test_large_store_passes test_dedup_fuzzing_passes))))).
Qed.
