(* ===== verification/ClientOffline.v ===== *)
(** * The offline handshake of the client (src/client/handler/offline.rs)

    The future that sends the two open-connection requests and waits for their
    replies, and the stream of connected packets it leaves.  With the handler of
    the server it completes the handshake; the mtu that the two ends record is
    compared. *)
From S2P Require Import Prelude Bytes Errors Types PackType Unconnected AckNack FrameSet Packet.
From S2P Require Import Stream Sink Collections Framed ServerOffline.
Open Scope Z_scope.

Record ClientOfflineConfig := mkClientOfflineConfig {
  cc_mtu : Z;
  cc_client_guid : Z;
  cc_protocol_version : Z;
}.

Inductive ClientOfflineState :=
| SendOpenConnReq1 (pack : UPacket)
| SendOpenConnReq1Flush
| WaitOpenConnReply1
| SendOpenConnReq2 (pack : UPacket)
| SendOpenConnReq2Flush
| WaitOpenConnReply2.

Record ClientOffline (F : Type) := mkClientOffline {
  co_frame : option F;
  co_state : ClientOfflineState;
  co_server_addr : SocketAddr;
  co_config : ClientOfflineConfig;
  co_role : Role;
}.
Arguments mkClientOffline {F} _ _ _ _ _.
Arguments co_frame {F} _.
Arguments co_state {F} _.
Arguments co_server_addr {F} _.
Arguments co_config {F} _.
Arguments co_role {F} _.

Definition ClientOffline_new {F} (frame : F) (server_addr : SocketAddr) (config : ClientOfflineConfig) :
    ClientOffline F :=
  mkClientOffline (Some frame)
    (SendOpenConnReq1 (UOpenConnectionRequest1 (cc_protocol_version config) (cc_mtu config)))
    server_addr config (Client (cc_client_guid config)).

(** The connected packets of the server. *)
Record FilterConnected (F : Type) := mkFilterConnected { fc_frame : F; fc_server_addr : SocketAddr }.
Arguments mkFilterConnected {F} _ _.
Arguments fc_frame {F} _.
Arguments fc_server_addr {F} _.

Fixpoint filter_loop (server_addr : SocketAddr) (up : offline_tape) : item_answer CPacket * offline_tape :=
  match up with
  | [] => (Pending, [])
  | Pending :: up => (Pending, up)
  | Ready None :: up => (Ready None, up)
  | Ready (Some (pack, addr)) :: up =>
      if decide (addr ≠ server_addr) then filter_loop server_addr up
      else match pack with PConnected pack => (Ready (Some pack), up) | _ => filter_loop server_addr up end
  end.

Definition FilterConnected_poll_next {F} : layer (FilterConnected F) (item_answer (Packet * SocketAddr)) (item_answer CPacket) :=
  λ s up, let '(a, up) := filter_loop (fc_server_addr s) up in mret (a, s, up).

Definition connection_reset : io_error := IoError ConnectionReset "connection reset by peer".

Section client.
Context {F : Type} `{!Sink F (UPacket * SocketAddr)}.
Implicit Types s : ClientOffline F.

Definition set_co (f : option F) (st : ClientOfflineState) s : ClientOffline F :=
  mkClientOffline f st (co_server_addr s) (co_config s) (co_role s).

(** The answer of the future. *)
Abbreviation connected_result := (poll (io_error + (FilterConnected F * Peer))).
Abbreviation client_poll := (outcome spinning (connected_result * ClientOffline F * offline_tape)).

(** [ready!(m)?; k] where [m] is a call of the frame. *)
Definition client_then (m : sink_poll F) s (up : offline_tape) (k : F → client_poll) : client_poll :=
  '(r, f) ← m;
  match r with
  | Pending => mret (Pending, set_co (Some f) (co_state s) s, up)
  | Ready (inl e) => mret (Ready (inl e), set_co (Some f) (co_state s) s, up)
  | Ready (inr _) => k f
  end.

(** [ready!(frame.poll_ready())?; frame.start_send((pack, server_addr))?] *)
Definition send_request (pack : UPacket) (f : F) s (up : offline_tape) (k : F → client_poll) : client_poll :=
  client_then (poll_ready (A:=UPacket * SocketAddr) f) s up (λ f,
  '(r, f) ← start_send (pack, co_server_addr s) f;
  match r with
  | inl e => mret (Ready (inl e), set_co (Some f) (co_state s) s, up)
  | inr _ => k f
  end).

(** A packet of the server while the first reply is awaited: the second request. *)
Definition second_request (pack : Packet) s : option UPacket :=
  match pack with
  | PUnconnected (UOpenConnectionReply1 _ _ mtu) =>
      Some (UOpenConnectionRequest2 (co_server_addr s) mtu (cc_client_guid (co_config s)))
  | _ => None
  end.

(** A packet of the server while the second reply is awaited: the peer. *)
Definition connected_peer (pack : Packet) s : option Peer :=
  match pack with
  | PUnconnected (UOpenConnectionReply2 guid _ _ _) =>
      Some (mkPeer guid (co_server_addr s) (cc_mtu (co_config s)))
  | _ => None
  end.

(** The rounds of the loop of [poll]; each round returns, moves the state forward or
    takes a packet ([client_rounds_returns]). *)
Fixpoint client_rounds (fuel : nat) s (up : offline_tape) : client_poll :=
  match fuel with
  | O => Err OutOfFuel
  | S fuel =>
      match co_frame s with
      | None => Panic
      | Some f =>
          match co_state s with
          | SendOpenConnReq1 pack =>
              send_request pack f s up (λ f, client_rounds fuel (set_co (Some f) SendOpenConnReq1Flush s) up)
          | SendOpenConnReq1Flush =>
              client_then (poll_flush (A:=UPacket * SocketAddr) f) s up (λ f,
              client_rounds fuel (set_co (Some f) WaitOpenConnReply1 s) up)
          | WaitOpenConnReply1 =>
              match up with
              | [] => mret (Pending, s, [])
              | Pending :: up => mret (Pending, s, up)
              | Ready None :: up => mret (Ready (inl connection_reset), s, up)
              | Ready (Some (pack, addr)) :: up =>
                  if decide (addr ≠ co_server_addr s) then client_rounds fuel s up
                  else
                    match second_request pack s with
                    | Some next => client_rounds fuel (set_co (Some f) (SendOpenConnReq2 next) s) up
                    | None => client_rounds fuel s up
                    end
              end
          | SendOpenConnReq2 pack =>
              send_request pack f s up (λ f, client_rounds fuel (set_co (Some f) SendOpenConnReq2Flush s) up)
          | SendOpenConnReq2Flush =>
              client_then (poll_flush (A:=UPacket * SocketAddr) f) s up (λ f,
              client_rounds fuel (set_co (Some f) WaitOpenConnReply2 s) up)
          | WaitOpenConnReply2 =>
              match up with
              | [] => mret (Pending, s, [])
              | Pending :: up => mret (Pending, s, up)
              | Ready None :: up => mret (Ready (inl connection_reset), s, up)
              | Ready (Some (pack, addr)) :: up =>
                  if decide (addr ≠ co_server_addr s) then client_rounds fuel s up
                  else
                    match connected_peer pack s with
                    | Some peer =>
                        mret (Ready (inr (mkFilterConnected f (co_server_addr s), peer)), set_co None (co_state s) s, up)
                    | None => client_rounds fuel s up
                    end
              end
          end
      end
  end.

(** Five states are left behind at most, and one packet is taken per round. *)
Definition Client_poll s (up : offline_tape) : client_poll := client_rounds (6 + length up) s up.
End client.

(** ** The rounds that wait *)

Section waiting.
Context {F : Type} `{!Sink F (UPacket * SocketAddr)}.
Implicit Types s : ClientOffline F.

Lemma client_waits fuel s :
  co_frame s ≠ None → co_state s = WaitOpenConnReply1 ∨ co_state s = WaitOpenConnReply2 →
  client_rounds (S fuel) s [] = Ok (Pending, s, []).
Proof. cbn. destruct (co_frame s); [|done]. by intros _ [->| ->]. Qed.

Lemma client_reply1 fuel s f pack a up :
  co_frame s = Some f → co_state s = WaitOpenConnReply1 →
  client_rounds (S fuel) s (Ready (Some (pack, a)) :: up) =
    if decide (a ≠ co_server_addr s) then client_rounds fuel s up
    else match second_request pack s with
         | Some next => client_rounds fuel (set_co (Some f) (SendOpenConnReq2 next) s) up
         | None => client_rounds fuel s up
         end.
Proof. intros Hf Hst. cbn. by rewrite Hf, Hst. Qed.

Lemma client_reply2 fuel s f pack a up :
  co_frame s = Some f → co_state s = WaitOpenConnReply2 →
  client_rounds (S fuel) s (Ready (Some (pack, a)) :: up) =
    if decide (a ≠ co_server_addr s) then client_rounds fuel s up
    else match connected_peer pack s with
         | Some peer => Ok (Ready (inr (mkFilterConnected f (co_server_addr s), peer)), set_co None (co_state s) s, up)
         | None => client_rounds fuel s up
         end.
Proof. intros Hf Hst. cbn. by rewrite Hf, Hst. Qed.
End waiting.

(** ** Every poll returns *)

Definition client_rank (st : ClientOfflineState) : nat :=
  match st with
  | SendOpenConnReq1 _ => 5
  | SendOpenConnReq1Flush => 4
  | WaitOpenConnReply1 => 3
  | SendOpenConnReq2 _ => 2
  | SendOpenConnReq2Flush => 1
  | WaitOpenConnReply2 => 0
  end.

Section returns.
Context {F : Type} `{!Sink F (UPacket * SocketAddr)} (Hret : returning F (UPacket * SocketAddr)).
Implicit Types s : ClientOffline F.

Lemma client_then_returns (m : sink_poll F) s up k :
  (∃ r, m = Ok r) → (∀ f, ∃ r, k f = Ok r) → ∃ r, client_then m s up k = Ok r.
Proof. intros [[r f] ->] Hk. cbn. destruct r as [[]|]; eauto. Qed.

Lemma send_request_returns pack f s up k :
  (∀ f, ∃ r, k f = Ok r) → ∃ r, send_request pack f s up k = Ok r.
Proof.
  intros Hk. apply client_then_returns; [apply Hret|]. intros f1.
  destruct (Hret f1) as (_ & H & _). destruct (H (pack, co_server_addr s)) as [[[] f2] ->]; cbn; eauto.
Qed.

Lemma client_rounds_returns fuel s up :
  co_frame s ≠ None → (client_rank (co_state s) + length up < fuel)%nat →
  ∃ r, client_rounds fuel s up = Ok r.
Proof.
  revert s up. induction fuel as [|fuel IH]; intros s up Hf Hfuel; [lia|]. cbn [client_rounds].
  destruct (co_frame s) as [f|] eqn:Hfr; [|done].
  destruct (co_state s) eqn:Hst; cbn [client_rank] in Hfuel.
  1,4: apply send_request_returns; intros f1; apply IH; cbn; [done|lia].
  1,3: apply client_then_returns; [apply Hret|]; intros f1; apply IH; cbn; [done|lia].
  all: destruct up as [|[[[pack a]|]|] up]; cbn [length] in Hfuel; try by eexists.
  all: destruct (decide (a ≠ co_server_addr s)); [apply IH; rewrite ?Hfr, ?Hst; cbn; [done|lia]|].
  - destruct (second_request pack s); apply IH; rewrite ?Hfr, ?Hst; cbn; try done; lia.
  - destruct (connected_peer pack s); [by eexists|]. apply IH; rewrite ?Hfr, ?Hst; cbn; [done|lia].
Qed.
End returns.

(** C34. The client's handshake never spins: over a socket whose calls return, a poll
    of a future that has not completed returns, whatever packets it reads. *)
Theorem Client_poll_returns {F} `{!Sink F (UPacket * SocketAddr)} (s : ClientOffline F) up :
  returning F (UPacket * SocketAddr) → co_frame s ≠ None → ∃ r, Client_poll s up = Ok r.
Proof.
  intros Hr Hf. unfold Client_poll. apply client_rounds_returns; [done..|]. destruct (co_state s); cbn; lia.
Qed.

(** ** What is ignored *)

(** A packet that is not the awaited reply of the server. *)
Definition ignored {F} (s : ClientOffline F) (x : item_answer (Packet * SocketAddr)) : Prop :=
  match x with
  | Ready (Some (pack, a)) =>
      a ≠ co_server_addr s ∨
      match co_state s with
      | WaitOpenConnReply1 => second_request pack s = None
      | WaitOpenConnReply2 => connected_peer pack s = None
      | _ => False
      end
  | _ => False
  end.

Lemma client_rounds_ignores {F} `{!Sink F (UPacket * SocketAddr)} (s : ClientOffline F) fuel up rest :
  co_frame s ≠ None → co_state s = WaitOpenConnReply1 ∨ co_state s = WaitOpenConnReply2 →
  Forall (ignored s) up → client_rounds (length up + fuel) s (up ++ rest) = client_rounds fuel s rest.
Proof.
  intros Hf Hst. induction 1 as [|x up Hx _ IH]; [done|].
  destruct (co_frame s) as [f|] eqn:Hfr; [|done].
  destruct x as [[[pack a]|]|]; [|done..]. cbn in Hx. cbn [length Nat.add app].
  destruct Hst as [Hst|Hst]; rewrite Hst in Hx;
    [rewrite (client_reply1 _ _ f) by done|rewrite (client_reply2 _ _ f) by done]; case_decide as Ha; try done;
    (destruct Hx as [|Hx]; [done|]); rewrite Hx; by apply IH.
Qed.

(** A refusal is not heard: while the client waits for a reply, the packets of
    other addresses and the server's answers of any other kind, the refusals
    [IncompatibleProtocol], [AlreadyConnected] and [ConnectionRequestFailed] among
    them, leave the future waiting as it was. *)
Theorem Client_ignores {F} `{!Sink F (UPacket * SocketAddr)} (s : ClientOffline F) up :
  co_frame s ≠ None → co_state s = WaitOpenConnReply1 ∨ co_state s = WaitOpenConnReply2 →
  Forall (ignored s) up → Client_poll s up = Ok (Pending, s, []).
Proof.
  intros Hf Hst Hup. unfold Client_poll. rewrite Nat.add_comm. rewrite <-(app_nil_r up) at 2.
  rewrite client_rounds_ignores by done. by apply client_waits.
Qed.

(** ** The handshake of the two ends *)

Section handshake.
Context {LC : LruCrate} {FC FS : Type}.
Context `{!Sink FC (UPacket * SocketAddr)} `{!ReadySink FC (UPacket * SocketAddr)}.
Context `{!Sink FS (UPacket * SocketAddr)} `{!ReadySink FS (UPacket * SocketAddr)}.
Context (client_sends : ∀ x : UPacket * SocketAddr, sendable (S:=FC) x).
Context (server_sends : ∀ x : UPacket * SocketAddr, sendable (S:=FS) x).

(** A request goes out and the client waits. *)
Lemma client_request pack pack' h f (s : ClientOffline FC) fuel up :
  co_frame s = Some f → taken h f →
  (co_state s, pack') = (SendOpenConnReq1 pack, WaitOpenConnReply1) ∨
  (co_state s, pack') = (SendOpenConnReq2 pack, WaitOpenConnReply2) →
  ∃ f', client_rounds (S (S fuel)) s up = client_rounds fuel (set_co (Some f') pack' s) up ∧
    taken (h ++ [(pack, co_server_addr s)]) f'.
Proof.
  intros Hf Ht Hst.
  destruct (poll_ready_free h f Ht) as (f1 & H1 & Hf1).
  destruct (start_send_taken h f1 (pack, co_server_addr s) Hf1 (client_sends _)) as (f2 & H2 & Ht2).
  destruct (poll_flush_taken _ f2 Ht2) as (f3 & H3 & Ht3).
  exists f3. split; [|done].
  destruct Hst as [[= Hst ->]|[= Hst ->]];
    cbn [client_rounds]; rewrite Hf, Hst; unfold send_request, client_then; rewrite H1; cbn [mbind outcome_bind];
    rewrite H2; cbn [mbind outcome_bind co_frame co_state set_co]; rewrite H3; done.
Qed.

(** The server answers one packet. *)
Lemma server_answers packet a h (s s' : OfflineHandler FS) x :
  oh_state s = Listening → taken h (oh_frame s) → handle_packet (E:=spinning) packet a s = Ok (None, s') →
  oh_state s' = SendingPrepare (Some x) →
  ∃ f, Offline_poll_next s [Ready (Some (packet, a))] = Ok (Pending, set_oh_state f Listening s', []) ∧
    taken (h ++ [x]) f.
Proof.
  intros Hst Ht Hp Hst'. unfold Offline_poll_next.
  pose proof (handle_packet_frame packet a s) as Hfr. rewrite Hp in Hfr. destruct Hfr as (_ & Hfr & _).
  destruct (drive_send_ready server_sends h s' ) as (f & Hd & Ht'); [by rewrite Hfr|by right; eexists|].
  exists f. unfold prepared in Ht'. rewrite Hst' in Ht'. split; [|done].
  assert (drive_send s = Ok (true, s)) as Hd0 by (unfold drive_send; by rewrite Hst).
  cbn [offline_loop]. rewrite Hd0. cbn [mbind outcome_bind negb].
  rewrite Hp. cbn [mbind outcome_bind]. by rewrite Hd.
Qed.

(** The mtu that the server offers. *)
Definition offered_mtu (config : OfflineConfig) (mtu : Z) : Z :=
  Z.max (oc_min_mtu config) (Z.min (oc_max_mtu config) mtu).

Lemma clamp_offered {E} config mtu :
  oc_min_mtu config ≤ oc_max_mtu config →
  clamp (E:=E) mtu (oc_min_mtu config) (oc_max_mtu config) = Ok (offered_mtu config mtu).
Proof.
  intros Hle. unfold clamp, offered_mtu. rewrite (proj2 (Z.leb_le _ _)) by done. cbn. unfold mret, outcome_ret. f_equal.
  destruct (Z.ltb_spec mtu (oc_min_mtu config)); [lia|]. destruct (Z.ltb_spec (oc_max_mtu config) mtu); lia.
Qed.

(** C14. The handshake completes: over sockets that are ready, with requests and
    replies delivered in turn, a client whose version the server supports and whose
    address is not connected yet gets through in three polls; the server then has
    the client's address with its guid and the offered mtu, while the client
    records the mtu of its own configuration, which is the same mtu exactly when
    that one is within the limits of the server. *)
Theorem handshake_completes config past hs (ss : OfflineHandler FS) (fc : FC) (cc : ClientOfflineConfig) ac sa :
  let reply1 := UOpenConnectionReply1 (oc_sever_guid config) false (offered_mtu config (cc_mtu cc)) in
  let reply2 := UOpenConnectionReply2 (oc_sever_guid config) ac (offered_mtu config (cc_mtu cc)) false in
  config_ok config → offline_inv config past ss → oh_state ss = Listening → taken hs (oh_frame ss) →
  oh_connected ss !! ac = None → cc_protocol_version cc ∈ oc_support_version config → taken [] fc →
  ∃ c1 c2 c3 f1 f2 f3 s1 s2 req1 req2,
    Client_poll (ClientOffline_new fc sa cc) [] = Ok (Pending, c1, []) ∧
      co_frame c1 = Some f1 ∧ taken [(req1, sa)] f1 ∧
    Offline_poll_next ss [Ready (Some (PUnconnected req1, ac))] = Ok (Pending, s1, []) ∧
      taken (hs ++ [(reply1, ac)]) (oh_frame s1) ∧
    Client_poll c1 [Ready (Some (PUnconnected reply1, sa))] = Ok (Pending, c2, []) ∧
      co_frame c2 = Some f2 ∧ taken ([(req1, sa)] ++ [(req2, sa)]) f2 ∧
    Offline_poll_next s1 [Ready (Some (PUnconnected req2, ac))] = Ok (Pending, s2, []) ∧
      taken ((hs ++ [(reply1, ac)]) ++ [(reply2, ac)]) (oh_frame s2) ∧
      oh_connected s2 !! ac = Some (mkPeer (cc_client_guid cc) ac (offered_mtu config (cc_mtu cc))) ∧
    Client_poll c2 [Ready (Some (PUnconnected reply2, sa))] =
      Ok (Ready (inr (mkFilterConnected f3 sa, mkPeer (oc_sever_guid config) sa (cc_mtu cc))), c3, []) ∧
    (offered_mtu config (cc_mtu cc) = cc_mtu cc ↔ oc_min_mtu config ≤ cc_mtu cc ≤ oc_max_mtu config).
Proof.
  intros reply1 reply2 Hok Hi Hst Hts Hnc Hv Htc. pose proof Hok as (Hsort & _ & Hle & Hpend).
  pose proof (oi_config _ _ _ Hi) as Hc.
  set (m := offered_mtu config (cc_mtu cc)) in *.
  assert (oc_min_mtu config ≤ m ≤ oc_max_mtu config) as Hm by (unfold m, offered_mtu; lia).
  set (c0 := ClientOffline_new fc sa cc).
  set (req1 := UOpenConnectionRequest1 (cc_protocol_version cc) (cc_mtu cc)).
  set (req2 := UOpenConnectionRequest2 sa m (cc_client_guid cc)).
  (* the first request *)
  destruct (client_request req1 WaitOpenConnReply1 [] fc c0 4 []) as (f1 & Hc1 & Ht1); [done|done|by left|].
  set (c1 := set_co (Some f1) WaitOpenConnReply1 c0) in *.
  (* its reply *)
  set (s1 := prepare reply1 ac (set_sessions (lru_put ac (cc_protocol_version cc) (oh_pending ss)).2 (oh_connected ss) ss)).
  destruct (server_answers (PUnconnected req1) ac hs ss s1 (reply1, ac)) as (g1 & Hs1 & Hg1); [done|done| |done|].
  { cbn -[binary_search clamp]. rewrite Hc, binary_search_spec, bool_decide_eq_true_2 by done. cbn -[clamp].
    by rewrite clamp_offered. }
  set (s1' := set_oh_state g1 Listening s1) in *.
  (* the second request *)
  set (c1b := set_co (Some f1) (SendOpenConnReq2 req2) c1).
  destruct (client_request req2 WaitOpenConnReply2 [(req1, sa)] f1 c1b 4 []) as (f2 & Hc2 & Ht2); [done|done|by right|].
  set (c2 := set_co (Some f2) WaitOpenConnReply2 c1b) in *.
  (* its reply *)
  destruct (lru_pop ac (oh_pending s1')) as [o p] eqn:Hpop.
  assert (o = Some (cc_protocol_version cc)) as ->.
  { pose proof (lru_pop_spec ac (oh_pending s1')) as (Ho & _). rewrite Hpop in Ho. cbn in Ho.
    rewrite Ho. destruct (lru_put_spec ac (cc_protocol_version cc) (oh_pending ss)) as (_ & -> & _).
    apply lru_touch_get_eq. }
  set (peer := mkPeer (cc_client_guid cc) ac m).
  set (s2 := prepare reply2 ac (set_sessions p (<[ac := peer]> (oh_connected ss)) s1')).
  destruct (server_answers (PUnconnected req2) ac (hs ++ [(reply1, ac)]) s1' s2 (reply2, ac)) as (g2 & Hs2 & Hg2); [done|done| |done|].
  { unfold handle_packet, handle_unconnected, req2. rewrite Hpop. cbn -[bool_decide]. rewrite Hc.
    rewrite !(proj2 (Z.ltb_ge _ _)) by lia. cbn -[bool_decide]. rewrite bool_decide_eq_false_2; [done|].
    rewrite Hnc. by intros []. }
  (* the client is done *)
  exists c1, c2, (set_co None WaitOpenConnReply2 c2), f1, f2, f2, s1', (set_oh_state g2 Listening s2), req1, req2.
  split; [unfold Client_poll; cbn [length Nat.add]; rewrite Hc1; by apply client_waits; [|left]|].
  do 4 (split; [done|]). split.
  { unfold Client_poll. cbn [length Nat.add]. rewrite (client_reply1 _ _ f1), decide_False by (done || tauto).
    replace (second_request (PUnconnected reply1) c1) with (Some req2) by done. fold c1b. rewrite Hc2. by apply client_waits; [|right]. }
  do 4 (split; [done|]). split; [cbn; by rewrite lookup_insert_eq|]. split; [|unfold m, offered_mtu; lia].
  unfold Client_poll. cbn [length Nat.add]. by rewrite (client_reply2 _ _ f2), decide_False by (done || tauto).
Qed.
End handshake.

(** ** The connected packets *)

Definition from_server (server_addr : SocketAddr) (x : item_answer (Packet * SocketAddr)) : list CPacket :=
  match x with
  | Ready (Some (PConnected pack, a)) => if decide (a = server_addr) then [pack] else []
  | _ => []
  end.

Lemma filter_loop_spec a up :
  let '(r, up') := filter_loop a up in
  ∃ used, up = used ++ up' ∧ feed_items [r] = used ≫= from_server a ∧ (length up' ≤ length up - 1)%nat.
Proof.
  induction up as [|x up IH]; cbn [filter_loop]; [by exists []|].
  assert (∀ x, from_server a x = [] →
    let '(r, up') := filter_loop a up in
    ∃ used, x :: up = used ++ up' ∧ feed_items [r] = used ≫= from_server a ∧ (length up' ≤ length (x :: up) - 1)%nat) as Hskip.
  { intros y Hy. destruct (filter_loop a up) as [r up']. destruct IH as (used & -> & H1 & H2).
    exists (y :: used). cbn [mbind list_bind]. rewrite Hy, H1. split_and!; [done|done|]. cbn. rewrite length_app. lia. }
  destruct x as [[[[p|p] b]|]|]; cbn [filter_loop].
  - case_decide; by apply Hskip.
  - case_decide as Hb; [apply Hskip; cbn; by rewrite decide_False|].
    exists [Ready (Some (PConnected p, b))]. split_and!; [done| |cbn; lia]. cbn. by rewrite decide_True by tauto.
  - eexists [_]. split_and!; [done|done|cbn; lia].
  - eexists [_]. split_and!; [done|done|cbn; lia].
Qed.

(** ** Witnesses *)

Definition sample_client_config : ClientOfflineConfig := mkClientOfflineConfig 2000 42 9.

Abbreviation SampleClient := (ClientOffline (LogSink (UPacket * SocketAddr))).

Definition sample_client : SampleClient := ClientOffline_new (mkLogSink [] [] 0 0) sample_from sample_client_config.

Lemma Client_poll_returns_witness :
  ∃ r, Client_poll sample_client [Ready (Some (PUnconnected (UAlreadyConnected 7), sample_to))] = Ok r.
Proof.
  apply (Client_poll_returns sample_client); [|done].
  intros [[|r rs] sent n m]; split_and!; cbn; unfold log_poll; cbn; by eauto.
Defined.

Definition sample_waiting : SampleClient :=
  set_co (Some (mkLogSink [] [] 0 0)) WaitOpenConnReply2 sample_client.

Lemma Client_ignores_witness :
  Client_poll sample_waiting
    [Ready (Some (PUnconnected (UAlreadyConnected 7), sample_from));
     Ready (Some (PUnconnected (UOpenConnectionReply2 7 sample_to 1500 false), sample_to))] =
    Ok (Pending, sample_waiting, []).
Proof.
  apply (Client_ignores sample_waiting); [done|by right|].
  constructor; [by right|]. constructor; [|constructor]. left. by vm_compute.
Defined.

Lemma handshake_completes_witness :
  ∃ (c2 : SampleClient) c3 f3 s1 (s2 : SampleServer) req2 reply2,
    Offline_poll_next s1 [Ready (Some (PUnconnected req2, sample_to))] = Ok (Pending, s2, []) ∧
    oh_connected (LC:=lru_reference) s2 !! sample_to = Some (mkPeer 42 sample_to 1500) ∧
    Client_poll c2 [Ready (Some (PUnconnected reply2, sample_from))] =
      Ok (Ready (inr (mkFilterConnected f3 sample_from, mkPeer 7 sample_from 2000)), c3, []).
Proof.
  destruct (handshake_completes (LC:=lru_reference) (FC:=LogSink (UPacket * SocketAddr)) (FS:=LogSink (UPacket * SocketAddr))
    (ReadySink0:=LogSink_ready _) (ReadySink1:=LogSink_ready _) (λ _, I) (λ _, I) sample_offline_config [] [] sample_server (mkLogSink [] [] 0 0) sample_client_config sample_to sample_from)
    as (c1 & c2 & c3 & f1 & f2 & f3 & s1 & s2 & req1 & req2 & _ & _ & _ & _ & _ & _ & _ & _ & H1 & _ & H2 & H3 & _);
    try done.
  - apply sample_offline_config_ok.
  - split; cbn; try done. apply lru_wf_nil.
  - cbn. set_solver.
  - by eexists c2, c3, f3, s1, s2, req2, _.
Defined.
