(* ===== verification/Online.v ===== *)
(** * The online handshake (src/server/handler/online.rs, src/client/handler/online.rs)

    Both ends of a connection filter the stream of bodies: the internal ones are
    answered through the link, the data of the user is passed on.  A body is read
    together with the time of the system clock at which it is handled. *)
From S2P Require Import Prelude Errors SeqNum Types PackType Unconnected AckNack FrameSet FrameBody Packet.
From S2P Require Import Stream Collections Channels Reactor Link.
Open Scope Z_scope.

(** An answer of the stream below, and what [timestamp()] gives then. *)
Abbreviation timed_answer := (Z * item_answer FrameBody)%type.

(** ** The server *)

Inductive HandshakeState := WaitConnRequest | WaitNewIncomingConn | SConnected.

Section online.
Context {CQ : ConcurrentQueueCrate}.

Record ServerOnline := mkServerOnline {
  so_role : Role;
  so_peer : Peer;
  so_state : HandshakeState;
  so_link : TransferLink;
}.

Definition server_handle_online (role : Role) (peer : Peer) (link : TransferLink) : ServerOnline :=
  mkServerOnline role peer WaitConnRequest link.

Definition set_so (st : HandshakeState) (link : TransferLink) (s : ServerOnline) : ServerOnline :=
  mkServerOnline (so_role s) (so_peer s) st link.

(** The unspecified address of the family of the peer. *)
Definition system_addr (a : SocketAddr) : SocketAddr := if is_ipv6 a then V6 0 0 0 0 else V4 0 0.

(** One body: the data that is passed on. *)
Definition server_body {E} (now : Z) (body : FrameBody) (s : ServerOnline) :
    outcome E (option (list Z) * ServerOnline) :=
  match so_state s with
  | WaitConnRequest =>
      match body with
      | FConnectionRequest _ request_timestamp use_encryption =>
          if use_encryption then
            l ← send_unconnected (UConnectionRequestFailed (Role_guid (so_role s))) (so_link s);
            mret (None, set_so WaitConnRequest l s)
          else
            l ← send_frame_body (FConnectionRequestAccepted (peer_addr (so_peer s)) 0
                  (replicate 20 (system_addr (peer_addr (so_peer s)))) request_timestamp now) (so_link s);
            mret (None, set_so WaitNewIncomingConn l s)
      | _ => mret (None, s)
      end
  | WaitNewIncomingConn =>
      match body with
      | FNewIncomingConnection _ _ _ _ => mret (None, set_so SConnected (so_link s) s)
      | FUser data => mret (Some data, s)
      | _ => mret (None, s)
      end
  | SConnected =>
      match body with
      | FConnectedPing client_timestamp =>
          l ← send_frame_body (FConnectedPong client_timestamp now) (so_link s);
          mret (None, set_so SConnected l s)
      | FUser data => mret (Some data, s)
      | _ => mret (None, s)
      end
  end.

Fixpoint server_online_loop (up : list timed_answer) (s : ServerOnline) :
    outcome Empty_set (item_answer (list Z) * ServerOnline * list timed_answer) :=
  match up with
  | [] => mret (Pending, s, [])
  | (_, Pending) :: up => mret (Pending, s, up)
  | (_, Ready None) :: up => mret (Ready None, s, up)
  | (now, Ready (Some body)) :: up =>
      '(o, s) ← server_body now body s;
      match o with
      | Some data => mret (Ready (Some data), s, up)
      | None => server_online_loop up s
      end
  end.

Definition ServerOnline_poll_next : layer ServerOnline timed_answer (item_answer (list Z)) :=
  λ s up, server_online_loop up s.

(** ** The client *)

Inductive ClientOnlineState := WaitConnRes | CConnected.

Record ClientOnline := mkClientOnline {
  cn_state : ClientOnlineState;
  cn_addr : SocketAddr;
  cn_link : TransferLink;
  cn_role : Role;
}.

Definition set_cn (st : ClientOnlineState) (link : TransferLink) (s : ClientOnline) : ClientOnline :=
  mkClientOnline st (cn_addr s) link (cn_role s).

Definition client_handle_online {E} (now : Z) (addr : SocketAddr) (client_guid : Z) (link : TransferLink) :
    outcome E ClientOnline :=
  l ← send_frame_body (FConnectionRequest client_guid now false) link;
  mret (mkClientOnline WaitConnRes addr l (Client client_guid)).

Definition client_body {E} (now : Z) (body : FrameBody) (s : ClientOnline) :
    outcome E (option (list Z) * ClientOnline) :=
  match cn_state s with
  | WaitConnRes =>
      match body with
      | FConnectionRequestAccepted _ _ system_addresses _ accepted_timestamp =>
          l ← send_frame_body (FNewIncomingConnection (cn_addr s) system_addresses now accepted_timestamp) (cn_link s);
          mret (None, set_cn CConnected l s)
      | FUser data => mret (Some data, s)
      | _ => mret (None, s)
      end
  | CConnected =>
      match body with
      | FDetectLostConnections =>
          l ← send_frame_body (FConnectedPing now) (cn_link s);
          mret (None, set_cn CConnected l s)
      | FUser data => mret (Some data, s)
      | _ => mret (None, s)
      end
  end.

Fixpoint client_online_loop (up : list timed_answer) (s : ClientOnline) :
    outcome Empty_set (item_answer (list Z) * ClientOnline * list timed_answer) :=
  match up with
  | [] => mret (Pending, s, [])
  | (_, Pending) :: up => mret (Pending, s, up)
  | (_, Ready None) :: up => mret (Ready None, s, up)
  | (now, Ready (Some body)) :: up =>
      '(o, s) ← client_body now body s;
      match o with
      | Some data => mret (Ready (Some data), s, up)
      | None => client_online_loop up s
      end
  end.

Definition ClientOnline_poll_next : layer ClientOnline timed_answer (item_answer (list Z)) :=
  λ s up, client_online_loop up s.
End online.

(** ** What is passed on and what is answered *)

(** The bodies of a tape with the times at which they are handled. *)
Definition timed_bodies (up : list timed_answer) : list (Z * FrameBody) :=
  up ≫= λ x, match x with (now, Ready (Some body)) => [(now, body)] | _ => [] end.

(** The list before and after the first element with [p]. *)
Fixpoint before {A} (p : A → bool) (l : list A) : list A :=
  match l with [] => [] | x :: l => if p x then [] else x :: before p l end.
Fixpoint after {A} (p : A → bool) (l : list A) : list A :=
  match l with [] => [] | x :: l => if p x then l else after p l end.

Definition user_data (bs : list (Z * FrameBody)) : list (list Z) :=
  bs ≫= λ x, match x.2 with FUser data => [data] | _ => [] end.

(** The requests of a client, plain and with encryption. *)
Definition is_request (x : Z * FrameBody) : bool :=
  match x.2 with FConnectionRequest _ _ false => true | _ => false end.
Definition is_encrypted_request (x : Z * FrameBody) : bool :=
  match x.2 with FConnectionRequest _ _ true => true | _ => false end.
Definition is_new_incoming (x : Z * FrameBody) : bool :=
  match x.2 with FNewIncomingConnection _ _ _ _ => true | _ => false end.
Definition is_accepted (x : Z * FrameBody) : bool :=
  match x.2 with FConnectionRequestAccepted _ _ _ _ _ => true | _ => false end.

Definition pongs (bs : list (Z * FrameBody)) : list FrameBody :=
  bs ≫= λ x, match x.2 with FConnectedPing t => [FConnectedPong t x.1] | _ => [] end.
Definition pings (bs : list (Z * FrameBody)) : list FrameBody :=
  bs ≫= λ x, match x.2 with FDetectLostConnections => [FConnectedPing x.1] | _ => [] end.

(** The acceptance of the first plain request. *)
Definition acceptance (peer : Peer) (bs : list (Z * FrameBody)) : list FrameBody :=
  match List.find is_request bs with
  | Some (now, FConnectionRequest _ t _) =>
      [FConnectionRequestAccepted (peer_addr peer) 0 (replicate 20 (system_addr (peer_addr peer))) t now]
  | _ => []
  end.

(** The answer of the client to the first acceptance. *)
Definition confirmation (addr : SocketAddr) (bs : list (Z * FrameBody)) : list FrameBody :=
  match List.find is_accepted bs with
  | Some (now, FConnectionRequestAccepted _ _ addrs _ t) => [FNewIncomingConnection addr addrs now t]
  | _ => []
  end.

Section runs.
Context {CQ : ConcurrentQueueCrate}.

(** The queues of replies are not bounded. *)
Definition open_link (l : TransferLink) : Prop :=
  cq_cap (link_frame_body l) = None ∧ cq_cap (link_unconnected l) = None.

(** [l'] is [l] with more replies. *)
Definition replied (l : TransferLink) (us : list UPacket) (bs : list FrameBody) (l' : TransferLink) : Prop :=
  open_link l' ∧ cq_list (link_frame_body l') = cq_list (link_frame_body l) ++ bs ∧
  cq_list (link_unconnected l') = cq_list (link_unconnected l) ++ us.

Lemma replied_nothing l : open_link l → replied l [] [] l.
Proof. intros Hl. unfold replied. by rewrite !app_nil_r. Qed.

Lemma replied_trans l us bs l' us' bs' l'' :
  replied l us bs l' → replied l' us' bs' l'' → replied l (us ++ us') (bs ++ bs') l''.
Proof. intros (_ & H1 & H2) (Ho & H3 & H4). unfold replied. by rewrite H3, H1, H4, H2, !app_assoc. Qed.

Lemma send_frame_body_replied {E} b l :
  open_link l → ∃ l', send_frame_body (E:=E) b l = Ok l' ∧ replied l [] [b] l'.
Proof.
  intros [Hb Hu]. unfold send_frame_body.
  destruct (cq_push_spec b (link_frame_body l)) as (q & -> & Hl & Hc); [by rewrite Hb|].
  eexists. split; [done|]. unfold replied, open_link. cbn. by rewrite Hl, Hc, app_nil_r.
Qed.

Lemma send_unconnected_replied {E} p l :
  open_link l → ∃ l', send_unconnected (E:=E) p l = Ok l' ∧ replied l [p] [] l'.
Proof.
  intros [Hb Hu]. unfold send_unconnected.
  destruct (cq_push_spec p (link_unconnected l)) as (q & -> & Hl & Hc); [by rewrite Hu|].
  eexists. split; [done|]. unfold replied, open_link. cbn. by rewrite Hl, Hc, app_nil_r.
Qed.

(** The bodies one after the other. *)
Fixpoint body_run {St} (step : Z → FrameBody → St → outcome Empty_set (option (list Z) * St))
    (bs : list (Z * FrameBody)) (s : St) : outcome Empty_set (list (list Z) * St) :=
  match bs with
  | [] => mret ([], s)
  | (now, b) :: bs =>
      '(o, s) ← step now b s;
      '(data, s) ← body_run step bs s;
      mret (option_list o ++ data, s)
  end.

Lemma body_run_app {St} step bs bs' (s : St) data s1 :
  body_run step bs s = Ok (data, s1) →
  body_run step (bs ++ bs') s = ('(data', s2) ← body_run step bs' s1; mret (data ++ data', s2)).
Proof.
  revert s data. induction bs as [|[now b] bs IH]; intros s data H; cbn in H |- *.
  { injection H as <- <-. by destruct (body_run step bs' s) as [[]| |]. }
  destruct (step now b s) as [[o s2]| |]; [|done..]. cbn in H |- *.
  destruct (body_run step bs s2) as [[d s3]| |] eqn:Hr; [|done..]. cbn in H. injection H as <- <-.
  rewrite (IH _ _ Hr). destruct (body_run step bs' s3) as [[]| |]; cbn; by rewrite <-?app_assoc.
Qed.

Implicit Types s : ServerOnline.

Lemma server_connected bs s :
  so_state s = SConnected → open_link (so_link s) →
  ∃ s', body_run server_body bs s = Ok (user_data bs, s') ∧ so_state s' = SConnected ∧
    so_peer s' = so_peer s ∧ so_role s' = so_role s ∧ replied (so_link s) [] (pongs bs) (so_link s').
Proof.
  revert s. induction bs as [|[now b] bs IH]; intros s Hst Hl; cbn [body_run].
  { exists s. split_and!; try done. by apply replied_nothing. }
  assert (∃ s1, server_body (E:=Empty_set) now b s = Ok (match b with FUser d => Some d | _ => None end, s1) ∧
    so_state s1 = SConnected ∧ so_peer s1 = so_peer s ∧ so_role s1 = so_role s ∧
    replied (so_link s) [] (match b with FConnectedPing t => [FConnectedPong t now] | _ => [] end) (so_link s1))
    as (s1 & -> & Hst1 & Hp1 & Hr1 & Hl1).
  { unfold server_body. rewrite Hst. destruct b; try (eexists; split_and!; try done; by apply replied_nothing).
    destruct (send_frame_body_replied (E:=Empty_set) (FConnectedPong client_timestamp now) (so_link s) Hl) as (l & -> & Hrep).
    by eexists. }
  destruct (IH s1 Hst1) as (s2 & Hrun & Hst2 & Hp2 & Hr2 & Hl2); [apply Hl1|].
  exists s2. cbn. rewrite Hrun. split_and!; [by destruct b|done|congruence|congruence|].
  pose proof (replied_trans _ _ _ _ _ _ _ Hl1 Hl2) as Hl3. by destruct b.
Qed.

Lemma server_waiting bs s :
  so_state s = WaitNewIncomingConn → open_link (so_link s) →
  ∃ s', body_run server_body bs s = Ok (user_data bs, s') ∧
    so_state s' = (if existsb is_new_incoming bs then SConnected else WaitNewIncomingConn) ∧
    so_peer s' = so_peer s ∧ so_role s' = so_role s ∧
    replied (so_link s) [] (pongs (after is_new_incoming bs)) (so_link s').
Proof.
  revert s. induction bs as [|[now b] bs IH]; intros s Hst Hl; cbn [body_run].
  { exists s. split_and!; try done. by apply replied_nothing. }
  destruct (is_new_incoming (now, b)) eqn:Hb.
  - assert (server_body (E:=Empty_set) now b s = Ok (None, set_so SConnected (so_link s) s)) as ->.
    { unfold server_body. rewrite Hst. by destruct b. }
    destruct (server_connected bs (set_so SConnected (so_link s) s)) as (s' & Hrun & ? & ? & ? & ?); [done|done|].
    exists s'. cbn [mbind outcome_bind]. rewrite Hrun. cbn [after existsb]. rewrite Hb. split_and!; try done. by destruct b.
  - assert (server_body (E:=Empty_set) now b s = Ok (match b with FUser d => Some d | _ => None end, s)) as ->.
    { unfold server_body. rewrite Hst. by destruct b. }
    destruct (IH s Hst Hl) as (s' & Hrun & ? & ? & ? & ?). exists s'. cbn [mbind outcome_bind]. rewrite Hrun.
    cbn [after existsb]. rewrite Hb. split_and!; try done. by destruct b.
Qed.

(** The state of the handler of a server that has received [bs]. *)
Definition server_state (bs : list (Z * FrameBody)) : HandshakeState :=
  if existsb is_request bs then
    if existsb is_new_incoming (after is_request bs) then SConnected else WaitNewIncomingConn
  else WaitConnRequest.

(** The whole life of the handler of a server. *)
Lemma server_from_start bs s :
  so_state s = WaitConnRequest → open_link (so_link s) →
  ∃ s', body_run server_body bs s = Ok (user_data (after is_request bs), s') ∧
    so_state s' = server_state bs ∧
    replied (so_link s)
      (replicate (length (List.filter is_encrypted_request (before is_request bs)))
        (UConnectionRequestFailed (Role_guid (so_role s))))
      (acceptance (so_peer s) bs ++ pongs (after is_new_incoming (after is_request bs))) (so_link s').
Proof.
  revert s. induction bs as [|[now b] bs IH]; intros s Hst Hl; cbn [body_run].
  { exists s. split_and!; [done|done|]. by apply replied_nothing. }
  unfold server_state. cbn [existsb]. destruct (is_request (now, b)) eqn:Hb.
  - destruct b as [| |g t []| | | | |]; try done.
    set (acc := FConnectionRequestAccepted (peer_addr (so_peer s)) 0
      (replicate 20 (system_addr (peer_addr (so_peer s)))) t now).
    destruct (send_frame_body_replied (E:=Empty_set) acc (so_link s) Hl) as (l & Hsend & Hrep).
    assert (server_body (E:=Empty_set) now (FConnectionRequest g t false) s = Ok (None, set_so WaitNewIncomingConn l s)) as ->.
    { unfold server_body. rewrite Hst. cbn [mbind outcome_bind]. fold acc. by rewrite Hsend. }
    cbn [mbind outcome_bind].
    destruct (server_waiting bs (set_so WaitNewIncomingConn l s)) as (s' & Hrun & Hs' & ? & ? & Hl'); [done|apply Hrep|].
    rewrite Hrun. exists s'. cbn [mbind outcome_bind mret outcome_ret option_list app]. split_and!; [done|done|].
    exact (replied_trans _ _ _ _ _ _ _ Hrep Hl').
  - cbn [before after acceptance List.find]. rewrite Hb.
    assert (∃ s1, server_body (E:=Empty_set) now b s = Ok (None, s1) ∧ so_state s1 = WaitConnRequest ∧
      so_role s1 = so_role s ∧ so_peer s1 = so_peer s ∧
      replied (so_link s) (if is_encrypted_request (now, b) then [UConnectionRequestFailed (Role_guid (so_role s))] else [])
        [] (so_link s1)) as (s1 & -> & Hst1 & Hr1 & Hp1 & Hl1).
    { unfold server_body. rewrite Hst. destruct b as [| |? ? []| | | | |]; try done;
        try (exists s; split_and!; try done; by apply replied_nothing).
      destruct (send_unconnected_replied (E:=Empty_set) (UConnectionRequestFailed (Role_guid (so_role s))) (so_link s) Hl)
        as (l & -> & Hrep). by eexists. }
    destruct (IH s1 Hst1) as (s' & Hrun & Hs' & Hl2); [apply Hl1|].
    exists s'. cbn [mbind outcome_bind orb]. rewrite Hrun. split_and!; [done|exact Hs'|]. rewrite Hr1, Hp1 in Hl2.
    pose proof (replied_trans _ _ _ _ _ _ _ Hl1 Hl2) as Hl3. cbn [List.filter]. unfold acceptance in Hl3 |- *. cbn [List.find].
    rewrite Hb. by destruct (is_encrypted_request (now, b)).
Qed.

(** The polls of a handler run the bodies that they take. *)
Lemma online_polls {St} (step : Z → FrameBody → St → outcome Empty_set (option (list Z) * St))
    (poll_next : layer St timed_answer (item_answer (list Z))) n st st' bs up data :
  (∀ up st, poll_next st up = match up with
    | [] => mret (Pending, st, [])
    | (_, Pending) :: up => mret (Pending, st, up)
    | (_, Ready None) :: up => mret (Ready None, st, up)
    | (now, Ready (Some body)) :: up =>
        '(o, st) ← step now body st;
        match o with Some data => mret (Ready (Some data), st, up) | None => poll_next st up end
    end) →
  timed_bodies up = bs → body_run step bs st = Ok (data, st') → (length up ≤ n)%nat →
  ∃ out, polls poll_next n st up = Ok (out, st', []) ∧ feed_items out = data.
Proof.
  intros Hstep. revert n st bs data.
  (* one poll takes a prefix of the tape and runs its bodies *)
  assert (∀ up st data, body_run step (timed_bodies up) st = Ok (data, st') →
    ∃ a st1 up1 d1 d2, poll_next st up = Ok (a, st1, up1) ∧ (length up1 ≤ length up - 1)%nat ∧
      data = d1 ++ d2 ∧ feed_items [a] = d1 ∧ body_run step (timed_bodies up1) st1 = Ok (d2, st')) as Hone.
  { intros u. induction u as [|[now a] u IH]; intros st data H; rewrite Hstep.
    { by eexists _, _, _, [], data. }
    destruct a as [[b|]|]; [|by eexists _, _, _, [], data; split_and!; try done; cbn; lia..].
    change (timed_bodies ((now, Ready (Some b)) :: u)) with ((now, b) :: timed_bodies u) in H. cbn [body_run] in H.
    destruct (step now b st) as [[o st1]| |]; [|done..]. cbn [mbind outcome_bind] in H |- *.
    destruct (body_run step (timed_bodies u) st1) as [[d2 st2]| |] eqn:Hrun; [|done..]. cbn in H. injection H as <- <-.
    destruct o as [d|].
    - eexists _, _, _, [d], d2. split_and!; try done. cbn. lia.
    - destruct (IH st1 d2 Hrun) as (a & st3 & up3 & d3 & d4 & -> & Hlen & -> & ? & ?).
      eexists _, _, _, d3, d4. split_and!; try done. cbn. lia. }
  intros n st bs data <- Hrun Hlen. revert up st data Hrun Hlen. induction n as [|n IH]; intros up st data Hrun Hlen.
  - destruct up; [|cbn in Hlen; lia]. cbn in Hrun. injection Hrun as <- <-. by exists [].
  - destruct (Hone up st data Hrun) as (a & st1 & up1 & d1 & d2 & Hp & Hl1 & -> & Ha & Hrun1).
    destruct (IH up1 st1 d2 Hrun1) as (out & Hp2 & Ho); [lia|].
    cbn [polls]. rewrite Hp. cbn [mbind outcome_bind]. rewrite Hp2. eexists. split; [done|].
    change (a :: out) with ([a] ++ out). by rewrite feed_items_app, Ha, Ho.
Qed.
End runs.

Lemma server_run_exact {CQ : ConcurrentQueueCrate} role peer (l : TransferLink) n up :
  open_link l → (length up ≤ n)%nat →
  let bs := timed_bodies up in
  ∃ out s', polls ServerOnline_poll_next n (server_handle_online role peer l) up = Ok (out, s', []) ∧
    feed_items out = user_data (after is_request bs) ∧ so_state s' = server_state bs ∧
    cq_list (link_frame_body (so_link s')) = cq_list (link_frame_body l) ++
      acceptance peer bs ++ pongs (after is_new_incoming (after is_request bs)) ∧
    cq_list (link_unconnected (so_link s')) = cq_list (link_unconnected l) ++
      replicate (length (List.filter is_encrypted_request (before is_request bs))) (UConnectionRequestFailed (Role_guid role)).
Proof.
  intros Hl Hn bs.
  destruct (server_from_start bs (server_handle_online role peer l)) as (s' & Hrun & Hst & _ & H1 & H2); [done|done|].
  destruct (online_polls server_body ServerOnline_poll_next n (server_handle_online role peer l) s' bs up
    (user_data (after is_request bs))) as (out & Hp & Ho); [|done..|].
  { by intros [|[now [[]|]] u] st. }
  by exists out, s'.
Qed.

(** C18. The server's end is exact: over an open link and polled to the end of what
    it receives, it passes on the data of the user, in order, that comes after the
    first plain connection request and nothing before it; it puts into the link the
    acceptance of that request and one pong, in order, for every ping that comes
    after the client confirmed; it refuses every encrypted request before; and it
    is connected once the client confirmed after the request.  (That data is passed
    on before the client confirmed is what the code does; its comment calls it
    wrong, as the client should finish the handshake first.) *)
Theorem ServerOnline_exact {CQ : ConcurrentQueueCrate} role peer (l : TransferLink) n up :
  open_link l → (length up ≤ n)%nat →
  let bs := timed_bodies up in
  ∃ out s', polls ServerOnline_poll_next n (server_handle_online role peer l) up = Ok (out, s', []) ∧
    feed_items out = user_data (after is_request bs) ∧ so_state s' = server_state bs ∧
    cq_list (link_frame_body (so_link s')) = cq_list (link_frame_body l) ++
      acceptance peer bs ++ pongs (after is_new_incoming (after is_request bs)) ∧
    cq_list (link_unconnected (so_link s')) = cq_list (link_unconnected l) ++
      replicate (length (List.filter is_encrypted_request (before is_request bs))) (UConnectionRequestFailed (Role_guid role)).
Proof. exact (server_run_exact role peer l n up). Qed.

(** ** The end of the client *)

Section client_runs.
Context {CQ : ConcurrentQueueCrate}.
Implicit Types s : ClientOnline.

Lemma client_connected bs s :
  cn_state s = CConnected → open_link (cn_link s) →
  ∃ s', body_run client_body bs s = Ok (user_data bs, s') ∧ cn_state s' = CConnected ∧
    replied (cn_link s) [] (pings bs) (cn_link s').
Proof.
  revert s. induction bs as [|[now b] bs IH]; intros s Hst Hl; cbn [body_run].
  { exists s. split_and!; [done|done|]. by apply replied_nothing. }
  assert (∃ s1, client_body (E:=Empty_set) now b s = Ok (match b with FUser d => Some d | _ => None end, s1) ∧
    cn_state s1 = CConnected ∧
    replied (cn_link s) [] (match b with FDetectLostConnections => [FConnectedPing now] | _ => [] end) (cn_link s1))
    as (s1 & -> & Hst1 & Hl1).
  { unfold client_body. rewrite Hst. destruct b; try (eexists; split_and!; try done; by apply replied_nothing).
    destruct (send_frame_body_replied (E:=Empty_set) (FConnectedPing now) (cn_link s) Hl) as (l & -> & Hrep).
    by eexists. }
  destruct (IH s1 Hst1) as (s2 & Hrun & Hs2 & Hl2); [apply Hl1|].
  exists s2. cbn. rewrite Hrun. split_and!; [by destruct b|done|].
  pose proof (replied_trans _ _ _ _ _ _ _ Hl1 Hl2) as Hl3. by destruct b.
Qed.

(** The state of the handler of a client that has received [bs]. *)
Definition client_state (bs : list (Z * FrameBody)) : ClientOnlineState :=
  if existsb is_accepted bs then CConnected else WaitConnRes.

Lemma client_from_start bs s :
  cn_state s = WaitConnRes → open_link (cn_link s) →
  ∃ s', body_run client_body bs s = Ok (user_data bs, s') ∧ cn_state s' = client_state bs ∧
    replied (cn_link s) [] (confirmation (cn_addr s) bs ++ pings (after is_accepted bs)) (cn_link s').
Proof.
  revert s. induction bs as [|[now b] bs IH]; intros s Hst Hl; cbn [body_run].
  { exists s. split_and!; [done|done|]. by apply replied_nothing. }
  unfold client_state. cbn [existsb]. destruct (is_accepted (now, b)) eqn:Hb.
  - destruct b as [| | |a i addrs t t'| | | |]; try done.
    set (conf := FNewIncomingConnection (cn_addr s) addrs now t').
    destruct (send_frame_body_replied (E:=Empty_set) conf (cn_link s) Hl) as (l & Hsend & Hrep).
    assert (client_body (E:=Empty_set) now (FConnectionRequestAccepted a i addrs t t') s = Ok (None, set_cn CConnected l s)) as ->.
    { unfold client_body. rewrite Hst. cbn [mbind outcome_bind]. fold conf. by rewrite Hsend. }
    destruct (client_connected bs (set_cn CConnected l s)) as (s' & Hrun & Hs' & Hl'); [done|apply Hrep|].
    cbn [mbind outcome_bind]. rewrite Hrun. exists s'. split_and!; [done|done|]. exact (replied_trans _ _ _ _ _ _ _ Hrep Hl').
  - assert (client_body (E:=Empty_set) now b s = Ok (match b with FUser d => Some d | _ => None end, s)) as ->.
    { unfold client_body. rewrite Hst. by destruct b. }
    destruct (IH s Hst Hl) as (s' & Hrun & Hs' & Hl'). exists s'. cbn [mbind outcome_bind]. rewrite Hrun.
    unfold confirmation. cbn [after List.find]. rewrite Hb. split_and!; [by destruct b|exact Hs'|done].
Qed.
End client_runs.

Lemma client_run_exact {CQ : ConcurrentQueueCrate} t addr guid (l : TransferLink) n up :
  open_link l → (length up ≤ n)%nat →
  let bs := timed_bodies up in
  ∃ s out s', client_handle_online (E:=Empty_set) t addr guid l = Ok s ∧
    polls ClientOnline_poll_next n s up = Ok (out, s', []) ∧ feed_items out = user_data bs ∧
    cn_state s' = client_state bs ∧
    cq_list (link_frame_body (cn_link s')) = cq_list (link_frame_body l) ++
      FConnectionRequest guid t false :: confirmation addr bs ++ pings (after is_accepted bs).
Proof.
  intros Hl Hn bs. unfold client_handle_online.
  destruct (send_frame_body_replied (E:=Empty_set) (FConnectionRequest guid t false) l Hl) as (l1 & -> & Hrep).
  cbn [mbind outcome_bind mret outcome_ret]. set (s := mkClientOnline _ _ _ _).
  destruct (client_from_start bs s) as (s' & Hrun & Hs' & Hl2); [done|apply Hrep|].
  destruct (online_polls client_body ClientOnline_poll_next n s s' bs up (user_data bs)) as (out & Hp & Ho); [|done..|].
  { by intros [|[now [[]|]] u] st. }
  exists s, out, s'. split_and!; try done.
  apply (replied_trans _ _ _ _ _ _ _ Hrep Hl2).
Qed.

(** C19. The client's end is exact: over an open link and polled to the end of what
    it receives, it passes on the data of the user in order, and it puts into the
    link its connection request, the confirmation of the first acceptance and one
    ping for every lost-connection probe that comes after it; it is connected once
    an acceptance came.  (That data is passed on before the acceptance is what the
    code does; its comment says that it should be ignored.) *)
Theorem ClientOnline_exact {CQ : ConcurrentQueueCrate} t addr guid (l : TransferLink) n up :
  open_link l → (length up ≤ n)%nat →
  let bs := timed_bodies up in
  ∃ s out s', client_handle_online (E:=Empty_set) t addr guid l = Ok s ∧
    polls ClientOnline_poll_next n s up = Ok (out, s', []) ∧ feed_items out = user_data bs ∧
    cn_state s' = client_state bs ∧
    cq_list (link_frame_body (cn_link s')) = cq_list (link_frame_body l) ++
      FConnectionRequest guid t false :: confirmation addr bs ++ pings (after is_accepted bs).
Proof. exact (client_run_exact t addr guid l n up). Qed.

(** ** The two ends together *)

(** The bodies that are not skipped, without their times. *)
Definition bodies_but (skip : FrameBody → bool) (bs : list (Z * FrameBody)) : list FrameBody :=
  bs ≫= λ x, if skip x.2 then [] else [x.2].

Definition is_user (b : FrameBody) : bool := match b with FUser _ => true | _ => false end.
Definition is_user_or_probe (b : FrameBody) : bool :=
  match b with FUser _ | FDetectLostConnections => true | _ => false end.

(** The first body that is not skipped is the first one with [p]. *)
Lemma bodies_but_first skip (p : Z * FrameBody → bool) bs b rest :
  bodies_but skip bs = b :: rest → is_user b = false → (∀ t, p (t, b) = true) → (∀ t b', skip b' = true → p (t, b') = false) →
  ∃ t, List.find p bs = Some (t, b) ∧ existsb p bs = true ∧ bodies_but skip (after p bs) = rest ∧
    user_data bs = user_data (before p bs) ++ user_data (after p bs).
Proof.
  intros Hb Hu Hp Hs. induction bs as [|[t b'] bs IH]; [done|]. cbn in Hb |- *. destruct (skip b') eqn:Hsk.
  - rewrite (Hs t b' Hsk). cbn in Hb. destruct (IH Hb) as (t' & H1 & H2 & H3 & H4). exists t'.
    split_and!; try done. unfold user_data in *. cbn. by rewrite H4, app_assoc.
  - cbn in Hb. injection Hb as -> Hb. rewrite Hp. exists t. split_and!; try done. by destruct b.
Qed.

Definition is_ping (b : FrameBody) : Prop := ∃ t, b = FConnectedPing t.
Definition answers (ping pong : FrameBody) : Prop :=
  ∃ t t', ping = FConnectedPing t ∧ pong = FConnectedPong t t'.

Lemma pongs_answer bs ps : bodies_but is_user bs = ps → Forall is_ping ps → Forall2 answers ps (pongs bs).
Proof.
  intros <-. induction bs as [|[t b] bs IH]; intros Hp; [constructor|]. cbn in Hp |- *.
  destruct (is_user b) eqn:Hu; [destruct b; try done; by apply IH|].
  cbn in Hp. apply Forall_cons in Hp as [[t' ->] Hp]. cbn. constructor; [by exists t', t|by apply IH].
Qed.

Lemma pings_pings bs : Forall is_ping (pings bs).
Proof.
  unfold pings. apply Forall_forall. intros b ([t b'] & Hb & _)%list_elem_of_bind. destruct b'; cbn in Hb; try set_solver.
  apply list_elem_of_singleton in Hb as ->. by exists t.
Qed.

Lemma TransferLink_new_open {CQ : ConcurrentQueueCrate} role peer :
  open_link (TransferLink_new role peer) ∧ cq_list (link_frame_body (TransferLink_new role peer)) = [].
Proof.
  unfold open_link. cbn. destruct (cq_new_spec (A:=FrameBody) None), (cq_new_spec (A:=UPacket) None). by split_and!.
Qed.

(** C20. The online handshake completes, however it is interleaved with other traffic:
    take what the two ends of a new connection receive up to some time, each with
    any data of users in between and the client with any lost-connection probes.
    If the other bodies that each end received are those that the other end has put
    into its link, all of them and in order, then both ends are connected; the
    client has put its request, the confirmation of the acceptance and its pings
    into its link, and the server the acceptance and, in order, one pong for every
    ping; the user of the client was given all data that came, and the user of the
    server all that came after the request. *)
Theorem online_handshake_completes {CQ : ConcurrentQueueCrate} role peer peer' addr guid t n m upc ups :
  (length upc ≤ n)%nat → (length ups ≤ m)%nat →
  let bc := timed_bodies upc in
  let bs := timed_bodies ups in
  ∃ c outc c' outs s', client_handle_online (E:=Empty_set) t addr guid (TransferLink_new (Client guid) peer') = Ok c ∧
    polls ClientOnline_poll_next n c upc = Ok (outc, c', []) ∧
    polls ServerOnline_poll_next m (server_handle_online role peer (TransferLink_new role peer)) ups = Ok (outs, s', []) ∧
    let client_sent := cq_list (link_frame_body (cn_link c')) in
    let server_sent := cq_list (link_frame_body (so_link s')) in
    (bodies_but is_user bs = client_sent → bodies_but is_user_or_probe bc = server_sent →
     cn_state c' = CConnected ∧ so_state s' = SConnected ∧
     feed_items outc = user_data bc ∧ user_data bs = user_data (before is_request bs) ++ feed_items outs ∧
     ∃ t2 t3 pings pongs,
       let addrs := replicate 20 (system_addr (peer_addr peer)) in
       client_sent = FConnectionRequest guid t false :: FNewIncomingConnection addr addrs t3 t2 :: pings ∧
       server_sent = FConnectionRequestAccepted (peer_addr peer) 0 addrs t t2 :: pongs ∧ Forall2 answers pings pongs).
Proof.
  intros Hn Hm bc bs. destruct (TransferLink_new_open (Client guid) peer') as [Hlc Hec].
  destruct (TransferLink_new_open role peer) as [Hls Hes].
  destruct (client_run_exact t addr guid _ n upc Hlc Hn) as (c & outc & c' & Hc & Hpc & Hoc & Hstc & Hqc).
  destruct (server_run_exact role peer _ m ups Hls Hm) as (outs & s' & Hps & Hos & Hsts & Hqs & _).
  rewrite Hec in Hqc. rewrite Hes in Hqs. cbn [app] in Hqc, Hqs. fold bc in Hoc, Hstc, Hqc. fold bs in Hos, Hsts, Hqs.
  exists c, outc, c', outs, s'. split_and!; [done..|]. cbn zeta. rewrite Hqc, Hqs. intros Hbs Hbc.
  destruct (bodies_but_first is_user is_request bs _ _ Hbs) as (t2 & F2 & E2 & A2 & U2); [done|done|by intros ? []|].
  unfold acceptance in Hbc |- *. rewrite F2 in Hbc |- *. cbn [app] in Hbc |- *.
  destruct (bodies_but_first is_user_or_probe is_accepted bc _ _ Hbc) as (t3 & F3 & E3 & _ & _); [done|done|by intros ? []|].
  unfold confirmation in A2 |- *. rewrite F3 in A2 |- *. cbn [app] in A2 |- *.
  destruct (bodies_but_first is_user is_new_incoming _ _ _ A2) as (t4 & F4 & E4 & A4 & _); [done|done|by intros ? []|].
  unfold client_state in Hstc. rewrite E3 in Hstc. unfold server_state in Hsts. rewrite E2, E4 in Hsts.
  split_and!; [done|done|done|by rewrite Hos|]. eexists t2, t3, _, _. split_and!; [done|done|].
  apply pongs_answer; [done|apply pings_pings].
Qed.

(** ** Witnesses *)

Definition sample_server_link : TransferLink (CQ:=queue_reference) :=
  TransferLink_new (CQ:=queue_reference) (Server 7) (mkPeer 42 (V4 2130706433 50000) 1400).

Definition sample_bodies_in : list timed_answer :=
  [(1, Ready (Some (FUser [1]))); (2, Ready (Some (FConnectionRequest 42 5 true))); (3, Pending);
   (4, Ready (Some (FConnectionRequest 42 6 false))); (5, Ready (Some (FUser [2])));
   (6, Ready (Some (FNewIncomingConnection (V4 2130706433 19132) [] 7 8))); (9, Ready (Some (FConnectedPing 10)));
   (11, Ready None)].

Lemma ServerOnline_exact_witness :
  ∃ out s', polls ServerOnline_poll_next 8 (server_handle_online (Server 7) (mkPeer 42 (V4 2130706433 50000) 1400) sample_server_link)
      sample_bodies_in = Ok (out, s', []) ∧ feed_items out = [[2]] ∧
    cq_list (ConcurrentQueueCrate:=queue_reference) (link_unconnected (CQ:=queue_reference) (so_link (CQ:=queue_reference) s')) =
      [UConnectionRequestFailed 7].
Proof.
  destruct (ServerOnline_exact (CQ:=queue_reference) (Server 7) (mkPeer 42 (V4 2130706433 50000) 1400) sample_server_link 8
    sample_bodies_in) as (out & s' & H1 & H2 & _ & _ & H4); [done|cbn; lia|].
  by exists out, s'.
Defined.

Lemma ClientOnline_exact_witness :
  ∃ s out s', client_handle_online (E:=Empty_set) 0 (V4 2130706433 19132) 42 sample_server_link = Ok s ∧
    polls ClientOnline_poll_next 2 s [(1, Ready (Some (FUser [1]))); (2, Pending)] = Ok (out, s', []) ∧
    feed_items out = [[1]] ∧
    cq_list (ConcurrentQueueCrate:=queue_reference) (link_frame_body (CQ:=queue_reference) (cn_link (CQ:=queue_reference) s')) =
      [FConnectionRequest 42 0 false].
Proof.
  destruct (ClientOnline_exact (CQ:=queue_reference) 0 (V4 2130706433 19132) 42 sample_server_link 2
    [(1, Ready (Some (FUser [1]))); (2, Pending)]) as (s & out & s' & H1 & H2 & H3 & _ & H4); [done|cbn; lia|].
  by exists s, out, s'.
Defined.

(** A handshake with data of both users, a probe and its ping. *)
Definition sample_server_tape : list timed_answer :=
  [(2, Ready (Some (FConnectionRequest 42 1 false))); (3, Ready (Some (FUser [7]))); (4, Pending);
   (5, Ready (Some (FNewIncomingConnection (V4 2130706433 19132) (replicate 20 (V4 0 0)) 3 2)));
   (6, Ready (Some (FConnectedPing 5)))].
Definition sample_client_tape : list timed_answer :=
  [(3, Ready (Some (FConnectionRequestAccepted (V4 2130706433 50000) 0 (replicate 20 (V4 0 0)) 1 2)));
   (4, Ready (Some (FUser [8]))); (5, Ready (Some FDetectLostConnections)); (8, Ready (Some (FConnectedPong 5 6)))].

Lemma online_handshake_completes_witness :
  ∃ c outc c' outs s',
    client_handle_online (CQ:=queue_reference) (E:=Empty_set) 1 (V4 2130706433 19132) 42
      (TransferLink_new (CQ:=queue_reference) (Client 42) (mkPeer 7 (V4 2130706433 19132) 1400)) = Ok c ∧
    polls (ClientOnline_poll_next (CQ:=queue_reference)) 4 c sample_client_tape = Ok (outc, c', []) ∧
    polls (ServerOnline_poll_next (CQ:=queue_reference)) 5
      (server_handle_online (CQ:=queue_reference) (Server 7) (mkPeer 42 (V4 2130706433 50000) 1400)
        (TransferLink_new (CQ:=queue_reference) (Server 7) (mkPeer 42 (V4 2130706433 50000) 1400))) sample_server_tape = Ok (outs, s', []) ∧
    cn_state (CQ:=queue_reference) c' = CConnected ∧ so_state (CQ:=queue_reference) s' = SConnected ∧
    feed_items outc = [[8]] ∧ feed_items outs = [[7]].
Proof.
  destruct (online_handshake_completes (CQ:=queue_reference) (Server 7) (mkPeer 42 (V4 2130706433 50000) 1400)
    (mkPeer 7 (V4 2130706433 19132) 1400) (V4 2130706433 19132) 42 1 4 5 sample_client_tape sample_server_tape)
    as (c & outc & c' & outs & s' & H1 & H2 & H3 & H4); [cbn; lia|cbn; lia|].
  vm_compute in H1. injection H1 as <-. vm_compute in H2. injection H2 as <- <-. vm_compute in H3. injection H3 as <- <-.
  destruct H4 as (H4 & H5 & H6 & H7 & _); [vm_compute; reflexivity..|].
  eexists _, _, _, _, _. split; [vm_compute; reflexivity|]. split; [vm_compute; reflexivity|]. split; [vm_compute; reflexivity|].
  split; [exact H4|]. split; [exact H5|]. split; [exact H6|vm_compute; reflexivity].
Defined.
