(* ===== verification/Incoming.v ===== *)
(** * The server (src/server/incoming/mod.rs)

    [Config] and its builders, and [Incoming], the stream of connections: it takes
    the connections that were closed out of its table, hands the packets that the
    offline handler passes on to the route of their sender, and opens a connection
    for a sender without a route.  The link of a connection is shared between its
    route and its two halves; the links live in a store, in the order in which they
    were made, and a clone of the socket is a handle of its own. *)
From S2P Require Import Prelude Bytes Errors Reader SeqNum Types PackType Unconnected AckNack FrameSet FrameBody Packet.
From S2P Require Import Stream Sink Collections Dedup DeFragment Order Decoder Channels Reactor Link Encoder Estimator.
From S2P Require Import SendBuffer Resend Opts Reliable Body State Framed ServerOffline Online.
Open Scope Z_scope.

(** ** Configuration *)

Record ServerConfig := mkServerConfig {
  sc_sever_guid : Z;
  sc_advertisement : list Z;
  sc_min_mtu : Z;
  sc_max_mtu : Z;
  sc_support_version : list Z;
  sc_max_pending : Z;
  sc_max_parted_size : Z;
  sc_max_parted_count : nat;
  sc_max_channels : nat;
}.

(** [guid] is what [rand::random] gives. *)
Definition ServerConfig_new (guid : Z) : ServerConfig :=
  mkServerConfig guid [] 510 1500 [9; 11; 13] 1024 256 256 1.

(** The builders; the advertisement is the bytes of its string. *)
Definition config_sever_guid (guid : Z) (c : ServerConfig) : ServerConfig :=
  mkServerConfig guid (sc_advertisement c) (sc_min_mtu c) (sc_max_mtu c) (sc_support_version c) (sc_max_pending c)
    (sc_max_parted_size c) (sc_max_parted_count c) (sc_max_channels c).
Definition config_advertisement (a : list Z) (c : ServerConfig) : ServerConfig :=
  mkServerConfig (sc_sever_guid c) a (sc_min_mtu c) (sc_max_mtu c) (sc_support_version c) (sc_max_pending c)
    (sc_max_parted_size c) (sc_max_parted_count c) (sc_max_channels c).
Definition config_min_mtu (mtu : Z) (c : ServerConfig) : ServerConfig :=
  mkServerConfig (sc_sever_guid c) (sc_advertisement c) mtu (sc_max_mtu c) (sc_support_version c) (sc_max_pending c)
    (sc_max_parted_size c) (sc_max_parted_count c) (sc_max_channels c).
Definition config_max_mtu (mtu : Z) (c : ServerConfig) : ServerConfig :=
  mkServerConfig (sc_sever_guid c) (sc_advertisement c) (sc_min_mtu c) mtu (sc_support_version c) (sc_max_pending c)
    (sc_max_parted_size c) (sc_max_parted_count c) (sc_max_channels c).
Definition config_support_version (version : list Z) (c : ServerConfig) : ServerConfig :=
  mkServerConfig (sc_sever_guid c) (sc_advertisement c) (sc_min_mtu c) (sc_max_mtu c) (merge_sort Z.le version)
    (sc_max_pending c) (sc_max_parted_size c) (sc_max_parted_count c) (sc_max_channels c).
Definition config_max_pending (pending : Z) (c : ServerConfig) : ServerConfig :=
  mkServerConfig (sc_sever_guid c) (sc_advertisement c) (sc_min_mtu c) (sc_max_mtu c) (sc_support_version c) pending
    (sc_max_parted_size c) (sc_max_parted_count c) (sc_max_channels c).
Definition config_max_parted_size (size : Z) (c : ServerConfig) : ServerConfig :=
  mkServerConfig (sc_sever_guid c) (sc_advertisement c) (sc_min_mtu c) (sc_max_mtu c) (sc_support_version c)
    (sc_max_pending c) size (sc_max_parted_count c) (sc_max_channels c).
Definition config_max_parted_count (count : nat) (c : ServerConfig) : ServerConfig :=
  mkServerConfig (sc_sever_guid c) (sc_advertisement c) (sc_min_mtu c) (sc_max_mtu c) (sc_support_version c)
    (sc_max_pending c) (sc_max_parted_size c) count (sc_max_channels c).
Definition config_max_channels {E} (channels : nat) (c : ServerConfig) : outcome E ServerConfig :=
  assert_ (bool_decide (channels < 256)%nat);;
  mret (mkServerConfig (sc_sever_guid c) (sc_advertisement c) (sc_min_mtu c) (sc_max_mtu c) (sc_support_version c)
    (sc_max_pending c) (sc_max_parted_size c) (sc_max_parted_count c) channels).

Definition offline_config (c : ServerConfig) : OfflineConfig :=
  mkOfflineConfig (sc_sever_guid c) (sc_advertisement c) (sc_min_mtu c) (sc_max_mtu c) (sc_support_version c)
    (sc_max_pending c).

Definition codec_config (c : ServerConfig) : CodecConfig :=
  mkCodecConfig (sc_max_parted_size c) (sc_max_parted_count c) (sc_max_channels c).

Definition server_role (c : ServerConfig) : Role := Server (sc_sever_guid c).

(** ** Connections *)

Section incoming.
Context {B : Build} {BC : BytesCrate} {BH : BinaryHeap} {LC : LruCrate} {HI : HashIter}.
Context {CQ : ConcurrentQueueCrate} {AC : AsyncChannelCrate} {T : Type} `{!AsyncSocket T}.

(** The receiving half: the states of its layers. *)
Record Source := mkSource {
  src_dedup : DuplicateWindow;
  src_defrag : DeFragment;
  src_order : Order;
  src_state : IncomingState;
  src_online : ServerOnline;
}.

(** The sending half. *)
Definition Destination : Type :=
  ConnectionInfoWrapper (StateManager (BodyEncoder (FragmentSink (ReliableLayer (F:=Framed T) (T:=RFC6298Impl)))) OutgoingState).

(** What [Incoming] yields, with the name of the link that its halves share. *)
Record Connection := mkConnection {
  conn_link : nat;
  conn_src : Source;
  conn_dst : Destination;
}.

Definition conn_addr (c : Connection) : SocketAddr := info_remote_addr (conn_dst c).

Record Incoming := mkIncoming {
  in_offline : OfflineHandler (Framed T);
  in_config : ServerConfig;
  in_socket : T;
  in_router : gmap SocketAddr (Route * nat);
  in_links : list TransferLink;
  in_close_events : cq SocketAddr;
  in_reactor : Reactor;
}.

Definition Incoming_new {E} (socket : T) (config : ServerConfig) (r : Reactor) : outcome E Incoming :=
  h ← OfflineHandler_new (Framed_new socket (sc_max_mtu config)) (offline_config config);
  mret (mkIncoming h config socket ∅ [] (cq_new None) r).

Definition set_in_offline (h : OfflineHandler (Framed T)) (s : Incoming) : Incoming :=
  mkIncoming h (in_config s) (in_socket s) (in_router s) (in_links s) (in_close_events s) (in_reactor s).
Definition set_in_events (q : cq SocketAddr) (s : Incoming) : Incoming :=
  mkIncoming (in_offline s) (in_config s) (in_socket s) (in_router s) (in_links s) q (in_reactor s).
Definition set_in_routes (rt : gmap SocketAddr (Route * nat)) (links : list TransferLink) (r : Reactor) (s : Incoming) :
    Incoming :=
  mkIncoming (in_offline s) (in_config s) (in_socket s) rt links (in_close_events s) r.

(** [for ev in this.close_events.try_iter()]: the events are taken one by one. *)
Fixpoint close_all {E} (evs : list SocketAddr) (s : Incoming) : outcome E Incoming :=
  match evs with
  | [] => mret s
  | ev :: evs =>
      match in_router s !! ev with
      | None => Panic
      | Some _ =>
          close_all evs (mkIncoming (disconnect ev (in_offline s)) (in_config s) (in_socket s)
            (delete ev (in_router s)) (in_links s) (in_close_events s) (in_reactor s))
      end
  end.

Definition process_closes {E} (s : Incoming) : outcome E Incoming :=
  let '(evs, q) := cq_try_iter (in_close_events s) in
  close_all evs (set_in_events q s).

(** A packet for a route that exists. *)
Definition route_packet {E} (now : Z) (pack : CPacket) (a : SocketAddr) (rt : Route) (l : nat) (s : Incoming) :
    outcome E Incoming :=
  match in_links s !! l with
  | None => Panic
  | Some link =>
      '(_, rt, link, r, _) ← Route_deliver now pack rt link (in_reactor s);
      mret (set_in_routes (<[a := (rt, l)]> (in_router s)) (<[l := link]> (in_links s)) r s)
  end.

(** The sinks of a new connection. *)
Definition new_destination (now : Z) (waker : nat) (peer : Peer) (link : TransferLink) (s : Incoming) : Destination :=
  let role := server_role (in_config s) in
  wrap_connection_info
    (manage_outgoing_state
      (frame_encoded
        (wrap_reliable (Framed_new (in_socket s) (sc_max_mtu (in_config s)))
          (mkWorld link (in_reactor s) now waker None) peer role RFC6298_new)
        (peer_mtu peer) (codec_config (in_config s)))
      (Some (CloseOnDrop_new (peer_addr peer))) (in_close_events s))
    peer.

(** The streams of a new connection. *)
Definition new_source {E} (peer : Peer) (link : TransferLink) (config : ServerConfig) : outcome E Source :=
  let codec := codec_config config in
  d ← defragmented (max_parted_size codec) (max_parted_count codec);
  o ← ordered_layer (cfg_max_channels codec);
  mret (mkSource DuplicateWindow_default d o manage_incoming_state
    (server_handle_online (server_role config) peer link)).

(** A packet of a peer without a route: a new connection. *)
Definition accept {E} (now : Z) (waker : nat) (pack : CPacket) (peer : Peer) (s : Incoming) :
    outcome E (Connection * Incoming) :=
  let link := TransferLink_new (server_role (in_config s)) peer in
  '(_, rt, link, r, _) ← Route_deliver now pack Route_new link (in_reactor s);
  let l := length (in_links s) in
  let s := set_in_routes (<[peer_addr peer := (rt, l)]> (in_router s)) (in_links s ++ [link]) r s in
  let dst := new_destination now waker peer link s in
  src ← new_source peer link (in_config s);
  mret (mkConnection l src dst, s).

(** The [loop] of [poll_next]; every round but the last takes packets of the tape. *)
Fixpoint incoming_loop (fuel : nat) (now : Z) (waker : nat) (up : offline_tape) (s : Incoming) :
    outcome spinning (item_answer Connection * Incoming * offline_tape) :=
  match fuel with
  | O => Err OutOfFuel
  | S fuel =>
      '(a, h, up) ← Offline_poll_next (in_offline s) up;
      let s := set_in_offline h s in
      match a with
      | Pending => mret (Pending, s, up)
      | Ready None => mret (Ready None, s, up)
      | Ready (Some (pack, peer)) =>
          match in_router s !! peer_addr peer with
          | Some (rt, l) => s ← route_packet now pack (peer_addr peer) rt l s; incoming_loop fuel now waker up s
          | None => '(c, s) ← accept now waker pack peer s; mret (Ready (Some c), s, up)
          end
      end
  end.

Definition Server_poll_next (now : Z) (waker : nat) (s : Incoming) (up : offline_tape) :
    outcome spinning (item_answer Connection * Incoming * offline_tape) :=
  s ← process_closes s;
  incoming_loop (S (length up)) now waker up s.
End incoming.

(** ** Lemmas on routes and sockets *)

(** A packet that a route takes: a frame set below the last sequence number. *)
Definition routable (pack : CPacket) : Prop :=
  match pack with CFrameSet fs => countable (seq_num fs) | _ => True end.

Lemma Route_deliver_returns {B : Build} {BH : BinaryHeap} {CQ : ConcurrentQueueCrate} {AC : AsyncChannelCrate} {E}
    now pack rt l r :
  routable pack → 0 ≤ seq_read rt →
  ∃ ok rt' l' r' woken, Route_deliver (E:=E) now pack rt l r = Ok (ok, rt', l', r', woken) ∧ 0 ≤ seq_read rt'.
Proof.
  intros Hp Hs. unfold Route_deliver. destruct (chan_closed (router_tx rt)); [by eexists _, _, _, _, _|].
  destruct pack as [fs|a|a]; [|destruct (incoming_ack now a l r) as [[? ?] ?]; by eexists _, _, _, _, _|by eexists _, _, _, _, _].
  cbn in Hp. destruct Hp as [Hp1 Hp2].
  assert (∃ read nack, (if seq_read rt <=? seq_num fs then
      next ← u24_add (E:=E) (seq_num fs) 1;
      nack ← insert_gap (u24_range (u24_to_u32 (seq_read rt)) (u24_to_u32 (seq_num fs))) (outgoing_nack l ∖ {[seq_num fs]});
      mret (next, nack)
    else mret (seq_read rt, outgoing_nack l ∖ {[seq_num fs]})) = Ok (read, nack) ∧ 0 ≤ read) as (read & nack & -> & Hr).
  { destruct (seq_read rt <=? seq_num fs); [|by eexists _, _].
    rewrite u24_add_Ok by lia. cbn [mbind outcome_bind]. unfold u24_to_u32.
    destruct (insert_gap_spec (E:=E) (seq_read rt) (seq_num fs) (outgoing_nack l ∖ {[seq_num fs]})) as (nack & -> & _); [lia..|].
    eexists _, _. split; [done|]. lia. }
  cbn. destruct (chan_try_send fs (router_tx rt)) as [ok tx]. by eexists _, _, _, _, _.
Qed.

(** The sink of unconnected packets of [Framed] returns from every call. *)
Lemma Framed_returning {B : Build} {BC : BytesCrate} {T} `{!AsyncSocket T} : returning (Framed T) (UPacket * SocketAddr).
Proof.
  assert (∀ s : Framed T, ∃ r, poll_flush_0 s = Ok r) as H.
  { intros s. unfold poll_flush_0. destruct (fr_flushed s); [by eexists|].
    destruct (poll_send_to _ _ _) as [[[]|] t]; by eexists. }
  intros s. split_and!; [apply H| |apply H|apply H]. intros x. by eexists.
Qed.

(** ** The invariant of the server *)

Section server_inv.
Context {B : Build} {BC : BytesCrate} {BH : BinaryHeap} {LC : LruCrate} {HI : HashIter}.
Context {CQ : ConcurrentQueueCrate} {AC : AsyncChannelCrate} {T : Type} `{!AsyncSocket T}.
Context (config : ServerConfig).

Definition server_config_ok : Prop :=
  config_ok (offline_config config) ∧ sc_max_parted_count config ≠ 0%nat ∧ (0 < sc_max_channels config < 256)%nat.

(** [live]: the connections that have not reported their close; [evs]: the reports
    that are still to be handled. *)
Record server_inv (past : offline_tape) (live evs : list SocketAddr) (s : Incoming (T:=T)) : Prop := {
  si_config : in_config s = config;
  si_offline : offline_inv (offline_config config) past (in_offline s);
  si_cap : cq_cap (in_close_events s) = None;
  si_router : ∀ a, a ∈ dom (in_router s) ↔ a ∈ live ++ evs;
  si_nodup : NoDup (live ++ evs);
  si_routes : map_Forall (λ _ e, 0 ≤ seq_read e.1 ∧ (e.2 < length (in_links s))%nat) (in_router s);
  si_connected : dom (in_router s) ⊆ dom (oh_connected (in_offline s));
}.

Lemma close_all_inv {E} past live evs s :
  server_inv past live evs s → ∃ s', close_all (E:=E) evs s = Ok s' ∧ server_inv past live [] s' ∧
    in_close_events s' = in_close_events s.
Proof.
  revert s. induction evs as [|ev evs IH]; intros s Hs; [by exists s|]. cbn [close_all]. destruct Hs.
  assert (ev ∈ dom (in_router s)) as Hin by (apply si_router0; set_solver).
  apply elem_of_dom in Hin as [e ->]. apply (IH (mkIncoming _ _ _ _ _ _ _)).
  rewrite <-Permutation_middle in si_nodup0.
  apply NoDup_cons in si_nodup0 as [Hn Hnd].
  split; cbn; try done.
  - by apply disconnect_inv.
  - intros a. rewrite dom_delete, elem_of_difference, si_router0. set_solver.
  - by apply map_Forall_delete.
  - rewrite !dom_delete. set_solver.
Qed.

Lemma process_closes_inv {E} past live s :
  server_inv past live (cq_list (in_close_events s)) s →
  ∃ s', process_closes (E:=E) s = Ok s' ∧ server_inv past live [] s' ∧ cq_list (in_close_events s') = [].
Proof.
  intros Hs. unfold process_closes. destruct (cq_try_iter_spec (in_close_events s)) as (H1 & H2 & H3).
  destruct (cq_try_iter (in_close_events s)) as [evs q]. cbn in H1, H2, H3. subst evs.
  destruct (close_all_inv (E:=E) past live (cq_list (in_close_events s)) (set_in_events q s)) as (s' & -> & Hs' & Hq).
  { destruct Hs. split; cbn; try done. congruence. }
  exists s'. by rewrite Hq.
Qed.

Context (Hok : server_config_ok).

Lemma new_source_Ok {E} peer link : ∃ src, new_source (E:=E) peer link config = Ok src.
Proof.
  destruct Hok as (_ & Hc & Hch). unfold new_source, defragmented, ordered_layer. cbn.
  rewrite (bool_decide_eq_false_2 (sc_max_parted_count config = 0%nat)) by done. cbn. rewrite !bool_decide_eq_true_2 by lia. by eexists.
Qed.

Lemma route_packet_inv {E} past live s now pack a rt l :
  routable pack → server_inv past live [] s → in_router s !! a = Some (rt, l) →
  ∃ s', route_packet (E:=E) now pack a rt l s = Ok s' ∧ server_inv past live [] s' ∧
    in_offline s' = in_offline s ∧ in_close_events s' = in_close_events s.
Proof.
  intros Hp [] Ha. destruct (si_routes0 a _ Ha) as [Hseq Hl]. cbn in Hseq, Hl. unfold route_packet.
  destruct (lookup_lt_is_Some_2 (in_links s) l Hl) as [link ->].
  destruct (Route_deliver_returns (E:=E) now pack rt link (in_reactor s) Hp Hseq) as (ok & rt' & link' & r' & w & -> & Hseq').
  cbn [mbind outcome_bind]. eexists. split; [done|]. split; [|done].
  assert (dom (<[a:=(rt', l)]> (in_router s)) = dom (in_router s)) as Hdom.
  { rewrite dom_insert_L. apply elem_of_dom_2 in Ha. set_solver. }
  split; cbn; try done; rewrite ?Hdom, ?length_insert; try done.
  apply map_Forall_insert_2; [done|]. done.
Qed.

(** The address of a connection that is yielded. *)
Definition conn_addrs (a : item_answer (Connection (T:=T))) : list SocketAddr := conn_addr <$> feed_items [a].

Lemma accept_inv {E} past live s now waker pack peer :
  routable pack → server_inv past live [] s → in_router s !! peer_addr peer = None →
  oh_connected (in_offline s) !! peer_addr peer = Some peer →
  ∃ c s', accept (E:=E) now waker pack peer s = Ok (c, s') ∧ ci_peer (conn_dst c) = peer ∧
    server_inv past (live ++ [peer_addr peer]) [] s' ∧ in_close_events s' = in_close_events s.
Proof.
  intros Hp [] Ha Hc. unfold accept.
  destruct (Route_deliver_returns (E:=E) now pack Route_new (TransferLink_new (server_role (in_config s)) peer) (in_reactor s) Hp)
    as (ok & rt' & link' & r' & w & -> & Hseq'); [done|].
  cbn [mbind outcome_bind in_config set_in_routes]. rewrite si_config0.
  destruct (new_source_Ok (E:=E) peer link') as (src & ->). cbn [mbind outcome_bind].
  eexists _, _. split; [done|]. split; [done|]. split; [|done].
  apply not_elem_of_dom in Ha as Hna. rewrite app_nil_r in *.
  assert (peer_addr peer ∉ live) as Hnl by (by rewrite <-si_router0).
  split; cbn; try done.
  - intros a. rewrite dom_insert_L, app_nil_r, !elem_of_union, elem_of_app, si_router0. set_solver.
  - rewrite app_nil_r. apply NoDup_app. split; [done|]. split; [set_solver|apply NoDup_singleton].
  - apply map_Forall_insert_2; cbn; [rewrite length_app; cbn; split; [done|lia]|].
    eapply map_Forall_impl; [done|]. cbn. intros _ e [? ?]. rewrite length_app. split; [done|lia].
  - rewrite dom_insert_L. apply elem_of_dom_2 in Hc. set_solver.
Qed.

(** The packets that will pass are taken by their routes. *)
Definition tape_routable (up : offline_tape) : Prop :=
  Forall (λ x, match x with Ready (Some (PConnected pack, _)) => routable pack | _ => True end) up.

Definition server_polled (past up : offline_tape) (live : list SocketAddr)
    (r : item_answer (Connection (T:=T)) * Incoming (T:=T) * offline_tape) : Prop :=
  let '(a, s', up') := r in
  ∃ used, up = used ++ up' ∧ server_inv (past ++ used) (live ++ conn_addrs a) [] s' ∧ cq_list (in_close_events s') = [] ∧
    ∀ c, a = Ready (Some c) → (conn_addr c ∉ live) ∧ admitted (offline_config config) (past ++ used) (ci_peer (conn_dst c)).

Lemma offline_passes_routable past up s a h pack peer :
  tape_routable up → offline_inv (offline_config config) past s →
  Offline_poll_next (F:=Framed T) s up = Ok (Ready (Some (pack, peer)), h, a) → routable pack.
Proof.
  intros Hup Hi Hp. pose proof (offline_loop_inv _ (proj1 Hok) past up s Hi) as H.
  unfold Offline_poll_next in Hp. rewrite Hp in H. destruct H as (used & -> & _ & Hadm).
  destruct (Hadm _ _ eq_refl) as [_ Hin]. apply Forall_app in Hup as [Hup _]. rewrite Forall_forall in Hup.
  apply (Hup _ Hin).
Qed.

Lemma incoming_loop_inv fuel now waker past up live s :
  (length up < fuel)%nat → tape_routable up → server_inv past live [] s → cq_list (in_close_events s) = [] →
  ∃ r, incoming_loop fuel now waker up s = Ok r ∧ server_polled past up live r.
Proof.
  revert past up live s. induction fuel as [|fuel IH]; intros past up live s Hf Hup Hs Hq; [lia|]. cbn [incoming_loop].
  pose proof (si_offline _ _ _ _ Hs) as Hi.
  pose proof (offline_loop_inv _ (proj1 Hok) past up (in_offline s) Hi) as Hpost.
  destruct (Offline_poll_next (in_offline s) up) as [[[a h] up1]|e|] eqn:Hpoll;
    unfold Offline_poll_next in Hpoll; rewrite Hpoll in Hpost; [|destruct (Hpost Framed_returning)..].
  cbn [mbind outcome_bind].
  destruct (offline_loop_connected _ (proj1 Hok) past up (in_offline s) a h up1 Hi Hpoll) as [Hsub Hpass].
  destruct Hpost as (used & -> & Hi1 & Hadm).
  set (s1 := set_in_offline h s).
  assert (server_inv (past ++ used) live [] s1) as Hs1.
  { destruct Hs. split; cbn; try done. etrans; [done|]. by apply subseteq_dom. }
  destruct a as [[[pack peer]|]|].
  2,3: eexists; split; [done|]; exists used; split_and!; [done|by rewrite app_nil_r|done|done].
  destruct (Hpass _ _ eq_refl) as [Hcon Hlt]. destruct (Hadm _ _ eq_refl) as [Hadm1 _].
  assert (routable pack) as Hr.
  { eapply (offline_passes_routable past (used ++ up1)); [done|exact Hi|]. unfold Offline_poll_next. exact Hpoll. }
  destruct (in_router s1 !! peer_addr peer) as [[rt l]|] eqn:Hrt.
  - destruct (route_packet_inv (E:=spinning) _ live s1 now pack _ rt l Hr Hs1 Hrt) as (s2 & -> & Hs2 & Ho & He).
    cbn [mbind outcome_bind]. apply Forall_app in Hup as [_ Hup].
    destruct (IH (past ++ used) up1 live s2) as ([[a2 s3] up2] & -> & used2 & -> & Hs3 & Hq3 & Hc3); [lia|done|done|by rewrite He|].
    eexists. split; [done|]. exists (used ++ used2).
    assert ((past ++ used) ++ used2 = past ++ used ++ used2) as Heq by (by rewrite app_assoc).
    rewrite Heq in Hs3, Hc3. rewrite <-app_assoc. by split_and!.
  - destruct (accept_inv (E:=spinning) _ live s1 now waker pack peer Hr Hs1 Hrt Hcon) as (c & s2 & -> & Hpeer & Hs2 & He).
    cbn [mbind outcome_bind]. eexists. split; [done|]. exists used.
    assert (conn_addr c = peer_addr peer) as Haddr by (unfold conn_addr, info_remote_addr; by rewrite Hpeer).
    split_and!; [done| |by rewrite He|].
    + unfold conn_addrs. cbn. by rewrite Haddr.
    + intros ? [= <-]. rewrite Haddr, Hpeer. split; [|done].
      apply not_elem_of_dom in Hrt. rewrite (si_router _ _ _ _ Hs1), app_nil_r in Hrt. done.
Qed.

Lemma Server_poll_inv now waker past up live s :
  tape_routable up → server_inv past live (cq_list (in_close_events s)) s →
  ∃ r, Server_poll_next now waker s up = Ok r ∧ server_polled past up live r.
Proof.
  intros Hup Hs. unfold Server_poll_next.
  destruct (process_closes_inv (E:=spinning) past live s Hs) as (s1 & -> & Hs1 & Hq).
  cbn [mbind outcome_bind]. apply incoming_loop_inv; [lia|done..].
Qed.

(** The states of a server and of its connections: made, polled, and changed by its
    connections, which write to their links, drop their streams and report their
    close, each once. *)
Inductive server_reaches : offline_tape → list SocketAddr → Incoming (T:=T) → Prop :=
| sr_new socket r s : Incoming_new (E:=spinning) socket config r = Ok s → server_reaches [] [] s
| sr_poll past live s now waker used up' a s' :
    server_reaches past live s → tape_routable (used ++ up') →
    Server_poll_next now waker s (used ++ up') = Ok (a, s', up') →
    server_reaches (past ++ used) (live ++ conn_addrs a) s'
| sr_link past live s l link r :
    server_reaches past live s →
    server_reaches past live (set_in_routes (in_router s) (<[l := link]> (in_links s)) r s)
| sr_drop past live s a rt l :
    server_reaches past live s → in_router s !! a = Some (rt, l) →
    server_reaches past live (set_in_routes
      (<[a := (mkRoute (chan_close (router_tx rt)) (seq_read rt), l)]> (in_router s)) (in_links s) (in_reactor s) s)
| sr_report past live1 a live2 s q :
    server_reaches past (live1 ++ a :: live2) s →
    CloseOnDrop_drop (E:=spinning) (CloseOnDrop_new a) (in_close_events s) = Ok q →
    server_reaches past (live1 ++ live2) (set_in_events q s).

Lemma server_reaches_inv past live s :
  server_reaches past live s → server_inv past live (cq_list (in_close_events s)) s.
Proof.
  induction 1 as [socket r s Hs|past live s now waker used up' a s' _ IH Hup Hp|past live s l link r _ IH
    |past live s a rt l _ IH Ha|past live1 a live2 s q _ IH Hq].
  - unfold Incoming_new in Hs. apply outcome_bind_Ok in Hs as (h & Hh & [= <-]).
    destruct (cq_new_spec (A:=SocketAddr) None) as [Hl Hc].
    destruct (reaches_inv _ (proj1 Hok) (Framed_new socket (sc_max_mtu config)) [] h []) as [Hi _]; [by constructor|].
    split; cbn -[dom]; rewrite ?Hl; try done; [intros a; rewrite dom_empty_L; set_solver|by apply NoDup_nil].
  - destruct (Server_poll_inv now waker past (used ++ up') live s Hup IH) as (r & Hr & Hpost).
    rewrite Hp in Hr. injection Hr as <-. destruct Hpost as (used' & Hu & Hi & Hq & _).
    apply app_inv_tail in Hu as <-. by rewrite Hq.
  - destruct IH. split; cbn; try done. by rewrite length_insert.
  - destruct IH. assert (dom (<[a:=(mkRoute (chan_close (router_tx rt)) (seq_read rt), l)]> (in_router s)) = dom (in_router s)) as Hd.
    { rewrite dom_insert_L. apply elem_of_dom_2 in Ha. set_solver. }
    split; cbn; rewrite ?Hd; try done. apply map_Forall_insert_2; [|done]. by apply (si_routes0 a _ Ha).
  - unfold CloseOnDrop_drop in Hq. cbn in Hq. destruct IH.
    destruct (cq_push_spec a (in_close_events s)) as (q' & Hpush & Hl & Hc); [by rewrite si_cap0|].
    rewrite Hpush in Hq. injection Hq as <-.
    assert ((live1 ++ a :: live2) ++ cq_list (in_close_events s) ≡ₚ (live1 ++ live2) ++ cq_list (in_close_events s) ++ [a]) as Hperm
      by (by solve_Permutation).
    split; cbn; rewrite ?Hl; try done; [congruence| |].
    + intros b. by rewrite si_router0, Hperm.
    + by rewrite <-Hperm.
Qed.
End server_inv.


(** ** Builders and defaults *)

(** What the builders of the configuration keep: the versions are sorted whatever
    the caller gives, and the defaults are a configuration that the server runs with. *)
Lemma ServerConfig_new_ok guid : server_config_ok (ServerConfig_new guid).
Proof. unfold server_config_ok, config_ok. split_and!; cbn; try done; try lia. repeat constructor; lia. Qed.

Lemma config_support_version_ok versions c :
  versions ≠ [] → server_config_ok c → server_config_ok (config_support_version versions c).
Proof.
  intros Hne ((_ & _ & H3 & H4) & H5 & H6). unfold server_config_ok, config_ok. split_and!; cbn; try done; try apply H6.
  - apply StronglySorted_merge_sort; apply _.
  - intros Hn. apply Hne. apply Permutation_nil. rewrite <-Hn. apply merge_sort_Permutation.
Qed.

(** ** Witnesses *)

Definition sample_server_config : ServerConfig := config_max_pending 2 (ServerConfig_new 7).

Lemma sample_server_config_ok : server_config_ok sample_server_config.
Proof. unfold server_config_ok, config_ok. split_and!; cbn; try done; try lia. repeat constructor; lia. Defined.

Section sample.
Local Instance sample_build : Build := true.
Local Instance sample_bytes : BytesCrate := bytes_reference.
Local Instance sample_heap : BinaryHeap := heap_sorted.
Local Instance sample_lru : LruCrate := lru_reference.
Local Instance sample_hash : HashIter := hash_iter_reference.
Local Instance sample_queue : ConcurrentQueueCrate := queue_reference.
Local Instance sample_channel : AsyncChannelCrate := channel_reference.

Definition sample_incoming : Incoming (T:=OpenLog) :=
  mkIncoming
    (mkOfflineHandler (Framed_new (mkOpenLog []) 1500) (offline_config sample_server_config) (lru_new 2) ∅ Listening (Server 7))
    sample_server_config (mkOpenLog []) ∅ [] (cq_new None) Reactor_new.

End sample.
