(* ===== verification/Connect.v ===== *)
(** * The client (src/client/conn/mod.rs)

    [Config] and its builders, and [connect_to]: the address is resolved, the
    offline handshake is awaited, the layers of the connection are stacked, a task
    that delivers the packets of the server is started and the connection request
    is flushed. *)
From S2P Require Import Prelude Bytes Errors Reader SeqNum Types PackType Unconnected AckNack FrameSet FrameBody Packet.
From S2P Require Import Stream Sink Collections Dedup DeFragment Order Decoder Channels Reactor Link Encoder Estimator.
From S2P Require Import SendBuffer Resend Opts Reliable Body State Framed ServerOffline ClientOffline Online Incoming.
Open Scope Z_scope.

(** ** Configuration *)

Record ClientConfig := mkClientConfig {
  cf_mtu : Z;
  cf_client_guid : Z;
  cf_protocol_version : Z;
  cf_max_parted_size : Z;
  cf_max_parted_count : nat;
  cf_max_channels : nat;
}.

(** [guid] is what [rand::random] gives. *)
Definition ClientConfig_new (guid : Z) : ClientConfig := mkClientConfig 1400 guid 9 256 256 1.

Definition client_mtu (mtu : Z) (c : ClientConfig) : ClientConfig :=
  mkClientConfig mtu (cf_client_guid c) (cf_protocol_version c) (cf_max_parted_size c) (cf_max_parted_count c) (cf_max_channels c).
Definition config_client_guid (guid : Z) (c : ClientConfig) : ClientConfig :=
  mkClientConfig (cf_mtu c) guid (cf_protocol_version c) (cf_max_parted_size c) (cf_max_parted_count c) (cf_max_channels c).
Definition client_protocol_version (v : Z) (c : ClientConfig) : ClientConfig :=
  mkClientConfig (cf_mtu c) (cf_client_guid c) v (cf_max_parted_size c) (cf_max_parted_count c) (cf_max_channels c).
Definition client_max_parted_size (size : Z) (c : ClientConfig) : ClientConfig :=
  mkClientConfig (cf_mtu c) (cf_client_guid c) (cf_protocol_version c) size (cf_max_parted_count c) (cf_max_channels c).
Definition client_max_parted_count (count : nat) (c : ClientConfig) : ClientConfig :=
  mkClientConfig (cf_mtu c) (cf_client_guid c) (cf_protocol_version c) (cf_max_parted_size c) count (cf_max_channels c).
Definition client_max_channels {E} (channels : nat) (c : ClientConfig) : outcome E ClientConfig :=
  assert_ (bool_decide (channels < 256)%nat);;
  mret (mkClientConfig (cf_mtu c) (cf_client_guid c) (cf_protocol_version c) (cf_max_parted_size c) (cf_max_parted_count c) channels).

Definition client_offline_config (c : ClientConfig) : ClientOfflineConfig :=
  mkClientOfflineConfig (cf_mtu c) (cf_client_guid c) (cf_protocol_version c).
Definition client_codec_config (c : ClientConfig) : CodecConfig :=
  mkCodecConfig (cf_max_parted_size c) (cf_max_parted_count c) (cf_max_channels c).
Definition client_role (c : ClientConfig) : Role := Client (cf_client_guid c).

(** ** Connecting *)

Definition invalid_address : io_error := IoError AddrNotAvailable "invalid address".

(** [addrs.to_socket_addrs()?.next().ok_or_else(..)?] *)
Definition resolve (lookups : io_error + list SocketAddr) : io_error + SocketAddr :=
  match lookups with
  | inl e => inl e
  | inr [] => inl invalid_address
  | inr (a :: _) => inr a
  end.

Section connect.
Context {B : Build} {BC : BytesCrate} {BH : BinaryHeap} {LC : LruCrate} {HI : HashIter}.
Context {CQ : ConcurrentQueueCrate} {AC : AsyncChannelCrate} {T : Type} `{!AsyncSocket T}.

(** The future of the offline handshake. *)
Definition connect_offline (socket : T) (addr : SocketAddr) (config : ClientConfig) : ClientOffline (Framed T) :=
  ClientOffline_new (Framed_new socket (cf_mtu config)) addr (client_offline_config config).

Record ClientSource := mkClientSource {
  cs_dedup : DuplicateWindow;
  cs_defrag : DeFragment;
  cs_order : Order;
  cs_state : IncomingState;
  cs_online : ClientOnline;
}.

Definition ClientDestination : Type :=
  ConnectionInfoWrapper (StateManager (BodyEncoder (FragmentSink (ReliableLayer (F:=Framed T) (T:=RFC6298Impl)))) OutgoingState).

(** The task that delivers: its stream, its route, the link and the reactor. *)
Record Receiver := mkReceiver {
  rv_incoming : FilterConnected (Framed T);
  rv_router : Route;
  rv_link : TransferLink;
  rv_reactor : Reactor;
}.

(** The halves of the connection and the task; the three share the link, which has
    the connection request in it. *)
Definition connect_setup {E} (now : Z) (waker : nat) (t : Z) (socket : T) (addr : SocketAddr) (config : ClientConfig)
    (incoming : FilterConnected (Framed T)) (peer : Peer) (r : Reactor) :
    outcome E (ClientSource * ClientDestination * Receiver) :=
  let role := client_role config in
  let link := TransferLink_new role peer in
  d ← defragmented (cf_max_parted_size config) (cf_max_parted_count config);
  o ← ordered_layer (cf_max_channels config);
  online ← client_handle_online t addr (cf_client_guid config) link;
  let link := cn_link online in
  let dst := wrap_connection_info
    (manage_outgoing_state
      (frame_encoded
        (wrap_reliable (Framed_new socket (peer_mtu peer)) (mkWorld link r now waker None) peer role RFC6298_new)
        (peer_mtu peer) (client_codec_config config))
      None (cq_new None))
    peer in
  mret (mkClientSource DuplicateWindow_default d o manage_incoming_state online, dst,
        mkReceiver incoming Route_new link r).

(** [while let Some(pack) = incoming.next().await { router.deliver(pack); }]: the task
    over what its stream gives, until it waits ([true]) or its stream ends. *)
Fixpoint receive_loop (fuel : nat) (now : Z) (up : offline_tape) (s : Receiver) :
    outcome spinning (bool * Receiver * offline_tape) :=
  match fuel with
  | O => Err OutOfFuel
  | S fuel =>
      match filter_loop (fc_server_addr (rv_incoming s)) up with
      | (Pending, up) => mret (true, s, up)
      | (Ready None, up) => mret (false, s, up)
      | (Ready (Some pack), up) =>
          '(_, rt, link, r, _) ← Route_deliver now pack (rv_router s) (rv_link s) (rv_reactor s);
          receive_loop fuel now up (mkReceiver (rv_incoming s) rt link r)
      end
  end.

(** One poll of the task; every delivery takes a packet of the tape. *)
Definition receive_poll (now : Z) (up : offline_tape) (s : Receiver) :
    outcome spinning (bool * Receiver * offline_tape) := receive_loop (S (length up)) now up s.

(** The awaits of [connect_to]: the handshake, then the flush of the sinks. *)
Inductive Connecting :=
| Handshaking (h : ClientOffline (Framed T)) (addr : SocketAddr)
| Flushing (src : ClientSource) (dst : ClientDestination) (rv : Receiver).

Definition connect_to (socket : T) (lookups : io_error + list SocketAddr) (config : ClientConfig) : io_error + Connecting :=
  match resolve lookups with
  | inl e => inl e
  | inr addr => inr (Handshaking (connect_offline socket addr config) addr)
  end.

(** The three parts share the link that the sinks have worked on. *)
Definition share_link (l : TransferLink) (src : ClientSource) (rv : Receiver) : ClientSource * Receiver :=
  (mkClientSource (cs_dedup src) (cs_defrag src) (cs_order src) (cs_state src)
     (set_cn (cn_state (cs_online src)) l (cs_online src)),
   mkReceiver (rv_incoming rv) (rv_router rv) l (rv_reactor rv)).

Abbreviation connect_answer := (poll (io_error + (ClientSource * ClientDestination * Receiver))).

(** [SinkExt::<Message>::flush(&mut dst).await?; Ok((src, dst))] *)
Definition connect_flush (src : ClientSource) (dst : ClientDestination) (rv : Receiver) (up : offline_tape) :
    outcome spinning (connect_answer * Connecting * offline_tape) :=
  '(a, dst) ← poll_flush (A:=Message) dst;
  let '(src, rv) := share_link (link_of (sm_frame (ci_inner dst))) src rv in
  match a with
  | Pending => mret (Pending, Flushing src dst rv, up)
  | Ready (inl e) => mret (Ready (inl e), Flushing src dst rv, up)
  | Ready (inr _) => mret (Ready (inr (src, dst, rv)), Flushing src dst rv, up)
  end.

(** A poll of the future, over what the frame of the handshake receives. *)
Definition connect_poll (now : Z) (waker : nat) (t : Z) (socket : T) (config : ClientConfig) (r : Reactor)
    (st : Connecting) (up : offline_tape) : outcome spinning (connect_answer * Connecting * offline_tape) :=
  match st with
  | Handshaking h addr =>
      '(a, h, up) ← Client_poll h up;
      match a with
      | Pending => mret (Pending, Handshaking h addr, up)
      | Ready (inl e) => mret (Ready (inl e), Handshaking h addr, up)
      | Ready (inr (incoming, peer)) =>
          '(src, dst, rv) ← connect_setup now waker t socket addr config incoming peer r;
          connect_flush src dst rv up
      end
  | Flushing src dst rv => connect_flush src dst rv up
  end.
End connect.

(** ** What the task delivers *)

Section receive.
Context {B : Build} {BC : BytesCrate} {BH : BinaryHeap} {CQ : ConcurrentQueueCrate} {AC : AsyncChannelCrate} {T : Type}.
Implicit Types s : Receiver (T:=T).

Definition client_routable (a : SocketAddr) (up : offline_tape) : Prop := Forall routable (up ≫= from_server a).

Lemma receive_loop_spec fuel now up s :
  (length up < fuel)%nat → 0 ≤ seq_read (rv_router s) → client_routable (fc_server_addr (rv_incoming s)) up →
  ∃ b s' used up', receive_loop fuel now up s = Ok (b, s', up') ∧ up = used ++ up' ∧
    deliver_all (E:=spinning) now (used ≫= from_server (fc_server_addr (rv_incoming s))) (rv_router s) (rv_link s) (rv_reactor s) =
      Ok (rv_router s', rv_link s', rv_reactor s') ∧
    rv_incoming s' = rv_incoming s ∧ 0 ≤ seq_read (rv_router s').
Proof.
  revert up s. induction fuel as [|fuel IH]; intros up s Hf Hseq Hr; [lia|]. cbn [receive_loop].
  set (a := fc_server_addr (rv_incoming s)) in *.
  pose proof (filter_loop_spec a up) as Hl. destruct (filter_loop a up) as [x up1] eqn:Hx.
  destruct Hl as (used & -> & Hitems & Hlen).
  destruct x as [[pack|]|]; cbn in Hitems.
  2,3: eexists _, s, used, up1; rewrite <-Hitems; by split_and!.
  unfold client_routable in Hr. rewrite bind_app, Forall_app, <-Hitems in Hr. destruct Hr as [Hp Hr].
  apply Forall_cons in Hp as [Hp _].
  destruct (Route_deliver_returns (E:=spinning) now pack (rv_router s) (rv_link s) (rv_reactor s) Hp Hseq)
    as (ok & rt & l & r & w & Hd & Hseq'). rewrite Hd. cbn [mbind outcome_bind].
  assert (length up1 < fuel)%nat as Hf1.
  { rewrite length_app in Hlen, Hf. destruct used; [done|]. cbn in *. lia. }
  destruct (IH up1 (mkReceiver (rv_incoming s) rt l r) Hf1 Hseq' Hr) as (b & s' & used' & up' & -> & -> & Hall & Hi & Hs').
  exists b, s', (used ++ used'), up'. rewrite <-app_assoc. split_and!; try done.
  rewrite bind_app, <-Hitems. cbn [app deliver_all]. rewrite Hd. exact Hall.
Qed.
End receive.

(** The task of the client is exact: a poll of it gives the route the connected
    packets of the server's address among what it takes, all of them and in order,
    skips every other packet, and returns; the route and the link are as if the
    packets had been delivered directly. *)
Theorem receive_poll_delivers {B : Build} {BC : BytesCrate} {BH : BinaryHeap} {CQ : ConcurrentQueueCrate}
    {AC : AsyncChannelCrate} {T : Type} now up (s : Receiver (T:=T)) :
  0 ≤ seq_read (rv_router s) → client_routable (fc_server_addr (rv_incoming s)) up →
  ∃ b s' used up', receive_poll now up s = Ok (b, s', up') ∧ up = used ++ up' ∧
    deliver_all (E:=spinning) now (used ≫= from_server (fc_server_addr (rv_incoming s))) (rv_router s) (rv_link s) (rv_reactor s) =
      Ok (rv_router s', rv_link s', rv_reactor s').
Proof.
  intros Hs Hr. destruct (receive_loop_spec (S (length up)) now up s) as (b & s' & used & up' & H1 & H2 & H3 & _); [lia|done..|].
  by exists b, s', used, up'.
Qed.

(** A connection starts with its request: setting up the client's end succeeds,
    the link that its halves and its task share holds the connection request and
    nothing else, and the sinks have the address and the mtu of the peer. *)
Theorem connect_setup_requests {B : Build} {BC : BytesCrate} {BH : BinaryHeap} {LC : LruCrate} {HI : HashIter}
    {CQ : ConcurrentQueueCrate} {AC : AsyncChannelCrate} {T : Type} now waker t (socket : T) addr config incoming peer r :
  cf_max_parted_count config ≠ 0%nat → (0 < cf_max_channels config < 256)%nat →
  ∃ src dst rv, connect_setup (E:=spinning) now waker t socket addr config incoming peer r = Ok (src, dst, rv) ∧
    cq_list (link_frame_body (rv_link rv)) = [FConnectionRequest (cf_client_guid config) t false] ∧
    cn_link (cs_online src) = rv_link rv ∧
    link_of (sm_frame (ci_inner dst)) = rv_link rv ∧
    cn_state (cs_online src) = WaitConnRes ∧ sm_state (ci_inner dst) = OConnecting ∧
    info_mtu dst = peer_mtu peer ∧ info_remote_addr dst = peer_addr peer.
Proof.
  intros Hc Hch. unfold connect_setup, defragmented, ordered_layer.
  rewrite (bool_decide_eq_false_2 (cf_max_parted_count config = 0%nat)) by done. cbn [negb assert_ mbind outcome_bind mret outcome_ret].
  rewrite !bool_decide_eq_true_2 by lia. cbn [assert_ mbind outcome_bind mret outcome_ret]. unfold client_handle_online.
  set (l := TransferLink_new (client_role config) peer).
  destruct (cq_new_spec (A:=FrameBody) None) as [Hl1 Hc1]. destruct (cq_new_spec (A:=UPacket) None) as [_ Hc2].
  destruct (send_frame_body_replied (E:=spinning) (FConnectionRequest (cf_client_guid config) t false) l) as (l' & -> & _ & Hb & _);
    [done|].
  cbn [mbind outcome_bind mret outcome_ret]. eexists _, _, _. split; [done|]. split_and!; try done.
  cbn. rewrite Hb. cbn. by rewrite Hl1.
Qed.

(** ** Witnesses *)

Section sample_client.
Local Instance client_build : Build := true.
Local Instance client_bytes : BytesCrate := bytes_reference.
Local Instance client_heap : BinaryHeap := heap_sorted.
Local Instance client_lru : LruCrate := lru_reference.
Local Instance client_hash : HashIter := hash_iter_reference.
Local Instance client_queue : ConcurrentQueueCrate := queue_reference.
Local Instance client_channel : AsyncChannelCrate := channel_reference.

Definition sample_peer_server : Peer := mkPeer 7 sample_from 1400.

Definition sample_filter : FilterConnected (Framed OpenLog) := mkFilterConnected (Framed_new (mkOpenLog []) 1400) sample_from.

Lemma connect_setup_requests_witness :
  ∃ src dst rv, connect_setup (E:=spinning) 0 0 5 (mkOpenLog []) sample_from (ClientConfig_new 42) sample_filter
      sample_peer_server Reactor_new = Ok (src, dst, rv) ∧
    cq_list (link_frame_body (rv_link rv)) = [FConnectionRequest 42 5 false].
Proof.
  destruct (connect_setup_requests 0 0 5 (mkOpenLog []) sample_from (ClientConfig_new 42) sample_filter
    sample_peer_server Reactor_new) as (src & dst & rv & H1 & H2 & _); [done|cbn; lia|].
  by exists src, dst, rv.
Defined.

Definition sample_receiver : Receiver (T:=OpenLog) :=
  mkReceiver sample_filter Route_new (TransferLink_new (Client 42) sample_peer_server) Reactor_new.

Definition sample_received : offline_tape :=
  [Ready (Some (PConnected (CAck (mkAckOrNack [Single 0])), sample_to));
   Ready (Some (PConnected (CFrameSet (mkFrameSet 1 sample_frames)), sample_from)); Pending].

Lemma receive_poll_delivers_witness :
  ∃ b s' used up', receive_poll 0 sample_received sample_receiver = Ok (b, s', up') ∧ sample_received = used ++ up' ∧
    deliver_all (E:=spinning) 0 (used ≫= from_server sample_from) Route_new
      (TransferLink_new (Client 42) sample_peer_server) Reactor_new = Ok (rv_router s', rv_link s', rv_reactor s').
Proof.
  apply (receive_poll_delivers 0 sample_received sample_receiver); [done|].
  unfold client_routable. cbn. repeat constructor; cbn; lia.
Defined.
End sample_client.
