(* ===== verification/Tokio.v ===== *)
(** * The tokio socket (src/codec/tokio.rs, src/server/incoming/tokio.rs, src/client/conn/tokio.rs)

    [Arc<tokio::net::UdpSocket>] as the socket of the crate: a datagram is received
    into the spare room of the read buffer, sending is forwarded, and the entry
    points of server and client take such a socket.  [tokio_poll_next] is the
    stream of [Framed] (src/codec/frame.rs) over this socket with the capacity of
    its read buffer, which the model of [Framed] over any socket leaves out.  The
    socket of the library and the allocation of [BytesMut] are interfaces. *)
From S2P Require Import Prelude Bytes Errors Reader SeqNum Types PackType Unconnected AckNack FrameSet FrameBody Packet.
From S2P Require Import Stream Sink Collections Dedup DeFragment Order Decoder Channels Reactor Link Encoder Estimator.
From S2P Require Import SendBuffer Resend Opts Reliable Body State Framed ServerOffline ClientOffline Online Incoming Connect.
Open Scope Z_scope.

(** [tokio::net::UdpSocket].  [udp_queue] are the datagrams and errors that wait to
    be received; receiving into a buffer of [room] bytes discards what does not fit. *)
Class TokioUdpSocket (T : Type) := {
  udp_poll_recv_from : nat → T → poll (io_error + (list Z * SocketAddr)) * T;
  udp_poll_send_to : list Z → SocketAddr → T → poll (io_error + Z) * T;
  udp_queue : T → list (io_error + (list Z * SocketAddr));
  udp_recv_empty room t : udp_queue t = [] → udp_poll_recv_from room t = (Pending, t);
  udp_recv_next room t x q : udp_queue t = x :: q →
    ∃ t', udp_queue t' = q ∧ udp_poll_recv_from room t =
      (Ready match x with inl e => inl e | inr (d, a) => inr (take room d, a) end, t');
}.

(** [BytesMut]: the bytes in the buffer and the room behind them.  Reserving makes
    at least the room that is asked for.  Reading from the buffer takes bytes off
    its front, and their room with them; [bm_read_room] is the room of the buffer
    after [Packet::read] and [clear]: that behind the bytes and that of the bytes
    that were not taken. *)
Record BytesMut := mkBytesMut {
  bm_bytes : list Z;
  bm_room : nat;
}.

Class BytesMutCrate := {
  bm_grow : nat → BytesMut → nat;
  bm_grow_spec n b : (n ≤ bm_grow n b)%nat;
  bm_read_room : BytesMut → nat;
  bm_read_room_spec b : (bm_room b ≤ bm_read_room b ≤ bm_room b + length (bm_bytes b))%nat;
}.

Section tokio.
Context {BM : BytesMutCrate} {T : Type} `{!TokioUdpSocket T}.

(** [BytesMut::reserve] *)
Definition bm_reserve (n : nat) (b : BytesMut) : BytesMut :=
  if decide (n ≤ bm_room b)%nat then b else mkBytesMut (bm_bytes b) (bm_grow n b).

(** [BufMut::chunk_mut]: a full buffer is given 64 bytes first. *)
Definition chunk_mut (b : BytesMut) : BytesMut :=
  if decide (bm_room b = 0%nat) then bm_reserve 64 b else b.

(** [BufMut::advance_mut] after [d] was written into the room *)
Definition advance_mut (d : list Z) (b : BytesMut) : BytesMut :=
  mkBytesMut (bm_bytes b ++ d) (bm_room b - length d).

(** [AsyncSocket::poll_recv_from] *)
Definition tokio_poll_recv_from (rd : BytesMut) (t : T) : poll (io_error + SocketAddr) * BytesMut * T :=
  let rd := chunk_mut rd in
  match udp_poll_recv_from (bm_room rd) t with
  | (Pending, t) => (Pending, rd, t)
  | (Ready (inl e), t) => (Ready (inl e), rd, t)
  | (Ready (inr (d, addr)), t) => (Ready (inr addr), advance_mut d rd, t)
  end.

(** [AsyncSocket::poll_send_to] *)
Definition tokio_poll_send_to (buf : list Z) (target : SocketAddr) (t : T) : poll (io_error + Z) * T :=
  udp_poll_send_to buf target t.

Global Instance Tokio_socket : AsyncSocket T := { poll_send_to := tokio_poll_send_to }.

(** The reading half of [Framed] over this socket. *)
Record TokioFramed := mkTokioFramed {
  tf_socket : T;
  tf_rd : BytesMut;
  tf_mtu : nat;
  tf_is_readable : bool;
  tf_current_addr : option SocketAddr;
}.

Definition TokioFramed_new (socket : T) (mtu : nat) : TokioFramed :=
  mkTokioFramed socket (mkBytesMut [] 0) mtu false None.

Definition set_tf (t : T) (rd : BytesMut) (readable : bool) (a : option SocketAddr) (s : TokioFramed) : TokioFramed :=
  mkTokioFramed t rd (tf_mtu s) readable a.

Context {B : Build} {BC : BytesCrate}.

(** The head of the loop: decode what is in the buffer, and clear it. *)
Definition tokio_decode (s : TokioFramed) : outcome spinning (option (Packet * SocketAddr) * TokioFramed) :=
  if tf_is_readable s then
    let rd := mkBytesMut [] (bm_read_room (tf_rd s)) in
    match Packet_read (bm_bytes (tf_rd s)) with
    | Ok (frame, _) =>
        match tf_current_addr s with
        | Some a => mret (Some (frame, a), set_tf (tf_socket s) rd false (Some a) s)
        | None => Panic
        end
    | Err _ => mret (None, set_tf (tf_socket s) rd false (tf_current_addr s) s)
    | Panic => Panic
    end
  else mret (None, s).

(** The [loop]; every round but the first and the last takes an item of the socket. *)
Fixpoint tokio_framed_loop (fuel : nat) (s : TokioFramed) :
    outcome spinning (item_answer (Packet * SocketAddr) * TokioFramed) :=
  match fuel with
  | O => Err OutOfFuel
  | S fuel =>
      '(o, s) ← tokio_decode s;
      match o with
      | Some x => mret (Ready (Some x), s)
      | None =>
          match tokio_poll_recv_from (tf_rd s) (tf_socket s) with
          | (Pending, rd, t) => mret (Pending, set_tf t rd (tf_is_readable s) (tf_current_addr s) s)
          | (Ready (inl _), rd, t) =>
              tokio_framed_loop fuel
                (set_tf t (mkBytesMut [] (bm_room rd + length (bm_bytes rd))) (tf_is_readable s) (tf_current_addr s) s)
          | (Ready (inr a), rd, t) => tokio_framed_loop fuel (set_tf t rd true (Some a) s)
          end
      end
  end.

(** [Framed::poll_next]: the buffer is given room for the mtu once, before the loop. *)
Definition tokio_poll_next (s : TokioFramed) : outcome spinning (item_answer (Packet * SocketAddr) * TokioFramed) :=
  tokio_framed_loop (S (S (length (udp_queue (tf_socket s)))))
    (set_tf (tf_socket s) (bm_reserve (tf_mtu s) (tf_rd s)) (tf_is_readable s) (tf_current_addr s) s).

Fixpoint tokio_polls (n : nat) (s : TokioFramed) : outcome spinning (list (item_answer (Packet * SocketAddr)) * TokioFramed) :=
  match n with
  | O => mret ([], s)
  | S n =>
      '(a, s) ← tokio_poll_next s;
      '(out, s) ← tokio_polls n s;
      mret (a :: out, s)
  end.
End tokio.

Section entry_points.
Context {B : Build} {BC : BytesCrate} {BH : BinaryHeap} {LC : LruCrate} {HI : HashIter}.
Context {CQ : ConcurrentQueueCrate} {AC : AsyncChannelCrate} {T : Type} `{!TokioUdpSocket T}.

(** [MakeIncoming::make_incoming]; the [Arc] around the socket is the socket. *)
Definition tokio_make_incoming {E} (socket : T) (config : ServerConfig) (r : Reactor) : outcome E (Incoming (T:=T)) :=
  Incoming_new socket config r.

(** [ConnectTo::connect_to]; the receiver that [tokio::spawn] is given runs as
    [receive_poll]. *)
Definition tokio_connect_to (socket : T) (addrs : io_error + list SocketAddr) (config : ClientConfig) :
    io_error + Connecting (T:=T) := connect_to socket addrs config.
End entry_points.

(** ** What is received *)

Section receive.
Context {BM : BytesMutCrate} {T : Type} `{!TokioUdpSocket T}.

Lemma bm_reserve_spec n b : bm_bytes (bm_reserve n b) = bm_bytes b ∧ (n ≤ bm_room (bm_reserve n b))%nat.
Proof. unfold bm_reserve. case_decide; [done|]. split; [done|]. apply bm_grow_spec. Qed.

Lemma chunk_mut_spec b : bm_bytes (chunk_mut b) = bm_bytes b ∧ (bm_room b ≤ bm_room (chunk_mut b))%nat ∧ (0 < bm_room (chunk_mut b))%nat.
Proof.
  unfold chunk_mut. case_decide as H; [|split_and!; [done|lia|lia]].
  destruct (bm_reserve_spec 64 b) as [-> Hr]. split_and!; [done|lia|lia].
Qed.

(** Without the room, a datagram is cut at the capacity that is left. *)
Lemma tokio_poll_recv_from_cuts rd t d a q :
  bm_bytes rd = [] → (0 < bm_room rd)%nat → udp_queue t = inr (d, a) :: q →
  ∃ rd' t', tokio_poll_recv_from rd t = (Ready (inr a), rd', t') ∧
    bm_bytes rd' = take (bm_room rd) d ∧ udp_queue t' = q.
Proof.
  intros Hrd Hroom Hq. unfold tokio_poll_recv_from, chunk_mut. rewrite decide_False by lia.
  destruct (udp_recv_next (bm_room rd) t _ q Hq) as (t' & Hq' & ->).
  eexists _, t'. split; [done|]. cbn. by rewrite Hrd.
Qed.

Context {B : Build} {BC : BytesCrate}.

(** The datagrams that a poll can receive whole when it has already used [used] bytes
    of the room: each fits behind those of the same poll that did not decode. *)
Fixpoint fits_room (mtu used : nat) (q : list (io_error + (list Z * SocketAddr))) : Prop :=
  match q with
  | [] => True
  | inl _ :: q => fits_room mtu used q
  | inr (d, _) :: q =>
      (used + length d ≤ mtu)%nat ∧
      fits_room mtu (match Packet_read d with Ok _ => 0%nat | _ => (used + length d)%nat end) q
  end.

Lemma fits_room_less mtu used used' q : (used' ≤ used)%nat → fits_room mtu used q → fits_room mtu used' q.
Proof.
  revert used used'. induction q as [|[e|[d a]] q IH]; intros used used' Hle; cbn; [done|by apply IH|].
  intros [Hd Hq]. split; [lia|]. eapply IH; [|exact Hq]. destruct (Packet_read d); lia.
Qed.

(** Between two polls the buffer is empty, as that of the model over any socket. *)
Definition tf_rest (s : TokioFramed (T:=T)) : Prop := bm_bytes (tf_rd s) = [] ∧ tf_is_readable s = false.

(** The answer and the rest of the queue of a poll are those of the model over a tape
    that holds the queue. *)
Definition simulates {T'} (mtu : nat) (r : outcome spinning (item_answer (Packet * SocketAddr) * TokioFramed (T:=T)))
    (r' : outcome Empty_set (item_answer (Packet * SocketAddr) * Framed T' * list recv_answer)) : Prop :=
  match r' with
  | Ok (a, f, up) => ∃ s, r = Ok (a, s) ∧ up = Ready <$> udp_queue (tf_socket s) ∧ tf_rest s ∧ at_rest f ∧
      tf_mtu s = mtu ∧ fits_room mtu 0 (udp_queue (tf_socket s))
  | Err _ => False
  | Panic => r = Panic
  end.

(** The two kinds of rounds. *)
Lemma tokio_loop_empty fuel (s : TokioFramed (T:=T)) :
  tf_is_readable s = false →
  tokio_framed_loop (S fuel) s =
    match tokio_poll_recv_from (tf_rd s) (tf_socket s) with
    | (Pending, rd, t) => Ok (Pending, set_tf t rd false (tf_current_addr s) s)
    | (Ready (inl _), rd, t) =>
        tokio_framed_loop fuel (set_tf t (mkBytesMut [] (bm_room rd + length (bm_bytes rd))) false (tf_current_addr s) s)
    | (Ready (inr a), rd, t) => tokio_framed_loop fuel (set_tf t rd true (Some a) s)
    end.
Proof. intros Hr. cbn [tokio_framed_loop]. unfold tokio_decode. by rewrite Hr; cbn [mbind outcome_bind mret outcome_ret]; rewrite Hr. Qed.

Lemma tokio_loop_readable fuel (s : TokioFramed (T:=T)) a :
  tf_is_readable s = true → tf_current_addr s = Some a →
  let s' := set_tf (tf_socket s) (mkBytesMut [] (bm_read_room (tf_rd s))) false (Some a) s in
  tokio_framed_loop (S fuel) s =
    match Packet_read (bm_bytes (tf_rd s)) with
    | Ok (p, _) => Ok (Ready (Some (p, a)), s')
    | Err _ => tokio_framed_loop (S fuel) s'
    | Panic => Panic
    end.
Proof.
  intros Hr Ha. cbn zeta. cbn [tokio_framed_loop]. unfold tokio_decode at 1. rewrite Hr, Ha.
  by destruct (Packet_read _) as [[]| |].
Qed.

(** The round that receives a datagram, and decodes it in the next one. *)
Lemma tokio_loop_recv fuel (s : TokioFramed (T:=T)) d a q :
  tf_rest s → udp_queue (tf_socket s) = inr (d, a) :: q → (length d ≤ bm_room (tf_rd s))%nat →
  ∃ t room, udp_queue t = q ∧ (bm_room (tf_rd s) - length d ≤ room)%nat ∧
    let s' := set_tf t (mkBytesMut [] room) false (Some a) s in
    tokio_framed_loop (S (S fuel)) s =
      match Packet_read d with
      | Ok (p, _) => Ok (Ready (Some (p, a)), s')
      | Err _ => tokio_framed_loop (S fuel) s'
      | Panic => Panic
      end.
Proof.
  destruct s as [t rd mtu readable cur]. intros [Hrd Hre] Hq Hlen. cbn in Hrd, Hre, Hq, Hlen. subst readable.
  destruct (chunk_mut_spec rd) as (Hb & Hr & _). set (rd1 := chunk_mut rd) in *.
  destruct (udp_recv_next (bm_room rd1) t _ q Hq) as (t' & Hq' & Hrecv).
  destruct (bm_read_room_spec (advance_mut d rd1)) as [Hlo _]. cbn in Hlo.
  exists t', (bm_read_room (advance_mut d rd1)). split_and!; [done|cbn; lia|]. cbn zeta.
  rewrite tokio_loop_empty by done. unfold tokio_poll_recv_from. cbn [tf_rd tf_socket]. fold rd1.
  rewrite Hrecv. cbn beta iota. rewrite take_ge by lia.
  rewrite (tokio_loop_readable fuel _ a) by done. cbn [set_tf tf_rd tf_socket tf_mtu advance_mut bm_bytes].
  rewrite Hb, Hrd. cbn [app]. by destruct (Packet_read d) as [[p l]| |].
Qed.

(** One poll, wherever it is in its loop. *)
Lemma tokio_loop_simulates {T'} `{!AsyncSocket T'} q : ∀ fuel used (s : TokioFramed (T:=T)) (f : Framed T'),
  tf_rest s → at_rest f → udp_queue (tf_socket s) = q → (length q < fuel)%nat →
  fits_room (tf_mtu s) used q → (tf_mtu s - used ≤ bm_room (tf_rd s))%nat →
  simulates (tf_mtu s) (tokio_framed_loop (S fuel) s) (framed_loop (Ready <$> q) f).
Proof.
  induction q as [|[e|[d a]] q IH]; intros fuel used s f Hs Hf Hq Hfuel Hfit Hroom.
  - destruct Hs as [Hrd Hre], Hf as [Hfr Hfe]. rewrite tokio_loop_empty by done. cbn [framed_loop fmap list_fmap].
    unfold decode_buffer. rewrite Hfe. cbn [mbind outcome_bind mret outcome_ret].
    unfold tokio_poll_recv_from. rewrite udp_recv_empty by done. cbn. eexists. split; [done|]. cbn. rewrite Hq.
    split_and!; try done. split; [|done]. cbn. by destruct (chunk_mut_spec (tf_rd s)) as [-> _].
  - destruct fuel as [|fuel]; [cbn in Hfuel; lia|]. cbn [fmap list_fmap].
    destruct Hs as [Hrd Hre], Hf as [Hfr Hfe]. destruct (chunk_mut_spec (tf_rd s)) as (Hb & Hr & _).
    destruct (udp_recv_next (bm_room (chunk_mut (tf_rd s))) (tf_socket s) _ q Hq) as (t' & Hq' & Hrecv).
    cbn [framed_loop]. unfold decode_buffer at 1. rewrite Hfe. cbn [mbind outcome_bind mret outcome_ret].
    rewrite tokio_loop_empty by done. unfold tokio_poll_recv_from. rewrite Hrecv. cbn beta iota.
    cbn in Hfuel. apply (IH fuel used (set_tf t' _ false _ s)); cbn; try done; lia.
  - destruct fuel as [|fuel]; [cbn in Hfuel; lia|]. cbn [fmap list_fmap]. destruct Hfit as [Hd Hfit].
    rewrite framed_loop_recv by done. cbn zeta.
    destruct (tokio_loop_recv fuel s d a q Hs Hq) as (t & room & Hqt & Hrt & ->); [lia|].
    destruct (Packet_read d) as [[p l]|e|] eqn:Hp.
    + eexists. split; [done|]. cbn. by rewrite Hqt.
    + apply (IH fuel (used + length d)%nat (set_tf t (mkBytesMut [] room) false (Some a) s)); try done; [cbn in *; lia|cbn; lia].
    + done.
Qed.

Lemma tokio_poll_simulates {T'} `{!AsyncSocket T'} (s : TokioFramed (T:=T)) (f : Framed T') :
  tf_rest s → at_rest f → fits_room (tf_mtu s) 0 (udp_queue (tf_socket s)) →
  simulates (tf_mtu s) (tokio_poll_next s) (Framed_poll_next f (Ready <$> udp_queue (tf_socket s))).
Proof.
  intros [Hrd Hre] Hf Hfit. destruct (bm_reserve_spec (tf_mtu s) (tf_rd s)) as [Hb Hr].
  unfold tokio_poll_next, Framed_poll_next.
  apply (tokio_loop_simulates (udp_queue (tf_socket s)) _ 0 (set_tf _ _ _ _ s)); try done; [split; cbn; congruence|lia|cbn; lia].
Qed.

(** C35. Over a tokio socket the stream of packets is the one of the model over any
    socket, which leaves the capacity of the read buffer out, whenever the room
    suffices: [poll_next] makes room for the mtu once, before its loop, so that a
    datagram is received whole if it is no longer than the mtu less the datagrams
    of the same poll before it that did not decode ([fits_room]; if all decode, no
    longer than the mtu).  Then any number of polls gives the packets with their
    senders, in order, leaves the same in the socket's queue, and panics on the
    same datagrams; no datagram is cut or joined with another, and the loop ends.
    A datagram that does not fit is cut ([tokio_poll_recv_from_cuts],
    [tokio_poll_next_cuts]). *)
Theorem tokio_framed_refines {T'} `{!AsyncSocket T'} n (t : T) (t' : T') mtu :
  fits_room mtu 0 (udp_queue t) →
  match polls Framed_poll_next n (Framed_new t' (Z.of_nat mtu)) (Ready <$> udp_queue t) with
  | Ok (out, f, up) => ∃ s, tokio_polls n (TokioFramed_new t mtu) = Ok (out, s) ∧ up = Ready <$> udp_queue (tf_socket s)
  | Err _ => False
  | Panic => tokio_polls n (TokioFramed_new t mtu) = Panic
  end.
Proof.
  intros Hfit.
  assert (∀ (s : TokioFramed (T:=T)) (f : Framed T'), tf_rest s → at_rest f → tf_mtu s = mtu → fits_room mtu 0 (udp_queue (tf_socket s)) →
    match polls Framed_poll_next n f (Ready <$> udp_queue (tf_socket s)) with
    | Ok (out, f, up) => ∃ s', tokio_polls n s = Ok (out, s') ∧ up = Ready <$> udp_queue (tf_socket s')
    | Err _ => False
    | Panic => tokio_polls n s = Panic
    end) as H; [|by apply (H (TokioFramed_new t mtu) (Framed_new t' (Z.of_nat mtu)))].
  clear t t' Hfit. induction n as [|n IH]; intros s f Hs Hf <- Hfit; cbn [polls tokio_polls]; [by exists s|].
  pose proof (tokio_poll_simulates s f Hs Hf Hfit) as Hsim. unfold simulates in Hsim.
  destruct (Framed_poll_next f _) as [[[a f1] up1]| |]; [|done|by rewrite Hsim].
  destruct Hsim as (s1 & -> & -> & Hs1 & Hf1 & Hm & Hfit1). cbn [mbind outcome_bind].
  specialize (IH s1 f1 Hs1 Hf1 Hm Hfit1).
  destruct (polls Framed_poll_next n f1 _) as [[[out f2] up2]| |]; [|done|by rewrite IH].
  destruct IH as (s2 & -> & ->). by exists s2.
Qed.
End receive.

(** ** A socket that holds the datagrams in a list *)

Record UdpLog := mkUdpLog {
  ul_queue : list (io_error + (list Z * SocketAddr));
  ul_sent : list (list Z * SocketAddr);
}.

#[export] Program Instance UdpLog_socket : TokioUdpSocket UdpLog := {
  udp_poll_recv_from room t :=
    match ul_queue t with
    | [] => (Pending, t)
    | inl e :: q => (Ready (inl e), mkUdpLog q (ul_sent t))
    | inr (d, a) :: q => (Ready (inr (take room d, a)), mkUdpLog q (ul_sent t))
    end;
  udp_poll_send_to d a t := (Ready (inr (Z.of_nat (length d))), mkUdpLog (ul_queue t) (ul_sent t ++ [(d, a)]));
  udp_queue := ul_queue;
}.
Next Obligation. intros room [q s] Hq. cbn in *. by subst. Qed.
Next Obligation.
  intros room [q0 s] x q Hq. cbn in *. subst. exists (mkUdpLog q s). split; [done|]. by destruct x as [|[]].
Qed.

(** The buffer doubles, or grows to what is asked for. *)
#[export] Program Instance bytes_mut_doubling : BytesMutCrate := {
  bm_grow n b := (n `max` (2 * (length (bm_bytes b) + bm_room b)))%nat;
  bm_read_room b := bm_room b;
}.
Next Obligation. intros n b. cbn. apply Nat.le_max_l. Qed.
Next Obligation. intros b. cbn. lia. Qed.

(** A ping, a datagram that does not decode, an error, and another ping. *)
Definition sample_ping : list Z := UPacket_write (BC:=bytes_reference) (UUnconnectedPing 5 9) [].
Definition sample_udp : UdpLog :=
  mkUdpLog [inr (sample_ping, V4 1 2); inr ([1; 2], V4 3 4); inl short_write; inr (sample_ping, V4 5 6)] [].

Lemma tokio_framed_refines_witness :
  length sample_ping = 33%nat ∧
  ∃ s, tokio_polls (B:=true) (BC:=bytes_reference) 3 (TokioFramed_new sample_udp 35) =
      Ok ([Ready (Some (PUnconnected (UUnconnectedPing 5 9), V4 1 2));
           Ready (Some (PUnconnected (UUnconnectedPing 5 9), V4 5 6)); Pending], s).
Proof.
  split; [vm_compute; reflexivity|].
  pose proof (tokio_framed_refines (B:=true) (BC:=bytes_reference) (T':=UdpLog) 3 sample_udp sample_udp 35) as H.
  destruct (polls Framed_poll_next 3 _ _) as [[[out f] up]| |] eqn:Hp; vm_compute in Hp; [|discriminate Hp..].
  injection Hp as <- <- <-. destruct H as (s & H & _); [|exists s; exact H].
  repeat split; vm_compute; lia.
Defined.

(** With room for one ping only, the second one of the same poll is cut, and lost. *)
Example tokio_poll_next_cuts :
  ∃ s s', tokio_polls (B:=true) (BC:=bytes_reference) 2 (TokioFramed_new sample_udp 33) =
    Ok ([Ready (Some (PUnconnected (UUnconnectedPing 5 9), V4 1 2)); Pending], s) ∧
  polls (Framed_poll_next (B:=true) (BC:=bytes_reference)) 2 (Framed_new sample_udp 33) (Ready <$> udp_queue sample_udp) =
    Ok ([Ready (Some (PUnconnected (UUnconnectedPing 5 9), V4 1 2));
         Ready (Some (PUnconnected (UUnconnectedPing 5 9), V4 5 6))], s', []).
Proof. eexists _, _. split; vm_compute; reflexivity. Qed.
