(* ===== verification/TestsNet.v ===== *)
(** * Helpers of the integration tests (src/tests.rs, src/utils/tests)

    The configurations of the tests, and the echo server with the task that flushes
    its connection: the reader of a connection sends every message through a channel
    to a task of its own, which feeds the messages to the writer and flushes it every
    millisecond or when it is told to.  The runtime decides in which order the tasks
    run, so a run is any list of the events below. *)
From S2P Require Import Prelude Errors Types Stream Sink Collections ServerOffline ClientOffline Incoming Connect.
Open Scope Z_scope.

(** ** Configurations *)

Definition Message_from (data : list Z) : Message := Message_new data.

(** ["123456"] in bytes *)
Definition test_advertisement : list Z := [49; 50; 51; 52; 53; 54].

(** [guid] is the random guid of [Config::new]. *)
Definition make_server_conf {E} (guid : Z) : outcome E ServerConfig :=
  c ← config_max_channels 64 (config_sever_guid 1919810 (ServerConfig_new guid));
  mret (config_support_version [9; 11; 13] (config_max_pending 1024 (config_min_mtu 510 (config_max_mtu 1500
    (config_advertisement test_advertisement c))))).

Definition make_client_conf {E} (guid : Z) : outcome E ClientConfig :=
  c ← client_max_channels 64 (client_mtu 1000 (ClientConfig_new guid));
  mret (client_protocol_version 11 (config_client_guid 114514 c)).

(** Whatever the random guids, a client of the tests can connect to a server of the
    tests: the configurations are well formed, the version is supported and the mtu
    within the limits, so that both ends use the same. *)
Lemma test_configs_match {E} guid guid' :
  ∃ s c, make_server_conf (E:=E) guid = Ok s ∧ make_client_conf (E:=E) guid' = Ok c ∧
    config_ok (offline_config s) ∧
    cc_protocol_version (client_offline_config c) ∈ oc_support_version (offline_config s) ∧
    offered_mtu (offline_config s) (cc_mtu (client_offline_config c)) = cf_mtu c ∧
    sc_max_channels s = cf_max_channels c.
Proof.
  eexists _, _. split; [done|]. split; [done|]. cbn. unfold config_ok. cbn. split_and!; try done.
  - repeat constructor; lia.
  - by right; left.
Qed.

(** ** The echo server *)

Section echo.
Context {W : Type} `{!Sink W Message}.

(** Where the loop of [Flusher::run] is: in [select!], or in the await of an arm. *)
Inductive flusher_task :=
| Selecting
| Flushing
| Feeding (m : Message).

Record Echo := mkEcho {
  ec_writer : W;
  ec_chan : list Message;
  ec_task : flusher_task;
}.

(** The await of an arm is polled.  The task unwraps the result of [run], so that an
    error of the writer is a panic. *)
Definition poll_task (st : Echo) : outcome spinning Echo :=
  match ec_task st with
  | Selecting => mret st
  | Flushing =>
      '(r, w) ← poll_flush (A:=Message) (ec_writer st);
      match r with
      | Pending => mret (mkEcho w (ec_chan st) Flushing)
      | Ready (inl _) => Panic
      | Ready (inr _) => mret (mkEcho w (ec_chan st) Selecting)
      end
  | Feeding m =>
      '(r, w) ← feed m (ec_writer st);
      match r with
      | Pending => mret (mkEcho w (ec_chan st) (Feeding m))
      | Ready (inl _) => Panic
      | Ready (inr _) => mret (mkEcho w (ec_chan st) Selecting)
      end
  end.

(** The reader has data; the ticker ticks; the flusher is notified; it receives from
    the channel; it is woken. *)
Inductive echo_event :=
| EchoData (data : list Z)
| EchoTick
| EchoNotified
| EchoRecv
| EchoWake.

(** The arms of [select!] are taken only where the loop waits for them. *)
Definition select (task : flusher_task) (chan : list Message) (st : Echo) : outcome spinning Echo :=
  match ec_task st with
  | Selecting => poll_task (mkEcho (ec_writer st) chan task)
  | _ => mret st
  end.

Definition echo_step (ev : echo_event) (st : Echo) : outcome spinning Echo :=
  match ev with
  | EchoData data => mret (mkEcho (ec_writer st) (ec_chan st ++ [Message_new data]) (ec_task st))
  | EchoTick => select Flushing (ec_chan st) st
  | EchoNotified => select Flushing (ec_chan st) st
  | EchoRecv =>
      match ec_chan st with
      | m :: chan => select (Feeding m) chan st
      | [] => mret st
      end
  | EchoWake => poll_task st
  end.

Fixpoint echo_run (evs : list echo_event) (st : Echo) : outcome spinning Echo :=
  match evs with
  | [] => mret st
  | ev :: evs => st ← echo_step ev st; echo_run evs st
  end.

(** [Flusher::new], for a new connection. *)
Definition echo_new (writer : W) : Echo := mkEcho writer [] Selecting.

Definition echo_data (evs : list echo_event) : list (list Z) :=
  evs ≫= λ ev, match ev with EchoData d => [d] | _ => [] end.

Context `{!ReadySink W Message}.

(** Everything that was read is written or still in the channel, in order. *)
Record echoing (h : list Message) (data : list (list Z)) (st : Echo) : Prop := {
  eo_fed : ∃ fed, taken (h ++ fed) (ec_writer st) ∧ fed ++ ec_chan st = Message_new <$> data;
  eo_task : ec_task st = Selecting;
}.

Lemma echo_step_ok h data ev st :
  (∀ d, sendable (Message_new d)) → echoing h data st →
  ∃ st', echo_step ev st = Ok st' ∧ echoing h (data ++ echo_data [ev]) st' ∧
    (ev = EchoRecv → length (ec_chan st') = pred (length (ec_chan st))).
Proof.
  intros Hsend [(fed & Ht & Heq) Htask]. destruct ev as [d| | | |]; cbn [echo_step]; unfold select, echo_data; cbn [mbind list_bind app]; rewrite ?Htask, ?app_nil_r.
  - eexists. split; [done|]. split; [|done]. split; [|done]. exists fed. cbn. split; [done|]. by rewrite app_assoc, Heq, fmap_app.
  - destruct (poll_flush_taken _ _ Ht) as (w & Hw & Ht'). cbn. rewrite Hw. cbn. eexists. split; [done|]. split; [|done].
    split; [by exists fed|done].
  - destruct (poll_flush_taken _ _ Ht) as (w & Hw & Ht'). cbn. rewrite Hw. cbn. eexists. split; [done|]. split; [|done].
    split; [by exists fed|done].
  - destruct (ec_chan st) as [|m chan] eqn:Hc.
    { exists st. split; [done|]. rewrite Hc. split; [|done]. split; [|done]. exists fed. by rewrite Hc. }
    assert (sendable m) as Hm.
    { assert (m ∈ Message_new <$> data) as (d & -> & _)%list_elem_of_fmap; [|done]. rewrite <-Heq. set_solver. }
    destruct (feed_taken _ _ m Ht Hm) as (w & Hw & Ht'). cbn. rewrite Hw. cbn. eexists. split; [done|]. split; [|done].
    split; [|done]. exists (fed ++ [m]). cbn. rewrite app_assoc. split; [done|]. by rewrite <-Heq, <-app_assoc.
  - unfold poll_task. rewrite Htask. exists st. split; [done|]. split; [|done]. split; [|done]. by exists fed.
Qed.

Lemma echo_run_ok h data evs st :
  (∀ d, sendable (Message_new d)) → echoing h data st →
  ∃ st', echo_run evs st = Ok st' ∧ echoing h (data ++ echo_data evs) st'.
Proof.
  intros Hsend. revert data st. induction evs as [|ev evs IH]; intros data st Hst; cbn [echo_run].
  { exists st. by rewrite app_nil_r. }
  destruct (echo_step_ok h data ev st Hsend Hst) as (st1 & -> & Hst1 & _). cbn [mbind outcome_bind].
  destruct (IH _ st1 Hst1) as (st2 & Hr & Hst2). exists st2. split; [done|]. unfold echo_data in *. cbn in *.
  by rewrite app_nil_r, <-app_assoc in Hst2.
Qed.

Lemma echo_drains h data n st :
  (∀ d, sendable (Message_new d)) → echoing h data st → (length (ec_chan st) ≤ n)%nat →
  ∃ st', echo_run (replicate n EchoRecv) st = Ok st' ∧ echoing h data st' ∧ ec_chan st' = [].
Proof.
  intros Hsend. revert st. induction n as [|n IH]; intros st Hst Hn; cbn [replicate echo_run].
  { exists st. split_and!; [done|done|]. apply nil_length_inv. lia. }
  destruct (echo_step_ok h data EchoRecv st Hsend Hst) as (st1 & -> & Hst1 & Hl). cbn [mbind outcome_bind].
  rewrite app_nil_r in Hst1. apply IH; [done|]. rewrite Hl by done. lia.
Qed.
End echo.

(** The echo server echoes: over a writer that is ready, whatever order the tasks run
    in, it never panics and what it has written is the data that it read, as messages
    and in order, up to those in the channel; when the flusher has received these,
    everything is written. *)
Theorem echo_exact {W : Type} `{!Sink W Message} `{!ReadySink W Message} h (writer : W) evs n :
  (∀ d, sendable (Message_new d)) → taken h writer → (length (echo_data evs) ≤ n)%nat →
  ∃ st fed, echo_run evs (echo_new writer) = Ok st ∧ taken (h ++ fed) (ec_writer st) ∧
    fed ++ ec_chan st = Message_new <$> echo_data evs ∧
    ∃ st', echo_run (replicate n EchoRecv) st = Ok st' ∧ taken (h ++ (Message_new <$> echo_data evs)) (ec_writer st').
Proof.
  intros Hsend Ht Hn.
  destruct (echo_run_ok h [] evs (echo_new writer) Hsend) as (st & Hr & Hst).
  { split; [|done]. exists []. by rewrite app_nil_r. }
  pose proof (eo_fed _ _ _ Hst) as (fed & Hf & Heq). cbn [app] in Hst, Heq. exists st, fed. split_and!; [done|done|done|].
  destruct (echo_drains h (echo_data evs) n st Hsend Hst) as (st' & Hr' & [(fed' & Hf' & Heq') _] & Hc).
  { apply (f_equal length) in Heq. rewrite length_app, length_fmap in Heq. lia. }
  exists st'. split; [done|]. rewrite Hc, app_nil_r in Heq'. by rewrite <-Heq'.
Qed.

Lemma echo_exact_witness :
  ∃ st fed, echo_run [EchoData [1]; EchoTick; EchoData [2; 3]; EchoRecv; EchoWake; EchoNotified]
      (echo_new (mkLogSink [] [] 0 0 : LogSink Message)) = Ok st ∧
    log_sent (ec_writer st) = fed ∧ fed ++ ec_chan st = Message_new <$> [[1]; [2; 3]] ∧ fed ≠ [].
Proof.
  destruct (echo_exact [] (mkLogSink [] [] 0 0 : LogSink Message)
    [EchoData [1]; EchoTick; EchoData [2; 3]; EchoRecv; EchoWake; EchoNotified] 2) as (st & fed & Hr & [_ Ht] & Hf & _).
  - intros d. exact I.
  - split; reflexivity.
  - cbn. lia.
  - exists st, fed. split_and!; [exact Hr|exact Ht|exact Hf|]. cbn in Ht. rewrite <-Ht. cbn in Hr. injection Hr as <-. discriminate.
Defined.
