(* ===== verification/Delivery.v ===== *)
(** * Delivery, end to end

    The encoder of one peer (src/codec/encoder/fragment.rs) and the decoding
    pipeline of the other (src/codec/mod.rs), composed: whatever the network does
    to the frames of a connection, as long as each reliable one arrives at least
    once, the reliable messages come out of the pipeline complete and once, those
    of an ordered channel in the order they were sent, and an unreliable message
    comes out as often as its frame arrives. *)
From S2P Require Import Prelude Bytes Errors Reader SeqNum Types FrameSet FrameBody Stream Collections Dedup.
From S2P Require Import DeFragment Order Decoder Rest Reassembly Sink PackType Encoder.
Open Scope Z_scope.

(** ** Deduplication: one copy of each reliable frame *)

(** A frame with a reliable index. *)
Definition numbered (f : Frame) : Prop := is_Some (reliable_frame_index f).

Section dedup_stage.
Context {B : Build}.

(** Of the copies of a reliable frame one is kept. *)
Lemma first_occurrences_covers hist fs f i :
  f ∈ fs → reliable_frame_index f = Some i → i ∉ hist →
  ∃ g, g ∈ first_occurrences hist fs ∧ reliable_frame_index g = Some i.
Proof.
  revert hist. induction fs as [|h fs IH]; intros hist Hf Hi Hn; [set_solver|]. cbn.
  destruct (decide (reliable_frame_index h = Some i)) as [Hh|Hh].
  { rewrite Hh, bool_decide_false by done. exists h. split; [left|done]. }
  assert (f ∈ fs) as Hfs by (apply elem_of_cons in Hf as [->|?]; done).
  destruct (reliable_frame_index h) as [j|] eqn:Hj.
  - case_bool_decide; [by apply IH|]. destruct (IH (j :: hist) Hfs Hi) as (g & Hg & Hgi); [set_solver|].
    exists g. split; [by right|done].
  - destruct (IH hist Hfs Hi Hn) as (g & Hg & Hgi). exists g. split; [by right|done].
Qed.

Lemma reliable_indices_NoDup fs : Forall numbered fs → NoDup (reliable_indices fs) → NoDup fs.
Proof.
  induction 1 as [|f fs [i Hi] Hfs IH]; [constructor|]. unfold reliable_indices. cbn. rewrite Hi. cbn.
  intros [Hn Hnd]%NoDup_cons. apply NoDup_cons. split; [|by apply IH]. intros Hin. apply Hn.
  apply list_elem_of_bind. exists f. rewrite Hi. split; [left|done].
Qed.

Lemma reliable_indices_inj fs f g i :
  NoDup (reliable_indices fs) → f ∈ fs → g ∈ fs →
  reliable_frame_index f = Some i → reliable_frame_index g = Some i → f = g.
Proof.
  assert (∀ fs f, f ∈ fs → reliable_frame_index f = Some i → i ∈ reliable_indices fs) as Hin.
  { intros l x Hx Hi. apply list_elem_of_bind. exists x. rewrite Hi. split; [left|done]. }
  induction fs as [|h fs IH]; [set_solver|]. unfold reliable_indices. cbn. intros Hnd Hf Hg Hfi Hgi.
  apply NoDup_app in Hnd as (_ & Hd & Hnd).
  apply elem_of_cons in Hf as [->|Hf], Hg as [->|Hg]; [done| | |by apply IH].
  - exfalso. apply (Hd i); [rewrite Hfi; left|by eapply Hin].
  - exfalso. apply (Hd i); [rewrite Hgi; left|by eapply Hin].
Qed.

Lemma reliable_indices_numbered fs : reliable_indices (filter numbered fs) = reliable_indices fs.
Proof.
  induction fs as [|f fs IH]; [done|]. unfold reliable_indices in *. rewrite filter_cons.
  case_decide as Hf; cbn; rewrite IH; [done|]. unfold numbered in Hf. by destruct (reliable_frame_index f); [destruct Hf|].
Qed.

Lemma first_occurrences_unnumbered hist fs :
  filter (λ f, ¬ numbered f) (first_occurrences hist fs) = filter (λ f, ¬ numbered f) fs.
Proof.
  revert hist. induction fs as [|f fs IH]; intros hist; [done|]. cbn [first_occurrences].
  destruct (reliable_frame_index f) as [i|] eqn:Hi.
  - assert (¬ ¬ numbered f) as Hn by (intros Hn; apply Hn; unfold numbered; by rewrite Hi).
    case_bool_decide; rewrite !filter_cons, ?decide_False by done; cbn; apply IH.
  - assert (¬ numbered f) as Hn by (unfold numbered; rewrite Hi; by intros []).
    rewrite !filter_cons, !decide_True by done. by rewrite IH.
Qed.

(** What the network did to the frames that were sent: it lost no reliable one,
    and made none up. *)
Record arrived (sent arr : list Frame) : Prop := {
  ar_sound : ∀ f, f ∈ arr → f ∈ sent;
  ar_reliable : ∀ f, f ∈ sent → numbered f → f ∈ arr;
}.

Lemma first_occurrences_arrived sent arr :
  NoDup (reliable_indices sent) → arrived sent arr →
  first_occurrences [] arr ≡ₚ filter numbered sent ++ filter (λ f, ¬ numbered f) arr.
Proof.
  intros Hnd [Hs Hr]. rewrite <-(filter_app_complement numbered (first_occurrences [] arr)) at 1.
  rewrite first_occurrences_unnumbered. f_equiv.
  assert (∀ f, f ∈ first_occurrences [] arr → f ∈ sent) as Hsub
    by (intros f Hf; apply Hs; by eapply first_occurrences_elem).
  assert (∀ l, Forall numbered (filter numbered l)) as Hfl
    by (intros l; apply Forall_forall; by intros f [? _]%list_elem_of_filter).
  apply NoDup_Permutation.
  - apply reliable_indices_NoDup; [done|]. rewrite reliable_indices_numbered. apply first_occurrences_NoDup.
  - apply reliable_indices_NoDup; [done|]. by rewrite reliable_indices_numbered.
  - intros f. rewrite !list_elem_of_filter. split; [by intros [? ?%Hsub]|]. intros [[i Hi] Hf]. split; [by exists i|].
    destruct (first_occurrences_covers [] arr f i) as (g & Hg & Hgi); [apply Hr; [done|by exists i]|done|set_solver|].
    by rewrite (reliable_indices_inj sent f g i) by auto.
Qed.

Lemma tape_frames_pending k : tape_frames (replicate k Pending) = [].
Proof. unfold tape_frames. by rewrite items_pending. Qed.

Lemma dedup_stage sent n up :
  NoDup (reliable_indices sent) → frames_countable sent → arrived sent (tape_frames up) → (2 * length up < n)%nat →
  ∃ v k w up', polls Dedup_poll_next n DuplicateWindow_default up = Ok (v ++ replicate k Pending, w, up') ∧
    tape_frames v ≡ₚ filter numbered sent ++ filter (λ f, ¬ numbered f) (tape_frames up) ∧
    (length v ≤ 2 * length up + 1)%nat ∧ (length (tape_frames v) ≤ length (tape_frames up))%nat ∧ errors v = errors up ∧
    (ended up → ended v).
Proof.
  intros Hnd Hc Harr Hn.
  destruct (Dedup_polls_spec n [] DuplicateWindow_default up)
    as (out & w & used & up' & Hp & Hu & _ & Hout & Herr & _); [|constructor| |].
  { eapply window_seen_ext; [|apply window_seen_default]. intros x _. cbn. set_solver. }
  { unfold frames_countable in *. rewrite Forall_forall in *.
    intros x (f & Hx & Hf)%list_elem_of_bind. apply Hc, list_elem_of_bind. exists f. split; [done|]. by apply Harr. }
  destruct (Dedup_rests _ _ _ _ _ _ Hp Hn) as (v & k & k' & -> & Hv & ->).
  assert (ended up → ended v) as Hend by (intros He; by eapply ended_pending, Dedup_ends).
  rewrite tape_frames_app, tape_frames_pending, app_nil_r in Hout.
  assert (tape_frames used = tape_frames up) as Hup by (by rewrite Hu, tape_frames_app, tape_frames_pending, app_nil_r).
  rewrite Hup in Hout. exists v, k, w, (replicate k' Pending). split_and!; [done| |done| | |done].
  - rewrite Hout. by apply first_occurrences_arrived.
  - rewrite Hout. apply first_occurrences_length.
  - by rewrite Hu, errors_app, <-Herr, errors_app, !errors_pending, !app_nil_r.
Qed.
End dedup_stage.

Lemma tape_pairs_frames t : (tape_pairs t).*2 = tape_frames t.
Proof.
  unfold tape_pairs, tape_frames. generalize (items t). intros l. induction l as [|s l IH]; cbn; [done|].
  rewrite fmap_app, IH, <-list_fmap_compose. f_equal. apply list_fmap_id.
Qed.

(** ** Reassembly: one frame per message *)

Definition is_group (g : list Frame) : Prop := single g ∨ g ≠ [] ∧ ∃ id, fragments_of id g.

Lemma is_group_merged g : is_group g → is_Some (merged g).
Proof. intros [(f & -> & _)|[Hne _]]; [by eexists|]. destruct g; [done|by eexists]. Qed.

Section defrag_stage.
Context {BH : BinaryHeap} {LC : LruCrate}.

Lemma defrag_run_length st l st' :
  defrag_run st l = Ok st' → (length (buffer st') ≤ length (buffer st) + length l)%nat.
Proof.
  revert st. induction l as [|[seq f] l IH]; intros st; cbn; [intros [= <-]; lia|].
  destruct (defrag_frame seq st f) as [st1| |] eqn:Hf; cbn; [|done..]. intros H%IH.
  assert (length (buffer st1) ≤ length (buffer st) + 1)%nat; [|lia].
  revert Hf. unfold defrag_frame, mret, outcome_ret. cbn zeta.
  repeat case_match; intros; simplify_eq; cbn; rewrite ?length_app; cbn; lia.
Qed.

Lemma defrag_stage gs cap limit n v k :
  Forall is_group gs → NoDup (omap group_id gs) → (0 < cap)%nat → Forall (frame_valid limit) (concat gs) →
  (length (omap group_id gs) ≤ cap)%nat →
  tape_frames v ≡ₚ concat gs → (length v + length (tape_frames v) < n)%nat →
  ∃ v' k' st up', polls DeFragment_poll_next n (mkDeFragment limit (lru_new cap) []) (v ++ replicate k Pending) =
      Ok (v' ++ replicate k' Pending, st, up') ∧
    one_frame <$> items v' ≡ₚ omap merged gs ∧
    (length v' ≤ length v + length (tape_frames v) + 1)%nat ∧ errors v' = errors v ∧ (ended v → ended v').
Proof.
  intros Hgs Hd Hcap Hvalid Hids Hv Hn. pose proof (DeFragment_inv_new cap limit) as Hinv.
  set (st0 := mkDeFragment limit (lru_new cap) []) in *.
  assert (∀ j, tape_pairs (replicate j Pending) = []) as Hpend
    by (intros j; unfold tape_pairs; by rewrite items_pending).
  assert (Forall (frame_valid limit) (tape_pairs v).*2) as Hval by (by rewrite tape_pairs_frames, Hv).
  destruct (DeFragment_polls_spec cap n st0 (v ++ replicate k Pending) Hcap Hinv)
    as (out & st & used & up' & Hp & Hu & _ & Hpo & _).
  { by rewrite tape_pairs_app, Hpend, app_nil_r. }
  assert (tape_pairs v = tape_pairs used ++ tape_pairs up') as Hused.
  { by rewrite <-tape_pairs_app, <-Hu, tape_pairs_app, Hpend, app_nil_r. }
  assert (length (tape_pairs v) = length (tape_frames v)) as Hlv
    by (by rewrite <-tape_pairs_frames, length_fmap).
  unfold polled in Hpo. pose proof (defrag_run_length _ _ _ Hpo) as Hlen. cbn in Hlen.
  rewrite length_app in Hlen. apply (f_equal length) in Hused as Hul. rewrite length_app in Hul.
  destruct (DeFragment_rests cap n st0 v k (length (tape_frames v)) out st up' Hcap Hinv Hval Hp)
    as (Hbuf & v' & k' & k'' & -> & Hv' & ->); [lia|lia|].
  pose proof (DeFragment_passes_errors cap n st0 v k _ st k'' Hcap Hinv Hval Hp) as Herr.
  rewrite errors_app, errors_pending, app_nil_r in Herr.
  assert (ended v → ended v') as Hend
    by (intros He; eapply ended_pending; by apply (DeFragment_ends cap n st0 v k _ st k'' Hcap Hinv Hval Hp)).
  exists v', k', st, (replicate k'' Pending). split_and!; [done| |done|done|done].
  rewrite Hpend, app_nil_r in Hused. rewrite <-Hused, items_app, items_pending, app_nil_r in Hpo.
  destruct (defrag_run_outstanding cap (omap group_id gs) st0 (tape_pairs v) (prepend (items v') st) gs)
    as (b & Hb & Hperm); try done.
  - cbn [st0 parts]. rewrite lru_new_list. set_solver.
  - intros id (f & Hf & Hp')%elem_of_ids. rewrite tape_pairs_frames, Hv in Hf.
    apply elem_of_concat in Hf as (g & Hg & Hf). apply list_elem_of_omap. exists g. split; [done|].
    rewrite Forall_forall in Hgs. destruct (Hgs g Hg) as [(h & -> & Hh & _)|(Hne & id' & Hfr)].
    + apply list_elem_of_singleton in Hf as ->. unfold is_part in Hp'. by rewrite Hh in Hp'.
    + rewrite (fragments_group_id id' g) by done. f_equal. by eapply is_part_inj; [eapply fragments_is_part|].
  - apply outstanding_new; [by rewrite tape_pairs_frames|done|done].
  - cbn [prepend buffer app] in Hb. rewrite Hbuf, app_nil_r in Hb. by rewrite Hb.
Qed.
End defrag_stage.

(** ** Ordering: channel by channel *)

(** The channel of a frame, and its place there. *)
Definition frame_channel (f : Frame) : option Z := channel <$> ordered f.

Definition frame_place (f : Frame) : Z := match ordered f with Some o => frame_index o | None => 0 end.

Abbreviation on_channel := (with_key frame_channel).

Lemma channel_indices_places c l :
  channel_indices c l = frame_place <$> on_channel (Some (Z.of_nat c)) (one_frame <$> l).
Proof.
  unfold channel_indices, with_key. induction l as [|x l IH]; [done|]. cbn [omap list_omap fmap list_fmap].
  rewrite filter_cons. unfold frame_order, frame_channel, frame_place at 1. destruct (ordered (one_frame x)) as [o|] eqn:Ho; cbn.
  - case_decide as Hc; [rewrite decide_True by congruence|rewrite decide_False by congruence]; cbn;
      [unfold frame_place; rewrite Ho; by f_equal|done].
  - by rewrite decide_False by done.
Qed.

Lemma unordered_channel l : one_frame <$> unordered l = on_channel None (one_frame <$> l).
Proof.
  unfold unordered, with_key. induction l as [|x l IH]; [done|]. rewrite fmap_cons, !filter_cons.
  destruct (ordered (one_frame x)) as [o|] eqn:Ho.
  - rewrite !decide_False; [exact IH|unfold frame_channel; by rewrite Ho|unfold frame_order; by rewrite Ho].
  - rewrite !decide_True, fmap_cons; [by f_equal|unfold frame_channel; by rewrite Ho|done].
Qed.

(** The frames [ms] fill their channels, each from its start. *)
Record in_channels (chans : nat) (ms : list Frame) : Prop := {
  ic_channels : ∀ f o, f ∈ ms → ordered f = Some o → 0 ≤ channel o < Z.of_nat chans;
  ic_places : ∀ c, (c < chans)%nat → ∃ k, 0 ≤ k < 2 ^ 24 - 1 ∧
    frame_place <$> on_channel (Some (Z.of_nat c)) ms = u24_range 0 k;
}.

Lemma on_channel_outside chans ms ms' c :
  in_channels chans ms → ms' ⊆ ms → ¬ (0 ≤ c < Z.of_nat chans) → on_channel (Some c) ms' = [].
Proof.
  intros [Hc _] Hsub Hout. apply filter_none, Forall_forall. intros f Hf. unfold frame_channel.
  destruct (ordered f) as [o|] eqn:Ho; [|done]. cbn. intros [= <-]. by apply Hout, (Hc f); [apply Hsub|].
Qed.

Section order_stage.
Context {B : Build} (chans : nat) (ms : list Frame) (Hms : in_channels chans ms).

Lemma in_channels_order_ok o : one_frame o ∈ ms → order_ok o.
Proof.
  intros Ho. unfold order_ok, frame_order. destruct (ordered (one_frame o)) as [x|] eqn:Hx; [|done].
  destruct (ic_channels _ _ Hms _ _ Ho Hx) as [H0 H1].
  destruct (ic_places _ _ Hms (Z.to_nat (channel x))) as (k & Hk & Hr); [lia|].
  assert (frame_index x ∈ u24_range 0 k) as ?%elem_of_u24_range; [|unfold countable; lia].
  rewrite <-Hr. apply list_elem_of_fmap. exists (one_frame o). unfold frame_place. rewrite Hx. split; [done|].
  apply elem_of_with_key. unfold frame_channel. rewrite Hx. cbn. split; [f_equal; lia|done].
Qed.

(** What was delivered is among what was received. *)
Lemma delivered_submseteq recv dlv st :
  Order_inv recv dlv st → max_channels st = chans → one_frame <$> recv ⊆+ ms →
  one_frame <$> dlv ⊆+ ms.
Proof.
  intros [Hl Hch Hdel Hun] Hmc Hrecv.
  assert (one_frame <$> dlv ⊆ ms) as Hsub.
  { intros f (o & -> & Ho%Hdel)%list_elem_of_fmap. eapply elem_of_submseteq; [|exact Hrecv]. by apply list_elem_of_fmap_2. }
  apply (keyed_submseteq frame_channel). intros [c|].
  - destruct (decide (0 ≤ c < Z.of_nat chans)) as [Hc|Hc].
    2: { rewrite (on_channel_outside chans ms) by done. apply submseteq_nil_l. }
    destruct (lookup_lt_is_Some_2 (ordering st) (Z.to_nat c)) as [o Ho]; [lia|].
    destruct (Hch _ o Ho) as [_ Hci _ _]. rewrite channel_indices_places, Z2Nat.id in Hci by lia.
    apply NoDup_submseteq.
    + eapply (NoDup_fmap_1 frame_place). rewrite Hci. apply NoDup_u24_range.
    + intros f [Hk Hf]%elem_of_with_key. apply elem_of_with_key. split; [done|by apply Hsub].
  - rewrite <-unordered_channel, Hun, unordered_channel. apply submseteq_Permutation in Hrecv as [rest Hp].
    rewrite (with_key_Permutation _ _ _ _ Hp), with_key_app. apply submseteq_inserts_r. done.
Qed.

(** When everything has arrived and nothing waits, each channel is delivered. *)
Lemma delivered_channel recv dlv st c o :
  Order_inv recv dlv st → one_frame <$> recv ≡ₚ ms → one_frame <$> dlv ⊆+ ms →
  idle st → (c < chans)%nat → ordering st !! c = Some o →
  on_channel (Some (Z.of_nat c)) (one_frame <$> dlv) = on_channel (Some (Z.of_nat c)) ms.
Proof.
  intros Hinv Hrecv Hsub Hidle Hc Ho. destruct (oi_channels _ _ _ Hinv c o Ho) as [Hr Hci _ Hin].
  destruct (ic_places _ _ Hms c Hc) as (k & Hk & Hp). rewrite channel_indices_places in Hci.
  assert (∀ f, f ∈ on_channel (Some (Z.of_nat c)) (one_frame <$> dlv) → f ∈ on_channel (Some (Z.of_nat c)) ms) as Hel.
  { intros f [Hf1 Hf2]%elem_of_with_key. apply elem_of_with_key. split; [done|by eapply elem_of_submseteq]. }
  assert (read o = k) as Hrk.
  { destruct (Z.lt_trichotomy (read o) k) as [Hlt|[?|Hgt]]; [|done|].
    - destruct (Hin (read o)) as [?|[x Hx]]; [|lia|by rewrite (Hidle c o Ho) in Hx].
      rewrite channel_indices_places. assert (read o ∈ u24_range 0 k) as Hro by (apply elem_of_u24_range; lia).
      rewrite <-Hp in Hro. by rewrite (with_key_Permutation _ _ _ _ Hrecv).
    - assert (k ∈ u24_range 0 (read o)) as Hkr by (apply elem_of_u24_range; lia).
      rewrite <-Hci in Hkr. apply list_elem_of_fmap in Hkr as (f & Hfk & Hf%Hel).
      assert (k ∈ u24_range 0 k) as ?%elem_of_u24_range; [|lia]. rewrite <-Hp, Hfk. by apply list_elem_of_fmap_2. }
  apply (fmap_eq_inj frame_place); [by rewrite Hci, Hp, Hrk|rewrite Hp; apply NoDup_u24_range|exact Hel].
Qed.

Lemma order_stage n v k :
  one_frame <$> items v ≡ₚ ms → (length v + length ms < n)%nat →
  ∃ v' k' st up', polls Order_poll_next n (mkOrder chans (replicate chans Ordering_default))
      (v ++ replicate k Pending) = Ok (v' ++ replicate k' Pending, st, up') ∧
    one_frame <$> items v' ≡ₚ ms ∧
    (∀ c, on_channel (Some c) (one_frame <$> items v') = on_channel (Some c) ms) ∧
    (length v' ≤ length v + length ms + 1)%nat ∧ errors v' = errors v ∧ (ended v → ended v').
Proof.
  intros Hv Hn. set (st0 := mkOrder chans (replicate chans Ordering_default)).
  assert (items (v ++ replicate k Pending) = items v) as Hvk by (by rewrite items_app, items_pending, app_nil_r).
  destruct (Order_polls_spec n [] [] st0 (v ++ replicate k Pending))
    as (out & st & used & up' & Hp & Hu & _ & Hinv & Hmc & _).
  { apply Order_inv_new. }
  { rewrite Hvk. apply Forall_forall. intros o Ho. apply in_channels_order_ok. rewrite <-Hv. by apply list_elem_of_fmap_2. }
  cbn [app] in Hinv. cbn in Hmc. rewrite Hu, items_app in Hvk.
  assert (one_frame <$> items out ⊆+ ms) as Hsub.
  { eapply delivered_submseteq; [exact Hinv|done|]. rewrite <-Hv, <-Hvk, fmap_app. by apply submseteq_inserts_r. }
  destruct (Order_rests n st0 v k (length ms) out st up')
    as ([_ Hidle] & v' & k' & k'' & -> & Hv' & ->);
    [cbn; by rewrite length_replicate|done|apply submseteq_length in Hsub; by rewrite length_fmap in Hsub|lia|].
  assert (errors v' = errors v) as Herr.
  { rewrite <-(Order_passes_errors n st0 v k _ st k'') with (2:=Hp); [by rewrite errors_app, errors_pending, app_nil_r|].
    apply Forall_forall. intros f Hf. unfold channel_valid. destruct (ordered (one_frame f)) as [o|] eqn:Ho; [|done].
    assert (one_frame f ∈ ms) as Hin by (rewrite <-Hv; by apply list_elem_of_fmap_2).
    pose proof (ic_channels _ _ Hms _ _ Hin Ho). cbn. lia. }
  assert (ended v → ended v') as Hend.
  { intros He. eapply ended_pending, (Order_ends n st0 v k _ st k''); [cbn; by rewrite length_replicate|exact Hp|exact He]. }
  exists v', k', st, (replicate k'' Pending).
  rewrite items_pending, app_nil_r in Hvk. rewrite Hvk in Hinv. rewrite items_app, items_pending, app_nil_r in Hsub, Hinv.
  assert (∀ c, on_channel (Some c) (one_frame <$> items v') = on_channel (Some c) ms) as Hchan.
  { intros c. destruct (decide (0 ≤ c < Z.of_nat chans)) as [Hc|Hc].
    - destruct (lookup_lt_is_Some_2 (ordering st) (Z.to_nat c)) as [o Ho]; [rewrite (oi_length _ _ _ Hinv); lia|].
      rewrite <-(Z2Nat.id c) by lia. eapply delivered_channel; [exact Hinv|done|done|done|lia|done].
    - assert (one_frame <$> items v' ⊆ ms) as Hs by (intros f Hf; by eapply elem_of_submseteq).
      by rewrite !(on_channel_outside chans ms) by done. }
  split_and!; [done| |done|done|done|done]. apply (keyed_Permutation frame_channel). intros [c|]; [by rewrite Hchan|].
  rewrite <-unordered_channel, (oi_unordered _ _ _ Hinv), unordered_channel. by apply with_key_Permutation.
Qed.
End order_stage.

(** ** The sender *)

(** A message and its frames. *)
Abbreviation parcel := (Message * list Frame)%type.

Section sender.
Context {B : Build} {F : Type} `{!Sink F (Priority * Frame)}.

(** Sending one message after the other. *)
Fixpoint start_send_all {E} (msgs : list Message) (s : FragmentSink F) : outcome E (FragmentSink F) :=
  match msgs with
  | [] => mret s
  | msg :: msgs => s ← Fragment_start_send msg s; start_send_all msgs s
  end.

(** An upper bound on the frames of the messages, and how many are split. *)
Definition volume (msgs : list Message) : Z := Z.of_nat (sum_list_with (λ m, S (length (msg_data m))) msgs).

Definition split_count (s : FragmentSink F) (msgs : list Message) : Z :=
  Z.of_nat (length (filter (λ m, must_split m s = true) msgs)).

(** A message that must arrive, and the channel it is ordered on.  Both depend
    on whether it is split, as the fragments of a message are always reliable. *)
Definition must_arrive (s : FragmentSink F) (m : Message) : bool := is_reliable (sent_reliability m s).

Definition sent_channel (s : FragmentSink F) (m : Message) : option Z :=
  if is_sequenced_or_ordered (sent_reliability m s) then Some (msg_order_channel m) else None.

(** The numbers the sender has left are enough for the messages, and a message
    that is ordered is also reliable. *)
Record sendable (msgs : list Message) (s : FragmentSink F) : Prop := {
  sn_mtu : 27 < frag_mtu s < 2 ^ 13;
  sn_channels : (length (order_write_index s) ≤ 256)%nat;
  sn_msgs : Forall (λ m, 0 ≤ msg_order_channel m < Z.of_nat (length (order_write_index s)) ∧
    (sent_channel s m ≠ None → must_arrive s m = true)) msgs;
  sn_orders : Forall (λ i, 0 ≤ i ∧ i + Z.of_nat (length msgs) < 2 ^ 24 - 1) (order_write_index s);
  sn_index : 0 ≤ reliable_write_index s;
  sn_volume : reliable_write_index s + volume msgs < 2 ^ 24 - 1;
  sn_parted : uint 16 (parted_id_write s);
  sn_splits : parted_id_write s + split_count s msgs ≤ 2 ^ 16;
}.

Record parcel_ok (s : FragmentSink F) (z : parcel) : Prop := {
  pa_group : if must_split z.1 s then z.2 ≠ [] ∧ ∃ id, fragments_of id z.2 else single z.2;
  pa_data : (z.2 ≫= body) = msg_data z.1;
  pa_numbered : ∀ f, f ∈ z.2 → numbered f ↔ must_arrive s z.1 = true;
  pa_channel : ∀ f, f ∈ z.2 → frame_channel f = sent_channel s z.1;
  pa_size : ∀ f, f ∈ z.2 → FRAME_SET_HEADER_SIZE + Frame_size f ≤ frag_mtu s;
  pa_frames : is_sequenced (msg_reliability z.1) = false → bytes_ok (msg_data z.1) → msg_data z.1 ≠ [] →
    ∀ f, f ∈ z.2 → Frame_ok f ∧ Frame_fits f;
  pa_length : (length z.2 ≤ S (length (msg_data z.1)))%nat;
}.

(** What sending the messages [msgs] in a state [s] yields. *)
Record sent_parcels (msgs : list Message) (s : FragmentSink F) (zs : list parcel) (s' : FragmentSink F) : Prop := {
  sp_msgs : zs.*1 = msgs;
  sp_each : Forall (parcel_ok s) zs;
  sp_indices : reliable_indices (concat zs.*2) = u24_range (reliable_write_index s) (reliable_write_index s');
  sp_bounds : reliable_write_index s ≤ reliable_write_index s' ≤ reliable_write_index s + volume msgs;
  sp_places : ∀ c i, order_write_index s !! c = Some i → ∃ i', order_write_index s' !! c = Some i' ∧
    i ≤ i' ≤ i + Z.of_nat (length msgs) ∧
    frame_place <$> on_channel (Some (Z.of_nat c)) (omap merged zs.*2) = u24_range i i';
  sp_ids : omap group_id zs.*2 = u24_range (parted_id_write s) (parted_id_write s + split_count s msgs);
}.

Lemma must_split_mtu m (s s' : FragmentSink F) : frag_mtu s = frag_mtu s' → must_split m s = must_split m s'.
Proof. unfold must_split. by intros ->. Qed.

Lemma split_count_mtu (s s' : FragmentSink F) msgs : frag_mtu s = frag_mtu s' → split_count s msgs = split_count s' msgs.
Proof.
  intros Hm. unfold split_count. do 2 f_equal. apply list_filter_iff. intros m. by rewrite (must_split_mtu m s s').
Qed.

Lemma split_count_cons s m msgs :
  split_count s (m :: msgs) = (if must_split m s then 1 else 0) + split_count s msgs.
Proof.
  unfold split_count. rewrite filter_cons. destruct (must_split m s); [rewrite decide_True by done|rewrite decide_False by done]; cbn [length]; lia.
Qed.

Lemma sent_mtu (s s' : FragmentSink F) m :
  frag_mtu s = frag_mtu s' → must_arrive s m = must_arrive s' m ∧ sent_channel s m = sent_channel s' m.
Proof. intros Hm. unfold must_arrive, sent_channel, sent_reliability. by rewrite (must_split_mtu m s s' Hm). Qed.

Lemma parcel_ok_mtu s s' z : frag_mtu s = frag_mtu s' → parcel_ok s z → parcel_ok s' z.
Proof.
  intros Hm [H1 H2 H3 H4 H5 H6 H7]. destruct (sent_mtu s s' z.1 Hm) as [Ha Hc].
  split; [by rewrite <-(must_split_mtu z.1 s s')|done|by rewrite <-Ha|by rewrite <-Hc|by rewrite <-Hm|done|done].
Qed.

Lemma must_split_arrives m s : must_split m s = true → must_arrive s m = true.
Proof. unfold must_arrive, sent_reliability. intros ->. by destruct (msg_reliability m). Qed.

Lemma sent_sequenced msg (s : FragmentSink F) :
  is_sequenced (sent_reliability msg s) = is_sequenced (msg_reliability msg).
Proof. unfold sent_reliability. by destruct (must_split msg s), (msg_reliability msg). Qed.

(** The place a message takes on its channel. *)
Lemma parcel_place s z m c i :
  parcel_ok s z → merged z.2 = Some m → (∀ f, f ∈ z.2 → sent_channel s z.1 ≠ None → frame_place f = i) →
  frame_place <$> on_channel (Some c) [m] = if decide (sent_channel s z.1 = Some c) then [i] else [].
Proof.
  intros [_ _ _ Hc _ _ _] Hm Hi. destruct z as [msg [|f fs]]; cbn [fst snd] in *; [done|].
  pose proof (merged_ordered f fs m Hm) as Ho.
  assert (frame_channel m = sent_channel s msg) as Hmc.
  { rewrite <-(Hc f) by left. unfold frame_channel. by rewrite Ho. }
  unfold with_key. rewrite filter_cons, Hmc. case_decide as Hs; [|done]. cbn. f_equal.
  rewrite <-(Hi f); [|left|by rewrite Hs]. unfold frame_place. by rewrite Ho.
Qed.

(** A message the sink can take, and the order index of its channel. *)
Lemma sendable_head msg msgs s :
  sendable (msg :: msgs) s →
  encodable msg s ∧ ∃ i, order_write_index s !! Z.to_nat (msg_order_channel msg) = Some i ∧ 0 ≤ i < 2 ^ 24 - 1.
Proof.
  intros [Hm Hlen Hmsgs Hord H0 Hvol Hp0 Hsp]. apply Forall_cons in Hmsgs as [[Hch Hro] _].
  unfold volume in Hvol. cbn [sum_list_with length] in Hvol.
  assert (∃ i, order_write_index s !! Z.to_nat (msg_order_channel msg) = Some i ∧ 0 ≤ i < 2 ^ 24 - 1) as Hi.
  { destruct (lookup_lt_is_Some_2 (order_write_index s) (Z.to_nat (msg_order_channel msg))) as [i Hi]; [lia|].
    exists i. split; [done|]. rewrite Forall_lookup in Hord. apply Hord in Hi. lia. }
  split; [|done]. split; [done|lia|done|done|lia].
Qed.

(** The frames [start_send] makes of a message, seen from the message: what
    [Fragment_start_send_spec] gives of them. *)
Definition frames_of (msg : Message) (s : FragmentSink F) (i : Z) (fs : list Frame) : Prop :=
  let n := Z.of_nat (length fs) in
  (fs ≫= body) = msg_data msg ∧ 0 < n ≤ Z.of_nat (length (msg_data msg)) + 1 ∧
  (if must_split msg s then 1 < n else n = 1) ∧
  ∀ j f, fs !! j = Some f →
    frame_shape (sent_reliability msg s) (must_split msg s) (reliable_write_index s + Z.of_nat j)
      (mkOrdered i (msg_order_channel msg))
      (if must_split msg s then Some (mkFragment n (parted_id_write s) (Z.of_nat j)) else None) f ∧
    (must_split msg s = true → body f ≠ []) ∧ Frame_size f ≤ frag_mtu s - FRAME_SET_HEADER_SIZE.

Lemma frames_of_ok msg msgs s i fs :
  sendable (msg :: msgs) s → 0 ≤ i < 2 ^ 24 - 1 → frames_of msg s i fs → parcel_ok s (msg, fs).
Proof.
  intros [Hm Hlen Hmsgs Hord H0 Hvol Hp0 Hsp] Hib (Hb & Hn & Hn1 & Hfs).
  apply Forall_cons in Hmsgs as [[Hch Hro] _]. unfold volume in Hvol. cbn [sum_list_with length] in Hvol.
  assert (∀ f, f ∈ fs → ∃ j, fs !! j = Some f) as Hel by (intros f; apply list_elem_of_lookup_1).
  split; cbn [fst snd]; [|done| | | | |lia].
  - destruct (must_split msg s).
    + split; [by intros ->; cbn in Hn; lia|]. exists (parted_id_write s).
      intros j f Hf. by destruct (Hfs j f Hf) as ((_ & _ & _ & _ & ?) & _).
    + destruct fs as [|f [|g fs]]; [cbn in Hn1; lia| |cbn in Hn1; lia]. exists f.
      destruct (Hfs 0%nat f eq_refl) as ((Hfl & _ & _ & _ & Hg) & _). by rewrite Hfl.
  - intros f [j Hj]%Hel. destruct (Hfs j f Hj) as ((_ & Hr & _) & _). unfold numbered, must_arrive.
    rewrite Hr. destruct (is_reliable _); [done|]. by split; [intros []|].
  - intros f [j Hj]%Hel. destruct (Hfs j f Hj) as ((_ & _ & _ & Ho & _) & _). unfold frame_channel, sent_channel.
    rewrite Ho. by destruct (is_sequenced_or_ordered _).
  - intros f [j Hj]%Hel. destruct (Hfs j f Hj) as (_ & _ & ?). lia.
  - intros Hsq Hd Hne f [j Hj]%Hel. destruct (Hfs j f Hj) as (Hsh & Hbody & Hsz).
    assert (j < length fs)%nat as Hjl by (by apply lookup_lt_Some in Hj).
    eapply start_send_frames_ok; [exact Hsh|by rewrite sent_sequenced| | | | | |exact Hsz|lia].
    + unfold u24_valid, uint. lia.
    + split; cbn; unfold u24_valid, uint; lia.
    + destruct (must_split msg s); [|done]. eexists. split; [done|]. unfold Fragment_ok. cbn. unfold uint in *. lia.
    + rewrite <-Hb in Hd. rewrite Forall_forall in Hd. apply Forall_forall. intros x Hx. apply Hd.
      apply list_elem_of_bind. exists f. split; [done|by eapply list_elem_of_lookup_2].
    + destruct (must_split msg s) eqn:Hms; [by apply Hbody|].
      destruct fs as [|g [|]]; [done| |cbn in Hn1; lia]. destruct j; [|done]. cbn in Hj. injection Hj as ->.
      cbn in Hb. rewrite app_nil_r in Hb. by rewrite Hb.
Qed.

(** The place of the message on its channel. *)
Lemma frames_of_place msg s i fs m c :
  frames_of msg s i fs → parcel_ok s (msg, fs) → merged fs = Some m →
  frame_place <$> on_channel (Some (Z.of_nat c)) (omap merged [fs]) =
    if decide (sent_channel s msg = Some (Z.of_nat c)) then [i] else [].
Proof.
  intros (_ & _ & _ & Hfs) Hpok Hmm. cbn [omap list_omap]. rewrite Hmm.
  rewrite (parcel_place s (msg, fs) m (Z.of_nat c) i Hpok Hmm); [done|].
  intros f [j Hj]%list_elem_of_lookup_1 Hsc. destruct (Hfs j f Hj) as ((_ & _ & _ & Ho & _) & _).
  unfold frame_place, sent_channel in *. rewrite Ho. by destruct (is_sequenced_or_ordered _).
Qed.

(** The group the frames of a split message carry. *)
Lemma frames_of_ids msg s i fs :
  frames_of msg s i fs → parcel_ok s (msg, fs) →
  omap group_id [fs] = u24_range (parted_id_write s) (parted_id_write s + split_count s [msg]).
Proof.
  intros (_ & Hn & _ & Hfs) Hpok. pose proof (pa_group _ _ Hpok) as Hg. cbn [fst snd] in Hg.
  cbn. rewrite split_count_cons. unfold split_count. cbn. destruct (must_split msg s).
  - destruct fs as [|f fs]; [cbn in Hn; lia|].
    rewrite (fragments_group_id (parted_id_write s) (f :: fs)); [|intros j g Hj; by destruct (Hfs j g Hj) as ((_ & _ & _ & _ & ?) & _)|done].
    by rewrite u24_range_cons, Z.add_0_r, u24_range_nil by lia.
  - destruct Hg as (f & -> & Hf & _). unfold group_id. cbn. rewrite Hf. cbn. by rewrite Z.add_0_r, u24_range_nil.
Qed.

(** One message: its parcel. *)
Lemma start_send_parcel {E} msg msgs s :
  sendable (msg :: msgs) s →
  ∃ fs s', Fragment_start_send (E:=E) msg s = Ok s' ∧
    frag_buf s' = frag_buf s ++ (pair (msg_priority msg) <$> fs) ∧
    sent_parcels [msg] s [(msg, fs)] s' ∧ frag_mtu s' = frag_mtu s ∧ frag_frame s' = frag_frame s ∧
    length (order_write_index s') = length (order_write_index s) ∧
    parted_id_write s' = wrap 16 (parted_id_write s + split_count s [msg]).
Proof.
  intros Hs. destruct (sendable_head msg msgs s Hs) as (Hen & i2 & Hi2 & Hib).
  destruct (Fragment_start_send_spec (E:=E) msg s Hen) as (fs & i & Hi' & Heq & Hof).
  rewrite Hi' in Hi2. injection Hi2 as <-. pose proof (frames_of_ok msg msgs s i fs Hs Hib Hof) as Hpok.
  exists fs. eexists. split; [exact Heq|]. cbn [frag_buf frag_mtu frag_frame order_write_index parted_id_write].
  pose proof Hof as (_ & Hn & _ & Hfs). destruct Hs as [_ Hlen Hmsgs _ H0 Hvol Hp0 _].
  apply Forall_cons in Hmsgs as [[Hch _] _].
  assert (is_Some (merged fs)) as [m Hmm] by (destruct fs; [cbn in Hn; lia|by eexists]).
  split_and!; [done| |done|done|by destruct (is_sequenced_or_ordered _); rewrite ?length_insert|].
  2: { rewrite split_count_cons. unfold split_count. cbn. destruct (must_split msg s); [done|].
       by rewrite Z.add_0_r, wrap_small. }
  split; cbn [reliable_write_index order_write_index parted_id_write];
    [done|by constructor| | | |exact (frames_of_ids msg s i fs Hof Hpok)].
  - cbn. rewrite app_nil_r. destruct (is_reliable _) eqn:Hr.
    + apply reliable_indices_from. intros j f Hf. destruct (Hfs j f Hf) as ((_ & -> & _) & _). by rewrite Hr.
    + rewrite u24_range_nil. rewrite <-reliable_indices_numbered, filter_none; [done|]. apply Forall_forall.
      intros f Hf Hnf. apply (pa_numbered _ _ Hpok f Hf) in Hnf. unfold must_arrive in Hnf. cbn in Hnf. congruence.
  - unfold volume. cbn [sum_list_with]. destruct (is_reliable _); lia.
  - intros c x Hx. cbn [fmap list_fmap snd length]. rewrite (frames_of_place msg s i fs m c Hof Hpok Hmm).
    unfold sent_channel. destruct (is_sequenced_or_ordered _).
    + case_decide as Hc.
      * injection Hc as Hc. assert (c = Z.to_nat (msg_order_channel msg)) as -> by lia.
        rewrite list_lookup_insert_eq by lia. rewrite Hi' in Hx. injection Hx as <-.
        eexists. split_and!; [done|lia|lia|]. by rewrite u24_range_cons, u24_range_nil by lia.
      * rewrite list_lookup_insert_ne by (intros <-; apply Hc; f_equal; lia). exists x.
        rewrite u24_range_nil. split_and!; [done|lia|lia|done].
    + rewrite decide_False by done. exists x. rewrite u24_range_nil. split_and!; [done|lia|lia|done].
Qed.

Lemma sendable_next msg msgs s z s' :
  sendable (msg :: msgs) s → sent_parcels [msg] s z s' → frag_mtu s' = frag_mtu s →
  length (order_write_index s') = length (order_write_index s) →
  parted_id_write s' = wrap 16 (parted_id_write s + split_count s [msg]) →
  sendable msgs s' ∧
  (parted_id_write s' = parted_id_write s + split_count s [msg] ∨ split_count s msgs = 0).
Proof.
  intros [Hm Hc Hmsgs Hord H0 Hvol Hp0 Hsp] [_ _ _ Hb Hpl _] Hmtu Hlen Hid. apply Forall_cons in Hmsgs as [_ Hmsgs].
  unfold volume in Hvol, Hb. cbn [sum_list_with length] in Hvol, Hb, Hpl. rewrite split_count_cons in Hsp, Hid.
  assert (0 ≤ split_count s msgs) as Hsc by (unfold split_count; lia).
  assert (split_count s [] = 0) as Hn by done. rewrite Hn, Z.add_0_r in Hid.
  rewrite (split_count_cons s msg []), Hn, Z.add_0_r.
  set (d := if must_split msg s then 1 else 0) in *. assert (0 ≤ d ≤ 1) as Hd by (subst d; case_match; lia).
  assert (parted_id_write s' = parted_id_write s + d ∨
    parted_id_write s' = 0 ∧ split_count s msgs = 0) as Hcase.
  { rewrite Hid. unfold wrap, uint in *.
    destruct (decide (parted_id_write s + d = 2 ^ 16)) as [Heq|]; [right; rewrite Heq; split; [done|lia]|left].
    apply Z.mod_small. lia. }
  split; [|destruct Hcase as [?|[_ ?]]; auto].
  split; [by rewrite Hmtu|by rewrite Hlen| | |lia|unfold volume; lia|rewrite Hid; by apply wrap_uint|].
  - rewrite Hlen. eapply Forall_impl; [exact Hmsgs|]. intros m. by destruct (sent_mtu s s' m) as [-> ->].
  - apply Forall_lookup. intros c x Hx.
    destruct (lookup_lt_is_Some_2 (order_write_index s) c) as [y Hy]; [apply lookup_lt_Some in Hx; lia|].
    destruct (Hpl c y Hy) as (x' & Hx' & Hxb & _). rewrite Hx in Hx'. injection Hx' as <-.
    rewrite Forall_lookup in Hord. apply Hord in Hy. cbn [length] in Hy. lia.
  - rewrite (split_count_mtu s' s) by done. destruct Hcase as [->|[-> ->]]; lia.
Qed.

Lemma sent_parcels_cons msg msgs s z s1 zs s2 :
  sent_parcels [msg] s [z] s1 → sent_parcels msgs s1 zs s2 → frag_mtu s1 = frag_mtu s →
  (parted_id_write s1 = parted_id_write s + split_count s [msg] ∨ split_count s msgs = 0) →
  sent_parcels (msg :: msgs) s (z :: zs) s2.
Proof.
  intros [A1 A2 A3 A4 A5 A6] [B1 B2 B3 B4 B5 B6] Hmtu Hid. cbn in A1. injection A1 as A1.
  rewrite (split_count_mtu s1 s) in B6 by done. rewrite Forall_singleton in A2.
  assert (volume (msg :: msgs) = volume [msg] + volume msgs) as Hv by (unfold volume; cbn [sum_list_with]; lia).
  assert (split_count s (msg :: msgs) = split_count s [msg] + split_count s msgs) as Hsc.
  { rewrite split_count_cons, (split_count_cons s msg []). change (split_count s []) with 0. lia. }
  split.
  - cbn. by rewrite A1, B1.
  - apply Forall_cons; split; [done|]. eapply Forall_impl; [exact B2|]. intros y. by apply parcel_ok_mtu.
  - change (concat (z :: zs).*2) with (z.2 ++ concat zs.*2). change (concat [z].*2) with (z.2 ++ []) in A3.
    rewrite app_nil_r in A3.
    rewrite reliable_indices_app, A3, B3. symmetry. apply u24_range_app; lia.
  - lia.
  - intros c i (i1 & Hi1 & Hb1 & He1)%A5. destruct (B5 c i1 Hi1) as (i2 & Hi2 & Hb2 & He2).
    exists i2. cbn [length] in *. split_and!; [done|lia|lia|].
    change (z :: zs) with ([z] ++ zs). rewrite fmap_app, omap_app, with_key_app, fmap_app, He1, He2.
    symmetry. apply u24_range_app; lia.
  - change (z :: zs) with ([z] ++ zs). rewrite fmap_app, omap_app, A6, B6, Hsc.
    assert (0 ≤ split_count s msgs ∧ 0 ≤ split_count s [msg]) as [H1 H2] by (unfold split_count; lia).
    destruct Hid as [->|Hz].
    + rewrite Z.add_assoc. symmetry. apply u24_range_app; lia.
    + by rewrite Hz, !Z.add_0_r, u24_range_nil, app_nil_r.
Qed.

Lemma start_send_all_spec {E} msgs s :
  sendable msgs s → ∃ zs s', start_send_all (E:=E) msgs s = Ok s' ∧
    snd <$> frag_buf s' = (snd <$> frag_buf s) ++ concat zs.*2 ∧ sent_parcels msgs s zs s' ∧
    frag_frame s' = frag_frame s.
Proof.
  revert s. induction msgs as [|msg msgs IH]; intros s Hs.
  { exists [], s. cbn. rewrite app_nil_r. split_and!; [done|done| |done].
    split; [done|constructor|by rewrite u24_range_nil|unfold volume; cbn; lia| |].
    - intros c i Hi. exists i. rewrite u24_range_nil. cbn. split_and!; [done|lia|lia|done].
    - cbn. by rewrite Z.add_0_r, u24_range_nil. }
  destruct (start_send_parcel (E:=E) msg msgs s Hs) as (fs & s1 & Hsend & Hbuf & Hsp & Hmtu & Hfr & Hlen & Hid).
  destruct (sendable_next msg msgs s _ s1 Hs Hsp Hmtu Hlen Hid) as [Hs1 Hid1].
  destruct (IH s1 Hs1) as (zs & s2 & Hall & Hbuf2 & Hsp2 & Hfr2).
  exists ((msg, fs) :: zs), s2. cbn [start_send_all]. rewrite Hsend. split_and!; [done| | |congruence].
  - rewrite Hbuf2, Hbuf, fmap_app, <-list_fmap_compose, <-app_assoc. cbn. f_equal. f_equal. apply list_fmap_id.
  - by eapply sent_parcels_cons.
Qed.
End sender.

(** ** From one peer to the other *)

(** Deliveries of messages: [zf] pairs every message with the frame it becomes. *)
Lemma reorder_parcels {M} (key : M → option Z) (zf : list (M * Frame)) out chans :
  Forall (λ z, key z.1 = frame_channel z.2) zf → in_channels chans zf.*2 → out ≡ₚ zf.*2 →
  (∀ c, on_channel (Some c) out = on_channel (Some c) zf.*2) →
  ∃ zf', zf'.*2 = out ∧ zf' ≡ₚ zf ∧ ∀ c, with_key key (Some c) zf'.*1 = with_key key (Some c) zf.*1.
Proof.
  intros Hk Hic Hp Hc. apply Permutation_map_inv in Hp as (zf' & -> & Hp').
  exists zf'. split_and!; [done|by symmetry|]. intros c.
  assert (∀ l, Forall (λ z, key z.1 = frame_channel z.2) l →
    with_key key (Some c) l.*1 = (with_key (λ z, frame_channel z.2) (Some c) l).*1) as H1.
  { unfold with_key. induction 1 as [|z l Hz _ IH]; [done|]. cbn [fmap list_fmap]. rewrite !filter_cons, Hz.
    case_decide; cbn; [f_equal|]; exact IH. }
  assert (∀ l : list (M * Frame), (with_key (λ z, frame_channel z.2) (Some c) l).*2 = on_channel (Some c) l.*2) as H2.
  { unfold with_key. induction l as [|z l IH]; [done|]. cbn [fmap list_fmap]. rewrite !filter_cons.
    case_decide; cbn; [f_equal|]; exact IH. }
  rewrite !H1 by (by rewrite <-?Hp'). f_equal. specialize (Hc c). change (List.map snd zf') with zf'.*2 in Hc.
  rewrite <-!H2 in Hc. apply (fmap_eq_inj snd); [done| |].
  - rewrite H2. destruct (decide (0 ≤ c < Z.of_nat chans)) as [Hin|Hout].
    + destruct (ic_places _ _ Hic (Z.to_nat c)) as (k & _ & Hpl); [lia|]. rewrite Z2Nat.id in Hpl by lia.
      eapply (NoDup_fmap_1 frame_place). rewrite Hpl. apply NoDup_u24_range.
    + rewrite (on_channel_outside chans zf.*2) by done. constructor.
  - intros z [Hz1 Hz2]%elem_of_with_key. apply elem_of_with_key. split; [done|by rewrite Hp'].
Qed.

Section delivery.
Context {B : Build} {BC : BytesCrate} {BH : BinaryHeap} {LC : LruCrate}.

Lemma body_stage n v k bodies :
  (length v ≤ n)%nat → Forall2 (λ o b, FrameBody_read (body (one_frame o)) = Ok b) (items v) bodies →
  ∃ out k', polls BodyDecoder_poll_next n tt (v ++ replicate k Pending) = Ok (out, tt, replicate k' Pending) ∧
    items out = bodies ∧ errors out = errors v.
Proof.
  revert v k bodies. induction n as [|n IH]; intros v k bodies Hn Hb.
  { destruct v; [|cbn in Hn; lia]. inversion Hb. by eexists [], _. }
  cbn [polls]. destruct v as [|x v].
  - assert (∃ k', BodyDecoder_poll_next tt ([] ++ replicate k Pending) = Ok (Pending, tt, replicate k' Pending)) as [k' ->]
      by (destruct k; [by exists 0%nat|by exists k]). cbn [mbind outcome_bind].
    destruct (IH [] k' bodies) as (out & k2 & Hp & Ho & He); [cbn; lia|done|]. cbn [app] in Hp. rewrite Hp.
    eexists _, k2. split; [done|]. by rewrite items_cons, errors_cons, He.
  - cbn [length] in Hn. destruct x as [[[e|o]|]|]; cbn [app BodyDecoder_poll_next].
    2: { apply Forall2_cons_inv_l in Hb as (b & bs & Hb & Hbs & ->). rewrite Hb. cbn [mbind outcome_bind mret outcome_ret].
         destruct (IH v k bs) as (out & k2 & -> & Ho & He); [lia|done|]. eexists _, k2. split; [done|].
         by rewrite items_cons, !errors_cons, Ho, He. }
    all: cbn [mbind outcome_bind mret outcome_ret]; destruct (IH v k bodies) as (out & k2 & -> & Ho & He); [lia|done|];
      eexists _, k2; split; [done|]; by rewrite items_cons, !errors_cons, Ho, He.
Qed.

Lemma bodies_messages (zf : list (Message * Frame)) bodies :
  Forall (λ z, body z.2 = msg_data z.1) zf →
  Forall2 (λ f b, FrameBody_read (body f) = Ok b) zf.*2 bodies →
  Forall2 (λ m b, FrameBody_read (msg_data m) = Ok b) zf.*1 bodies.
Proof.
  intros Hz. revert bodies. induction Hz as [|z zf Hz _ IH]; intros bodies Hb; inversion_clear Hb; constructor.
  - by rewrite <-Hz.
  - by apply IH.
Qed.

(** The pipeline, given the groups of frames that are left after deduplication. *)
Lemma groups_delivered config sent gs n up :
  NoDup (reliable_indices sent) → frames_countable sent → arrived sent (tape_frames up) →
  filter numbered sent ++ filter (λ f, ¬ numbered f) (tape_frames up) ≡ₚ concat gs →
  Forall is_group gs → NoDup (omap group_id gs) → Forall (frame_valid (max_parted_size config)) (concat gs) →
  (0 < max_parted_count config)%nat → (length (omap group_id gs) ≤ max_parted_count config)%nat →
  (0 < cfg_max_channels config < 256)%nat → in_channels (cfg_max_channels config) (omap merged gs) →
  Forall (λ m, ∃ b, FrameBody_read (body m) = Ok b) (omap merged gs) →
  (2 * length up + 2 * length (tape_frames up) + 3 ≤ n)%nat →
  ∃ out fs, frame_decoded config n up = Ok out ∧ fs ≡ₚ omap merged gs ∧
    (∀ c, on_channel (Some c) fs = on_channel (Some c) (omap merged gs)) ∧
    Forall2 (λ f b, FrameBody_read (body f) = Ok b) fs (items out) ∧ errors out = errors up ∧ (ended up → ended out).
Proof.
  intros Hnd Hc Harr Hgs Hgr Hid Hv Hcap Hids Hch Hic Hb Hn. unfold frame_decoded.
  destruct (dedup_stage sent n up Hnd Hc Harr) as (v1 & k1 & w & u1 & -> & Hv1 & Hl1 & Hlf & He1 & En1); [lia|].
  cbn [mbind outcome_bind]. unfold defragmented. rewrite bool_decide_false by lia.
  cbn [mbind outcome_bind negb assert_ mret outcome_ret].
  destruct (defrag_stage gs (max_parted_count config) (max_parted_size config) n v1 k1)
    as (v2 & k2 & st2 & u2 & -> & Hv2 & Hl2 & He2 & En2); [done..|by rewrite Hv1|lia|].
  assert (length (omap merged gs) ≤ length (tape_frames v1))%nat as Hlm.
  { rewrite Hv1, Hgs. clear -Hgr. induction Hgr as [|g gs Hg _ IH]; [done|].
    destruct (is_group_merged g Hg) as [m Hm]. cbn. rewrite Hm, length_app. destruct g; [done|]. cbn. lia. }
  cbn [mbind outcome_bind]. unfold ordered_layer. rewrite !bool_decide_true by lia.
  cbn [mbind outcome_bind assert_ mret outcome_ret].
  destruct (order_stage (cfg_max_channels config) _ Hic n v2 k2 Hv2) as (v3 & k3 & st3 & u3 & -> & Hv3 & Hch3 & Hl3 & He3 & En3);
    [lia|].
  cbn [mbind outcome_bind].
  assert (∃ bodies, Forall2 (λ o b, FrameBody_read (body (one_frame o)) = Ok b) (items v3) bodies) as [bodies Hbs].
  { apply Forall_exists_Forall2_l, Forall_forall. intros o Ho. rewrite Forall_forall in Hb. apply Hb.
    rewrite <-Hv3. by apply list_elem_of_fmap_2. }
  destruct (body_stage n v3 k3 bodies) as (out & k4 & Hp4 & Ho & He4); [lia|done|].
  pose proof (BodyDecoder_ends _ _ _ _ _ Hp4) as En4. rewrite Hp4.
  exists out, (one_frame <$> items v3). split_and!; [done|done|done| |congruence|auto]. rewrite Ho. by apply Forall2_fmap_l.
Qed.

Section composed.
Context {F : Type} `{!Sink F (Priority * Frame)} (s : FragmentSink F).

(** The parcels whose frames all arrive. *)
Definition safe_parcels (zs : list parcel) : list parcel := filter (λ z, must_arrive s z.1 = true) zs.

Lemma safe_frames zs : Forall (parcel_ok s) zs → concat (safe_parcels zs).*2 = filter numbered (concat zs.*2).
Proof.
  unfold safe_parcels. induction 1 as [|z zs Hz _ IH]; [done|].
  rewrite filter_cons, fmap_cons, concat_cons, filter_app.
  pose proof (pa_numbered _ _ Hz) as Hn. case_decide as Ha.
  - rewrite fmap_cons, concat_cons. rewrite IH, (filter_all numbered z.2); [done|].
    apply Forall_forall. intros f Hf. by apply Hn.
  - rewrite IH, (filter_none numbered z.2); [done|]. apply Forall_forall. intros f Hf Hnf. by apply Ha, (Hn f).
Qed.

Lemma safe_ok zs : Forall (parcel_ok s) zs → Forall (parcel_ok s) (safe_parcels zs).
Proof.
  rewrite !Forall_forall. intros H z [_ Hz]%list_elem_of_filter. by apply H.
Qed.

Lemma safe_messages zs : (safe_parcels zs).*1 = filter (must_arrive s) zs.*1.
Proof.
  unfold safe_parcels. induction zs as [|z zs IH]; [done|]. cbn [fmap list_fmap]. rewrite !filter_cons.
  destruct (must_arrive s z.1) eqn:Ha.
  - rewrite !decide_True by done. rewrite fmap_cons. by f_equal.
  - by rewrite !decide_False by (try done; naive_solver).
Qed.

(** The parcels of unreliable frames. *)
Lemma unsafe_parcels zs fs :
  Forall (parcel_ok s) zs → (∀ f, f ∈ fs → f ∈ concat zs.*2 ∧ ¬ numbered f) →
  ∃ us, us.*2 = (λ f, [f]) <$> fs ∧ Forall (λ z, z ∈ zs ∧ must_arrive s z.1 = false) us.
Proof.
  intros Hzs Hfs.
  assert (Forall (λ f, ∃ z, (z ∈ zs ∧ must_arrive s z.1 = false) ∧ z.2 = [f]) fs) as H.
  { apply Forall_forall. intros f Hf. destruct (Hfs f Hf) as [(g & (z & -> & Hz)%list_elem_of_fmap & Hfz)%elem_of_concat Hn].
    exists z. rewrite Forall_forall in Hzs. destruct (Hzs z Hz) as [Hg _ Hnum _ _ _ _].
    assert (must_arrive s z.1 = false) as Ha.
    { apply not_true_is_false. intros Ha. by apply Hn, (Hnum f). }
    split_and!; [done|done|]. destruct (must_split z.1 s) eqn:Hms.
    - apply must_split_arrives in Hms. congruence.
    - destruct Hg as (h & Hh & _). rewrite Hh in Hfz |- *. by apply list_elem_of_singleton in Hfz as ->. }
  apply Forall_exists_Forall2_l in H as [us Hus]. exists us. clear Hfs. induction Hus as [|f z fs us [Hz Hf] _ [IH1 IH2]].
  - split; [done|constructor].
  - split; [cbn; by rewrite Hf, IH1|by constructor].
Qed.

Lemma parcel_is_group z : parcel_ok s z → is_group z.2.
Proof. intros [Hg _ _ _ _ _ _]. unfold is_group. destruct (must_split z.1 s); auto. Qed.

(** Each parcel and the frame it is reassembled to. *)
Lemma parcels_merged zs :
  Forall (parcel_ok s) zs → ∃ zf : list (Message * Frame), zf.*1 = zs.*1 ∧ zf.*2 = omap merged zs.*2 ∧
    Forall (λ z, sent_channel s z.1 = frame_channel z.2 ∧ body z.2 = msg_data z.1) zf.
Proof.
  induction 1 as [|z zs Hz _ (zf & H1 & H2 & H3)]; [by exists []|].
  destruct (is_group_merged _ (parcel_is_group z Hz)) as [m Hm]. exists ((z.1, m) :: zf).
  cbn. rewrite H1, H2, Hm. split_and!; [done|done|]. constructor; [|done]. cbn. split.
  - destruct z as [msg [|f fs]]; [done|]. pose proof (pa_channel _ _ Hz f) as Hc. cbn in *.
    rewrite <-Hc by left. unfold frame_channel. by rewrite (merged_ordered f fs m).
  - by rewrite (merged_body _ _ Hm), (pa_data _ _ Hz).
Qed.

(** On the ordered channels nothing but safe parcels. *)
Lemma safe_channels zs us c :
  Forall (parcel_ok s) zs → Forall (parcel_ok s) us → Forall (λ z, must_arrive s z.1 = false) us →
  (∀ z, z ∈ zs ++ us → sent_channel s z.1 ≠ None → must_arrive s z.1 = true) →
  on_channel (Some c) (omap merged (safe_parcels zs ++ us).*2) = on_channel (Some c) (omap merged zs.*2) ∧
  with_key (sent_channel s) (Some c) (safe_parcels zs ++ us).*1 = with_key (sent_channel s) (Some c) zs.*1.
Proof.
  intros Hzs Hus Hun Hsafe.
  assert (∀ z, parcel_ok s z → must_arrive s z.1 = false → z ∈ zs ++ us →
    on_channel (Some c) (omap merged [z.2]) = [] ∧ with_key (sent_channel s) (Some c) [z.1] = []) as Hz.
  { intros z Hok Ha Hz. assert (sent_channel s z.1 = None) as Hc.
    { destruct (sent_channel s z.1) eqn:Hc; [|done]. rewrite (Hsafe z Hz) in Ha; [done|congruence]. }
    unfold with_key. rewrite (filter_cons _ z.1), decide_False by congruence. split; [|done].
    destruct (parcels_merged [z]) as (zf & H1 & H2 & H3); [by constructor|]. change [z.2] with [z].*2. rewrite <-H2.
    destruct zf as [|y [|]]; [done| |done]. apply Forall_cons in H3 as [[H3 _] _]. cbn in H1. injection H1 as H1.
    cbn. rewrite decide_False; [done|]. rewrite <-H3, H1, Hc. done. }
  assert (on_channel (Some c) (omap merged us.*2) = [] ∧ with_key (sent_channel s) (Some c) us.*1 = []) as [U1 U2].
  { clear Hsafe. induction us as [|u us IH]; [done|]. apply Forall_cons in Hus as [Hu Hus], Hun as [Hn Hun].
    destruct (Hz u) as [E1 E2]; [done|done|set_solver|]. destruct IH as [I1 I2]; [done|done|set_solver|].
    change (u :: us) with ([u] ++ us). rewrite !fmap_app, omap_app, !with_key_app.
    change [u].*2 with [u.2]. change [u].*1 with [u.1]. by rewrite E1, E2, I1, I2. }
  rewrite !fmap_app, omap_app, !with_key_app, U1, U2, !app_nil_r.
  clear U1 U2 Hsafe. unfold safe_parcels. induction zs as [|z zs IH]; [done|]. apply Forall_cons in Hzs as [Hok Hzs].
  destruct IH as [I1 I2]; [done|set_solver|].
  rewrite filter_cons. change (z :: zs) with ([z] ++ zs). rewrite !fmap_app, omap_app, !with_key_app, <-I1, <-I2.
  case_decide as Ha.
  - split; [|by rewrite <-with_key_app, <-fmap_app].
    by rewrite <-with_key_app, <-omap_app, <-fmap_app.
  - apply not_true_is_false in Ha. change [z].*2 with [z.2]. change [z].*1 with [z.1].
    destruct (Hz z) as [-> ->]; [done|done|set_solver|done].
Qed.

(** Every split message is safe. *)
Lemma safe_ids zs us :
  Forall (parcel_ok s) zs → Forall (parcel_ok s) us → Forall (λ z, must_arrive s z.1 = false) us →
  omap group_id (safe_parcels zs ++ us).*2 = omap group_id zs.*2.
Proof.
  intros Hzs Hus Hun.
  assert (∀ z, parcel_ok s z → must_arrive s z.1 ≠ true → group_id z.2 = None) as Hz.
  { intros z [Hg _ _ _ _ _ _] Ha. destruct (must_split z.1 s) eqn:Hms; [by apply must_split_arrives in Hms|].
    destruct Hg as (f & -> & Hf & _). unfold group_id. cbn. by rewrite Hf. }
  rewrite fmap_app, omap_app.
  assert (omap group_id us.*2 = []) as ->.
  { induction Hus as [|u us Hu _ IH]; [done|]. apply Forall_cons in Hun as [Hn Hun].
    rewrite fmap_cons. cbn. rewrite (Hz u), IH; [done|done|done|congruence]. }
  rewrite app_nil_r. unfold safe_parcels. induction Hzs as [|z zs Hok _ IH]; [done|]. rewrite filter_cons.
  case_decide as Ha; rewrite !fmap_cons; cbn [omap list_omap].
  - by rewrite IH.
  - by rewrite (Hz z Hok Ha), IH.
Qed.
End composed.

Section theorem.
Context {F : Type} `{!Sink F (Priority * Frame)} (config : CodecConfig) (msgs : list Message).
Context (frame : F) (mtu : Z) (chans : nat).

Local Abbreviation s := (fragmented frame mtu chans).

Context (Hs : sendable msgs s) (Hch : (0 < cfg_max_channels config < 256)%nat).
Context (Hle : (chans ≤ cfg_max_channels config)%nat).

(** The channels of what a fresh sender sent. *)
Lemma fresh_in_channels zs s' us :
  sent_parcels msgs s zs s' → Forall (parcel_ok s) us →
  Forall (λ z, z ∈ zs ∧ must_arrive s z.1 = false) us →
  in_channels (cfg_max_channels config) (omap merged (safe_parcels s zs ++ us).*2) ∧
  ∀ c, with_key (sent_channel s) (Some c) (safe_parcels s zs ++ us).*1 = with_key (sent_channel s) (Some c) msgs.
Proof.
  intros [Hz1 Hz2 _ _ Hpl _] Hok Hus. pose proof (sn_msgs _ _ Hs) as Hm. cbn in Hm. rewrite length_replicate in Hm.
  assert (∀ z, z ∈ zs → z.1 ∈ msgs) as Hin by (intros z Hz; rewrite <-Hz1; by apply list_elem_of_fmap_2).
  rewrite Forall_forall in Hm. rewrite Forall_forall in Hus.
  assert (∀ c, on_channel (Some c) (omap merged (safe_parcels s zs ++ us).*2) = on_channel (Some c) (omap merged zs.*2) ∧
    with_key (sent_channel s) (Some c) (safe_parcels s zs ++ us).*1 = with_key (sent_channel s) (Some c) zs.*1) as Hsafe.
  { intros c. apply safe_channels; [done|done|apply Forall_forall; by intros z [_ ?]%Hus|].
    intros z [Hz|[Hz _]%Hus]%elem_of_app; by apply Hm, Hin. }
  split; [|intros c; by rewrite (proj2 (Hsafe c)), Hz1].
  assert (∀ f o, f ∈ omap merged zs.*2 → ordered f = Some o → 0 ≤ channel o < Z.of_nat chans) as Hc.
  { intros f o Hf Ho. destruct (parcels_merged s zs Hz2) as (zf & H1 & H2 & H3).
    rewrite <-H2 in Hf. apply list_elem_of_fmap in Hf as (z & -> & Hz). rewrite Forall_forall in H3.
    destruct (H3 z Hz) as [Hsc _]. unfold frame_channel, sent_channel in Hsc. rewrite Ho in Hsc. cbn in Hsc.
    destruct (is_sequenced_or_ordered _); [|done]. injection Hsc as <-. apply Hm.
    rewrite <-Hz1, <-H1. by apply list_elem_of_fmap_2. }
  split.
  - intros f o Hf Ho. assert (f ∈ omap merged zs.*2) as Hf2; [|pose proof (Hc f o Hf2 Ho); lia].
    assert (f ∈ on_channel (Some (channel o)) (omap merged zs.*2)) as [_ ?]%elem_of_with_key; [|done].
    rewrite <-(proj1 (Hsafe _)). apply elem_of_with_key. unfold frame_channel. by rewrite Ho.
  - intros c Hcc. rewrite (proj1 (Hsafe _)). destruct (decide (c < chans)%nat) as [Hlt|Hge].
    + destruct (Hpl c 0) as (i & Hi & Hb & ->); [cbn; by apply lookup_replicate|]. exists i.
      pose proof (sn_orders _ _ Hs) as Hord. rewrite Forall_lookup in Hord.
      destruct (Hord c 0) as [_ ?]; [cbn; by apply lookup_replicate|]. split; [lia|done].
    + exists 0. split; [lia|]. rewrite u24_range_nil. unfold with_key. rewrite filter_none; [done|].
      apply Forall_forall. intros f Hf. unfold frame_channel. destruct (ordered f) as [o|] eqn:Ho; [|done]. cbn.
      pose proof (Hc f o Hf Ho). intros [= ?]. lia.
Qed.

(** Parcels of one frame each: their messages have the bodies of the frames. *)
Lemma singles_data us fs :
  Forall (parcel_ok s) us → us.*2 = (λ f, [f]) <$> fs → msg_data <$> us.*1 = body <$> fs.
Proof.
  intros Hok. revert fs. induction Hok as [|[m g] us Hz _ IH]; intros [|f fs] Hu; try done.
  rewrite !fmap_cons in Hu. cbn in Hu. injection Hu as -> Hu. rewrite !fmap_cons. cbn [fst]. rewrite (IH fs Hu).
  pose proof (pa_data _ _ Hz) as Hd. cbn in Hd. rewrite app_nil_r in Hd. by rewrite Hd.
Qed.

(** What the other peer makes of the frames that arrive. *)
Lemma parcels_delivered zs s' n up :
  (0 < max_parted_count config)%nat → split_count s msgs ≤ Z.of_nat (max_parted_count config) →
  Forall (λ m, ∃ b, FrameBody_read (msg_data m) = Ok b) msgs → sent_parcels msgs s zs s' →
  Forall (frame_valid (max_parted_size config)) (concat zs.*2) → arrived (concat zs.*2) (tape_frames up) →
  (2 * length up + 2 * length (tape_frames up) + 3 ≤ n)%nat →
  ∃ out dlv, frame_decoded config n up = Ok out ∧
    Forall2 (λ m b, FrameBody_read (msg_data m) = Ok b) dlv (items out) ∧
    filter (must_arrive s) dlv ≡ₚ filter (must_arrive s) msgs ∧
    (∀ c, with_key (sent_channel s) (Some c) dlv = with_key (sent_channel s) (Some c) msgs) ∧
    (∀ m, m ∈ dlv → m ∈ msgs) ∧
    msg_data <$> filter (λ m, must_arrive s m = false) dlv ≡ₚ
      body <$> filter (λ f, ¬ numbered f) (tape_frames up) ∧ errors out = errors up ∧
    (ended up → ended out).
Proof.
  intros Hcap Hsp Hb Hzs Hv Harr Hn. pose proof (sn_volume _ _ Hs) as Hvol. cbn in Hvol.
  pose proof Hzs as [Z1 Z2 Z3 Z4 Z5 Z6]. cbn in Z3, Z4, Z6.
  destruct (unsafe_parcels s zs (filter (λ f, ¬ numbered f) (tape_frames up)) Z2) as (us & Hus & Hun).
  { intros f [Hf1 Hf2]%list_elem_of_filter. split; [by apply Harr|done]. }
  assert (Forall (parcel_ok s) us) as Huok.
  { eapply Forall_impl; [exact Hun|]. intros z [Hz _]. rewrite Forall_forall in Z2. by apply Z2. }
  destruct (fresh_in_channels zs s' us Hzs Huok Hun) as [Hic Hkeys].
  set (all := safe_parcels s zs ++ us) in *.
  assert (Forall (parcel_ok s) all) as Hok by (apply Forall_app; split; [by apply safe_ok|done]).
  assert (concat all.*2 = filter numbered (concat zs.*2) ++ filter (λ f, ¬ numbered f) (tape_frames up)) as Hcat.
  { unfold all. rewrite fmap_app, concat_app, safe_frames, Hus by done. f_equal.
    clear. induction (filter _ _) as [|f l IH]; [done|]. cbn. by rewrite IH. }
  assert (all.*1 ⊆ msgs) as Hsub.
  { rewrite <-Z1. unfold all. rewrite fmap_app. intros m [(z & -> & [_ Hz]%list_elem_of_filter)%list_elem_of_fmap|
      (z & -> & Hz)%list_elem_of_fmap]%elem_of_app; apply list_elem_of_fmap_2; [done|].
    rewrite Forall_forall in Hun. by apply Hun. }
  destruct (parcels_merged s all Hok) as (zf & F1 & F2 & F3).
  assert (omap group_id all.*2 = u24_range 0 (split_count s msgs)) as Hids.
  { unfold all. rewrite safe_ids, Z6; [done..|]. eapply Forall_impl; [exact Hun|]. by intros z [_ ?]. }
  assert (∀ l, (∀ f, f ∈ l → f ∈ concat zs.*2) → Forall (frame_valid (max_parted_size config)) l) as Hval.
  { intros l Hl. rewrite Forall_forall in Hv. apply Forall_forall. auto. }
  destruct (groups_delivered config (concat zs.*2) all.*2 n up) as (out & fs & Hout & Hperm & Hchan & Hbs & Herr & Hend); try done.
  - rewrite Z3. apply NoDup_u24_range.
  - unfold frames_countable. rewrite Z3. apply Forall_forall. intros x Hx%elem_of_u24_range. unfold countable. lia.
  - by rewrite Hcat.
  - apply Forall_fmap. eapply Forall_impl; [exact Hok|]. intros z. apply parcel_is_group.
  - rewrite Hids. apply NoDup_u24_range.
  - rewrite Hcat. apply Hval. intros f [[_ Hf]%list_elem_of_filter|[_ Hf]%list_elem_of_filter]%elem_of_app; [done|by apply Harr].
  - rewrite Hids, length_u24_range. unfold split_count in *. lia.
  - rewrite <-F2. apply Forall_fmap, Forall_forall. intros z Hz. rewrite Forall_forall in F3. rewrite Forall_forall in Hb. cbn.
    destruct (F3 z Hz) as [_ ->]. apply Hb, Hsub. rewrite <-F1. by apply list_elem_of_fmap_2.
  - rewrite <-F2 in Hperm, Hchan, Hic.
    destruct (reorder_parcels (sent_channel s) zf fs (cfg_max_channels config)) as (zf' & <- & Hp & Hk); try done.
    { eapply Forall_impl; [exact F3|]. by intros z [? _]. }
    assert (zf'.*1 ≡ₚ all.*1) as Hp1 by (by rewrite <-F1, Hp).
    assert (filter (must_arrive s) us.*1 = []) as Hnone.
    { apply filter_none, Forall_fmap. eapply Forall_impl; [exact Hun|]. intros z [_ Hz]. cbn. rewrite Hz. tauto. }
    exists out, zf'.*1. split_and!; [done| | | | | |done|done].
    + apply bodies_messages; [|done]. rewrite Hp. eapply Forall_impl; [exact F3|]. by intros z [_ ?].
    + rewrite Hp1. unfold all. by rewrite fmap_app, filter_app, safe_messages, Z1, Hnone, app_nil_r, list_filter_filter_l by auto.
    + intros c. by rewrite Hk, F1, Hkeys.
    + intros m Hm. apply Hsub. by rewrite <-Hp1.
    + rewrite Hp1. unfold all. rewrite fmap_app, filter_app, (filter_none _ (safe_parcels s zs).*1), (filter_all _ us.*1).
      * cbn [app]. by rewrite (singles_data us _ Huok Hus).
      * apply Forall_fmap. eapply Forall_impl; [exact Hun|]. by intros z [_ ?].
      * rewrite safe_messages. apply Forall_forall. intros m [Hm _]%list_elem_of_filter. by destruct (must_arrive s m).
Qed.

End theorem.
End delivery.

(** Four messages: one ordered on each of two channels, of which the second is
    split, an unreliable one and a reliable one.  Their frames arrive last first,
    some of them twice. *)
Section sample.
Local Instance sample_build : Build := true.
Local Instance sample_bytes : BytesCrate := bytes_reference.
Local Instance sample_heap : BinaryHeap := heap_sorted.
Local Instance sample_lru : LruCrate := lru_reference.

Definition sample_msgs : list Message :=
  [Message_new [254; 1]; Message_order_channel 1 (Message_new (200 :: seqZ 1 30));
   Message_reliability Unreliable (Message_new [254; 2]); Message_reliability Reliable (Message_new [254; 3])].

Definition sample_config : CodecConfig := mkCodecConfig 256 256 2.

Definition sample_all : FragmentSink (LogSink (Priority * Frame)) :=
  match start_send_all (E:=io_error) sample_msgs (sample_sink 40) with
  | Ok s => s
  | _ => sample_sink 40
  end.

Definition sample_arrivals : tape FrameSet_ :=
  let frames := snd <$> frag_buf sample_all in
  [Ready (Some (inr (mkFrameSet 1 (reverse frames)))); Pending;
   Ready (Some (inr (mkFrameSet 0 (take 2 frames)))); Ready (Some (inl (InvalidPacketType 255)));
   Ready (Some (inr (mkFrameSet 2 (drop 2 frames)))); Ready None].

End sample.
