(* ===== verification/Session.v ===== *)
(** * A session, from messages to messages

    The whole path of a connection: the sinks of one peer (src/codec/encoder,
    src/reliable.rs, src/codec/frame.rs) turn messages into datagrams, the network
    loses, repeats and reorders datagrams, and the streams of the other peer
    (src/codec/frame.rs, src/link.rs, src/codec/mod.rs) turn them into messages. *)
From S2P Require Import Prelude Bytes Errors Reader SeqNum Types PackType Unconnected AckNack FrameSet FrameBody Packet.
From S2P Require Import Stream Sink Collections Dedup DeFragment Order Decoder Channels Reactor Link Encoder Estimator.
From S2P Require Import SendBuffer Resend Opts Reliable Recovery Framed ServerOffline ClientOffline Rest Reassembly Delivery.
Open Scope Z_scope.

Section session.
Context {B : Build} {BC : BytesCrate} {BH : BinaryHeap} {LC : LruCrate} {HI : HashIter}.
Context {CQ : ConcurrentQueueCrate} {AC : AsyncChannelCrate} {T : Type} `{!AsyncSocket T} `{!OpenSocket T}.
Context {Est : Type} `{!Estimator Est} `{!EstimatorLaws Est}.

(** ** The sinks of a new connection *)

Abbreviation SenderStack := (FragmentSink (ReliableLayer (F:=Framed T) (T:=Est))).

Definition new_world (role : Role) (peer : Peer) (r : Reactor) (now : Z) (waker : nat) : World :=
  mkWorld (TransferLink_new role peer) r now waker None.

Definition new_sender (socket : T) (role : Role) (peer : Peer) (w : World) (e : Est) (chans : nat) : SenderStack :=
  fragmented (wrap_reliable (Framed_new socket (peer_mtu peer)) w peer role e) (peer_mtu peer) chans.

(** ** What happens to the sender

    The calls of the sinks by the application, with the time they see, and the
    acknowledgements that the receiving side of the connection puts into the link. *)
Inductive sender_event :=
  | EvSend (m : Message)
  | EvReady (now : Z)
  | EvFlush (now : Z)
  | EvAck (now : Z) (a : AckOrNack)
  | EvNack (a : AckOrNack).

Definition event_msgs (ev : sender_event) : list Message := if ev is EvSend m then [m] else [].
Definition event_flushes (ev : sender_event) : nat := if ev is EvFlush _ then 1 else 0.
Definition event_valid (ev : sender_event) : Prop :=
  match ev with EvAck _ a | EvNack a => records_valid (records a) | _ => True end.

Definition on_layer (f : ReliableLayer (F:=Framed T) (T:=Est) → ReliableLayer) (s : SenderStack) : SenderStack :=
  set_frag (f (frag_frame s)) (frag_buf s) s.

Definition at_time (now : Z) (st : ReliableLayer (F:=Framed T) (T:=Est)) : ReliableLayer :=
  set_rl_world (world_now now (rl_world st)) st.

Definition receive_ack (now : Z) (a : AckOrNack) (st : ReliableLayer (F:=Framed T) (T:=Est)) : ReliableLayer :=
  let '(l, r, _) := incoming_ack now a (rl_link st) (w_reactor (rl_world st)) in
  set_rl_world (world_reactor r (world_link l (rl_world st))) st.

Definition sender_step (ev : sender_event) (s : SenderStack) : outcome spinning (list (poll io_result) * SenderStack) :=
  match ev with
  | EvSend m => s ← Fragment_start_send m s; mret ([], s)
  | EvReady now => '(r, s) ← Fragment_poll_ready (on_layer (at_time now) s); mret ([r], s)
  | EvFlush now => '(r, s) ← Fragment_poll_flush (on_layer (at_time now) s); mret ([r], s)
  | EvAck now a => mret ([], on_layer (receive_ack now a) s)
  | EvNack a => mret ([], on_layer (λ st, set_rl_link (incoming_nack a (rl_link st)) st) s)
  end.

(** The answers of the polls and the last state. *)
Fixpoint sender_run (evs : list sender_event) (s : SenderStack) : outcome spinning (list (poll io_result) * SenderStack) :=
  match evs with
  | [] => mret ([], s)
  | ev :: evs => '(r, s) ← sender_step ev s; '(rs, s) ← sender_run evs s; mret (r ++ rs, s)
  end.

(** ** The state of the sender *)

(** A datagram of the sender: a frame set of frames that were sent. *)
Definition frame_datagram (addr : SocketAddr) (sent : list Frame) (x : Packet * SocketAddr) : Prop :=
  ∃ s, x.1 = PConnected (CFrameSet s) ∧ countable (seq_num s) ∧ set s ⊆ sent ∧ Packet_wire x.1 ∧ x.2 = addr.

Section sender.
Context (peer : Peer).

(** The frames [sent] so far: some wait for the layer below, some in it, some are
    in flight, and those that no longer wait are in the datagrams [h].  There are
    numbers left for [n] flushes of at most [N] frames. *)
Record sending (st : ReliableLayer (F:=Framed T) (T:=Est)) (waiting : list (Priority * Frame)) (sent : list Frame)
    (h : list (Packet * SocketAddr)) (n : nat) (N : Z) : Prop := {
  sd_inv : Reliable_inv st;
  sd_valid : incoming_valid st;
  sd_ext : cx_ext (rl_world st) = None;
  sd_link : outgoing_ack (rl_link st) = [] ∧ outgoing_nack (rl_link st) = ∅ ∧ cq_list (link_unconnected (rl_link st)) = [];
  sd_mtu : 27 < peer_mtu (rl_peer st) < 2 ^ 13;
  sd_within : (map_frames (rm_reliable (rl_resend st)) ++ buffered (rl_buf st)) ++ waiting.*2 ⊆+ sent;
  sd_fit : Forall (λ f, FRAME_SET_HEADER_SIZE + Frame_size f ≤ peer_mtu (rl_peer st)) sent;
  sd_ok : Forall (λ f, Frame_ok f ∧ Frame_fits f) sent;
  sd_socket : framed_taken h (rl_frame st) ∧ fr_flushed (rl_frame st) = true;
  sd_datagrams : Forall (frame_datagram (peer_addr (rl_peer st)) sent) h;
  sd_every : ∀ f, f ∈ sent → f ∈ waiting.*2 ∨ f ∈ buffered (rl_buf st) ∨ f ∈ (sets_of h ≫= set);
  sd_few : Z.of_nat (length sent) ≤ N;
  sd_seq : seq_num_write_index st + (Z.of_nat n + 1) * N < 2 ^ 24;
  sd_peer : rl_peer st = peer;
}.

Lemma sending_seqs st waiting sent h n N : sending st waiting sent h n N →
  seq_num_write_index st + Z.of_nat (length ((map_frames (rm_reliable (rl_resend st)) ++ buffered (rl_buf st)) ++ waiting.*2)) < 2 ^ 24.
Proof. intros [? ? ? ? ? Hw ? ? ? ? ? Hf Hs]. apply submseteq_length in Hw. nia. Qed.

Lemma sending_left st waiting sent h n N : sending st waiting sent h n N → seqs_left st ∧ marks_ok st.
Proof.
  intros Hs. pose proof (sending_seqs _ _ _ _ _ _ Hs) as Hq. rewrite length_app in Hq. destruct Hs as [? ? Hx (L1 & L2 & L3)]. split.
  - unfold seqs_left. lia.
  - split; [rewrite L1, L2, L3, size_empty; cbn; lia|]. by rewrite Hx.
Qed.

(** Acknowledgements that arrive and the clock do not matter to the invariant. *)
Lemma sending_world st waiting sent h n N w :
  sending st waiting sent h n N → outgoing_ack (w_link w) = [] → outgoing_nack (w_link w) = ∅ →
  cq_list (link_unconnected (w_link w)) = [] → cx_ext w = None → incoming_valid (set_rl_world w st) →
  sending (set_rl_world w st) waiting sent h n N.
Proof.
  intros [Hi Hv Hx HL Hm Hw Hf Ho Hs Hd He Hn Hq] W1 W2 W3 W4 W5. split; try done.
  destruct Hi. split; unfold rl_link; cbn; rewrite ?W1, ?W2; first [done|apply heap_ok_nil|constructor|set_solver].
Qed.

Lemma cq_force_push_Forall {A} (P : A → Prop) x (q : cq A) :
  P x → Forall P (cq_list q) → Forall P (cq_list (cq_force_push x q).2).
Proof.
  intros Hx Hq. pose proof (cq_force_push_spec x q) as Hs. destruct (cq_force_push x q) as [o q']. destruct Hs as [_ Hs].
  cbn. case_bool_decide; destruct Hs as [_ ->]; apply Forall_app; (split; [|by constructor]); [|done].
  by destruct (cq_list q); [|apply Forall_cons in Hq as [_ ?]].
Qed.

Lemma sending_time st waiting sent h n N now :
  sending st waiting sent h n N → sending (at_time now st) waiting sent h n N.
Proof. intros Hs. destruct (sd_link _ _ _ _ _ _ Hs) as (? & ? & ?). by apply sending_world; try apply Hs. Qed.

Lemma sending_ack st waiting sent h n N now a :
  records_valid (records a) → sending st waiting sent h n N → sending (receive_ack now a st) waiting sent h n N.
Proof.
  intros Ha Hs. destruct (sd_link _ _ _ _ _ _ Hs) as (L1 & L2 & L3). destruct (sd_valid _ _ _ _ _ _ Hs) as [V1 V2].
  pose proof (cq_force_push_Forall (λ a, records_valid (records a.1)) (a, now) (link_incoming_ack (rl_link st)) Ha V1) as Hp.
  unfold receive_ack, incoming_ack. destruct (cq_force_push _ _) as [o q]. cbn in Hp.
  destruct (should_waking _); [destruct (cancel_all_timers _ _) as [ws r]|]; apply sending_world; try done; try apply Hs.
Qed.

Lemma sending_nack st waiting sent h n N a :
  records_valid (records a) → sending st waiting sent h n N →
  sending (set_rl_link (incoming_nack a (rl_link st)) st) waiting sent h n N.
Proof.
  intros Ha Hs. destruct (sd_link _ _ _ _ _ _ Hs) as (L1 & L2 & L3). destruct (sd_valid _ _ _ _ _ _ Hs) as [V1 V2].
  pose proof (cq_force_push_Forall (λ a, records_valid (records a)) a (link_incoming_nack (rl_link st)) Ha V2) as Hp.
  unfold incoming_nack. destruct (cq_force_push _ _) as [o q]. cbn in Hp. by apply sending_world; try apply Hs.
Qed.

Lemma sending_ready st waiting sent h n N :
  sending st waiting sent h n N →
  ∃ st', Reliable_poll_ready st = Ok (Ready (inr tt), st') ∧ sending st' waiting sent h n N.
Proof.
  intros Hs. destruct (sending_left _ _ _ _ _ _ Hs) as [Hl _].
  destruct Hs as [Hi Hv Hx HL Hm Hw Hf Ho Hk Hd He Hn Hq].
  destruct (process_inflight_spec (E:=spinning) st Hi Hl Hv) as (l & buf & r & Hp & Hi' & Hperm & Ha & Hna & a & nn & ->).
  destruct (process_inflight_exact _ _ Hi Hv Hp) as (Hb & _). cbn in Hb.
  eexists. split; [unfold Reliable_poll_ready; by rewrite Hp|]. split; try done; cbn.
  - split; cbn in *; unfold rl_link; cbn; [rewrite Ha|rewrite Hna]; constructor.
  - etrans; [|exact Hw]. apply submseteq_skips_r. rewrite Hperm. apply submseteq_inserts_l. done.
  - intros f [?|[?|?]]%He; [by left| |by right; right]. right. left. rewrite Hb, elem_of_app. by left.
Qed.

Lemma sending_start st x waiting sent h n N :
  sending st (x :: waiting) sent h n N →
  ∃ st', Reliable_start_send x st = Ok (inr tt, st') ∧ sending st' waiting sent h n N.
Proof.
  intros Hs. pose proof (sending_seqs _ _ _ _ _ _ Hs) as Hlen. destruct Hs as [Hi Hv Hx HL Hm Hw Hf Ho Hk Hd He Hn Hq].
  destruct (SendBuffer_send_ok x (rl_buf st) (ri_buf _ Hi)) as [Hb1 Hb2].
  assert ((map_frames (rm_reliable (rl_resend st)) ++ buffered (rl_buf st)) ++ (x :: waiting).*2 ≡ₚ
    (map_frames (rm_reliable (rl_resend st)) ++ buffered (SendBuffer_send x (rl_buf st))) ++ waiting.*2) as Hperm.
  { cbn. rewrite Hb2. solve_Permutation. }
  eexists. split; [done|]. split; try done; cbn.
  - destruct Hi. split; try done; cbn.
    + rewrite Hb2. apply Forall_app in ri_fit as [F1 F2]. apply Forall_app. split; [done|]. constructor; [|done].
      rewrite Forall_forall in Hf. assert (x.2 ∈ sent) as Hin%Hf; [|lia].
      eapply elem_of_submseteq; [|exact Hw]. cbn. rewrite elem_of_app, elem_of_cons. auto.
    + rewrite Hperm, !length_app in Hlen. rewrite SendBuffer_len_buffered. lia.
  - by rewrite <-Hperm.
  - intros f Hin%He. rewrite Hb2, elem_of_cons. cbn in Hin. rewrite elem_of_cons in Hin. naive_solver.
Qed.

(** The frames of the encoder are handed to the reliable layer. *)
Lemma hand_over (s : SenderStack) st waiting sent h n N :
  sending st waiting sent h n N →
  ∃ st', poll_empty_loop s st waiting = Ok (Ready (inr tt), set_frag st' [] s) ∧ sending st' [] sent h n N.
Proof.
  revert st. induction waiting as [|x waiting IH]; intros st Hs; [by exists st|]. cbn [poll_empty_loop].
  destruct (sending_ready _ _ _ _ _ _ Hs) as (st1 & R1 & Hs1). destruct (sending_start _ _ _ _ _ _ _ Hs1) as (st2 & R2 & Hs2).
  destruct (IH st2 Hs2) as (st3 & R3 & Hs3). exists st3. split; [|done].
  unfold and_then, send_then. cbn [poll_ready start_send Reliable_sink]. rewrite R1. cbn [mbind outcome_bind].
  rewrite R2. cbn [mbind outcome_bind]. exact R3.
Qed.

Lemma hand_over_all (s : SenderStack) sent h n N :
  sending (frag_frame s) (frag_buf s) sent h n N →
  ∃ st', Fragment_poll_empty s = Ok (Ready (inr tt), set_frag st' [] s) ∧ sending st' [] sent h n N.
Proof.
  intros Hs. unfold Fragment_poll_empty. destruct (frag_buf s) as [|x buf] eqn:Hb.
  - exists (frag_frame s). split; [|done]. do 2 f_equal. destruct s. cbn in *. by subst.
  - by apply hand_over.
Qed.

(** ** A flush *)

(** A packet of the sender is a frame set that can be read back. *)
Lemma sending_packet st waiting sent h n N p :
  sending st waiting sent h n N → may_send st p → (∀ a, p ≠ PConnected (CAck a)) → (∀ a, p ≠ PConnected (CNack a)) →
  frame_datagram (peer_addr (rl_peer st)) sent (p, peer_addr (rl_peer st)).
Proof.
  intros [Hi Hv Hx (L1 & L2 & L3) Hm Hw Hf Ho Hk Hd He Hn Hq] Hp Hna Hnn.
  destruct p as [u|[s|a|a]]; cbn in Hp; [|..|by destruct (Hna a)|by destruct (Hnn a)].
  - rewrite L3 in Hp. set_solver.
  - destruct Hp as (Hc & Hne & Hsub & _).
    assert (set s ⊆ sent) as Hss.
    { intros g Hg%Hsub. eapply elem_of_submseteq; [|exact Hw]. rewrite elem_of_app. by left. }
    exists s. split_and!; [done|done|done| |done]. cbn. rewrite Forall_forall in Ho.
    split_and!; [done|unfold countable, u24_valid, uint in *; lia|..]; apply Forall_forall; intros g Hg%Hss; by apply Ho.
Qed.

Lemma AckOrNack_writes mtu (a : AckOrNack) buf :
  3 + records_len (records a) ≤ mtu → mtu < 2 ^ 13 → ∃ d, AckOrNack_write (E:=spinning) a buf = Ok d.
Proof.
  intros Hl Hm. assert (4 * Z.of_nat (length (records a)) ≤ records_len (records a)) as Hr.
  { unfold records_len. clear. induction (records a) as [|[] rs IH]; cbn [foldr length Record_len]; lia. }
  unfold AckOrNack_write. rewrite debug_assert_true by (apply Z.ltb_lt; lia). by eexists.
Qed.

Lemma sending_writes st waiting sent h n N p :
  sending st waiting sent h n N → may_send st p → ∃ d, Packet_write (E:=spinning) p [] = Ok d.
Proof.
  intros Hs Hp. pose proof (sd_mtu _ _ _ _ _ _ Hs) as [_ Hmtu]. destruct p as [u|[fs|a|a]]; [by eexists| | |].
  - destruct (sending_packet _ _ _ _ _ _ _ Hs Hp) as (s & _ & _ & _ & (d & Hd & _)%Packet_read_write & _); [done..|]. by exists d.
  - cbn in Hp. destruct Hp as (_ & _ & Hl). destruct (AckOrNack_writes _ a (put_u8 ACK_FLAG []) Hl Hmtu) as [d Hd].
    exists d. cbn in *. by rewrite Hd.
  - cbn in Hp. destruct Hp as (_ & _ & Hl). destruct (AckOrNack_writes _ a (put_u8 NACK_FLAG []) Hl Hmtu) as [d Hd].
    exists d. cbn in *. by rewrite Hd.
Qed.

Lemma expand_all_nonempty (rs : list Record_) : rs ≠ [] → Forall Record_ok rs → expand_all rs ≠ [].
Proof.
  intros Hne Hok Hn. pose proof (records_le_expand _ Hok) as Hle. rewrite Hn in Hle. destruct rs; [done|cbn in Hle; lia].
Qed.

(** Without acknowledgements to send, only frame sets are sent. *)
Lemma sent_datagrams st waiting sent h n N ps st' :
  sending st waiting sent h n N → sent_from st ps st' →
  Forall (λ x, may_send st x.1 ∧ x.2 = peer_addr (rl_peer st)) ps →
  Forall (frame_datagram (peer_addr (rl_peer st)) sent) ps.
Proof.
  intros Hs [A1 _ [_ A2] _ _ _ _ _ _ _ _ _] Hmay. destruct (sd_link _ _ _ _ _ _ Hs) as (L1 & L2 & _).
  rewrite L1 in A1. rewrite L2 in A2.
  assert (acks_of ps = []) as Hacks.
  { destruct (into_iter_sorted_spec ack_key (@nil u24)) as [Hp _]; [apply heap_ok_nil|].
    apply Permutation_nil_r in Hp. rewrite Hp in A1. symmetry in A1. by apply app_nil in A1 as [-> _]. }
  apply Forall_forall. intros [p a] Hx. rewrite Forall_forall in Hmay. destruct (Hmay _ Hx) as [Hp Ha]. cbn in Hp, Ha. subst a.
  eapply sending_packet; [exact Hs|exact Hp|..]; intros ack ->; cbn in Hp; destruct Hp as (Hok & Hne & _);
    destruct (expand_all (records ack)) as [|y l] eqn:He; try by eapply expand_all_nonempty.
  - assert (y ∈ acks_of ps) as Hy; [|by rewrite Hacks in Hy; apply not_elem_of_nil in Hy].
    apply list_elem_of_bind. eexists. split; [|exact Hx]. cbn. rewrite He. left.
  - assert (y ∈ (∅ : gset u24)) as Hy; [|set_solver]. apply A2.
    apply list_elem_of_bind. eexists. split; [|exact Hx]. cbn. rewrite He. left.
Qed.

Lemma sets_of_app ps qs : sets_of (ps ++ qs) = sets_of ps ++ sets_of qs.
Proof. apply bind_app. Qed.

Lemma sets_le_frames (ss : list FrameSet_) : Forall (λ s, set s ≠ []) ss → (length ss ≤ length (ss ≫= set))%nat.
Proof.
  induction 1 as [|s ss Hs _ IH]; [done|]. cbn. rewrite length_app. destruct (set s); [done|]. cbn. lia.
Qed.

Lemma may_send_sets (st : ReliableLayer (F:=Framed T) (T:=Est)) ps :
  Forall (λ x, may_send st x.1 ∧ x.2 = peer_addr (rl_peer st)) ps → Forall (λ s, set s ≠ []) (sets_of ps).
Proof.
  intros Hm. apply Forall_forall. intros s ([p a] & Hs & [Hp _]%(proj1 (Forall_forall _ _) Hm))%list_elem_of_bind.
  cbn in Hs, Hp. destruct p as [u|[fs|?|?]]; try by apply not_elem_of_nil in Hs.
  apply list_elem_of_singleton in Hs as ->. apply Hp.
Qed.

Lemma sending_empty st sent h n N :
  sending st [] sent h (S n) N →
  ∃ ps st', try_empty st = Ok (Ready (inr tt), st') ∧ framed_taken (h ++ ps) (rl_frame st') ∧
    buffered (rl_buf st') = [] ∧
    (∀ fr, framed_taken (h ++ ps) fr → fr_flushed fr = true → sending (set_rl_frame fr st') [] sent (h ++ ps) n N).
Proof.
  intros Hs. destruct (sending_left _ _ _ _ _ _ Hs) as [Hl Hmk]. pose proof Hs as [Hi Hv Hx HL Hm Hw Hf Ho [Hk Hk'] Hd He Hn Hq].
  destruct (try_empty_spec h st Hi Hl Hv Hmk) as
    (st1 & ps & st2 & w & Hr & -> & Hck & Hi2 & Hsf & Ht & Hmay & Hperm & Hpi & l & qa & qn & b & r & -> & -> & Ha & Hna).
  { split; [exact Hk|]. intros p Hp. by eapply sending_writes. }
  destruct (sending_ready _ _ _ _ _ _ Hs) as (st1 & Hr1 & Hs1). unfold Reliable_poll_ready in Hr1. rewrite Hpi in Hr1.
  cbn [mbind outcome_bind] in Hr1. injection Hr1 as <-. set (st1 := set_rl_out _ b r _) in *.
  pose proof (sent_datagrams _ _ _ _ _ _ _ _ Hs1 Hsf (sf_may _ _ _ Hsf)) as Hdat.
  pose proof (sets_le_frames _ (may_send_sets _ _ (sf_may _ _ _ Hsf))) as Hle.
  rewrite Hx in Hck. apply check_flushed_spec in Hck as (C1 & C2 & C3). specialize (C1 eq_refl). specialize (C2 eq_refl).
  destruct (C3 eq_refl) as [C4 C5]. rewrite SendBuffer_len_buffered in C5. apply nil_length_inv in C5.
  pose proof (sf_frames _ _ _ Hsf) as Hfr. rewrite C5, app_nil_r in Hfr.
  pose proof (sf_kept _ _ _ Hsf) as Hkept. pose proof (f_equal length (sf_seqs _ _ _ Hsf)) as Hseq.
  rewrite length_fmap, length_u24_range in Hseq. pose proof (sf_le _ _ _ Hsf) as Hqle.
  destruct (sf_peer _ _ _ Hsf) as [P1 _]. change (rl_peer st1) with (rl_peer st) in P1, Hdat.
  change (seq_num_write_index st1) with (seq_num_write_index st) in Hseq, Hqle.
  destruct Hs1 as [_ _ _ _ _ Hw1 _ _ _ _ He1 _ _]. cbn in He1.
  exists ps. eexists. split; [exact Hr|]. split; [exact Ht|]. split; [done|]. intros fr Hfr1 Hfr2. split; cbn; rewrite ?P1; try done.
  - destruct Hi2. by split.
  - destruct (sf_link _ _ _ Hsf) as (_ & K1 & K2 & _). split; unfold rl_link in *; cbn in *; [rewrite K1|rewrite K2]; cbn;
      [rewrite Ha|rewrite Hna]; constructor.
  - by rewrite Hx.
  - rewrite C5, !app_nil_r, Hkept. etrans; [|exact Hw1]. cbn [fmap list_fmap]. rewrite app_nil_r, Hfr, (Permutation_app_comm (map_frames _)).
    apply submseteq_skips_r. rewrite (sent_split (sets_of ps)). by apply submseteq_inserts_r.
  - apply Forall_app. done.
  - intros f Hin. right. right. rewrite sets_of_app, bind_app, elem_of_app.
    destruct (He1 f Hin) as [Hn'|[Hb|Hb]]; [by apply not_elem_of_nil in Hn'| |by left]. right. by rewrite <-Hfr.
  - apply submseteq_length in Hw1. rewrite !length_app, (Permutation_length Hfr) in Hw1. nia.
Qed.

(** A flush sends what was handed over. *)
Lemma sending_flush st sent h n N :
  sending st [] sent h (S n) N →
  ∃ ps st', Reliable_poll_flush st = Ok (Ready (inr tt), st') ∧ sending st' [] sent (h ++ ps) n N ∧
    ∀ f, f ∈ sent → f ∈ (sets_of (h ++ ps) ≫= set).
Proof.
  intros Hs. destruct (sending_empty _ _ _ _ _ Hs) as (ps & st' & Ht & Htk & Hb & Hs').
  destruct (poll_flush_0_taken _ _ Htk) as (fr & Hfl & Htk' & Hflag).
  exists ps, (set_rl_frame fr st'). specialize (Hs' fr Htk' Hflag). split_and!; [|done|].
  - unfold Reliable_poll_flush, and_then. rewrite Ht. cbn [mbind outcome_bind]. unfold poll_below, poll_flush, Framed_sink.
    by rewrite Hfl.
  - intros f [Hf|[Hf|Hf]]%(sd_every _ _ _ _ _ _ Hs'); [|cbn in Hf; rewrite Hb in Hf|done]; by apply not_elem_of_nil in Hf.
Qed.

(** ** A run of the sender *)

(** The encoder numbers and splits messages alike wherever its frames go. *)
Lemma split_loop_frame {E} n k size id per max r c prio next orders data buf x :
  split_loop (E:=E) n k size id per max r c prio next orders data buf = Ok x →
  ∃ new, x.2 = buf ++ new ∧ ∀ buf', split_loop (E:=E) n k size id per max r c prio next orders data buf' = Ok (x.1, buf' ++ new).
Proof.
  revert k next data buf. induction n as [|n IH]; intros k next data buf; cbn [split_loop].
  { intros [= <-]. exists []. split; [by rewrite app_nil_r|]. intros buf'. by rewrite app_nil_r. }
  intros H. apply outcome_bind_Ok in H as ([[idx ord] next'] & Hi & H). apply outcome_bind_Ok in H as ([] & Hd & H).
  apply IH in H as (new & Hx & H). eexists (_ :: new). split; [rewrite Hx, <-app_assoc; done|].
  intros buf'. rewrite Hi. cbn [mbind outcome_bind]. rewrite Hd. cbn [mbind outcome_bind]. rewrite H, <-app_assoc. done.
Qed.

Local Ltac replay H := rewrite (outcome_bind_via _ _ _ H); cbv beta iota zeta.

Lemma start_send_frame {E} m (sg sg' : SenderStack) :
  Fragment_start_send (E:=E) m sg = Ok sg' →
  ∃ new, frag_buf sg' = frag_buf sg ++ new ∧
    ∀ fr buf, Fragment_start_send (E:=E) m (set_frag fr buf sg) = Ok (set_frag fr (buf ++ new) sg').
Proof.
  unfold Fragment_start_send. intros H.
  apply outcome_bind_Ok in H as ([] & H1 & H). apply outcome_bind_Ok in H as (v1 & H2 & H).
  apply outcome_bind_Ok in H as (v2 & H3 & H). apply outcome_bind_Ok in H as ([r mx] & H4 & H).
  cbn [frag_mtu reliable_write_index order_write_index parted_id_write frag_buf set_frag frag_frame].
  destruct (Z.of_nat (length (msg_data m)) <=? mx) eqn:Hle.
  - apply outcome_bind_Ok in H as ([[idx ord] next] & H5 & H). apply outcome_bind_Ok in H as (orders & H6 & H).
    injection H as <-. eexists. split; [done|]. intros fr buf. replay H1; replay H2; replay H3; replay H4. rewrite Hle.
    replay H5; replay H6. done.
  - apply outcome_bind_Ok in H as (per & H5 & H). apply outcome_bind_Ok in H as (n & H6 & H).
    apply outcome_bind_Ok in H as ([[next rest] b] & H7 & H). apply outcome_bind_Ok in H as (orders & H8 & H).
    apply outcome_bind_Ok in H as ([] & H9 & H). injection H as <-.
    apply split_loop_frame in H7 as (new & Hb & H7). cbn in Hb. exists new. split; [done|]. intros fr buf.
    replay H1; replay H2; replay H3; replay H4. rewrite Hle. replay H5; replay H6; replay (H7 buf); cbn [fst]; replay H8; replay H9. done.
Qed.

(** New frames are handed to the encoder. *)
Lemma sending_more st waiting sent h n N new :
  sending st waiting sent h n N → Z.of_nat (length (sent ++ new.*2)) ≤ N →
  Forall (λ f, FRAME_SET_HEADER_SIZE + Frame_size f ≤ peer_mtu peer) new.*2 → Forall (λ f, Frame_ok f ∧ Frame_fits f) new.*2 →
  sending st (waiting ++ new) (sent ++ new.*2) h n N.
Proof.
  intros [Hi Hv Hx HL Hm Hw Hf Ho Hk Hd He Hn Hq Hp] Hlen H1 H2. split; try done.
  - rewrite fmap_app, app_assoc. by apply submseteq_skips_r.
  - rewrite <-Hp in H1. by apply Forall_app.
  - by apply Forall_app.
  - eapply Forall_impl; [exact Hd|]. intros x (s & ? & ? & Hs & ? & ?). exists s. split_and!; try done. set_solver.
  - intros f [Hin%He|Hin]%elem_of_app; rewrite fmap_app, elem_of_app; naive_solver.
Qed.

Lemma start_send_all_frame {E} msgs (sg sg' : SenderStack) :
  start_send_all (E:=E) msgs sg = Ok sg' → ∃ new, frag_buf sg' = frag_buf sg ++ new.
Proof.
  revert sg. induction msgs as [|m msgs IH]; cbn [start_send_all]; intros sg H.
  - injection H as <-. exists []. by rewrite app_nil_r.
  - apply outcome_bind_Ok in H as (sg1 & (n1 & H1 & _)%start_send_frame & (n2 & H2)%IH).
    exists (n1 ++ n2). by rewrite H2, H1, app_assoc.
Qed.

(** Frames that the wire format and the datagrams have room for. *)
Record frames_good (N : Z) (fs : list Frame) : Prop := {
  fg_fit : Forall (λ f, FRAME_SET_HEADER_SIZE + Frame_size f ≤ peer_mtu peer) fs;
  fg_ok : Forall (λ f, Frame_ok f ∧ Frame_fits f) fs;
  fg_few : Z.of_nat (length fs) ≤ N;
}.

Lemma frames_good_prefix N fs gs : frames_good N (fs ++ gs) → frames_good N fs.
Proof. intros [H1 H2 H3]. apply Forall_app in H1 as [H1 _], H2 as [H2 _]. rewrite length_app in H3. split; [done|done|lia]. Qed.

Definition all_sent (sent : list Frame) (h : list (Packet * SocketAddr)) : Prop := sent ⊆ (sets_of h ≫= set).

Lemma sender_poll op (s : SenderStack) st1 r st2 :
  Fragment_poll_empty s = Ok (Ready (inr tt), set_frag st1 [] s) → op st1 = Ok (r, st2) →
  Fragment_poll_then op s = Ok (r, set_frag st2 [] s).
Proof. intros H1 H2. unfold Fragment_poll_then, and_then. rewrite H1. cbn [mbind outcome_bind frag_frame set_frag]. by rewrite H2. Qed.

(** One event: the state of the sender follows the encoder alone. *)
Lemma sender_step_spec ev sg sg' st buf h n N :
  start_send_all (E:=spinning) (event_msgs ev) sg = Ok sg' → frames_good N (snd <$> frag_buf sg') → event_valid ev →
  sending st buf (snd <$> frag_buf sg) h (event_flushes ev + n) N →
  ∃ rs st' buf' ps, sender_step ev (set_frag st buf sg) = Ok (rs, set_frag st' buf' sg') ∧
    Forall (λ r, r = Ready (inr tt)) rs ∧ sending st' buf' (snd <$> frag_buf sg') (h ++ ps) n N ∧
    (event_flushes ev = 1%nat → all_sent (snd <$> frag_buf sg') (h ++ ps)).
Proof.
  intros Hg Hok Hv Hs. destruct ev as [m|now|now|now a|a]; cbn in Hg, Hv, Hs.
  - apply outcome_bind_Ok in Hg as (s1 & Hm & [= ->]). destruct (start_send_frame _ _ _ Hm) as (new & Hb & Hr).
    rewrite Hb, fmap_app in Hok |- *. destruct Hok as [G1 G2 G3]. apply Forall_app in G1 as [_ G1], G2 as [_ G2].
    exists [], st, (buf ++ new), []. rewrite app_nil_r. split_and!; [|done| |done].
    + cbn. by rewrite Hr.
    + by apply sending_more.
  - injection Hg as <-. apply (sending_time _ _ _ _ _ _ now) in Hs.
    destruct (hand_over_all (on_layer (at_time now) (set_frag st buf sg)) _ _ _ _ Hs) as (st1 & E1 & Hs1).
    destruct (sending_ready _ _ _ _ _ _ Hs1) as (st2 & E2 & Hs2).
    exists [Ready (inr tt)], st2, [], []. rewrite app_nil_r. split_and!; [|by constructor|done|done].
    exact (outcome_bind_via _ _ _ (sender_poll _ _ _ _ _ E1 E2)).
  - injection Hg as <-. apply (sending_time _ _ _ _ _ _ now) in Hs.
    destruct (hand_over_all (on_layer (at_time now) (set_frag st buf sg)) _ _ _ _ Hs) as (st1 & E1 & Hs1).
    destruct (sending_flush _ _ _ _ _ Hs1) as (ps & st2 & E2 & Hs2 & Hall).
    exists [Ready (inr tt)], st2, [], ps. split_and!; [|by constructor|done|by intros _].
    exact (outcome_bind_via _ _ _ (sender_poll _ _ _ _ _ E1 E2)).
  - injection Hg as <-. exists [], (receive_ack now a st), buf, []. rewrite app_nil_r.
    split_and!; [done|done|by apply sending_ack|done].
  - injection Hg as <-. eexists [], _, buf, []. rewrite app_nil_r.
    split_and!; [done|done|by apply sending_nack|done].
Qed.

Lemma start_send_all_app {E} ms ms' (sg sg' : SenderStack) :
  start_send_all (E:=E) (ms ++ ms') sg = Ok sg' →
  ∃ sg1, start_send_all (E:=E) ms sg = Ok sg1 ∧ start_send_all (E:=E) ms' sg1 = Ok sg'.
Proof.
  revert sg. induction ms as [|m ms IH]; cbn [start_send_all app]; intros sg H; [by exists sg|].
  apply outcome_bind_Ok in H as (s1 & H1 & (s2 & H2 & H3)%IH). exists s2. by rewrite H1.
Qed.

Lemma sender_run_spec evs sg sg' st buf h n N :
  start_send_all (E:=spinning) (evs ≫= event_msgs) sg = Ok sg' → frames_good N (snd <$> frag_buf sg') →
  Forall event_valid evs → sending st buf (snd <$> frag_buf sg) h (sum_list_with event_flushes evs + n) N →
  ∃ rs st' buf' ps, sender_run evs (set_frag st buf sg) = Ok (rs, set_frag st' buf' sg') ∧
    Forall (λ r, r = Ready (inr tt)) rs ∧ sending st' buf' (snd <$> frag_buf sg') (h ++ ps) n N ∧
    ((∃ t, last evs = Some (EvFlush t)) → all_sent (snd <$> frag_buf sg') (h ++ ps)).
Proof.
  intros Hg Hok Hv. revert sg st buf h Hg. induction Hv as [|ev evs Hev Hv IH]; intros sg st buf h Hg Hs.
  { injection Hg as <-. exists [], st, buf, []. rewrite app_nil_r. split_and!; [done|done|done|]. by intros [? ?]. }
  cbn [mbind list_bind] in Hg. apply start_send_all_app in Hg as (sg1 & Hg1 & Hg2). cbn [sum_list_with] in Hs.
  rewrite <-Nat.add_assoc in Hs.
  assert (frames_good N (snd <$> frag_buf sg1)) as Hok1.
  { destruct (start_send_all_frame _ _ _ Hg2) as (new & Hb). rewrite Hb, fmap_app in Hok. by apply frames_good_prefix in Hok. }
  destruct (sender_step_spec ev sg sg1 st buf h _ N Hg1 Hok1 Hev Hs) as (rs1 & st1 & buf1 & ps1 & R1 & A1 & Hs1 & F1).
  destruct (IH sg1 st1 buf1 (h ++ ps1) Hg2 Hs1) as (rs2 & st2 & buf2 & ps2 & R2 & A2 & Hs2 & F2).
  exists (rs1 ++ rs2), st2, buf2, (ps1 ++ ps2). rewrite app_assoc. split_and!; [|by apply Forall_app|done|].
  - cbn [sender_run]. rewrite R1. cbn [mbind outcome_bind]. by rewrite R2.
  - intros [t Ht]. destruct evs as [|ev' evs']; [|by apply F2; exists t].
    injection Hg2 as <-. injection Ht as ->. intros f Hf%F1; [|done]. rewrite sets_of_app, bind_app, elem_of_app. by left.
Qed.
End sender.

(** ** A new connection *)

(** Messages that the wire format can carry. *)
Definition wire_message (m : Message) : Prop :=
  is_sequenced (msg_reliability m) = false ∧ bytes_ok (msg_data m) ∧ msg_data m ≠ [].

Lemma parcel_frames (s : SenderStack) zs :
  Forall (parcel_ok s) zs → Forall wire_message zs.*1 →
  Forall (λ f, Frame_ok f ∧ Frame_fits f) (concat zs.*2) ∧
  Forall (λ f, FRAME_SET_HEADER_SIZE + Frame_size f ≤ frag_mtu s) (concat zs.*2) ∧
  Z.of_nat (length (concat zs.*2)) ≤ volume zs.*1.
Proof.
  induction 1 as [|z zs Hz _ IH]; [intros _; split_and!; [constructor|constructor|done]|]. cbn [fmap list_fmap concat]. intros [Hm Hms]%Forall_cons.
  destruct IH as (I1 & I2 & I3); [done|]. destruct Hm as (M1 & M2 & M3). destruct Hz. split_and!.
  - apply Forall_app. split; [apply Forall_forall; auto|done].
  - apply Forall_app. split; [apply Forall_forall; auto|done].
  - rewrite length_app. unfold volume in *. cbn [sum_list_with]. lia.
Qed.

Lemma sending_new (socket : T) (role : Role) (peer : Peer) r now waker (e : Est) n N :
  sock_sent socket = [] → est_ok e → 27 < peer_mtu peer < 2 ^ 13 → 0 ≤ N → (Z.of_nat n + 1) * N < 2 ^ 24 →
  sending peer (wrap_reliable (Framed_new socket (peer_mtu peer)) (new_world role peer r now waker) peer role e) [] [] [] n N.
Proof.
  intros Hsock He Hmtu HN Hn.
  destruct (cq_new_spec (A:=AckOrNack * Z) (Some MAX_ACK_BUFFER)) as [C1 _].
  destruct (cq_new_spec (A:=AckOrNack) (Some MAX_ACK_BUFFER)) as [C2 _].
  destruct (cq_new_spec (A:=UPacket) None) as [C3 _].
  split; cbn; try done.
  - split; cbn; first [done|lia|apply heap_ok_nil|apply SendBuffer_new_ok|by apply Resend_inv_new|set_solver].
  - split; unfold rl_link; cbn; [rewrite C1|rewrite C2]; constructor.
  - split; [|done]. unfold framed_taken, wire. cbn. by rewrite Hsock.
  - set_solver.
Qed.

(** The events of a new connection: every call succeeds, and the datagrams carry
    the frames of the messages. *)
Lemma new_sender_runs (socket : T) (role : Role) (peer : Peer) r now waker (e : Est) chans evs :
  let s0 := new_sender socket role peer (new_world role peer r now waker) e chans in
  let msgs := evs ≫= event_msgs in
  sock_sent socket = [] → est_ok e → sendable msgs s0 → Forall wire_message msgs →
  Forall event_valid evs → (Z.of_nat (sum_list_with event_flushes evs) + 1) * volume msgs < 2 ^ 24 →
  ∃ zs sg rs s1 ps, start_send_all (E:=spinning) msgs s0 = Ok sg ∧ snd <$> frag_buf sg = concat zs.*2 ∧
    sent_parcels msgs s0 zs sg ∧ sender_run evs s0 = Ok (rs, s1) ∧ Forall (λ r, r = Ready (inr tt)) rs ∧
    Forall2 written ps (sock_sent (fr_socket (rl_frame (frag_frame s1)))) ∧
    Forall (frame_datagram (peer_addr peer) (concat zs.*2)) ps ∧
    ((∃ t, last evs = Some (EvFlush t)) → all_sent (concat zs.*2) ps).
Proof.
  intros s0 msgs Hsock He Hs Hw Hev Hvol.
  destruct (start_send_all_spec (E:=spinning) msgs s0 Hs) as (zs & sg & Hall & Hbuf & Hzs & Hfr).
  cbn [s0 new_sender fragmented frag_buf app fmap list_fmap] in Hbuf.
  destruct (parcel_frames s0 zs (sp_each _ _ _ _ Hzs)) as (F1 & F2 & F3); [by rewrite (sp_msgs _ _ _ _ Hzs)|].
  rewrite (sp_msgs _ _ _ _ Hzs) in F3. pose proof (sn_mtu _ _ Hs) as Hmtu. cbn in Hmtu.
  destruct (sender_run_spec peer evs s0 sg (frag_frame s0) [] [] 0 (volume msgs)) as (rs & st' & buf' & ps & Hrun & Hrs & Hsd & Hlast);
    [done|by rewrite Hbuf|done| |].
  { apply sending_new; try done; [lia|]. by rewrite Nat.add_0_r. }
  exists zs, sg, rs, (set_frag st' buf' sg), ps. rewrite Hbuf in Hsd, Hlast. destruct Hsd as [_ _ _ _ _ _ _ _ [[Hwr _] Hfl] Hd _ _ _ Hp].
  unfold wire in Hwr. rewrite Hfl, app_nil_r in Hwr. rewrite Hp in Hd. by split_and!.
Qed.

(** ** The receiving side of a session *)

(** The datagram [d] brings the frame [f]. *)
Definition carries (d : list Z) (f : Frame) : Prop :=
  ∃ s l, Packet_read d = Ok (PConnected (CFrameSet s), l) ∧ f ∈ set s.

(** What the network hands to the other peer: of this peer only datagrams that it
    sent, among them one with each reliable frame; anything from others. *)
Record network (from : SocketAddr) (sent : list Frame) (ds : list (list Z * SocketAddr)) (net : list recv_answer) : Prop := {
  nw_harmless : Forall harmless net;
  nw_sound : ∀ d, Ready (inr (d, from)) ∈ net → d ∈ ds.*1;
  nw_reliable : ∀ f, f ∈ sent → numbered f → ∃ d, Ready (inr (d, from)) ∈ net ∧ carries d f;
}.

Lemma from_server_decoded from (outs : list (item_answer (Packet * SocketAddr))) net :
  feed_items outs = decoded net →
  (outs ≫= from_server from) = (decoded net ≫= λ x, from_server from (Ready (Some x))).
Proof.
  intros <-. induction outs as [|[[x|]|] outs IH]; cbn; [done| |done|done].
  unfold feed_items in IH. by rewrite IH.
Qed.

(** The datagrams of the sender are read back as its frame sets. *)
Lemma datagrams_read addr sent ps ds :
  Forall2 written ps ds → Forall (frame_datagram addr sent) ps →
  (∀ d, d ∈ ds.*1 → ∃ s, Packet_read d = Ok (PConnected (CFrameSet s), []) ∧ countable (seq_num s) ∧ set s ⊆ sent) ∧
  (∀ s, s ∈ sets_of ps → ∃ d, d ∈ ds.*1 ∧ Packet_read d = Ok (PConnected (CFrameSet s), [])) ∧
  Forall (λ d, d.2 = addr) ds.
Proof.
  intros Hw Hps. rewrite Forall_forall in Hps. split_and!.
  - intros d ([d' a] & -> & Hin)%list_elem_of_fmap. apply list_elem_of_lookup_1 in Hin as [i Hi].
    destruct (Forall2_lookup_r _ _ _ _ _ Hw Hi) as ([p b] & Hp & [Hwr _]).
    destruct (Hps (p, b)) as (s & Hps1 & Hc & Hsub & (d2 & Hd2 & Hrd)%Packet_read_write & _); [by eapply list_elem_of_lookup_2|].
    cbn in *. exists s. rewrite Hd2 in Hwr. injection Hwr as <-. by rewrite Hrd, Hps1.
  - intros s ([p b] & Hsp & Hp)%list_elem_of_bind. cbn in Hsp.
    destruct (Hps _ Hp) as (s' & Hp1 & _ & _ & (d2 & Hd2 & Hrd)%Packet_read_write & _). cbn in *. subst p.
    apply list_elem_of_singleton in Hsp as ->. apply list_elem_of_lookup_1 in Hp as [i Hi].
    destruct (Forall2_lookup_l _ _ _ _ _ Hw Hi) as ([d a] & Hdi & [Hwr _]). cbn [fst snd] in Hwr. rewrite Hd2 in Hwr. injection Hwr as <-.
    exists d2. split; [|done]. apply list_elem_of_fmap. exists (d2, a). split; [done|by eapply list_elem_of_lookup_2].
  - apply Forall_forall. intros d [i Hi]%list_elem_of_lookup_1.
    destruct (Forall2_lookup_r _ _ _ _ _ Hw Hi) as (x & Hx & [_ <-]). apply list_elem_of_lookup_2 in Hx.
    by destruct (Hps _ Hx) as (? & _ & _ & _ & _ & ?).
Qed.

(** The frame sets that arrive are frame sets that were sent. *)
Lemma network_frame_sets from addr sent ps ds net :
  Forall2 written ps ds → Forall (frame_datagram addr sent) ps → network from sent ds net →
  ∃ fss, (decoded net ≫= λ x, from_server from (Ready (Some x))) = CFrameSet <$> fss ∧
    Forall (λ s, countable (seq_num s)) fss ∧ arrived sent (fss ≫= set).
Proof.
  intros Hw Hps [Hh Hs Hr]. destruct (datagrams_read _ _ _ _ Hw Hps) as (Hd & _ & _).
  set (sets := net ≫= λ x, match x with
    | Ready (inr (d, a)) => if decide (a = from) then match Packet_read d with Ok (PConnected (CFrameSet s), _) => [s] | _ => [] end else []
    | _ => [] end).
  assert (∀ s, s ∈ sets ↔ ∃ d, Ready (inr (d, from)) ∈ net ∧ ∃ l, Packet_read d = Ok (PConnected (CFrameSet s), l)) as Hsets.
  { intros s. unfold sets. rewrite list_elem_of_bind. split.
    - intros ([[?|[d a]]|] & Hin & Hx); [by apply not_elem_of_nil in Hin| |by apply not_elem_of_nil in Hin].
      case_decide; [subst a|by apply not_elem_of_nil in Hin]. exists d. split; [done|].
      destruct (Packet_read d) as [[[?|[s'|?|?]] l]| |]; try (by apply not_elem_of_nil in Hin).
      apply list_elem_of_singleton in Hin as ->. by eexists.
    - intros (d & Hin & l & Hrd). eexists. split; [|exact Hin]. cbn. rewrite decide_True, Hrd by done. left. }
  exists sets. split_and!.
  - unfold sets, decoded. clear -Hs Hd. 
    assert (∀ d, Ready (inr (d, from)) ∈ net → ∃ s, Packet_read d = Ok (PConnected (CFrameSet s), [])) as Hn.
    { intros d Hin. destruct (Hd d) as (s & Hrd & _); [by apply Hs|]. by exists s. }
    clear Hs Hd. induction net as [|x net IH]; [done|]. cbn [mbind list_bind]. rewrite bind_app, fmap_app, IH.
    2: { intros d Hin. apply Hn. by right. } f_equal.
    destruct x as [[?|[d a]]|]; [done| |done]. case_decide as Ha.
    + subst a. destruct (Hn d) as [s Hrd]; [left|]. rewrite Hrd. cbn. by rewrite decide_True.
    + destruct (Packet_read d) as [[[?|?] ?]| |]; cbn; [done|by rewrite decide_False|done|done].
  - apply Forall_forall. intros s (d & Hin & l & Hrd)%Hsets. destruct (Hd d) as (s' & Hrd' & Hc & _); [by apply Hs|].
    rewrite Hrd in Hrd'. by injection Hrd' as -> ->.
  - split.
    + intros f (s & Hf & (d & Hin & l & Hrd)%Hsets)%list_elem_of_bind. destruct (Hd d) as (s' & Hrd' & _ & Hsub); [by apply Hs|].
      rewrite Hrd in Hrd'. injection Hrd' as -> ->. by apply Hsub.
    + intros f Hf Hn. destruct (Hr f Hf Hn) as (d & Hin & s & l & Hrd & Hfs). apply list_elem_of_bind.
      exists s. split; [done|]. apply Hsets. exists d. split; [done|by eexists].
Qed.

(** The channel of a route as the stream of the pipeline, whose sender may be gone. *)
Definition routed (closed : bool) (fss : list FrameSet_) : tape FrameSet_ :=
  ((λ s, Ready (Some (inr s))) <$> fss) ++ if closed then [Ready None] else [].

Lemma routed_spec closed fss :
  tape_frames (routed closed fss) = fss ≫= set ∧ errors (routed closed fss) = [] ∧
  (closed = true → ended (routed closed fss)) ∧ (length (routed closed fss) ≤ S (length fss))%nat.
Proof.
  split_and!.
  - unfold tape_frames. f_equal. unfold routed. rewrite items_app.
    replace (items (if closed then [Ready None] else [])) with (@nil FrameSet_) by (by destruct closed). rewrite app_nil_r.
    induction fss as [|s fss IH]; [done|]. by rewrite fmap_cons, items_cons, IH.
  - induction fss as [|s fss IH]; [by destruct closed|exact IH].
  - intros ->. exists ((λ s, Ready (Some (inr s))) <$> fss), 0%nat. split; [done|]. apply Forall_fmap, Forall_true. done.
  - unfold routed. rewrite length_app, length_fmap. destruct closed; cbn; lia.
Qed.

(** Receiving: the datagrams become frame sets, and the frame sets frames. *)
Lemma receive_routes {E T'} `{!AsyncSocket T'} from addr sent ps ds net (t : T') mtu role peer r now :
  Forall2 written ps ds → Forall (frame_datagram addr sent) ps → network from sent ds net →
  ∃ outs f rt l, polls Framed_poll_next (length net) (Framed_new t mtu) net = Ok (outs, f, []) ∧
    deliver_all (E:=E) now (outs ≫= from_server from) Route_new (TransferLink_new role peer) r = Ok (rt, l, r) ∧
    arrived sent (chan_sent (router_tx rt) ≫= set) ∧
    outgoing_ack l ≡ₚ seq_num <$> chan_sent (router_tx rt).
Proof.
  intros Hw Hfp Hnet. pose proof (nw_harmless _ _ _ _ Hnet) as Hh.
  destruct (Framed_polls_decode (length net) net t mtu Hh) as (outs & f & Hp & Ho); [done|].
  destruct (network_frame_sets from addr sent ps ds net Hw Hfp Hnet) as (fss & Hf & Hc & Harr).
  destruct (deliver_all_frames (E:=E) now fss [] Route_new (TransferLink_new role peer) r)
    as (rt & l & Hd & Hw' & Hs); [apply chan_unbounded_spec|apply owes_new|done|].
  cbn in Hs. rewrite (proj1 chan_unbounded_spec) in Hs. cbn in Hs.
  exists outs, f, rt, l. rewrite (from_server_decoded _ _ _ Ho), Hf, Hs. split_and!; [done|done|done|].
  by destruct Hw' as (_ & ? & _).
Qed.
End session.


(** ** A session of the sample messages whose first datagrams are all lost *)
Section sample_session.
Local Instance session_build : Build := true.
Local Instance session_bytes : BytesCrate := bytes_reference.
Local Instance session_heap : BinaryHeap := heap_sorted.
Local Instance session_lru : LruCrate := lru_reference.
Local Instance session_iter : HashIter := hash_iter_reference.
Local Instance session_queue : ConcurrentQueueCrate := queue_reference.
Local Instance session_channel : AsyncChannelCrate := channel_reference.

Definition session_peer : Peer := mkPeer 2 sample_to 40.

Definition session_sender : FragmentSink (ReliableLayer (F:=Framed OpenLog) (T:=RFC6298Impl)) :=
  new_sender (mkOpenLog []) (Client 1) session_peer (new_world (Client 1) session_peer Reactor_new 0 0) RFC6298_new 2.

(** Two messages are sent and flushed, then the others; one number is reported
    missing, one acknowledgement is stale, and the last flush comes 4 seconds later. *)
Definition session_events : list sender_event :=
  (EvSend <$> take 2 sample_msgs) ++ [EvFlush 0; EvReady 1000000] ++ (EvSend <$> drop 2 sample_msgs) ++
  [EvNack (mkAckOrNack [Single 1]); EvAck 2000000 (mkAckOrNack [Range 9 11]); EvFlush 4000000000].

Definition session_ran : FragmentSink (ReliableLayer (F:=Framed OpenLog) (T:=RFC6298Impl)) :=
  match sender_run session_events session_sender with Ok (_, s) => s | _ => session_sender end.

Definition session_datagrams : list (list Z * SocketAddr) := sock_sent (fr_socket (rl_frame (frag_frame session_ran))).

Definition session_sent : list Frame :=
  match start_send_all (E:=spinning) sample_msgs session_sender with Ok s => snd <$> frag_buf s | _ => [] end.

(** The number of datagrams of the first flush, which are lost. *)
Definition session_lost : nat :=
  match sender_run (take 3 session_events) session_sender with
  | Ok (_, s) => length (sock_sent (fr_socket (rl_frame (frag_frame s))))
  | _ => 0
  end.

(** The others, last first and then once more, with pauses, errors and someone
    else's datagram. *)
Definition session_net : list recv_answer :=
  let ds := drop session_lost session_datagrams in
  arrive sample_from (reverse ds) ++
  [Pending; Ready (inl no_route); Ready (inr ([5; 1], sample_to))] ++ arrive sample_from ds.

(** A network, checked. *)
Definition carriesb (d : list Z) (f : Frame) : bool :=
  match Packet_read d with Ok (PConnected (CFrameSet s), _) => bool_decide (f ∈ set s) | _ => false end.

Definition harmlessb (x : recv_answer) : bool :=
  match x with Ready (inr (d, _)) => (match Packet_read d with Panic => false | _ => true end) | _ => true end.

Lemma harmless_checked net : forallb harmlessb net = true → Forall harmless net.
Proof.
  rewrite forallb_forall. intros H. apply Forall_forall. intros [[?|[d a]]|] Hx%list_elem_of_In%H; cbn in *; try done.
  intros Hp. by rewrite Hp in Hx.
Qed.

(** Whatever comes from the peer is a datagram of it. *)
Definition soundb (from : SocketAddr) (ds : list (list Z * SocketAddr)) (net : list recv_answer) : bool :=
  forallb (λ x, match x with Ready (inr (d, a)) => negb (bool_decide (a = from)) || bool_decide (d ∈ ds.*1) | _ => true end) net.

Lemma sound_checked from ds net :
  soundb from ds net = true → ∀ d, Ready (inr (d, from)) ∈ net → d ∈ ds.*1.
Proof.
  unfold soundb. rewrite forallb_forall. intros H d Hx%list_elem_of_In%H. rewrite bool_decide_true in Hx by done.
  by apply bool_decide_eq_true in Hx.
Qed.

Definition networkb (from : SocketAddr) (sent : list Frame) (ds : list (list Z * SocketAddr)) (net : list recv_answer) : bool :=
  forallb harmlessb net && soundb from ds net &&
  forallb (λ f, match reliable_frame_index f with
    | Some _ => existsb (λ x, match x with Ready (inr (d, a)) => bool_decide (a = from) && carriesb d f | _ => false end) net
    | None => true
    end) sent.

Lemma network_checked from sent ds net : networkb from sent ds net = true → network from sent ds net.
Proof.
  unfold networkb. rewrite !andb_true_iff. intros [[H1 H2] H3]. rewrite forallb_forall in H3.
  setoid_rewrite <-list_elem_of_In in H3. split; [by apply harmless_checked|by apply sound_checked|].
  - intros f Hf%H3 [i Hi]. rewrite Hi in Hf. apply existsb_exists in Hf as ([[?|[d a]]|] & Hin%list_elem_of_In & Hx); try done.
    apply andb_true_iff in Hx as [->%bool_decide_eq_true Hx]. exists d. split; [done|]. unfold carriesb in Hx.
    destruct (Packet_read d) as [[[?|[s|?|?]] l]| |] eqn:Hr; try done. exists s, l. split; [done|]. by apply bool_decide_eq_true in Hx.
Qed.

End sample_session.
