(* ===== verification/Settle.v ===== *)
(** * A session settles

    The way back: what a peer received it acknowledges (src/link.rs,
    src/reliable.rs), and the acknowledgements retire what the other peer keeps for
    resending, so that its close completes. *)
From S2P Require Import Prelude Bytes Errors Reader SeqNum Types PackType Unconnected AckNack FrameSet FrameBody Packet.
From S2P Require Import Stream Sink Collections Dedup Channels Reactor Link Estimator.
From S2P Require Import SendBuffer Resend Opts Reliable Recovery Framed ServerOffline ClientOffline Delivery Session.
Open Scope Z_scope.

Section settle.
Context {B : Build} {BC : BytesCrate} {BH : BinaryHeap} {HI : HashIter}.
Context {CQ : ConcurrentQueueCrate} {AC : AsyncChannelCrate}.

(** ** Acknowledgements on the wire *)

(** An acknowledgement, positive or negative, as the sender of it writes it. *)
Definition reply (p : CPacket) : Prop :=
  match p with CAck a | CNack a => AckOrNack_wire a | CFrameSet _ => False end.

Definition acks_in (packs : list CPacket) : list AckOrNack :=
  packs ≫= λ p, match p with CAck a => [a] | _ => [] end.

Lemma wire_valid a : AckOrNack_wire a → records_valid (records a).
Proof. intros [Hr _]. eapply Forall_impl; [exact Hr|]. intros [x y|x]; cbn; tauto. Qed.

(** The numbers that the resend map takes from an acknowledgement. *)
Lemma seqs_of_expand a : seqs_of a = expand_all (records a).
Proof. unfold seqs_of, expand_all. induction (records a) as [|[] rs IH]; cbn; by rewrite ?IH. Qed.

(** ** Replies reach the link *)

Record replied (now : Z) (packs : list CPacket) (l l' : TransferLink) : Prop := {
  rp_ack : cq_list (link_incoming_ack l') = cq_list (link_incoming_ack l) ++ ((λ a, (a, now)) <$> acks_in packs);
  rp_ack_cap : cq_cap (link_incoming_ack l') = cq_cap (link_incoming_ack l);
  rp_nack : Forall (λ a, records_valid (records a)) (cq_list (link_incoming_nack l)) →
    Forall (λ a, records_valid (records a)) (cq_list (link_incoming_nack l'));
  rp_outgoing : outgoing_ack l' = outgoing_ack l ∧ outgoing_nack l' = outgoing_nack l ∧
    link_unconnected l' = link_unconnected l;
}.

Lemma cq_force_push_room {A} (x : A) q n :
  cq_cap q = Some n → (length (cq_list q) < n)%nat →
  cq_list (cq_force_push x q).2 = cq_list q ++ [x] ∧ cq_cap (cq_force_push x q).2 = Some n.
Proof.
  intros Hc Hl. pose proof (cq_force_push_spec x q) as Hs. destruct (cq_force_push x q) as [o q']. destruct Hs as [Hc' Hs].
  rewrite bool_decide_false in Hs by (rewrite Hc; intros [= ?]; lia). cbn. rewrite Hc', Hc. by destruct Hs as [_ ->].
Qed.

Lemma deliver_replies {E} now packs rt l r n :
  chan_closed (router_tx rt) = false → Forall reply packs → cq_cap (link_incoming_ack l) = Some n →
  (length (cq_list (link_incoming_ack l)) + length (acks_in packs) ≤ n)%nat →
  ∃ l' r', deliver_all (E:=E) now packs rt l r = Ok (rt, l', r') ∧ replied now packs l l'.
Proof.
  intros Hopen Hp. revert l r. induction Hp as [|p packs Hp _ IH]; intros l r Hc Hl; cbn [deliver_all length] in *.
  { exists l, r. split; [done|]. split; cbn; rewrite ?app_nil_r; auto. }
  unfold Route_deliver. rewrite Hopen. destruct p as [s|a|a]; [done| |].
  - change (length (acks_in (CAck a :: packs))) with (S (length (acks_in packs))) in Hl.
    destruct (cq_force_push_room (a, now) (link_incoming_ack l) n Hc) as [P1 P2]; [lia|].
    assert (∃ l1 r1 w, incoming_ack now a l r = (l1, r1, w) ∧
      l1 = set_incoming (cq_force_push (a, now) (link_incoming_ack l)).2 (link_incoming_nack l) l) as (l1 & r1 & w & -> & Hl1).
    { unfold incoming_ack. destruct (cq_force_push _ _) as [o q]. cbn [snd].
      destruct (should_waking _); [destruct (cancel_all_timers _ _)|]; by eexists _, _, _. }
    cbn [mbind outcome_bind mret outcome_ret].
    destruct (IH l1 r1) as (l2 & r2 & -> & [I1 I2 I3 I4]); [by rewrite Hl1|rewrite Hl1; cbn; rewrite P1, length_app; cbn; lia|].
    exists l2, r2. split; [done|]. rewrite Hl1 in *. cbn in *. split; cbn; [|congruence|done|done].
    rewrite I1, P1, <-app_assoc. done.
  - change (acks_in (CNack a :: packs)) with (acks_in packs) in Hl.
    cbn [mbind outcome_bind mret outcome_ret]. unfold incoming_nack.
    pose proof (cq_force_push_Forall (λ a, records_valid (records a)) a (link_incoming_nack l) (wire_valid _ Hp)) as Hn.
    destruct (cq_force_push a (link_incoming_nack l)) as [o q]. cbn in Hn.
    destruct (IH (set_incoming (link_incoming_ack l) q l) r) as (l2 & r2 & -> & [I1 I2 I3 I4]); [done|cbn; lia|].
    exists l2, r2. split; [done|]. cbn in *. split; cbn; auto.
Qed.

(** ** The replies of a peer that has nothing else to send *)

Section replies.
Context {T Est : Type} `{!AsyncSocket T} `{!OpenSocket T} `{!Estimator Est} `{!EstimatorLaws Est}.

(** A peer that owes acknowledgements, at most [MAX_ACK_BUFFER] of each kind, and has
    nothing else to send; its MTU is below 8192. *)
Record replying (st : ReliableLayer (F:=Framed T) (T:=Est)) : Prop := {
  ry_inv : Reliable_inv st;
  ry_left : seqs_left st;
  ry_valid : incoming_valid st;
  ry_marks : marks_ok st;
  ry_ext : cx_ext (rl_world st) = None;
  ry_settled : settled st;
  ry_unconnected : cq_list (link_unconnected (rl_link st)) = [];
  ry_socket : framed_taken [] (rl_frame st);
  ry_mtu : peer_mtu (rl_peer st) < 2 ^ 13;
  ry_acks : (length (outgoing_ack (rl_link st)) ≤ MAX_ACK_BUFFER)%nat;
  ry_nacks : (size (outgoing_nack (rl_link st)) ≤ MAX_ACK_BUFFER)%nat;
}.

Lemma ack_writes (st : ReliableLayer (F:=Framed T) (T:=Est)) p :
  replying st → may_send st p → ∃ d, Packet_write (E:=spinning) p [] = Ok d.
Proof.
  intros Hst Hp. pose proof (ry_mtu _ Hst) as Hmtu. destruct (ry_settled _ Hst) as [S1 S2].
  destruct p as [u|[fs|a|a]]; [by eexists| | |]; cbn in Hp.
  - destruct Hp as (_ & Hne & Hsub & _). rewrite S1, S2 in Hsub. destruct (set fs) as [|f l]; [done|].
    specialize (Hsub f ltac:(left)). by apply not_elem_of_nil in Hsub.
  - destruct Hp as (_ & _ & Hl). destruct (AckOrNack_writes _ a (put_u8 ACK_FLAG []) Hl Hmtu) as [d Hd].
    exists d. cbn in *. by rewrite Hd.
  - destruct Hp as (_ & _ & Hl). destruct (AckOrNack_writes _ a (put_u8 NACK_FLAG []) Hl Hmtu) as [d Hd].
    exists d. cbn in *. by rewrite Hd.
Qed.

(** They fit into the MTU. *)
Lemma reply_fits (st : ReliableLayer (F:=Framed T) (T:=Est)) p d :
  may_send st (PConnected p) → reply p → Packet_write (E:=spinning) (PConnected p) [] = Ok d →
  Z.of_nat (length d) ≤ peer_mtu (rl_peer st).
Proof.
  intros Hp Hr Hd. destruct p as [fs|a|a]; [done| |]; cbn in Hp, Hr, Hd; destruct Hp as (_ & _ & Hl);
    rewrite (AckOrNack_write_wire _ _ Hr) in Hd; injection Hd as <-; unfold AckOrNack_bytes;
    rewrite !length_app; unfold put_u8; put_norm; rewrite ?length_app, ?length_be_bytes;
    pose proof (length_records (records a)); cbn [length]; lia.
Qed.

Lemma bind_part {A C} (f : A → list C) (l : list A) x : x ∈ l → (length (f x) ≤ length (l ≫= f))%nat.
Proof.
  induction l as [|y l IH]; [by intros ?%not_elem_of_nil|]. cbn. rewrite length_app.
  intros [->|Hx%IH]%elem_of_cons; lia.
Qed.

(** A flush sends what is owed, in packets that can be read back. *)
Lemma replies_flush (st : ReliableLayer (F:=Framed T) (T:=Est)) :
  replying st →
  ∃ ps st', Reliable_poll_flush st = Ok (Ready (inr tt), st') ∧ outgoing_ack (rl_link st') = [] ∧
    Forall2 written ps (sock_sent (fr_socket (rl_frame st'))) ∧
    Forall (λ x, ∃ p, x.1 = PConnected p ∧ reply p ∧ x.2 = peer_addr (rl_peer st)) ps ∧
    (∀ i, i ∈ outgoing_ack (rl_link st) → i ∈ acks_of ps) ∧
    Forall (λ x, may_send st x.1) ps.
Proof.
  intros Hst. pose proof Hst as [Hi Hl Hv Hm Hx [S1 S2] Hu Hk Hmtu Ha Hn].
  destruct (try_empty_spec [] st Hi Hl Hv Hm) as
    (st1 & ps & st2 & w & Hr & Hw & Hck & _ & Hsf & Ht & Hmay & _ & _ & l & qa & qn & b & r & -> & -> & _).
  { split; [exact Hk|]. intros p Hp. by apply (ack_writes st). }
  rewrite Hx in Hck. apply check_flushed_spec in Hck as (C1 & _). specialize (C1 eq_refl).
  destruct Hsf as [A1 _ [A2n A2] _ _ _ _ _ _ _ _ _]. cbn in A1, A2.
  destruct (into_iter_sorted_spec ack_key (outgoing_ack (rl_link st)) (ri_ack_heap _ Hi)) as [Hperm _].
  rewrite C1 in A1. destruct (into_iter_sorted_spec ack_key (@nil u24)) as [Hp0 _]; [apply heap_ok_nil|].
  apply Permutation_nil_r in Hp0. rewrite Hp0, app_nil_r in A1.
  assert (length (acks_of ps) ≤ MAX_ACK_BUFFER)%nat as La by (by rewrite <-A1, Hperm).
  assert (length (nacks_of ps) ≤ MAX_ACK_BUFFER)%nat as Ln.
  { etrans; [|exact Hn]. rewrite <-(size_list_to_set (C:=gset Z) (nacks_of ps)) by done. apply subseteq_size. set_solver. }
  cbn [app] in Ht. destruct (poll_flush_0_taken _ _ Ht) as (fr & Hfl & Htk & Hflag).
  exists ps, (set_rl_frame fr (set_rl_world w st2)). split_and!.
  - unfold Reliable_poll_flush, and_then. rewrite Hr. cbn [mbind outcome_bind]. unfold poll_below, poll_flush, Framed_sink.
    cbn [rl_frame set_rl_world id]. by rewrite Hfl.
  - rewrite Hw. exact C1.
  - cbn. destruct Htk as [Hwr _]. unfold wire in Hwr. by rewrite Hflag, app_nil_r in Hwr.
  - apply Forall_forall. intros [p a] Hin. rewrite Forall_forall in Hmay. destruct (Hmay _ Hin) as [Hp Haddr]. cbn in Hp, Haddr.
    destruct p as [u|[fs|ack|nack]]; cbn in Hp.
    + rewrite Hu in Hp. by apply not_elem_of_nil in Hp.
    + destruct Hp as (_ & Hne & Hsub & _). rewrite S1, S2 in Hsub. destruct (set fs) as [|f fl]; [done|].
      specialize (Hsub f ltac:(left)). by apply not_elem_of_nil in Hsub.
    + eexists. split_and!; [done| |done]. split; [apply Hp|].
      pose proof (bind_part (λ x, match x.1 with PConnected (CAck a) => expand_all (records a) | _ => [] end) ps _ Hin) as Hle.
      change (length (expand_all (records ack)) ≤ length (acks_of ps))%nat in Hle.
      unfold MAX_ACKNOWLEDGEMENT_PACKETS, MAX_ACK_BUFFER in *. lia.
    + eexists. split_and!; [done| |done]. split; [apply Hp|].
      pose proof (bind_part (λ x, match x.1 with PConnected (CNack a) => expand_all (records a) | _ => [] end) ps _ Hin) as Hle.
      change (length (expand_all (records nack)) ≤ length (nacks_of ps))%nat in Hle.
      unfold MAX_ACKNOWLEDGEMENT_PACKETS, MAX_ACK_BUFFER in *. lia.
  - intros i Hin. by rewrite <-A1, Hperm.
  - eapply Forall_impl; [exact Hmay|]. by intros x [? _].
Qed.

Lemma written_fits (st : ReliableLayer (F:=Framed T) (T:=Est)) addr ps ds :
  Forall2 written ps ds → Forall (λ x, ∃ p, x.1 = PConnected p ∧ reply p ∧ x.2 = addr) ps →
  Forall (λ x, may_send st x.1) ps → Forall (λ d, Z.of_nat (length d.1) ≤ peer_mtu (rl_peer st) ∧ d.2 = addr) ds.
Proof.
  induction 1 as [|[q a] [d b] ps ds [Hw Ha] _ IH]; [constructor|].
  intros [(p & Hq & Hr & Hto) Hps]%Forall_cons [Hm Hms]%Forall_cons. constructor; [|by apply IH].
  cbn in *. subst. split; [by eapply reply_fits|done].
Qed.
End replies.

(** ** The way back *)

Definition received (from : SocketAddr) (net : list recv_answer) : list CPacket :=
  decoded net ≫= λ x, from_server from (Ready (Some x)).

Lemma elem_of_received from net p :
  p ∈ received from net ↔ ∃ d l, Ready (inr (d, from)) ∈ net ∧ Packet_read d = Ok (PConnected p, l).
Proof.
  unfold received, decoded. rewrite list_elem_of_bind. split.
  - intros ([q a] & Hp & ([[?|[d a']]|] & Hin & Hx)%list_elem_of_bind); try (by apply not_elem_of_nil in Hin).
    destruct (Packet_read d) as [[q' l]| |] eqn:Hr; try (by apply not_elem_of_nil in Hin).
    apply list_elem_of_singleton in Hin as [= -> ->]. cbn in Hp. destruct q' as [u|c]; [by apply not_elem_of_nil in Hp|].
    case_decide; [|by apply not_elem_of_nil in Hp]. subst. apply list_elem_of_singleton in Hp as ->. by exists d, l.
  - intros (d & l & Hin & Hr). exists (PConnected p, from). split; [cbn; rewrite decide_True by done; left|].
    apply list_elem_of_bind. eexists. split; [|exact Hin]. cbn. rewrite Hr. left.
Qed.

(** What the network hands back: from the peer only datagrams that it sent, each
    of them at least once; anything from others that the codec survives.  The queue
    of the link has room for the acknowledgements of the peer, with their
    repetitions. *)
Record returned (from : SocketAddr) (ds : list (list Z * SocketAddr)) (net : list recv_answer) : Prop := {
  rt_harmless : Forall harmless net;
  rt_sound : ∀ d, Ready (inr (d, from)) ∈ net → d ∈ ds.*1;
  rt_all : ∀ d, d ∈ ds.*1 → Ready (inr (d, from)) ∈ net;
  rt_room : (length (acks_in (received from net)) ≤ MAX_ACK_BUFFER)%nat;
}.

(** The replies arrive. *)
Lemma received_replies from addr ps ds net :
  Forall2 written ps ds → Forall (λ x, ∃ p, x.1 = PConnected p ∧ reply p ∧ x.2 = addr) ps → returned from ds net →
  Forall reply (received from net) ∧ ∀ i, i ∈ acks_of ps → i ∈ (acks_in (received from net) ≫= seqs_of).
Proof.
  intros Hw Hps [_ Hs Hall _]. rewrite Forall_forall in Hps.
  assert (∀ p, reply p → Packet_wire (PConnected p)) as Hwire by (by intros [?|?|?]).
  split.
  - apply Forall_forall. intros p (d & l & Hin & Hr)%elem_of_received.
    apply Hs, list_elem_of_fmap in Hin as ([d' a] & -> & [j Hj]%list_elem_of_lookup_1).
    destruct (Forall2_lookup_r _ _ _ _ _ Hw Hj) as ([q b] & Hq & [Hwr _]).
    destruct (Hps (q, b)) as (p' & Hq' & Hrep & _); [by eapply list_elem_of_lookup_2|]. cbn [fst snd] in Hq', Hwr, Hr. subst q.
    destruct (Packet_read_write _ (Hwire _ Hrep)) as (d2 & Hd2 & Hrd). rewrite Hd2 in Hwr. injection Hwr as <-.
    rewrite Hrd in Hr. by injection Hr as <- <-.
  - intros i ([q b] & Hi & Hx)%list_elem_of_bind. destruct (Hps _ Hx) as (p & Hq & Hrep & _). cbn in Hi, Hq. subst q.
    destruct p as [s|a|a]; try (by apply not_elem_of_nil in Hi).
    apply list_elem_of_lookup_1 in Hx as [j Hj]. destruct (Forall2_lookup_l _ _ _ _ _ Hw Hj) as ([d a'] & Hdj & [Hwr _]).
    destruct (Packet_read_write _ (Hwire _ Hrep)) as (d2 & Hd2 & Hrd). cbn [fst snd] in Hwr. rewrite Hd2 in Hwr. injection Hwr as <-.
    assert (CAck a ∈ received from net) as Hin.
    { apply elem_of_received. exists d2, []. split; [|done]. apply Hall, list_elem_of_fmap. exists (d2, a').
      split; [done|by eapply list_elem_of_lookup_2]. }
    apply list_elem_of_bind. exists a. rewrite seqs_of_expand. split; [done|]. apply list_elem_of_bind. exists (CAck a). split; [left|done].
Qed.
End settle.

(** C4. A session settles. A peer that has nothing else to send owes at most
    [MAX_ACK_BUFFER] acknowledgements and as many negative ones, among them
    acknowledgements for all frame sets that the other peer keeps for resending;
    that peer has an empty send buffer and an empty queue of acknowledgements, and
    both have sequence numbers left and flush everything. The flush of the first
    peer sends what it owes, in datagrams to the other one that fit into its MTU
    (which is below 8192). However the network reorders and repeats these on the way
    back, and whatever it delivers from others that does not make the packet decoder
    panic, as long as each arrives and no more than [MAX_ACK_BUFFER]
    acknowledgements of the peer do (more would push the oldest out of the queue),
    the other peer reads them, they reach its link, and the next poll of its close
    finds nothing left in flight, closes the socket and is ready. *)
Theorem session_settles {B : Build} {BC : BytesCrate} {BH : BinaryHeap} {HI : HashIter}
    {CQ : ConcurrentQueueCrate} {AC : AsyncChannelCrate} {T T' F Est Est' : Type} `{!AsyncSocket T} `{!OpenSocket T}
    `{!AsyncSocket T'} `{!Estimator Est} `{!EstimatorLaws Est} `{!Estimator Est'} `{!EstimatorLaws Est'}
    `{!Sink F (Packet * SocketAddr)} `{!ReadySink F (Packet * SocketAddr)}
    (rst : ReliableLayer (F:=Framed T) (T:=Est)) (st : ReliableLayer (F:=F) (T:=Est')) h now nows :
  replying rst →
  Reliable_inv st → seqs_left st → incoming_valid st → marks_ok st → socket_ok h st → cx_ext (rl_world st) = None →
  rl_buf st = SendBuffer_new → cq_list (link_incoming_ack (rl_link st)) = [] →
  cq_cap (link_incoming_ack (rl_link st)) = Some MAX_ACK_BUFFER →
  (∀ i, i ∈ dom (rm_reliable (rl_resend st)) → i ∈ outgoing_ack (rl_link rst)) →
  ∃ rst', Reliable_poll_flush rst = Ok (Ready (inr tt), rst') ∧ outgoing_ack (rl_link rst') = [] ∧
    Forall (λ d, Z.of_nat (length d.1) ≤ peer_mtu (rl_peer rst) ∧ d.2 = peer_addr (rl_peer rst))
      (sock_sent (fr_socket (rl_frame rst'))) ∧
    ∀ from (t : T') mtu net rt received_at,
      returned from (sock_sent (fr_socket (rl_frame rst'))) net → chan_closed (router_tx rt) = false →
      ∃ outs f l r, polls Framed_poll_next (length net) (Framed_new t mtu) net = Ok (outs, f, []) ∧
        deliver_all (E:=spinning) received_at (outs ≫= from_server from) rt (rl_link st) (w_reactor (rl_world st)) =
          Ok (rt, l, r) ∧
        ∃ ps st', Reliable_poll_close (now :: nows) (set_rl_world (world_reactor r (world_link l (rl_world st))) st) =
            Ok (Ready (inr tt), st') ∧
          taken (h ++ ps) (rl_frame st') ∧ settled st'.
Proof.
  intros Hrst Hi Hl Hv Hm Hs Hx Hb Hq Hc Hdom. destruct (replies_flush rst Hrst) as (ps & rst' & Hfl & Hown & Hwr & Hps & Hacks & Hmay).
  exists rst'. split_and!; [done|done|by eapply written_fits|]. intros from t mtu net rt at_ Hnet Hopen.
  destruct (Framed_polls_decode (length net) net t mtu (rt_harmless _ _ _ Hnet)) as (outs & f & Hp & Ho); [done|].
  destruct (received_replies from _ ps _ net Hwr Hps Hnet) as [Hrep Hin].
  pose proof (rt_room _ _ _ Hnet) as Hlen. unfold received in Hrep, Hin, Hlen.
  rewrite <-(from_server_decoded from outs net Ho) in Hrep, Hin, Hlen.
  destruct (deliver_replies (E:=spinning) at_ _ rt (rl_link st) (w_reactor (rl_world st)) MAX_ACK_BUFFER Hopen Hrep Hc)
    as (l & r & Hd & [R1 R2 R3 (R4 & R5 & R6)]).
  { by rewrite Hq. }
  exists outs, f, l, r. split_and!; [done|done|].
  set (st1 := set_rl_world (world_reactor r (world_link l (rl_world st))) st).
  rewrite Hq in R1. cbn [app] in R1.
  assert (incoming_valid st1) as Hv1.
  { split; [|apply R3, Hv]. change (link_incoming_ack (rl_link st1)) with (link_incoming_ack l). rewrite R1.
    apply Forall_fmap, Forall_forall. intros a (p & Ha & Hp')%list_elem_of_bind. rewrite Forall_forall in Hrep.
    apply Hrep in Hp'. destruct p; try (by apply not_elem_of_nil in Ha). apply list_elem_of_singleton in Ha as ->. by apply wire_valid. }
  apply (close_completes h now nows st1); try done.
  - destruct Hi. split; try done; change (rl_link st1) with l; by rewrite ?R4, ?R5.
  - destruct Hm as [M1 M2]. split; [|done]. change (rl_link st1) with l. by rewrite R4, R5, R6.
  - destruct Hs as [Ht Hs]. split; [done|]. intros p Hp'. apply Hs.
    destruct p as [u|[s|a|a]]; try done. cbn in *. change (rl_link st1) with l in Hp'. by rewrite R6 in Hp'.
  - intros i Hi'%Hdom%Hacks%Hin. unfold acked_seqs. change (link_incoming_ack (rl_link st1)) with (link_incoming_ack l).
    rewrite R1. apply list_elem_of_bind in Hi' as (a & Ha & Hai). apply list_elem_of_bind. exists (a, at_). split; [done|].
    apply list_elem_of_fmap. by exists a.
Qed.

(** ** Two frame sets are in flight, and their receiver owes both acknowledgements *)
Section sample_settle.
Local Instance settle_build : Build := true.
Local Instance settle_bytes : BytesCrate := bytes_reference.
Local Instance settle_heap : BinaryHeap := heap_sorted.
Local Instance settle_iter : HashIter := hash_iter_reference.
Local Instance settle_queue : ConcurrentQueueCrate := queue_reference.
Local Instance settle_channel : AsyncChannelCrate := channel_reference.

Definition settle_sender : SampleLayer :=
  foldl (λ st i, flushed (with_frame (sample_reliable_frame i) st)) sample_layer [0; 1].

Definition settle_receiver : ReliableLayer (F:=Framed OpenLog) (T:=RFC6298Impl) :=
  let w := mkWorld (set_outgoing [0; 1] ∅ (TransferLink_new (Client 2) session_peer)) Reactor_new 0 0 None in
  wrap_reliable (Framed_new (mkOpenLog []) 40) w session_peer (Client 2) RFC6298_new.

Definition settle_replied : ReliableLayer (F:=Framed OpenLog) (T:=RFC6298Impl) :=
  match Reliable_poll_flush settle_receiver with Ok (_, st) => st | _ => settle_receiver end.

(** The replies arrive twice, after a datagram of someone else. *)
Definition settle_net : list recv_answer :=
  let ds := sock_sent (fr_socket (rl_frame settle_replied)) in
  Ready (inr ([5; 1], sample_to)) :: arrive sample_from ds ++ Pending :: arrive sample_from ds.

Lemma settle_receiver_replying : replying settle_receiver.
Proof.
  split.
  - split.
    + cbn. lia.
    + vm_compute. repeat constructor; discriminate.
    + change (Forall countable [0; 1]). unfold countable. repeat constructor; lia.
    + assert (outgoing_nack (rl_link settle_receiver) = ∅) as Hem by (vm_compute; reflexivity).
      intros x Hx. rewrite Hem in Hx. apply not_elem_of_empty in Hx. destruct Hx.
    + split; cbn; repeat constructor.
    + vm_compute. repeat constructor.
    + split; [apply map_Forall_to_list; vm_compute; constructor|vm_compute; reflexivity|]. vm_compute. repeat split; first [reflexivity|discriminate].
    + intros i [e He]%elem_of_dom. assert (rm_reliable (rl_resend settle_receiver) = ∅) as Hem by (vm_compute; reflexivity).
      rewrite Hem, lookup_empty in He. discriminate He.
    + vm_compute. split; [discriminate|reflexivity].
  - vm_compute. reflexivity.
  - split; constructor.
  - split; [vm_compute; reflexivity|]. intros s Hs. change (None = Some s) in Hs. discriminate Hs.
  - vm_compute. reflexivity.
  - split; vm_compute; reflexivity.
  - vm_compute. reflexivity.
  - split; [constructor|]. intros _. vm_compute. reflexivity.
  - vm_compute. reflexivity.
  - apply Nat.leb_le. vm_compute. reflexivity.
  - apply Nat.leb_le. vm_compute. reflexivity.
Qed.

Lemma settle_sender_ok :
  Reliable_inv settle_sender ∧ seqs_left settle_sender ∧ marks_ok settle_sender ∧
  socket_ok (log_sent (rl_frame settle_sender)) settle_sender ∧
  ∀ i, i ∈ dom (rm_reliable (rl_resend settle_sender)) → i ∈ [0; 1].
Proof.
  assert (map_Forall (λ i e, i ∈ [0; 1]) (rm_reliable (rl_resend settle_sender))) as Hm.
  { apply map_Forall_to_list. vm_compute. repeat constructor. }
  assert (rl_buf settle_sender = SendBuffer_new) as Hb by (vm_compute; reflexivity).
  assert (outgoing_ack (rl_link settle_sender) = []) as Ha by (vm_compute; reflexivity).
  split_and!.
  - split; rewrite ?Hb, ?Ha.
    + vm_compute. split; [discriminate|reflexivity].
    + apply heap_ok_nil.
    + constructor.
    + assert (outgoing_nack (rl_link settle_sender) = ∅) as Hem by (vm_compute; reflexivity).
      intros x Hx. rewrite Hem in Hx. apply not_elem_of_empty in Hx. destruct Hx.
    + split; cbn; repeat constructor.
    + vm_compute. repeat constructor; discriminate.
    + split; [apply map_Forall_to_list; vm_compute; repeat constructor; discriminate|vm_compute; reflexivity|]. vm_compute. repeat split; first [reflexivity|discriminate].
    + intros i [e He]%elem_of_dom. apply Hm in He. change (seq_num_write_index settle_sender) with 2.
      rewrite !elem_of_cons, elem_of_nil in He. lia.
    + vm_compute. split; [discriminate|reflexivity].
  - vm_compute. reflexivity.
  - split; [vm_compute; reflexivity|]. intros s Hs. change (None = Some s) in Hs. discriminate Hs.
  - split; [split; vm_compute; reflexivity|]. intros p _. exact I.
  - intros i [e He]%elem_of_dom. exact (Hm _ _ He).
Qed.

Lemma session_settles_witness :
  size (rm_reliable (rl_resend settle_sender)) = 2%nat ∧
  ∃ outs f l r, polls Framed_poll_next (length settle_net) (Framed_new (mkOpenLog []) 40) settle_net = Ok (outs, f, []) ∧
    deliver_all (E:=spinning) 5 (outs ≫= from_server sample_from) Route_new
      (rl_link settle_sender) (w_reactor (rl_world settle_sender)) = Ok (Route_new, l, r) ∧
    ∃ st', Reliable_poll_close [3000000] (set_rl_world (world_reactor r (world_link l (rl_world settle_sender))) settle_sender) =
        Ok (Ready (inr tt), st') ∧ settled st'.
Proof.
  split; [vm_compute; reflexivity|]. destruct settle_sender_ok as (S1 & S2 & S3 & S4 & S5).
  destruct (session_settles (T':=OpenLog) settle_receiver settle_sender (log_sent (rl_frame settle_sender)) 3000000 []
    settle_receiver_replying S1 S2 ltac:(split; constructor) S3 S4) as (rst' & Hfl & _ & _ & H);
    [vm_compute; reflexivity..|exact S5|].
  assert (rst' = settle_replied) as -> by (unfold settle_replied; rewrite Hfl; reflexivity). clear Hfl S1 S2 S3 S4 S5.
  destruct (H sample_from (mkOpenLog []) 40 settle_net Route_new 5) as (outs & f & l & r & H1 & H2 & ps & st' & H3 & _ & H4).
  - clear. split.
    + apply harmless_checked. vm_compute. reflexivity.
    + apply sound_checked. vm_compute. reflexivity.
    + intros d [[d' a] [-> Hd]]%list_elem_of_fmap. right. apply elem_of_app. left. apply list_elem_of_fmap. by exists (d', a).
    + apply Nat.leb_le. vm_compute. reflexivity.
  - vm_compute. reflexivity.
  - exists outs, f, l, r. split_and!; [exact H1|exact H2|]. exists st'. split; [exact H3|exact H4].
Defined.
End sample_settle.
