(* ===== verification/Bench.v ===== *)
(** * The bench helper of the codec (src/codec/mod.rs, [micro_bench])

    [gen_inputs] lets an encoder split messages, packs the frames into frame sets,
    repeats and shuffles some of these, and [run_bench] decodes them; the helper
    asserts that nothing fails, whatever the random numbers. *)
From Stdlib Require Import SpecFloat.
From S2P Require Import Prelude Float32 Rand Bytes Errors Reader SeqNum Types PackType FrameSet FrameBody Stream Collections.
From S2P Require Import Dedup DeFragment Order Decoder Rest Reassembly Sink Encoder Delivery Session.
Open Scope Z_scope.

Record BenchOpts := mkBenchOpts {
  datagrams : list (list Z);
  seed : Z;
  dup_ratio : f32;
  shuffle_ratio : f32;
  bench_mtu : Z;
}.

(** [SinkDst]: it takes every frame. *)
Record SinkDst := mkSinkDst { dst_buf : list Frame }.

Global Instance SinkDst_sink : Sink SinkDst (Priority * Frame) := {
  poll_ready s := mret (Ready (inr tt), s);
  start_send x s := mret (inr tt, mkSinkDst (dst_buf s ++ [x.2]));
  poll_flush s := mret (Ready (inr tt), s);
  poll_close s := mret (Ready (inr tt), s);
}.

Section bench.
Context {B : Build} {BC : BytesCrate} {BH : BinaryHeap} {LC : LruCrate} {RC : RandCrate}.

(** [sets.push(FrameSet { seq_num: sets.len().into(), set })] *)
Definition push_set {E} (set : option (list Frame)) (sets : list FrameSet_) : outcome E (list FrameSet_) :=
  seq ← u24_from (Z.of_nat (length sets));
  set ← unwrap set;
  mret (sets ++ [mkFrameSet seq set]).

(** [while let Some(frame) = frames.buf.front()] *)
Fixpoint pack_loop (fuel : nat) (o : BenchOpts) (buf : list Frame) (remain : Z) (set : option (list Frame))
    (sets : list FrameSet_) (rng : StdRng) : outcome spinning (option (list Frame) * list FrameSet_ * StdRng) :=
  match fuel with
  | O => Err OutOfFuel
  | S fuel =>
      match buf with
      | [] => mret (set, sets, rng)
      | frame :: rest =>
          if Frame_size frame <=? remain
          then pack_loop fuel o rest (remain - Frame_size frame) (Some (default [] set ++ [frame])) sets rng
          else
            remain ← usub 64 (bench_mtu o) FRAME_SET_HEADER_SIZE;
            '(dup, rng) ←
              (if f32_gt (dup_ratio o) f32_zero
               then gen_ratio (f32_to_u32 (f32_mul (dup_ratio o) f32_hundred)) 100 rng
               else mret (false, rng));
            sets ← (if dup : bool then push_set set sets else mret sets);
            sets ← push_set set sets;
            pack_loop fuel o buf remain None sets rng
      end
  end.

(** The frame sets that the stream of [Inputs] yields. *)
Definition gen_inputs (o : BenchOpts) : outcome spinning (list FrameSet_) :=
  let rng := seed_from_u64 (seed o) in
  fragmented ← start_send_all (Message_new <$> datagrams o) (fragmented (mkSinkDst []) (bench_mtu o) 1);
  '(res, fragmented) ← Fragment_poll_flush fragmented;
  assert_ (if res is Ready _ then true else false);;
  let frames := dst_buf (frag_frame fragmented) in
  remain ← usub 64 (bench_mtu o) FRAME_SET_HEADER_SIZE;
  '(set, sets, rng) ← pack_loop (S (2 * length frames)) o frames remain None [] rng;
  sets ← (if set is Some _ then push_set set sets else mret sets);
  mret (if f32_gt (shuffle_ratio o) f32_zero
        then (partial_shuffle sets (f32_to_usize (f32_mul (f32_of_usize (Z.of_nat (length sets))) (shuffle_ratio o))) rng).1
        else sets).

Definition bytes (o : BenchOpts) : Z := Z.of_nat (sum_list_with length (datagrams o)).
Definition elements (o : BenchOpts) : Z := Z.of_nat (length (datagrams o)).

(** [while let Some(r) = decoding.next().await]: [check] is the body of the loop. *)
Fixpoint drain {S} (check : CodecError + FrameBody → S → outcome spinning S) (out : tape FrameBody) (s : S) :
    outcome spinning S :=
  match out with
  | [] => Err OutOfFuel
  | Pending :: out => drain check out s
  | Ready None :: _ => mret s
  | Ready (Some r) :: out => s ← check r s; drain check out s
  end.

(** The answers of [n] polls of [inputs.stream.frame_decoded(Config::default())]. *)
Definition decoding (n : nat) (sets : list FrameSet_) : outcome spinning (tape FrameBody) :=
  match frame_decoded CodecConfig_default n (routed true sets) with Ok out => Ok out | Err e => match e with end | Panic => Panic end.

Definition run_bench (n : nat) (sets : list FrameSet_) : outcome spinning unit :=
  out ← decoding n sets;
  drain (λ r _, assert_ (if r is inr _ then true else false)) out tt.

(** The body of the loop of [test_bench], on what is left of [len] and of the datagrams. *)
Definition test_body (r : CodecError + FrameBody) (st : Z * list (list Z)) : outcome spinning (Z * list (list Z)) :=
  let '(len, datagrams) := st in
  assert_ (if r is inr _ then true else false);;
  len ← usub 64 len 1;
  match r with
  | inr (FUser body) =>
      match datagrams with
      | d :: datagrams => assert_ (bool_decide (body = d));; mret (len, datagrams)
      | [] => Panic
      end
  | _ => Panic
  end.

Definition test_bench (n : nat) (o : BenchOpts) (sets : list FrameSet_) : outcome spinning unit :=
  out ← decoding n sets;
  '(len, _) ← drain test_body out (Z.of_nat (length (datagrams o)), datagrams o);
  assert_ (len =? 0).

(** ** Packing *)

Definition some_frames (set : option (list Frame)) : nat := if set is Some _ then 1 else 0.

Lemma push_set_Ok {E} fs sets :
  Z.of_nat (length sets) < 2 ^ 24 →
  push_set (E:=E) (Some fs) sets = Ok (sets ++ [mkFrameSet (Z.of_nat (length sets)) fs]).
Proof. intros Hl. unfold push_set. rewrite u24_from_Ok by (unfold u24_valid, uint; lia). done. Qed.

Definition ratio_ok (o : BenchOpts) : Prop :=
  f32_gt (dup_ratio o) f32_zero = true → f32_to_u32 (f32_mul (dup_ratio o) f32_hundred) ≤ 100.

Lemma pack_loop_spec fuel o buf remain set sets rng :
  FRAME_SET_HEADER_SIZE ≤ bench_mtu o → ratio_ok o →
  Forall (λ f, FRAME_SET_HEADER_SIZE + Frame_size f ≤ bench_mtu o) buf →
  (set = None → remain = bench_mtu o - FRAME_SET_HEADER_SIZE) →
  Z.of_nat (length sets + 2 * (length buf + some_frames set)) < 2 ^ 24 →
  (2 * length buf + some_frames set < fuel)%nat →
  ∃ set' sets' rng', pack_loop fuel o buf remain set sets rng = Ok (set', sets', rng') ∧
    (∀ f, f ∈ (sets' ≫= FrameSet.set) ++ default [] set' ↔ f ∈ (sets ≫= FrameSet.set) ++ default [] set ++ buf) ∧
    (length sets' + 2 * some_frames set' ≤ length sets + 2 * (length buf + some_frames set))%nat.
Proof.
  intros Hm Hr. revert buf remain set sets rng. induction fuel as [|fuel IH]; intros buf remain set sets rng Hfit Hset Hlen Hf; [lia|].
  cbn [pack_loop]. destruct buf as [|frame rest].
  { exists set, sets, rng. split_and!; [done| |cbn in *; lia]. intros f. by rewrite app_nil_r. }
  cbn [length] in *. pose proof (proj1 (Forall_cons _ _ _) Hfit) as [Hfr Hfit'].
  destruct (Z.leb_spec (Frame_size frame) remain) as [Hle|Hgt].
  - destruct (IH rest (remain - Frame_size frame) (Some (default [] set ++ [frame])) sets rng) as (s1 & ss1 & r1 & -> & H1 & H2);
      [done|done|cbn; lia|cbn; lia|]. exists s1, ss1, r1. split_and!; [done| |cbn in *; lia]. intros f. rewrite H1. cbn. set_solver.
  - destruct set as [fs|]; [|rewrite Hset in Hgt by done; lia]. rewrite usub_Ok by lia. cbn [mbind outcome_bind some_frames] in *.
    assert (∃ dup rng', (if f32_gt (dup_ratio o) f32_zero
      then gen_ratio (E:=spinning) (f32_to_u32 (f32_mul (dup_ratio o) f32_hundred)) 100 rng
      else mret (false, rng)) = Ok (dup, rng')) as (dup & rng' & ->).
    { destruct (f32_gt _ _) eqn:Hg; [|by eexists _, _]. unfold gen_ratio. rewrite (proj2 (Z.ltb_ge _ _)) by (by apply Hr).
      cbn. destruct (draw_ratio _ _ _). by eexists _, _. }
    cbn [mbind outcome_bind].
    assert (∃ ss, (if dup : bool then push_set (E:=spinning) (Some fs) sets else mret sets) = Ok ss ∧
      (length ss ≤ length sets + 1)%nat ∧
      ∀ f, f ∈ (ss ≫= FrameSet.set) ++ fs ↔ f ∈ (sets ≫= FrameSet.set) ++ fs) as (ss & -> & Hss1 & Hss2).
    { destruct dup; [|by exists sets; split_and!; [|lia|]]. rewrite push_set_Ok by lia. eexists. split; [done|].
      rewrite length_app. cbn. split; [lia|]. intros f. rewrite bind_app. cbn. set_solver. }
    cbn [mbind outcome_bind]. rewrite push_set_Ok by lia. cbn [mbind outcome_bind].
    destruct (IH (frame :: rest) (bench_mtu o - FRAME_SET_HEADER_SIZE) None (ss ++ [mkFrameSet (Z.of_nat (length ss)) fs]) rng')
      as (s1 & ss1 & r1 & -> & H1 & H2); [done|done|rewrite length_app; cbn; lia|cbn; lia|].
    rewrite length_app in H2. cbn [length some_frames] in H2.
    exists s1, ss1, r1. split_and!; [done| |lia]. intros f. rewrite H1, bind_app. cbn [mbind list_bind FrameSet.set default app].
    rewrite app_nil_r. specialize (Hss2 f). set_solver.
Qed.

(** The frames of the encoder, in the sink. *)
Lemma dst_takes (s : FragmentSink SinkDst) dst buf :
  poll_empty_loop s dst buf = Ok (Ready (inr tt), set_frag (mkSinkDst (dst_buf dst ++ buf.*2)) [] s).
Proof.
  revert dst. induction buf as [|x buf IH]; intros dst; cbn.
  - rewrite app_nil_r. by destruct dst.
  - rewrite IH. cbn. by rewrite <-app_assoc.
Qed.

Lemma dst_flush (s : FragmentSink SinkDst) :
  ∃ s', Fragment_poll_flush s = Ok (Ready (inr tt), s') ∧ dst_buf (frag_frame s') = dst_buf (frag_frame s) ++ (frag_buf s).*2.
Proof.
  unfold Fragment_poll_flush, Fragment_poll_then, Fragment_poll_empty, and_then.
  destruct (frag_buf s) as [|x buf] eqn:Hb; [|rewrite dst_takes]; eexists; (split; [done|]); cbn; by rewrite ?app_nil_r.
Qed.

(** ** Draining *)

Lemma drain_spec {S} (check : CodecError + FrameBody → S → outcome spinning S) out s :
  ended out → errors out = [] →
  drain check out s = foldl (λ m b, m ≫= check (inr b)) (Ok s) (items out).
Proof.
  intros (u & k & -> & Hu) He. rewrite items_app, items_cons, items_pending, app_nil_r.
  rewrite errors_app in He. apply app_nil in He as [He _].
  assert (∀ (l : list FrameBody) (m : outcome spinning S), (∀ a, m ≠ Ok a) → foldl (λ m b, m ≫= check (inr b)) m l = m) as Hstop.
  { induction l as [|b l IH]; intros m Hm; [done|]. cbn. destruct m; [by destruct (Hm a)|by apply IH|by apply IH]. }
  revert s. induction Hu as [|a u Ha _ IH]; intros s; [done|]. rewrite items_cons. rewrite errors_cons in He.
  apply app_nil in He as [He1 He]. destruct a as [[[e|b]|]|]; cbn [app answer_items] in *; [done| |done|by apply IH].
  cbn. destruct (check (inr b) s) as [s1| |]; cbn; [by apply IH|by rewrite Hstop|by rewrite Hstop].
Qed.

(** ** The benches *)

Section passes.
Context (o : BenchOpts).

Local Abbreviation msgs := (Message_new <$> datagrams o).
Local Abbreviation s0 := (fragmented (mkSinkDst []) (bench_mtu o) 1).

(** A datagram that does not begin with the id of a message of the protocol. *)
Definition user_datagram (d : list Z) : Prop := ∃ b rest, d = b :: rest ∧ b ∉ internal_ids.

Lemma user_datagram_read d : user_datagram d → FrameBody_read d = Ok (FUser d).
Proof. intros (b & rest & -> & Hb). by apply FrameBody_read_user. Qed.

(** Options that the sequence numbers and the limits of the decoder have room for:
    no message is split into more than 256 parts and no more than 256 messages
    are split, which are the limits of [Config::default]. *)
Record bench_fits : Prop := {
  bf_mtu : 27 < bench_mtu o < 2 ^ 13;
  bf_ratio : ratio_ok o;
  bf_volume : 2 * volume msgs < 2 ^ 24 - 1;
  bf_splits : split_count s0 msgs ≤ 256;
  bf_parts : ∀ s, start_send_all (E:=spinning) msgs s0 = Ok s → Forall (frame_valid 256) (snd <$> frag_buf s);
  bf_user : Forall user_datagram (datagrams o);
}.

Lemma new_reliability m : m ∈ msgs → sent_channel s0 m = Some 0 ∧ must_arrive s0 m = true ∧ msg_order_channel m = 0.
Proof.
  intros (d & -> & _)%list_elem_of_fmap. unfold sent_channel, must_arrive, sent_reliability.
  by destruct (must_split (Message_new d) s0).
Qed.

Lemma length_volume (ms : list Message) : Z.of_nat (length ms) ≤ volume ms.
Proof. unfold volume. induction ms as [|m ms IH]; cbn; lia. Qed.

Lemma bench_sendable : bench_fits → sendable msgs s0.
Proof.
  intros [Hm _ Hv Hsp _ _]. pose proof (length_volume msgs) as Hl. split; cbn -[volume split_count]; try lia.
  - apply Forall_forall. intros m Hm'%new_reliability. cbn. destruct Hm' as (_ & -> & ->). split; [lia|done].
  - constructor; [lia|constructor].
  - unfold uint. lia.
Qed.

(** The frame sets carry the frames of the encoder and nothing else. *)
Lemma gen_inputs_spec :
  bench_fits → ∃ zs sg sets, start_send_all (E:=spinning) msgs s0 = Ok sg ∧ snd <$> frag_buf sg = concat zs.*2 ∧
    sent_parcels msgs s0 zs sg ∧ gen_inputs o = Ok sets ∧ arrived (concat zs.*2) (sets ≫= set).
Proof.
  intros Hb. pose proof (bench_sendable Hb) as Hs. destruct Hb as [Hm Hr Hv Hsp Hp _].
  destruct (start_send_all_spec (E:=spinning) msgs s0 Hs) as (zs & sg & Hall & Hbuf & Hzs & Hfr). cbn in Hbuf.
  destruct (dst_flush sg) as (s' & Hfl & Hdst). rewrite Hfr, Hbuf in Hdst. cbn in Hdst.
  assert (Forall (λ f, FRAME_SET_HEADER_SIZE + Frame_size f ≤ bench_mtu o) (concat zs.*2) ∧
    Z.of_nat (length (concat zs.*2)) ≤ volume msgs) as [Hfit Hlen].
  { rewrite <-(sp_msgs _ _ _ _ Hzs). pose proof (sp_each _ _ _ _ Hzs) as He. clear -He.
    induction He as [|z zs Hz _ [IH1 IH2]]; [split; [constructor|done]|]. cbn [fmap list_fmap concat]. split.
    - apply Forall_app. split; [apply Forall_forall; apply (pa_size _ _ Hz)|done].
    - rewrite length_app. pose proof (pa_length _ _ Hz). unfold volume in *. cbn [sum_list_with]. lia. }
  exists zs, sg.
  destruct (pack_loop_spec (S (2 * length (concat zs.*2))) o (concat zs.*2) (bench_mtu o - FRAME_SET_HEADER_SIZE) None []
    (seed_from_u64 (seed o))) as (set' & sets' & rng' & Hpack & Hel & Hcnt); [unfold FRAME_SET_HEADER_SIZE; lia|done..|cbn; lia|cbn; lia|].
  cbn [length some_frames mbind list_bind app default] in Hel, Hcnt.
  assert (∃ sets, (if set' is Some _ then push_set (E:=spinning) set' sets' else mret sets') = Ok sets ∧
    ∀ f, f ∈ (sets ≫= set) ↔ f ∈ concat zs.*2) as (sets & Hpush & Hsets).
  { destruct set' as [fs|]; [|exists sets'; split; [done|intros f; by rewrite <-Hel, app_nil_r]].
    rewrite push_set_Ok by lia. eexists. split; [done|]. intros f. rewrite <-Hel, bind_app. cbn. by rewrite app_nil_r. }
  assert (∀ ss, ss ≡ₚ sets → arrived (concat zs.*2) (ss ≫= set)) as Harr.
  { intros ss Hss. split; intros f Hf; [apply Hsets; by rewrite <-Hss|apply Hsets in Hf; by rewrite Hss]. }
  eexists. split_and!; [done|done|done| |].
  - unfold gen_inputs. rewrite Hall. cbn [mbind outcome_bind]. rewrite Hfl. cbn [mbind outcome_bind assert_ mret outcome_ret].
    rewrite usub_Ok by (unfold FRAME_SET_HEADER_SIZE; lia). cbn [mbind outcome_bind]. rewrite Hdst, Hpack. cbn [mbind outcome_bind].
    rewrite Hpush. cbn [mbind outcome_bind mret outcome_ret]. reflexivity.
  - apply Harr. destruct (f32_gt _ _); [apply partial_shuffle_perm|done].
Qed.

(** What is decoded: the messages in order, and then the end. *)
Lemma bench_decodes :
  bench_fits → ∃ sets, gen_inputs o = Ok sets ∧
    ∀ n, (2 * length sets + 2 * length (sets ≫= set) + 5 ≤ n)%nat →
      ∃ out, decoding n sets = Ok out ∧ items out = FUser <$> datagrams o ∧ errors out = [] ∧ ended out.
Proof.
  intros Hb. destruct (gen_inputs_spec Hb) as (zs & sg & sets & Hall & Hbuf & Hzs & Hgen & Harr).
  exists sets. split; [done|]. intros n Hn. destruct (routed_spec true sets) as (R1 & R2 & R3 & R4). rewrite <-R1 in Harr, Hn.
  destruct (parcels_delivered CodecConfig_default msgs (mkSinkDst []) (bench_mtu o) 1 (bench_sendable Hb) ltac:(cbn; lia) ltac:(cbn; lia)
    zs sg n (routed true sets)) as (out & dlv & D1 & D2 & _ & D4 & D5 & _ & D7 & D8).
  - cbn. lia.
  - apply (bf_splits Hb).
  - apply Forall_fmap. eapply Forall_impl; [apply (bf_user Hb)|]. intros d Hd. exists (FUser d). by apply user_datagram_read.
  - done.
  - rewrite <-Hbuf. by apply (bf_parts Hb).
  - done.
  - lia.
  - exists out. unfold decoding. rewrite D1, D7. split_and!; [done| |done|by apply D8, R3].
    assert (∀ ms, ms ⊆ msgs → with_key (sent_channel s0) (Some 0) ms = ms) as Hk.
    { intros ms Hms. apply filter_all, Forall_forall. intros m Hm%Hms. by apply new_reliability. }
    specialize (D4 0). rewrite !Hk in D4 by done. rewrite D4 in D2. apply Forall2_fmap_l in D2.
    pose proof (bf_user Hb) as Hu. clear -D2 Hu. induction D2 as [|d b ds bs Hd _ IH]; [done|].
    apply Forall_cons in Hu as [Hud Hu]. cbn in Hd. rewrite user_datagram_read in Hd by done. injection Hd as <-. cbn. by rewrite (IH Hu).
Qed.
End passes.

Lemma test_body_all ds :
  foldl (λ m b, m ≫= test_body (inr b)) (Ok (Z.of_nat (length ds), ds)) (FUser <$> ds) = Ok (0, []).
Proof.
  induction ds as [|d ds IH]; [done|]. rewrite fmap_cons. cbn [foldl].
  replace (Ok _ ≫= _) with (Ok (E:=spinning) (Z.of_nat (length ds), ds)); [exact IH|].
  cbn [mbind outcome_bind test_body assert_ mret outcome_ret]. rewrite usub_Ok by (cbn; lia). cbn [mbind outcome_bind].
  rewrite bool_decide_true by done. cbn -[Z.of_nat]. do 2 f_equal. lia.
Qed.

(** C39. The benches pass whatever the random numbers, for options that the limits
    have room for: an MTU from 28 to 8191, a ratio of repeated sets of at most a
    hundred per cent, fewer than 2^23 bytes and messages together, at most 256
    messages that need splitting, each into at most 256 parts, and datagrams that
    are not empty and do not begin with the id of a message of the protocol. Then
    generating the inputs succeeds and decoding them ends without an error, so that
    [run_bench] asserts nothing that fails; and [test_bench] passes, which compares
    every message with the datagram it was made of: they come out once each and in
    order, although frame sets were repeated and shuffled. *)
Theorem bench_passes o :
  bench_fits o →
  ∃ sets, gen_inputs o = Ok sets ∧
    ∀ n, (2 * length sets + 2 * length (sets ≫= set) + 5 ≤ n)%nat →
      run_bench n sets = Ok tt ∧ test_bench n o sets = Ok tt.
Proof.
  intros Hb. destruct (bench_decodes o Hb) as (sets & Hgen & Hdec). exists sets. split; [done|]. intros n Hn.
  destruct (Hdec n Hn) as (out & Hout & Hit & He & Hend). unfold run_bench, test_bench. rewrite Hout.
  cbn [mbind outcome_bind]. rewrite !drain_spec by done. rewrite Hit. split.
  - clear. induction (datagrams o) as [|d ds IH]; [done|exact IH].
  - by rewrite test_body_all.
Qed.
End bench.

(** The options of the test of the helper: "hello", "world" and "!", with ratios of 0.6. *)
Definition sample_opts : BenchOpts :=
  mkBenchOpts [[104; 101; 108; 108; 111]; [119; 111; 114; 108; 100]; [33]] 114514
    (S754_finite false 10066330 (-24)) (S754_finite false 10066330 (-24)) 30.

Example sample_opts_sizes : bytes sample_opts = 11 ∧ elements sample_opts = 3.
Proof. split; reflexivity. Qed.

Lemma bench_passes_witness :
  ∃ sets, gen_inputs (B:=true) (RC:=rand_reference) sample_opts = Ok sets ∧
    ∃ n, run_bench (B:=true) (BC:=bytes_reference) (BH:=heap_sorted) (LC:=lru_reference) n sets = Ok tt ∧
      test_bench (B:=true) (BC:=bytes_reference) (BH:=heap_sorted) (LC:=lru_reference) n sample_opts sets = Ok tt.
Proof.
  destruct (bench_passes (B:=true) (BC:=bytes_reference) (BH:=heap_sorted) (LC:=lru_reference) (RC:=rand_reference) sample_opts)
    as (sets & Hgen & H).
  - split.
    + cbn. lia.
    + intros _. vm_compute. discriminate.
    + vm_compute. reflexivity.
    + vm_compute. discriminate.
    + intros s Hs. vm_compute in Hs. injection Hs as <-. vm_compute. repeat constructor.
    + repeat (apply Forall_cons; split; [eexists _, _; split; [reflexivity|by apply (bool_decide_unpack _)]|]). constructor.
  - exists sets. split; [exact Hgen|]. eexists. exact (H _ (Nat.le_refl _)).
Defined.
