(* ===== verification/SimNet.v ===== *)
(** * The simulated network (src/utils/tests/sim_net.rs)

    The integration tests run over a network in memory: endpoints with fake
    addresses, a channel of datagrams for each direction of a connection, and
    nemeses that lose, reorder or delay what is in flight.  The channels are shared
    between the endpoints, so they live in a store and the endpoints keep
    references. *)
From Stdlib Require Import SpecFloat.
From S2P Require Import Prelude Float32 Rand Bytes Errors Reader SeqNum Types PackType FrameSet FrameBody Packet Stream.
From S2P Require Import Collections Reactor Framed Delivery Session.
Open Scope Z_scope.

(** ** [VecDeque]

    A sequence that is stored in two slices, whose border moves in a way that is
    not specified. *)
Class VecDequeStd := {
  VecDeque : Type → Type;
  vd_list {A} : VecDeque A → list A;
  vd_new {A} : VecDeque A;
  vd_push_back {A} : A → VecDeque A → VecDeque A;
  vd_pop_front {A} : VecDeque A → option (A * VecDeque A);
  vd_slices {A} : VecDeque A → list A * list A;
  vd_write {A} : list A → list A → VecDeque A → VecDeque A;
  vd_new_list {A} : vd_list (vd_new (A:=A)) = [];
  vd_push_back_list {A} (x : A) d : vd_list (vd_push_back x d) = vd_list d ++ [x];
  vd_pop_front_list {A} (d : VecDeque A) :
    match vd_pop_front d with
    | Some (x, d') => vd_list d = x :: vd_list d'
    | None => vd_list d = []
    end;
  vd_slices_list {A} (d : VecDeque A) : vd_list d = (vd_slices d).1 ++ (vd_slices d).2;
  vd_write_list {A} (f b : list A) d :
    length f = length (vd_slices d).1 → length b = length (vd_slices d).2 → vd_list (vd_write f b d) = f ++ b;
}.

(** Two lists: elements are appended to the second and taken from the first. *)
Program Definition deque_reference : VecDequeStd := {|
  VecDeque A := (list A * list A)%type;
  vd_list A d := d.1 ++ d.2;
  vd_new A := ([], []);
  vd_push_back A x d := (d.1, d.2 ++ [x]);
  vd_pop_front A d :=
    match d.1 with
    | x :: f => Some (x, (f, d.2))
    | [] => match d.2 with x :: b => Some (x, (b, [])) | [] => None end
    end;
  vd_slices A d := d;
  vd_write A f b d := (f, b);
|}.
Next Obligation. done. Qed.
Next Obligation. intros A x [f b]. cbn. by rewrite app_assoc. Qed.
Next Obligation. intros A [[|x f] [|y b]]; cbn; by rewrite ?app_nil_r. Qed.
Next Obligation. done. Qed.
Next Obligation. done. Qed.

(** ** Addresses *)

Inductive IpAddr :=
| IpV4 (ip : Z)
| IpV6 (ip : Z).

Global Instance IpAddr_eq_dec : EqDecision IpAddr.
Proof. solve_decision. Defined.

Definition addr_ip (a : SocketAddr) : IpAddr := match a with V4 ip _ => IpV4 ip | V6 ip _ _ _ => IpV6 ip end.

Definition SocketAddr_new (ip : IpAddr) (port : Z) : SocketAddr :=
  match ip with IpV4 a => V4 a port | IpV6 a => V6 a port 0 0 end.

Section sim_net.
Context {B : Build} {VD : VecDequeStd} {RC : RandCrate} {HI : HashIter}.

(** Data and when it is received. *)
Abbreviation NetChan := (VecDeque (list Z * Z)).

(** The channels that endpoints share ([Arc<Mutex<NetChan>>]). *)
Record NetHeap := mkNetHeap { nh_next : nat; nh_chans : gmap nat NetChan }.

Definition chan_alloc (h : NetHeap) : nat * NetHeap :=
  (nh_next h, mkNetHeap (S (nh_next h)) (<[nh_next h := vd_new]> (nh_chans h))).

Definition chan_put (c : nat) (ch : NetChan) (h : NetHeap) : NetHeap := mkNetHeap (nh_next h) (<[c := ch]> (nh_chans h)).

(** ** Nemeses *)

(** The implementations of the trait [Nemesis]. *)
Inductive Nemesis :=
| RandomDataDisorder (odd rate : f32)
| RandomDataLost (odd : f32)
| RandomNetDelay (odd : f32) (delay : Z).

(** Write through [iter_mut] or an index. *)
Definition vd_over {A} (g : list A → list A) (d : VecDeque A) : VecDeque A :=
  let '(f, b) := vd_slices d in
  let l := g (f ++ b) in
  vd_write (take (length f) l) (drop (length f) l) d.

Definition strike {E} (n : Nemesis) (inflight : NetChan) (rng : StdRng) : outcome E (NetChan * StdRng) :=
  match n with
  | RandomDataDisorder odd rate =>
      let '(x, rng) := gen_f32 rng in
      if f32_ge x odd then mret (inflight, rng)
      else
        let amount := f32_to_usize (f32_mul (f32_of_usize (Z.of_nat (length (vd_list inflight)))) rate) in
        let '(front, back) := vd_slices inflight in
        let '(front', rng) := partial_shuffle front amount rng in
        if Z.of_nat (length front') <? amount then
          let '(back', rng) := partial_shuffle back (amount - Z.of_nat (length front')) rng in
          mret (vd_write front' back' inflight, rng)
        else mret (vd_write front' back inflight, rng)
  | RandomDataLost odd =>
      let '(x, rng) := gen_f32 rng in
      if f32_ge x odd then mret (inflight, rng)
      else mret (vd_over (fmap (λ packet, ([], packet.2))) inflight, rng)
  | RandomNetDelay odd delay =>
      let '(x, rng) := gen_f32 rng in
      if f32_ge x odd then mret (inflight, rng)
      else
        match vd_list inflight with
        | [] => Panic
        | (d, at_) :: l => mret (vd_over (λ _, (d, at_ + delay) :: l) inflight, rng)
        end
  end.

Fixpoint strike_all {E} (ns : list Nemesis) (chan : NetChan) (rng : StdRng) : outcome E (NetChan * StdRng) :=
  match ns with
  | [] => mret (chan, rng)
  | n :: ns => '(chan, rng) ← strike n chan rng; strike_all ns chan rng
  end.

(** ** Endpoints and their connections *)

Record Endpoint := mkEndpoint {
  ep_addr : SocketAddr;
  inboxes : gmap SocketAddr nat;
  mailboxes : gmap SocketAddr nat;
  nemeses : gmap SocketAddr (list Nemesis);
}.

Record SimNet := mkSimNet {
  sn_ip : IpAddr;
  allocated_port : Z;
  adjacency : gmap SocketAddr (gset SocketAddr);
}.

Definition SimNet_bind (ip : IpAddr) : SimNet := mkSimNet ip 0 ∅.

Definition add_endpoint {E} (n : SimNet) : outcome E (Endpoint * SimNet) :=
  port ← uadd 16 (allocated_port n) 1;
  mret (mkEndpoint (SocketAddr_new (sn_ip n) port) ∅ ∅ ∅, mkSimNet (sn_ip n) port (adjacency n)).

(** What a connection does to one of its ends. *)
Definition plug (out inn : nat) (to : SocketAddr) (p : Endpoint) : Endpoint :=
  mkEndpoint (ep_addr p) (<[to := inn]> (inboxes p)) (<[to := out]> (mailboxes p)) (<[to := []]> (nemeses p)).

Definition adjacent (a b : SocketAddr) (m : gmap SocketAddr (gset SocketAddr)) : gmap SocketAddr (gset SocketAddr) :=
  <[a := {[ b ]} ∪ default ∅ (m !! a)]> m.

Definition SimNet_connect {E} (p1 p2 : Endpoint) (n : SimNet) (h : NetHeap) :
    outcome E (Endpoint * Endpoint * SimNet * NetHeap) :=
  assert_ (bool_decide (addr_ip (ep_addr p1) = addr_ip (ep_addr p2)));;
  assert_ (bool_decide (addr_ip (ep_addr p1) = sn_ip n));;
  let '(p1top2, h) := chan_alloc h in
  let '(p2top1, h) := chan_alloc h in
  let p1' := plug p1top2 p2top1 (ep_addr p2) p1 in
  let p2' := plug p2top1 p1top2 (ep_addr p1) p2 in
  mret (p1', p2', mkSimNet (sn_ip n) (allocated_port n)
    (adjacent (ep_addr p2) (ep_addr p1) (adjacent (ep_addr p1) (ep_addr p2) (adjacency n))), h).

Definition add_nemesis {E} (from to : Endpoint) (nemesis : Nemesis) (n : SimNet) : outcome E Endpoint :=
  assert_ (bool_decide (addr_ip (ep_addr from) = addr_ip (ep_addr to)));;
  assert_ (bool_decide (addr_ip (ep_addr from) = sn_ip n));;
  ns ← unwrap (nemeses from !! ep_addr to);
  mret (mkEndpoint (ep_addr from) (inboxes from) (mailboxes from) (<[ep_addr to := ns ++ [nemesis]]> (nemeses from))).

(** ** The socket *)

Fixpoint recv_loop {E} (now : Z) (boxes : list (SocketAddr * nat)) (next_poll : Z) (h : NetHeap) :
    outcome E (option (SocketAddr * list Z) * Z * NetHeap) :=
  match boxes with
  | [] => mret (None, next_poll, h)
  | (from, c) :: boxes =>
      chan ← unwrap (nh_chans h !! c);
      match vd_list chan with
      | [] => recv_loop now boxes next_poll h
      | (_, receive_at) :: _ =>
          if now <? receive_at then recv_loop now boxes (Z.min next_poll receive_at) h
          else
            '((data, _), chan) ← unwrap (vd_pop_front chan);
            let h := chan_put c chan h in
            if bool_decide (data = []) then recv_loop now boxes next_poll h
            else mret (Some (from, data), next_poll, h)
      end
  end.

Definition sim_poll_recv_from {E} (now : Z) (waker : nat) (buf : list Z) (p : Endpoint) (h : NetHeap) (r : Reactor) :
    outcome E (poll (io_error + SocketAddr) * list Z * NetHeap * Reactor) :=
  '(got, next_poll, h) ← recv_loop now (hash_iter (inboxes p)) (now + 10 * 1000000) h;
  match got with
  | Some (from, data) => mret (Ready (inr from), buf ++ data, h, r)
  | None => mret (Pending, buf, h, insert_timer 0 next_poll waker r)
  end.

Definition sim_poll_send_to {E} (now : Z) (buf : list Z) (target : SocketAddr) (p : Endpoint) (h : NetHeap) (rng : StdRng) :
    outcome E (poll (io_error + Z) * NetHeap * StdRng) :=
  c ← unwrap (mailboxes p !! target);
  chan ← unwrap (nh_chans h !! c);
  ns ← unwrap (nemeses p !! target);
  let chan := vd_push_back (buf, now) chan in
  '(chan, rng) ← (if (2 <? length (vd_list chan))%nat then strike_all ns chan rng else mret (chan, rng));
  mret (Ready (inr (Z.of_nat (length buf))), chan_put c chan h, rng).

(** ** Networks and their runs *)

(** The networks that a test can set up, with the endpoints by address. *)
Inductive built : SimNet → gmap SocketAddr Endpoint → NetHeap → Prop :=
| built_bind ip : built (SimNet_bind ip) ∅ (mkNetHeap 0 ∅)
| built_add n eps h e n' :
    built n eps h → allocated_port n < 2 ^ 16 - 1 → add_endpoint (E:=Empty_set) n = Ok (e, n') →
    built n' (<[ep_addr e := e]> eps) h
| built_connect n eps h a b p1 p2 p1' p2' n' h' :
    built n eps h → a ≠ b → eps !! a = Some p1 → eps !! b = Some p2 →
    SimNet_connect (E:=Empty_set) p1 p2 n h = Ok (p1', p2', n', h') →
    built n' (<[b := p2']> (<[a := p1']> eps)) h'
| built_nemesis n eps h a b p1 p2 x p1' :
    built n eps h → eps !! a = Some p1 → eps !! b = Some p2 → add_nemesis (E:=Empty_set) p1 p2 x n = Ok p1' →
    built n (<[a := p1']> eps) h.

(** A script that sets up a network. *)
Inductive setup_op :=
| AddEndpoint
| Connect (a b : SocketAddr)
| AddNemesis (a b : SocketAddr) (x : Nemesis).

Definition setup_step (op : setup_op) (n : SimNet) (eps : gmap SocketAddr Endpoint) (h : NetHeap) :
    outcome Empty_set (SimNet * gmap SocketAddr Endpoint * NetHeap) :=
  match op with
  | AddEndpoint =>
      assert_ (allocated_port n <? 2 ^ 16 - 1);;
      '(e, n) ← add_endpoint n; mret (n, <[ep_addr e := e]> eps, h)
  | Connect a b =>
      assert_ (negb (bool_decide (a = b)));;
      p1 ← unwrap (eps !! a); p2 ← unwrap (eps !! b);
      '(p1, p2, n, h) ← SimNet_connect p1 p2 n h; mret (n, <[b := p2]> (<[a := p1]> eps), h)
  | AddNemesis a b x =>
      p1 ← unwrap (eps !! a); p2 ← unwrap (eps !! b);
      p1 ← add_nemesis p1 p2 x n; mret (n, <[a := p1]> eps, h)
  end.

Fixpoint setup (ops : list setup_op) (n : SimNet) (eps : gmap SocketAddr Endpoint) (h : NetHeap) :
    outcome Empty_set (SimNet * gmap SocketAddr Endpoint * NetHeap) :=
  match ops with
  | [] => mret (n, eps, h)
  | op :: ops => '(n, eps, h) ← setup_step op n eps h; setup ops n eps h
  end.

(** An endpoint sends a datagram, or polls for one. *)
Inductive net_event :=
| NetSend (now : Z) (a : SocketAddr) (buf : list Z) (b : SocketAddr)
| NetRecv (now : Z) (waker : nat) (b : SocketAddr).

Inductive net_obs :=
| Sent (a : SocketAddr) (buf : list Z) (b : SocketAddr)
| Got (b : SocketAddr) (data : list Z) (a : SocketAddr)
| Idle (b : SocketAddr).

Record Net := mkNet { net_heap : NetHeap; net_rng : StdRng; net_reactor : Reactor }.

Definition net_step {E} (eps : gmap SocketAddr Endpoint) (ev : net_event) (s : Net) : outcome E (net_obs * Net) :=
  match ev with
  | NetSend now a buf b =>
      e ← unwrap (eps !! a);
      '(_, h, rng) ← sim_poll_send_to now buf b e (net_heap s) (net_rng s);
      mret (Sent a buf b, mkNet h rng (net_reactor s))
  | NetRecv now waker b =>
      e ← unwrap (eps !! b);
      '(p, buf, h, r) ← sim_poll_recv_from now waker [] e (net_heap s) (net_reactor s);
      mret (match p with Ready (inr a) => Got b buf a | _ => Idle b end, mkNet h (net_rng s) r)
  end.

Fixpoint net_run {E} (eps : gmap SocketAddr Endpoint) (evs : list net_event) (s : Net) : outcome E (list net_obs * Net) :=
  match evs with
  | [] => mret ([], s)
  | ev :: evs => '(o, s) ← net_step eps ev s; '(os, s) ← net_run eps evs s; mret (o :: os, s)
  end.

Definition sent_on (a b : SocketAddr) (log : list net_obs) : list (list Z) :=
  log ≫= λ o, match o with Sent a' d b' => if bool_decide (a' = a ∧ b' = b) then [d] else [] | _ => [] end.

Definition got_on (a b : SocketAddr) (log : list net_obs) : list (list Z) :=
  log ≫= λ o, match o with Got b' d a' => if bool_decide (a' = a ∧ b' = b) then [d] else [] | _ => [] end.

(** The answers that the socket of [b] gave. *)
Definition answers_of (b : SocketAddr) (log : list net_obs) : list recv_answer :=
  log ≫= λ o, match o with
    | Got b' d a => if bool_decide (b' = b) then [Ready (inr (d, a))] else []
    | Idle b' => if bool_decide (b' = b) then [Pending] else []
    | Sent _ _ _ => []
    end.

Lemma setup_built ops n eps h n' eps' h' : built n eps h → setup ops n eps h = Ok (n', eps', h') → built n' eps' h'.
Proof.
  revert n eps h. induction ops as [|op ops IH]; intros n eps h Hb; cbn [setup]; [by intros [= <- <- <-]|].
  intros ([[n1 eps1] h1] & Hs & Hr)%outcome_bind_Ok. refine (IH _ _ _ _ Hr). clear IH Hr. destruct op as [|a b|a b x]; cbn in Hs.
  - apply outcome_bind_Ok in Hs as ([] & Hp & ([e n2] & He & [= <- <- <-])%outcome_bind_Ok).
    unfold assert_ in Hp. destruct (_ <? _) eqn:Hlt; [|done]. apply Z.ltb_lt in Hlt. by eapply built_add.
  - apply outcome_bind_Ok in Hs as ([] & Hne & (p1 & H1 & (p2 & H2 & ([[[p1' p2'] n2] h2] & Hc & [= <- <- <-])%outcome_bind_Ok)%outcome_bind_Ok)%outcome_bind_Ok).
    case_bool_decide; [done|]. destruct (eps !! a) as [?|] eqn:Ha; [|done]. destruct (eps !! b) as [?|] eqn:Hb'; [|done].
    injection H1 as ->. injection H2 as ->. by eapply built_connect.
  - apply outcome_bind_Ok in Hs as (p1 & H1 & (p2 & H2 & (p1' & Hc & [= <- <- <-])%outcome_bind_Ok)%outcome_bind_Ok).
    destruct (eps !! a) as [?|] eqn:Ha; [|done]. destruct (eps !! b) as [?|] eqn:Hb'; [|done].
    injection H1 as ->. injection H2 as ->. by eapply built_nemesis.
Qed.

(** ** Wiring *)

Definition route (eps : gmap SocketAddr Endpoint) (a b : SocketAddr) : option nat := e ← eps !! a; mailboxes e !! b.
Definition inlet (eps : gmap SocketAddr Endpoint) (a b : SocketAddr) : option nat := e ← eps !! b; inboxes e !! a.
Definition nemeses_on (eps : gmap SocketAddr Endpoint) (a b : SocketAddr) : option (list Nemesis) := e ← eps !! a; nemeses e !! b.

Record wired (n : SimNet) (eps : gmap SocketAddr Endpoint) (h : NetHeap) : Prop := {
  wi_port : 0 ≤ allocated_port n;
  wi_addr : ∀ a e, eps !! a = Some e →
    ep_addr e = a ∧ ∃ k, 0 < k ≤ allocated_port n ∧ a = SocketAddr_new (sn_ip n) k;
  wi_match : ∀ a b, route eps a b = inlet eps a b;
  wi_inj : ∀ a b a' b' c, route eps a b = Some c → route eps a' b' = Some c → a = a' ∧ b = b';
  wi_nemeses : ∀ a b c, route eps a b = Some c → is_Some (nemeses_on eps a b);
  wi_live : ∀ a b c, route eps a b = Some c → is_Some (nh_chans h !! c);
  wi_fresh : ∀ c ch, nh_chans h !! c = Some ch → (c < nh_next h)%nat ∧ vd_list ch = [];
}.

Lemma SocketAddr_new_inj ip k k' : SocketAddr_new ip k = SocketAddr_new ip k' → k = k'.
Proof. destruct ip; cbn; congruence. Qed.

(** Both directions of a connection are replaced, and nothing else. *)
Definition replug {A} (a b : SocketAddr) (x y : A) (f : SocketAddr → SocketAddr → option A) (a' b' : SocketAddr) : option A :=
  if bool_decide (a' = a ∧ b' = b) then Some x else if bool_decide (a' = b ∧ b' = a) then Some y else f a' b'.

Lemma replug_inj {A} a b (x y : A) f :
  x ≠ y → (∀ a b, f a b ≠ Some x) → (∀ a b, f a b ≠ Some y) →
  (∀ a b a' b' c, f a b = Some c → f a' b' = Some c → a = a' ∧ b = b') →
  ∀ a1 b1 a2 b2 c, replug a b x y f a1 b1 = Some c → replug a b x y f a2 b2 = Some c → a1 = a2 ∧ b1 = b2.
Proof.
  intros Hxy Hx Hy Hf a1 b1 a2 b2 c. unfold replug.
  repeat case_bool_decide; destruct_and?; intros; simplify_eq; try done; try (by edestruct Hx); try (by edestruct Hy). by eapply Hf.
Qed.

Section plugged.
Context (eps : gmap SocketAddr Endpoint) (a b : SocketAddr) (p1 p2 : Endpoint) (out inn : nat).
Context (Hab : a ≠ b) (H1 : eps !! a = Some p1) (H2 : eps !! b = Some p2).
Local Abbreviation eps' := (<[b := plug inn out a p2]> (<[a := plug out inn b p1]> eps)).

Lemma plugged_field {A} (field : Endpoint → gmap SocketAddr A) (v w : A) x y :
  field (plug out inn b p1) = <[b := v]> (field p1) → field (plug inn out a p2) = <[a := w]> (field p2) →
  (e ← eps' !! x; field e !! y) = replug a b v w (λ x y, e ← eps !! x; field e !! y) x y.
Proof.
  intros F1 F2. unfold replug. case_bool_decide as Hp; [destruct Hp as [-> ->]; simplify_map_eq; by rewrite F1, lookup_insert_eq|].
  case_bool_decide as Hq; [destruct Hq as [-> ->]; simplify_map_eq; by rewrite F2, lookup_insert_eq|].
  destruct (decide (x = b)) as [->|Hb]; [|destruct (decide (x = a)) as [->|Ha]]; simplify_map_eq; [| |done].
  - rewrite F2, lookup_insert_ne; [done|]. intros ->. by apply Hq.
  - rewrite F1, lookup_insert_ne; [done|]. intros ->. by apply Hp.
Qed.

Lemma plugged_route x y : route eps' x y = replug a b out inn (route eps) x y.
Proof. by apply plugged_field. Qed.

Lemma plugged_inlet x y : inlet eps' x y = replug a b out inn (inlet eps) x y.
Proof.
  unfold inlet. rewrite (plugged_field inboxes inn out) by done. unfold replug. repeat case_bool_decide; naive_solver.
Qed.

Lemma plugged_nemeses x y : nemeses_on eps' x y = replug a b [] [] (nemeses_on eps) x y.
Proof. by apply plugged_field. Qed.
End plugged.

Lemma wired_add n eps h e n' :
  wired n eps h → allocated_port n < 2 ^ 16 - 1 → add_endpoint (E:=Empty_set) n = Ok (e, n') → wired n' (<[ep_addr e := e]> eps) h.
Proof.
  intros IH Hp He.
  destruct IH as [W1 W2 W3 W4 W5 W6 W7]. unfold add_endpoint in He. rewrite uadd_Ok in He by lia. injection He as <- <-.
  cbn [ep_addr]. set (a0 := SocketAddr_new _ _).
  assert (eps !! a0 = None) as Hf.
  { destruct (eps !! a0) as [e|] eqn:He; [|done]. destruct (W2 _ _ He) as (_ & k & Hk & Heq).
    apply SocketAddr_new_inj in Heq. lia. }
  assert (∀ a b, route (<[a0:=mkEndpoint a0 ∅ ∅ ∅]> eps) a b = route eps a b) as Hr.
  { intros a b. unfold route. destruct (decide (a0 = a)) as [<-|Hne]; [rewrite lookup_insert_eq, Hf|by rewrite lookup_insert_ne].
    cbn. apply lookup_empty. }
  split; cbn; [lia| |..].
  + intros a e. destruct (decide (a0 = a)) as [<-|Hne].
    * rewrite lookup_insert_eq. intros [= <-]. split; [done|]. eexists. split; [|done]. lia.
    * rewrite lookup_insert_ne by done. intros (? & k & ? & ?)%W2. split; [done|]. exists k. split; [lia|done].
  + intros a b. rewrite Hr, W3. unfold inlet. destruct (decide (a0 = b)) as [<-|Hne]; [rewrite lookup_insert_eq, Hf|by rewrite lookup_insert_ne].
    cbn. by rewrite lookup_empty.
  + intros *. rewrite !Hr. apply W4.
  + intros a b c. rewrite Hr. intros Hc. pose proof (W5 _ _ _ Hc) as Hn. unfold nemeses_on in *.
    rewrite lookup_insert_ne; [done|]. intros <-. by rewrite Hf in Hn; destruct Hn.
  + intros *. rewrite Hr. apply W6.
  + done.
Qed.

Lemma wired_connect n eps h a b p1 p2 p1' p2' n' h' :
  wired n eps h → a ≠ b → eps !! a = Some p1 → eps !! b = Some p2 →
  SimNet_connect (E:=Empty_set) p1 p2 n h = Ok (p1', p2', n', h') → wired n' (<[b := p2']> (<[a := p1']> eps)) h'.
Proof.
  intros IH Hab H1 H2 Hc.
  pose proof IH as [W1 W2 W3 W4 W5 W6 W7]. destruct (W2 _ _ H1) as [E1 _]. destruct (W2 _ _ H2) as [E2 _].
  unfold SimNet_connect, chan_alloc in Hc. cbn [nh_next nh_chans] in Hc. rewrite E1, E2 in Hc.
  apply outcome_bind_Ok in Hc as ([] & _ & Hc). apply outcome_bind_Ok in Hc as ([] & _ & Hc).
  injection Hc as <- <- <- <-.
  assert (∀ x y c, route eps x y = Some c → (c < (nh_next h))%nat) as Hold.
  { intros x y c Hxy. destruct (W6 _ _ _ Hxy) as [ch Hch]. by apply W7 in Hch as [? _]. }
  split; cbn [allocated_port sn_ip nh_chans nh_next].
  + done.
  + intros x e. destruct (decide (b = x)) as [<-|Hb]; [|destruct (decide (a = x)) as [<-|Ha]].
    * rewrite lookup_insert_eq. intros [= <-]. split; [done|]. by apply (W2 b p2).
    * rewrite lookup_insert_ne, lookup_insert_eq by done. intros [= <-]. split; [done|]. by apply (W2 a p1).
    * rewrite !lookup_insert_ne by done. apply W2.
  + intros x y. rewrite (plugged_route eps a b p1 p2), (plugged_inlet eps a b p1 p2) by done. unfold replug. by rewrite W3.
  + intros x y x' y' c. rewrite !(plugged_route eps a b p1 p2) by done.
    apply replug_inj; [lia|intros ?? ?%Hold; lia|intros ?? ?%Hold; lia|done].
  + intros x y c. rewrite (plugged_route eps a b p1 p2), (plugged_nemeses eps a b p1 p2) by done. unfold replug. repeat case_bool_decide; [by eauto..|]. apply W5.
  + intros x y c. rewrite (plugged_route eps a b p1 p2) by done. unfold replug. intros Hxy.
    destruct (decide (c = (S (nh_next h)))) as [->|H2']; [by simplify_map_eq|]. rewrite lookup_insert_ne by done.
    destruct (decide (c = (nh_next h))) as [->|H1']; [by simplify_map_eq|]. rewrite lookup_insert_ne by done.
    repeat case_bool_decide; simplify_eq. by eapply W6.
  + intros c ch. rewrite !lookup_insert_Some. intros [[<- <-]|[Hc2 [[<- <-]|[Hc1 Hch]]]].
    * split; [lia|apply vd_new_list].
    * split; [lia|apply vd_new_list].
    * apply W7 in Hch as [? ?]. split; [lia|done].
Qed.

Lemma wired_nemesis n eps h a b p1 p2 nm p1' :
  wired n eps h → eps !! a = Some p1 → eps !! b = Some p2 → add_nemesis (E:=Empty_set) p1 p2 nm n = Ok p1' →
  wired n (<[a := p1']> eps) h.
Proof.
  intros IH H1 H2 Hn.
  pose proof IH as [W1 W2 W3 W4 W5 W6 W7]. unfold add_nemesis in Hn. destruct (W2 _ _ H1) as [E1 Hk].
  apply outcome_bind_Ok in Hn as ([] & _ & Hn). apply outcome_bind_Ok in Hn as ([] & _ & Hn).
  destruct (nemeses p1 !! ep_addr p2) as [ns|] eqn:Hns; cbn in Hn; [|done]. injection Hn as <-. rewrite E1.
  set (p1' := mkEndpoint _ _ _ _).
  assert (∀ x y, route (<[a := p1']> eps) x y = route eps x y) as Hr.
  { intros x y. unfold route. destruct (decide (a = x)) as [<-|Ha]; [by rewrite lookup_insert_eq, H1|by rewrite lookup_insert_ne]. }
  assert (∀ x y, inlet (<[a := p1']> eps) x y = inlet eps x y) as Hi.
  { intros x y. unfold inlet. destruct (decide (a = y)) as [<-|Ha]; [by rewrite lookup_insert_eq, H1|by rewrite lookup_insert_ne]. }
  split; try done.
  + intros x e. destruct (decide (a = x)) as [<-|Ha]; [|rewrite lookup_insert_ne by done; apply W2].
    rewrite lookup_insert_eq. intros [= <-]. split; [done|]. by apply (W2 a p1).
  + intros x y. by rewrite Hr, Hi.
  + intros *. rewrite !Hr. apply W4.
  + intros x y c. rewrite Hr. intros Hxy. pose proof (W5 _ _ _ Hxy) as Hn. unfold nemeses_on in *.
    destruct (decide (a = x)) as [<-|Ha]; [|by rewrite lookup_insert_ne]. rewrite lookup_insert_eq. cbn. rewrite H1 in Hn. cbn in Hn.
    destruct (decide (y = ep_addr p2)) as [->|]; [rewrite lookup_insert_eq; by eauto|by rewrite lookup_insert_ne].
  + intros *. rewrite Hr. apply W6.
Qed.

Lemma built_wired n eps h : built n eps h → wired n eps h.
Proof.
  induction 1 as [ip|n eps h e n' _ IH Hp He|n eps h a b p1 p2 p1' p2' n' h' _ IH Hab H1 H2 Hc|n eps h a b p1 p2 nm p1' _ IH H1 H2 Hn].
  - split; unfold route, inlet, nemeses_on; cbn; try done; intros *; rewrite ?lookup_empty; done.
  - by eapply wired_add.
  - by eapply wired_connect.
  - by eapply wired_nemesis.
Qed.

(** ** What nemeses do to the data in flight *)

(** The data that is not lost. *)
Definition payload (l : list (list Z * Z)) : list (list Z) := filter (λ d, d ≠ []) l.*1.

Definition loses (n : Nemesis) : bool := match n with RandomDataLost _ => true | _ => false end.
Definition lossless (ns : list Nemesis) : bool := forallb (λ n, negb (loses n)) ns.

(** [l'] is [l] with some data lost, none of it if [keep]. *)
Record struck (keep : bool) (l l' : list (list Z * Z)) : Prop := {
  sk_length : length l' = length l;
  sk_sub : payload l' ⊆+ payload l;
  sk_keep : keep = true → payload l' ≡ₚ payload l;
}.

Lemma struck_same keep l l' : length l' = length l → payload l' ≡ₚ payload l → struck keep l l'.
Proof. intros Hl Hp. split; [done|by rewrite Hp|done]. Qed.

Lemma struck_trans k k' l1 l2 l3 : struck k l1 l2 → struck k' l2 l3 → struck (k && k') l1 l3.
Proof.
  intros [A1 A2 A3] [B1 B2 B3]. split; [congruence|by etrans|].
  intros [K K']%andb_prop. by rewrite B3, A3.
Qed.

Global Instance payload_Permutation : Proper ((≡ₚ) ==> (≡ₚ)) payload.
Proof. intros l l' Hl. unfold payload. by rewrite Hl. Qed.

Lemma vd_over_list {A} (g : list A → list A) (d : VecDeque A) :
  length (g (vd_list d)) = length (vd_list d) → vd_list (vd_over g d) = g (vd_list d).
Proof.
  rewrite vd_slices_list. unfold vd_over. destruct (vd_slices d) as [f b] eqn:Hd. cbn [fst snd]. intros Hl. rewrite length_app in Hl.
  rewrite vd_write_list, take_drop; [done|rewrite Hd; cbn; rewrite length_take; lia|rewrite Hd; cbn; rewrite length_drop; lia].
Qed.

Lemma strike_spec {E} n ch rng :
  vd_list ch ≠ [] →
  ∃ ch' rng', strike (E:=E) n ch rng = Ok (ch', rng') ∧ struck (negb (loses n)) (vd_list ch) (vd_list ch').
Proof.
  intros Hne. destruct n as [odd rate|odd|odd delay]; cbn [strike loses negb]; destruct (gen_f32 rng) as [x rng1];
    destruct (f32_ge x odd); try (by eexists _, _; split; [done|by apply struck_same]).
  - set (amount := f32_to_usize _). pose proof (vd_slices_list ch) as Hs. pose proof (vd_write_list (A:=list Z * Z)) as Hw. specialize (Hw) with (d := ch).
    destruct (vd_slices ch) as [f b]. cbn [fst snd] in *.
    pose proof (partial_shuffle_perm f amount rng1) as Hf. destruct (partial_shuffle f amount rng1) as [f' rng2]. cbn [fst] in Hf.
    destruct (_ <? amount).
    + pose proof (partial_shuffle_perm b (amount - Z.of_nat (length f')) rng2) as Hb.
      destruct (partial_shuffle b _ rng2) as [b' rng3]. cbn [fst] in Hb. eexists _, _. split; [done|].
      rewrite Hw, Hs by (by rewrite ?Hf, ?Hb). apply struck_same; by rewrite Hf, Hb.
    + eexists _, _. split; [done|]. rewrite Hw, Hs by (by rewrite ?Hf). apply struck_same; by rewrite Hf.
  - eexists _, _. split; [done|]. rewrite vd_over_list by apply length_fmap. split; [apply length_fmap| |done].
    unfold payload. rewrite (filter_none _ (((λ packet, ([], packet.2)) <$> vd_list ch).*1)); [apply submseteq_nil_l|].
    rewrite <-list_fmap_compose. apply Forall_fmap, Forall_true. intros y. cbn. by intros H.
  - destruct (vd_list ch) as [|[d at_] l] eqn:Hl; [done|]. eexists _, _. split; [done|].
    rewrite vd_over_list by (by rewrite Hl). by apply struck_same.
Qed.

Lemma strike_all_spec {E} ns ch rng :
  vd_list ch ≠ [] →
  ∃ ch' rng', strike_all (E:=E) ns ch rng = Ok (ch', rng') ∧ struck (lossless ns) (vd_list ch) (vd_list ch').
Proof.
  revert ch rng. induction ns as [|n ns IH]; intros ch rng Hne; cbn [strike_all lossless forallb].
  { eexists _, _. split; [done|by apply struck_same]. }
  destruct (strike_spec (E:=E) n ch rng Hne) as (ch1 & rng1 & -> & H1). cbn [mbind outcome_bind].
  destruct (IH ch1 rng1) as (ch2 & rng2 & -> & H2).
  { intros He. pose proof (sk_length _ _ _ H1) as Hl. rewrite He in Hl. by destruct (vd_list ch). }
  eexists _, _. split; [done|]. by eapply struck_trans.
Qed.

(** ** Channels *)

(** What went through a channel: what was received and what is in flight was sent;
    it is all of it when no nemesis loses data, and in order when there is none. *)
Record carried (ns : list Nemesis) (sent got : list (list Z)) (l : list (list Z * Z)) : Prop := {
  ca_sub : got ++ payload l ⊆+ filter (λ d, d ≠ []) sent;
  ca_all : lossless ns = true → got ++ payload l ≡ₚ filter (λ d, d ≠ []) sent;
  ca_fifo : ns = [] → got ++ payload l = filter (λ d, d ≠ []) sent;
}.

Lemma payload_app l l' : payload (l ++ l') = payload l ++ payload l'.
Proof. unfold payload. by rewrite fmap_app, filter_app. Qed.

Lemma carried_send ns sent got l d t l' :
  carried ns sent got l → struck (lossless ns) (l ++ [(d, t)]) l' → (ns = [] → l' = l ++ [(d, t)]) →
  carried ns (sent ++ [d]) got l'.
Proof.
  intros [C1 C2 C3] [S1 S2 S3] Hn. rewrite payload_app in S2, S3. change (payload [(d, t)]) with (filter (λ d, d ≠ []) [d]) in *.
  split; rewrite filter_app.
  - etrans; [apply submseteq_app; [done|exact S2]|]. rewrite app_assoc. by apply submseteq_app.
  - intros Hl. rewrite S3, app_assoc by done. by rewrite C2.
  - intros ->. rewrite Hn, payload_app, app_assoc, C3 by done. done.
Qed.

Lemma carried_take ns sent got l l' ds : carried ns sent got l → payload l = ds ++ payload l' → carried ns sent (got ++ ds) l'.
Proof. intros [C1 C2 C3] Hp. rewrite Hp, app_assoc in *. by split. Qed.

(** One poll of a socket. *)
Definition box_total (boxes : list (SocketAddr * nat)) (h : NetHeap) : nat :=
  sum_list_with (λ x, match nh_chans h !! x.2 with Some ch => length (vd_list ch) | None => 0%nat end) boxes.

Definition all_due (now : Z) (boxes : list (SocketAddr * nat)) (h : NetHeap) : Prop :=
  ∀ x ch, x ∈ boxes → nh_chans h !! x.2 = Some ch → Forall (λ y, y.2 ≤ now) (vd_list ch).

Definition data_from (a : SocketAddr) (got : option (SocketAddr * list Z)) : list (list Z) :=
  match got with Some (from, d) => if bool_decide (from = a) then [d] else [] | None => [] end.

(** [h'] is [h] after a poll of [boxes] that gave [got]. *)
Record pulled (boxes : list (SocketAddr * nat)) (got : option (SocketAddr * list Z)) (h h' : NetHeap) : Prop := {
  pu_other : ∀ c, c ∉ boxes.*2 → nh_chans h' !! c = nh_chans h !! c;
  pu_box : ∀ a c ch, (a, c) ∈ boxes → nh_chans h !! c = Some ch →
    ∃ ch', nh_chans h' !! c = Some ch' ∧ payload (vd_list ch) = data_from a got ++ payload (vd_list ch') ∧
      vd_list ch' `suffix_of` vd_list ch;
  pu_from : ∀ a d, got = Some (a, d) → a ∈ boxes.*1;
}.

Lemma box_total_other boxes h h' :
  (∀ c, c ∈ boxes.*2 → nh_chans h' !! c = nh_chans h !! c) → box_total boxes h' = box_total boxes h.
Proof.
  intros H. unfold box_total. induction boxes as [|x boxes IH]; [done|]. cbn. rewrite H by left. f_equal. apply IH.
  intros c Hc. apply H. by right.
Qed.
Lemma vd_pop_front_cons {A} (d : VecDeque A) x l :
  vd_list d = x :: l → ∃ d', vd_pop_front d = Some (x, d') ∧ vd_list d' = l.
Proof.
  intros Hd. pose proof (vd_pop_front_list d) as Hp. destruct (vd_pop_front d) as [[y d']|]; rewrite Hd in Hp; [|done].
  injection Hp as <- ->. by exists d'.
Qed.

(** A poll that passes over a channel, or takes lost data from it. *)
Lemma pulled_cons a c boxes got h h1 h' ch ch' :
  a ∉ boxes.*1 → c ∉ boxes.*2 → nh_chans h !! c = Some ch →
  (∀ c', c' ≠ c → nh_chans h1 !! c' = nh_chans h !! c') → pulled boxes got h1 h' → nh_chans h1 !! c = Some ch' →
  payload (vd_list ch) = payload (vd_list ch') → vd_list ch' `suffix_of` vd_list ch →
  pulled ((a, c) :: boxes) got h h' ∧ box_total ((a, c) :: boxes) h' = (length (vd_list ch') + box_total boxes h')%nat.
Proof.
  intros Ha Hc Hch Hh [P1 P2 P3] Hc1 Hp Hsuf. pose proof (P1 c Hc) as Hsame. split; [|cbn; by rewrite Hsame, Hc1].
  split; cbn [fmap list_fmap fst snd].
  - intros c' [Hne Hc']%not_elem_of_cons. by rewrite P1, Hh.
  - intros a' c' ch0 [[= -> ->]|Hin]%elem_of_cons Hch0.
    + simplify_eq. exists ch'. rewrite Hsame. split_and!; [done| |done]. rewrite Hp. destruct got as [[from d]|]; [|done].
      cbn. rewrite bool_decide_false; [done|]. intros ->. by apply Ha, (P3 _ _ eq_refl).
    + apply P2; [done|]. rewrite Hh; [done|]. intros ->. apply Hc, list_elem_of_fmap. by eexists (_, _).
  - intros a' d Hg. right. by eapply P3.
Qed.

Lemma recv_loop_spec {E} now boxes np h :
  NoDup boxes.*1 → NoDup boxes.*2 → (∀ c, c ∈ boxes.*2 → is_Some (nh_chans h !! c)) →
  ∃ got np' h', recv_loop (E:=E) now boxes np h = Ok (got, np', h') ∧ pulled boxes got h h' ∧
    (box_total boxes h' ≤ box_total boxes h)%nat ∧
    (all_due now boxes h → (0 < box_total boxes h)%nat → (box_total boxes h' < box_total boxes h)%nat).
Proof.
  revert np h. induction boxes as [|[a c] boxes IH]; intros np h Hn1 Hn2 Hlive; cbn [recv_loop].
  { eexists _, _, _. split; [done|]. split_and!; [|done|cbn; lia]. split; [done| |done]. by intros ??? ?%not_elem_of_nil. }
  cbn [fmap list_fmap fst snd] in *. apply NoDup_cons in Hn1 as [Ha Hn1]. apply NoDup_cons in Hn2 as [Hc Hn2].
  destruct (Hlive c ltac:(left)) as [ch Hch]. rewrite Hch. cbn [unwrap mbind outcome_bind mret outcome_ret].
  pose proof (λ got h1 h' ch', pulled_cons a c boxes got h h1 h' ch ch' Ha Hc Hch) as Hrest.
  assert (box_total ((a, c) :: boxes) h = (length (vd_list ch) + box_total boxes h)%nat) as Htot by (cbn; by rewrite Hch).
  destruct (vd_list ch) as [|[data at_] l] eqn:Hl.
  - destruct (IH np h Hn1 Hn2 ltac:(intros; apply Hlive; by right)) as (got & np' & h' & -> & Hp & Hle & Hlt).
    destruct (Hrest got h h' ch ltac:(done) Hp Hch) as [Hpu Ht]; [by rewrite Hl|by rewrite Hl|].
    eexists _, _, _. split; [done|]. split; [done|]. rewrite Ht, Htot, Hl. cbn [length]. split; [lia|]. intros Hdue Hpos.
    apply Hlt; [|lia]. intros x ch' Hx. apply Hdue. by right.
  - destruct (now <? at_) eqn:Hnow.
    + destruct (IH (Z.min np at_) h Hn1 Hn2 ltac:(intros; apply Hlive; by right)) as (got & np' & h' & -> & Hp & Hle & Hlt).
      destruct (Hrest got h h' ch ltac:(done) Hp Hch) as [Hpu Ht]; [by rewrite Hl|by rewrite Hl|].
      eexists _, _, _. split; [done|]. split; [done|]. rewrite Ht, Htot, Hl. split; [lia|]. intros Hdue _.
      pose proof (Hdue (a, c) ch ltac:(left) Hch) as Hd. rewrite Hl in Hd. apply Forall_cons in Hd as [Hd _]. cbn in Hd. lia.
    + destruct (vd_pop_front_cons ch _ _ Hl) as (ch1 & -> & Hl1). cbn [unwrap mbind outcome_bind mret outcome_ret].
      set (h1 := chan_put c ch1 h).
      assert (nh_chans h1 !! c = Some ch1) as Hc1 by (cbn; by simplify_map_eq).
      assert (∀ c', c' ≠ c → nh_chans h1 !! c' = nh_chans h !! c') as Hh by (intros c' Hne; cbn; by rewrite lookup_insert_ne).
      case_bool_decide as Hd.
      * destruct (IH np h1 Hn1 Hn2) as (got & np' & h' & -> & Hp & Hle & Hlt).
        { intros c' Hc'. rewrite Hh; [apply Hlive; by right|]. by intros ->. }
        destruct (Hrest got h1 h' ch1 Hh Hp Hc1) as [Hpu Ht].
        { rewrite Hl1. subst data. done. }
        { rewrite Hl1. by apply suffix_cons_r. }
        eexists _, _, _. split; [done|]. split; [done|]. rewrite Ht, Htot, Hl1.
        rewrite (box_total_other boxes h h1) in Hle by (intros c' Hc'; apply Hh; by intros ->). cbn [length]. split; [lia|]. lia.
      * eexists _, _, _. split; [done|]. assert (box_total boxes h1 = box_total boxes h) as Hbt.
        { apply box_total_other. intros c' Hc'. apply Hh. by intros ->. }
        assert (box_total ((a, c) :: boxes) h1 = (length l + box_total boxes h)%nat) as ->.
        { cbn [box_total sum_list_with snd]. by rewrite Hc1, Hl1, <-Hbt. }
        rewrite Htot. cbn [length]. split_and!; [|lia|lia]. split; cbn [fmap list_fmap fst snd].
        -- intros c' [Hne _]%not_elem_of_cons. by apply Hh.
        -- intros a' c' ch0 [[= -> ->]|Hin]%elem_of_cons Hch0.
           ++ rewrite Hch in Hch0. injection Hch0 as <-. exists ch1. rewrite Hl1, Hl. split_and!; [done| |by apply suffix_cons_r].
              unfold payload, data_from. rewrite bool_decide_true, fmap_cons, filter_cons_True by done. done.
           ++ exists ch0. assert (c' ≠ c) by (intros ->; apply Hc, list_elem_of_fmap; by eexists (_, _)).
              rewrite Hh by done. split_and!; [done| |done]. cbn. rewrite bool_decide_false; [done|].
              intros ->. apply Ha, list_elem_of_fmap. by eexists (_, _).
        -- intros a' d [= <- <-]. left.
Qed.
(** ** Runs *)

Lemma boxes_of n eps h b e :
  wired n eps h → eps !! b = Some e →
  let boxes := hash_iter (inboxes e) in
  NoDup boxes.*1 ∧ NoDup boxes.*2 ∧ ∀ a c, (a, c) ∈ boxes ↔ route eps a b = Some c.
Proof.
  intros [_ _ Hm Hinj _ _ _] He boxes.
  assert (∀ a c, (a, c) ∈ boxes ↔ route eps a b = Some c) as Hbox.
  { intros a c. unfold boxes. rewrite hash_iter_Permutation, elem_of_map_to_list, Hm. unfold inlet. by rewrite He. }
  assert (NoDup boxes.*1) as Hn by (unfold boxes; rewrite hash_iter_Permutation; apply NoDup_fst_map_to_list).
  split_and!; [done| |done]. apply NoDup_fmap_2_strong; [|by eapply NoDup_fmap_1].
  intros [a c] [a' c'] Hx Hy Heq. cbn in Heq. subst c'. apply Hbox in Hx, Hy. by destruct (Hinj _ _ _ _ _ Hx Hy) as [-> _].
Qed.

Record flowing (eps : gmap SocketAddr Endpoint) (log : list net_obs) (s : Net) : Prop := {
  fl_chan : ∀ a b c, route eps a b = Some c → ∃ ch ns, nh_chans (net_heap s) !! c = Some ch ∧
    nemeses_on eps a b = Some ns ∧ carried ns (sent_on a b log) (got_on a b log) (vd_list ch);
  fl_from : ∀ a b d, d ∈ got_on a b log → is_Some (route eps a b);
}.

(** An endpoint that exists polls, and sends to where it is connected. *)
Definition event_ok (eps : gmap SocketAddr Endpoint) (ev : net_event) : Prop :=
  match ev with
  | NetSend _ a _ b => is_Some (route eps a b)
  | NetRecv _ _ b => is_Some (eps !! b)
  end.

Lemma sent_on_snoc a b log o : sent_on a b (log ++ [o]) = sent_on a b log ++ sent_on a b [o].
Proof. apply bind_app. Qed.

Lemma got_on_snoc a b log o : got_on a b (log ++ [o]) = got_on a b log ++ got_on a b [o].
Proof. apply bind_app. Qed.

Lemma send_flows {E} n eps h0 log s now a buf b :
  wired n eps h0 → flowing eps log s → is_Some (route eps a b) →
  ∃ s', net_step (E:=E) eps (NetSend now a buf b) s = Ok (Sent a buf b, s') ∧ flowing eps (log ++ [Sent a buf b]) s'.
Proof.
  intros Hw [F1 F2] [c Hc]. destruct (F1 a b c Hc) as (ch & ns & Hch & Hns & Hca). cbn [net_step].
  unfold route in Hc. destruct (eps !! a) as [e|] eqn:He; [|done]. cbn [mbind option_bind] in Hc. cbn [unwrap mbind outcome_bind mret outcome_ret].
  unfold nemeses_on in Hns. rewrite He in Hns. cbn [mbind option_bind] in Hns.
  unfold sim_poll_send_to. rewrite Hc. cbn [unwrap mbind outcome_bind mret outcome_ret]. rewrite Hch. cbn [unwrap mbind outcome_bind mret outcome_ret].
  rewrite Hns. cbn [unwrap mbind outcome_bind mret outcome_ret]. set (ch1 := vd_push_back (buf, now) ch).
  assert (vd_list ch1 = vd_list ch ++ [(buf, now)]) as Hl1 by apply vd_push_back_list.
  assert (∃ ch2 rng2, (if (2 <? length (vd_list ch1))%nat then strike_all (E:=E) ns ch1 (net_rng s) else mret (ch1, net_rng s)) = Ok (ch2, rng2) ∧
    struck (lossless ns) (vd_list ch1) (vd_list ch2) ∧ (ns = [] → vd_list ch2 = vd_list ch1)) as (ch2 & rng2 & -> & Hst & Hnil).
  { destruct (2 <? _)%nat; [|eexists _, _; split_and!; [done|by apply struck_same|done]].
    destruct (strike_all_spec (E:=E) ns ch1 (net_rng s)) as (ch2 & rng2 & Hs & Hst).
    { rewrite Hl1. intros He'%(f_equal length). rewrite length_app in He'. cbn in He'. lia. }
    exists ch2, rng2. split_and!; [done|done|]. intros ->. cbn in Hs. by injection Hs as <- <-. }
  cbn [unwrap mbind outcome_bind mret outcome_ret]. eexists. split; [done|]. rewrite Hl1 in Hst, Hnil. split; cbn [net_heap].
  - intros a' b' c' Hc'. rewrite sent_on_snoc, got_on_snoc. destruct (decide (c' = c)) as [->|Hne].
    + destruct (wi_inj _ _ _ Hw a b a' b' c) as [<- <-]; [by unfold route; rewrite He|done|].
      exists ch2, ns. unfold chan_put. cbn [nh_chans]. rewrite lookup_insert_eq. split_and!; [done|by unfold nemeses_on; rewrite He|].
      cbn. rewrite bool_decide_true by done. cbn. rewrite app_nil_r. by eapply carried_send.
    + destruct (F1 a' b' c' Hc') as (ch' & ns' & H1 & H2 & H3). exists ch', ns'. unfold chan_put. cbn [nh_chans].
      rewrite lookup_insert_ne by done. split_and!; [done|done|]. cbn. rewrite bool_decide_false; [by rewrite !app_nil_r|].
      intros [-> ->]. unfold route in Hc'. rewrite He in Hc'. cbn in Hc'. congruence.
  - intros a' b' d. rewrite got_on_snoc. cbn. rewrite app_nil_r. apply F2.
Qed.

Lemma recv_flows {E} n eps h0 log s now waker b e :
  wired n eps h0 → flowing eps log s → eps !! b = Some e →
  let boxes := hash_iter (inboxes e) in
  ∃ o s', net_step (E:=E) eps (NetRecv now waker b) s = Ok (o, s') ∧ flowing eps (log ++ [o]) s' ∧
    (box_total boxes (net_heap s') ≤ box_total boxes (net_heap s))%nat ∧
    (all_due now boxes (net_heap s) → all_due now boxes (net_heap s') ∧
      ((0 < box_total boxes (net_heap s))%nat → (box_total boxes (net_heap s') < box_total boxes (net_heap s))%nat)) ∧
    ∀ x y, sent_on x y [o] = [].
Proof.
  intros Hw [F1 F2] He boxes. destruct (boxes_of n eps h0 b e Hw He) as (N1 & N2 & Hbox). fold boxes in N1, N2, Hbox.
  destruct (recv_loop_spec (E:=E) now boxes (now + 10 * 1000000) (net_heap s) N1 N2) as (got & np & h' & Hr & [P1 P2 P3] & Hle & Hlt).
  { intros c ([a c'] & -> & Hin%Hbox)%list_elem_of_fmap. destruct (F1 _ _ _ Hin) as (ch & ns & Hch & _). by eauto. }
  cbn [net_step]. rewrite He. cbn [unwrap mbind outcome_bind mret outcome_ret]. unfold sim_poll_recv_from. fold boxes. rewrite Hr.
  cbn [mbind outcome_bind].
  set (o := match got with Some (a, d) => Got b d a | None => Idle b end).
  exists o, (mkNet h' (net_rng s) (if got is Some _ then net_reactor s else insert_timer 0 np waker (net_reactor s))).
  split; [by destruct got as [[a d]|]|].
  assert (∀ x y, got_on x y [o] = if bool_decide (y = b) then data_from x got else []) as Hgot.
  { intros x y. unfold o, got_on. destruct got as [[a d]|]; cbn; repeat case_bool_decide; naive_solver. }
  assert (∀ x y, sent_on x y [o] = []) as Hsent by (intros; by unfold o; destruct got as [[??]|]).
  split_and!; cbn [net_heap]; [|done| |done].
  - split; cbn [net_heap].
    + intros x y c Hc. destruct (F1 x y c Hc) as (ch & ns & Hch & Hns & Hca). rewrite sent_on_snoc, got_on_snoc, Hgot, Hsent, app_nil_r.
      case_bool_decide as Hy.
      * subst y. destruct (P2 x c ch ltac:(by apply Hbox) Hch) as (ch' & Hch' & Hp & _). exists ch', ns. split_and!; [done|done|].
        by eapply carried_take.
      * rewrite app_nil_r. exists ch, ns. rewrite P1; [done|]. intros ([a c'] & -> & Hin%Hbox)%list_elem_of_fmap.
        cbn in Hc. by destruct (wi_inj _ _ _ Hw _ _ _ _ _ Hin Hc) as [_ ->].
    + intros x y d. rewrite got_on_snoc, elem_of_app, Hgot. intros [Hd|Hd]; [by eapply F2|].
      case_bool_decide; [subst y|by apply not_elem_of_nil in Hd]. destruct got as [[a d']|]; [|by apply not_elem_of_nil in Hd].
      cbn in Hd. case_bool_decide; [subst a|by apply not_elem_of_nil in Hd].
      pose proof (P3 _ _ eq_refl) as ([a c] & -> & Hin%Hbox)%list_elem_of_fmap. by eauto.
  - intros Hdue. split; [|by apply Hlt]. intros [x c] ch' Hx Hch'. cbn in Hch'. pose proof Hx as Hx'%Hbox.
    destruct (F1 _ _ _ Hx') as (ch & _ & Hch & _). destruct (P2 x c ch Hx Hch) as (ch2 & Hch2 & _ & Hsuf). simplify_eq.
    destruct Hsuf as [k Hk]. pose proof (Hdue (x, c) ch Hx Hch) as Hf. rewrite Hk in Hf. by apply Forall_app in Hf as [_ Hf].
Qed.

Lemma run_flows {E} n eps h0 evs log s :
  wired n eps h0 → flowing eps log s → Forall (event_ok eps) evs →
  ∃ os s', net_run (E:=E) eps evs s = Ok (os, s') ∧ flowing eps (log ++ os) s'.
Proof.
  intros Hw Hf Hev. revert log s Hf. induction Hev as [|ev evs Hev _ IH]; intros log s Hf; cbn [net_run].
  { exists [], s. by rewrite app_nil_r. }
  assert (∃ o s', net_step (E:=E) eps ev s = Ok (o, s') ∧ flowing eps (log ++ [o]) s') as (o & s1 & -> & Hf1).
  { destruct ev as [now a buf b|now waker b]; cbn in Hev.
    - destruct (send_flows (E:=E) n eps h0 log s now a buf b Hw Hf Hev) as (s1 & -> & ?). by eexists _, _.
    - destruct Hev as [e He]. destruct (recv_flows (E:=E) n eps h0 log s now waker b e Hw Hf He) as (o & s1 & -> & ? & _). by eexists _, _. }
  cbn [mbind outcome_bind]. destruct (IH _ _ Hf1) as (os & s2 & -> & Hf2). cbn. exists (o :: os), s2.
  rewrite <-app_assoc in Hf2. done.
Qed.

(** Late polls empty the channels. *)
Lemma polls_drain {E} n eps h0 now waker b e k log s :
  wired n eps h0 → flowing eps log s → eps !! b = Some e → all_due now (hash_iter (inboxes e)) (net_heap s) →
  (box_total (hash_iter (inboxes e)) (net_heap s) ≤ k)%nat →
  ∃ os s', net_run (E:=E) eps (replicate k (NetRecv now waker b)) s = Ok (os, s') ∧ flowing eps (log ++ os) s' ∧
    box_total (hash_iter (inboxes e)) (net_heap s') = 0%nat ∧ ∀ x y, sent_on x y (log ++ os) = sent_on x y log.
Proof.
  intros Hw Hf He. revert log s Hf. induction k as [|k IH]; intros log s Hf Hdue Hk; cbn [replicate net_run].
  { exists [], s. rewrite app_nil_r. split_and!; [done|done|lia|done]. }
  destruct (recv_flows (E:=E) n eps h0 log s now waker b e Hw Hf He) as (o & s1 & -> & Hf1 & Hle & Hd & Hs).
  destruct (Hd Hdue) as [Hdue1 Hlt]. cbn [mbind outcome_bind].
  destruct (IH _ _ Hf1 Hdue1 ltac:(lia)) as (os & s2 & -> & Hf2 & Hz & Hs2). cbn. exists (o :: os), s2.
  rewrite <-app_assoc in Hf2, Hs2. split_and!; [done|done|done|]. intros x y.
  specialize (Hs2 x y). cbn [app] in Hs2. rewrite Hs2, sent_on_snoc, Hs, app_nil_r. done.
Qed.

Lemma carried_nil ns : carried ns [] [] [].
Proof. by split. Qed.

Lemma built_flows n eps h rng r : built n eps h → flowing eps [] (mkNet h rng r).
Proof.
  intros Hb%built_wired. split; [|by intros ??? ?%not_elem_of_nil]. intros a b c Hc.
  destruct (wi_live _ _ _ Hb a b c Hc) as [ch Hch]. destruct (wi_nemeses _ _ _ Hb a b c Hc) as [ns Hns].
  exists ch, ns. split_and!; [done|done|]. destruct (wi_fresh _ _ _ Hb c ch Hch) as [_ ->]. apply carried_nil.
Qed.
End sim_net.

(** C30. The simulated network does what a network may do, and no more.  However a test
    sets it up and whatever its endpoints do, with any random numbers, no call
    panics as long as endpoints send to those they are connected with.  Of every
    connection, what was received and what is still in flight was sent, is not
    empty, and comes no more often than it was sent; without [RandomDataLost] it is
    every datagram that was sent and is not empty, and without nemeses these are in
    the order of sending.  An empty datagram never arrives, not even without a
    nemesis: the network takes it for one whose data a nemesis has lost. *)
Theorem sim_net_faithful {B : Build} {VD : VecDequeStd} {RC : RandCrate} {HI : HashIter} n eps h rng r evs :
  built n eps h → Forall (event_ok eps) evs →
  ∃ log s, net_run (E:=Empty_set) eps evs (mkNet h rng r) = Ok (log, s) ∧
    (∀ a b d, d ∈ got_on a b log → d ∈ sent_on a b log ∧ is_Some (route eps a b)) ∧
    ∀ a b c, route eps a b = Some c →
      ∃ ch ns, nh_chans (net_heap s) !! c = Some ch ∧ nemeses_on eps a b = Some ns ∧
        let got := got_on a b log ++ payload (vd_list ch) in
        let sent := filter (λ d, d ≠ []) (sent_on a b log) in
        got ⊆+ sent ∧ (lossless ns = true → got ≡ₚ sent) ∧ (ns = [] → got = sent).
Proof.
  intros Hb Hev. destruct (run_flows (E:=Empty_set) n eps h evs [] _ (built_wired _ _ _ Hb) (built_flows _ _ _ rng r Hb) Hev)
    as (log & s & Hrun & [F1 F2]).
  exists log, s. cbn [app] in F1, F2. split_and!; [done| |].
  - intros a b d Hd. pose proof (F2 _ _ _ Hd) as [c Hc]. split; [|by exists c].
    destruct (F1 _ _ _ Hc) as (ch & ns & _ & _ & [C1 _ _]).
    assert (d ∈ filter (λ d, d ≠ []) (sent_on a b log)) as Hs by (eapply elem_of_submseteq; [|exact C1]; apply elem_of_app; by left).
    by apply list_elem_of_filter in Hs as [_ Hs].
  - intros a b c Hc. destruct (F1 _ _ _ Hc) as (ch & ns & Hch & Hns & [C1 C2 C3]). by exists ch, ns.
Qed.

Section carries.
Context {B : Build} {BC : BytesCrate} {VD : VecDequeStd} {RC : RandCrate} {HI : HashIter}.

Lemma carries_nonempty d f : carries d f → d ≠ [].
Proof. intros (s & l & Hr & _) ->. discriminate Hr. Qed.

Lemma got_on_answers a b log d : d ∈ got_on a b log ↔ Ready (inr (d, a)) ∈ answers_of b log.
Proof.
  unfold got_on, answers_of. rewrite !list_elem_of_bind. split; intros (o & Hd & Ho); exists o; (split; [|done]);
    destruct o as [|b' d' a'|b']; repeat case_bool_decide; set_solver.
Qed.
End carries.

(** C7. The simulated network is a network for the sessions.  After any use of it in
    which endpoints send to those they are connected with, the socket of an endpoint
    hands over all that is in flight when it is polled often enough after the delays:
    of every connection without [RandomDataLost], each datagram that was sent and is
    not empty as often as it was sent, and in order if there is no nemesis; an empty
    datagram never arrives.  And if no datagram that the endpoint received, from
    whomever, makes the packet decoder panic, then a session whose datagrams took
    this way, with every reliable frame in one of them, has had the network that
    its delivery needs. *)
Theorem sim_net_delivers {B : Build} {BC : BytesCrate} {VD : VecDequeStd} {RC : RandCrate} {HI : HashIter} n eps h rng r evs :
  built n eps h → Forall (event_ok eps) evs →
  ∃ log s, net_run (E:=Empty_set) eps evs (mkNet h rng r) = Ok (log, s) ∧
    ∀ now waker b e k, eps !! b = Some e → all_due now (hash_iter (inboxes e)) (net_heap s) →
      (box_total (hash_iter (inboxes e)) (net_heap s) ≤ k)%nat →
      ∃ os s', net_run (E:=Empty_set) eps (replicate k (NetRecv now waker b)) s = Ok (os, s') ∧
        ∀ a c ns, route eps a b = Some c → nemeses_on eps a b = Some ns → lossless ns = true →
          let sent := sent_on a b log in
          let got := got_on a b (log ++ os) in
          got ≡ₚ filter (λ d, d ≠ []) sent ∧ (ns = [] → got = filter (λ d, d ≠ []) sent) ∧
          ∀ frames, Forall harmless (answers_of b (log ++ os)) →
            (∀ f, f ∈ frames → numbered f → ∃ d, d ∈ sent ∧ carries d f) →
            network a frames ((λ d, (d, b)) <$> sent) (answers_of b (log ++ os)).
Proof.
  intros Hb Hev. pose proof (built_wired _ _ _ Hb) as Hw.
  destruct (run_flows (E:=Empty_set) n eps h evs [] _ Hw (built_flows _ _ _ rng r Hb) Hev) as (log & s & Hrun & Hf).
  exists log, s. split; [done|]. intros now waker b e k He Hdue Hk. cbn [app] in Hf.
  destruct (polls_drain (E:=Empty_set) n eps h now waker b e k log s Hw Hf He Hdue Hk) as (os & s' & Hr & [F1 F2] & Hz & Hs).
  exists os, s'. split; [done|]. intros a c ns Hc Hns Hl sent got.
  destruct (F1 _ _ _ Hc) as (ch & ns' & Hch & Hns' & [C1 C2 C3]). rewrite Hns in Hns'. injection Hns' as <-.
  assert (vd_list ch = []) as Hnil.
  { destruct (boxes_of n eps h b e Hw He) as (_ & _ & Hbox). apply Hbox in Hc. clear -Hz Hc Hch. unfold box_total in Hz.
    apply list_elem_of_split in Hc as (l1 & l2 & Hl). rewrite Hl, sum_list_with_app in Hz. cbn in Hz. rewrite Hch in Hz.
    apply nil_length_inv. lia. }
  rewrite Hnil in C1, C2, C3. change (payload []) with (@nil (list Z)) in *. rewrite app_nil_r, Hs in *.
  split_and!; [by apply C2|done|]. intros frames Hh Hfr. split; [done| |].
  - intros d Hd%got_on_answers. rewrite <-list_fmap_compose, list_fmap_id.
    rewrite (C2 Hl) in Hd. by apply list_elem_of_filter in Hd as [_ Hd].
  - intros f Hin Hnum. destruct (Hfr f Hin Hnum) as (d & Hd & Hca). exists d. split; [|done].
    apply got_on_answers. rewrite (C2 Hl). apply list_elem_of_filter. split; [by eapply carries_nonempty|done].
Qed.

(** ** The network of the test of the socket, and a session over it *)
Section sample_net.
Local Instance sim_build : Build := true.
Local Instance sim_bytes : BytesCrate := bytes_reference.
Local Instance sim_deque : VecDequeStd := deque_reference.
Local Instance sim_rand : RandCrate := rand_reference.
Local Instance sim_iter : HashIter := hash_iter_reference.

Definition sim_addr (port : Z) : SocketAddr := V4 2130706433 port.

Definition f32_002 : f32 := S754_finite false 10737418 (-29).
Definition f32_02 : f32 := S754_finite false 13421773 (-26).

(** Two endpoints, with nemeses of odds 0.02 on what the first one sends. *)
Definition test_socket_setup : list setup_op :=
  [AddEndpoint; AddEndpoint; Connect (sim_addr 1) (sim_addr 2);
   AddNemesis (sim_addr 1) (sim_addr 2) (RandomDataLost f32_002);
   AddNemesis (sim_addr 1) (sim_addr 2) (RandomDataDisorder f32_002 f32_02);
   AddNemesis (sim_addr 1) (sim_addr 2) (RandomNetDelay f32_002 1000000000)].

Definition sample_setup (ops : list setup_op) : SimNet * gmap SocketAddr Endpoint * NetHeap :=
  match setup ops (SimNet_bind (IpV4 2130706433)) ∅ (mkNetHeap 0 ∅) with
  | Ok x => x
  | _ => (SimNet_bind (IpV4 2130706433), ∅, mkNetHeap 0 ∅)
  end.

Definition sample_eps (ops : list setup_op) : gmap SocketAddr Endpoint := (sample_setup ops).1.2.

Lemma sample_setup_built ops : built (sample_setup ops).1.1 (sample_eps ops) (sample_setup ops).2.
Proof.
  unfold sample_eps, sample_setup. destruct (setup _ _ _ _) as [[[n eps] h]| |] eqn:Hs; [|apply built_bind..].
  eapply setup_built; [apply built_bind|exact Hs].
Qed.

Definition sample_start (ops : list setup_op) : Net := mkNet (sample_setup ops).2 (seed_from_u64 0) Reactor_new.

(** The datagrams of the session, with a poll after the first two. *)
Definition sim_events : list net_event :=
  let send d := NetSend 0 (sim_addr 1) d.1 (sim_addr 2) in
  (send <$> take 2 session_datagrams) ++ [NetRecv 1 0 (sim_addr 2)] ++ (send <$> drop 2 session_datagrams).

Definition event_okb (eps : gmap SocketAddr Endpoint) (ev : net_event) : bool :=
  match ev with
  | NetSend _ a _ b => if route eps a b is Some _ then true else false
  | NetRecv _ _ b => if eps !! b is Some _ then true else false
  end.

Lemma event_ok_checked eps evs : forallb (event_okb eps) evs = true → Forall (event_ok eps) evs.
Proof.
  rewrite forallb_forall. intros H. apply Forall_forall. intros ev Hev%list_elem_of_In%H. destruct ev; cbn in *.
  - destruct (route _ _ _); [by eauto|done].
  - destruct (eps !! _); [by eauto|done].
Qed.

Definition sample_run (ops : list setup_op) : list net_obs * Net :=
  match net_run (E:=Empty_set) (sample_eps ops) sim_events (sample_start ops) with Ok x => x | _ => ([], sample_start ops) end.

(** Some of the datagrams are lost, and some are still in flight. *)
Lemma sim_net_faithful_witness :
  ∃ log s, net_run (E:=Empty_set) (sample_eps test_socket_setup) sim_events (sample_start test_socket_setup) = Ok (log, s) ∧
    ∀ d, d ∈ got_on (sim_addr 1) (sim_addr 2) log → d ∈ sent_on (sim_addr 1) (sim_addr 2) log.
Proof.
  destruct (sim_net_faithful _ _ _ (seed_from_u64 0) Reactor_new sim_events (sample_setup_built test_socket_setup))
    as (log & s & Hr & Hin & _).
  { apply event_ok_checked. vm_compute. reflexivity. }
  exists log, s. split_and!; [exact Hr|intros d Hd; exact (proj1 (Hin _ _ _ Hd))].
Defined.

(** The same without the loss of data, and a poll of four seconds later. *)
Definition lossless_setup : list setup_op := take 3 test_socket_setup ++ drop 4 test_socket_setup.

Definition framesb (ds : list (list Z)) (frames : list Frame) : bool :=
  forallb (λ f, match reliable_frame_index f with Some _ => existsb (λ d, carriesb d f) ds | None => true end) frames.

Lemma frames_checked ds frames :
  framesb ds frames = true → ∀ f, f ∈ frames → numbered f → ∃ d, d ∈ ds ∧ carries d f.
Proof.
  unfold framesb. rewrite forallb_forall. intros H f Hf%list_elem_of_In%H [i Hi]. rewrite Hi in Hf.
  apply existsb_exists in Hf as (d & Hd%list_elem_of_In & Hc). exists d. split; [done|]. unfold carriesb in Hc.
  destruct (Packet_read d) as [[[?|[s|?|?]] l]| |] eqn:Hr; try done. exists s, l. split; [done|]. by apply bool_decide_eq_true in Hc.
Qed.

Lemma sim_net_delivers_witness :
  ∃ log s os s', net_run (E:=Empty_set) (sample_eps lossless_setup) sim_events (sample_start lossless_setup) = Ok (log, s) ∧
    net_run (E:=Empty_set) (sample_eps lossless_setup) (replicate 5 (NetRecv 4000000000 0 (sim_addr 2))) s = Ok (os, s') ∧
    got_on (sim_addr 1) (sim_addr 2) (log ++ os) ≡ₚ session_datagrams.*1 ∧
    network (sim_addr 1) session_sent ((λ d, (d, sim_addr 2)) <$> sent_on (sim_addr 1) (sim_addr 2) log)
      (answers_of (sim_addr 2) (log ++ os)).
Proof.
  destruct (sim_net_delivers _ _ _ (seed_from_u64 0) Reactor_new sim_events (sample_setup_built lossless_setup))
    as (log & s & Hr & H).
  { apply event_ok_checked. vm_compute. reflexivity. }
  assert (sample_run lossless_setup = (log, s)) as Hlog by (unfold sample_run; unfold sample_start; rewrite Hr; reflexivity).
  assert (∃ e, sample_eps lossless_setup !! sim_addr 2 = Some e ∧ hash_iter (inboxes e) = [(sim_addr 1, 0%nat)]) as (e & He & Hbox).
  { eexists. split; vm_compute; reflexivity. }
  destruct (H 4000000000 0%nat (sim_addr 2) e 5%nat He) as (os & s' & Hos & Hall).
  - rewrite Hbox. intros x ch Hx%list_elem_of_singleton Hch. subst x. cbn in Hch.
    assert (s = (sample_run lossless_setup).2) as -> by (rewrite Hlog; reflexivity). clear -Hch.
    vm_compute in Hch. injection Hch as <-. cbn. repeat (apply Forall_cons; split; [cbn; lia|]). constructor.
  - rewrite Hbox. assert (s = (sample_run lossless_setup).2) as -> by (rewrite Hlog; reflexivity). clear.
    apply Nat.leb_le. vm_compute. reflexivity.
  - destruct (Hall (sim_addr 1) 0%nat (drop 4 test_socket_setup ≫= λ o, match o with AddNemesis _ _ x => [x] | _ => [] end)) as (H1 & _ & H2);
      [vm_compute; reflexivity..|].
    assert (sent_on (sim_addr 1) (sim_addr 2) log = session_datagrams.*1) as Hsent.
    { assert (log = (sample_run lossless_setup).1) as -> by (rewrite Hlog; reflexivity). vm_compute. reflexivity. }
    exists log, s, os, s'. split_and!; [exact Hr|exact Hos| |].
    + rewrite H1, Hsent. vm_compute. reflexivity.
    + apply H2.
      * assert (os = match net_run (E:=Empty_set) (sample_eps lossless_setup) (replicate 5 (NetRecv 4000000000 0 (sim_addr 2)))
          (sample_run lossless_setup).2 with Ok (os, _) => os | _ => [] end) as -> by (rewrite Hlog; cbn [snd]; rewrite Hos; reflexivity).
        assert (log = (sample_run lossless_setup).1) as -> by (rewrite Hlog; reflexivity). clear.
        apply harmless_checked. vm_compute. reflexivity.
      * rewrite Hsent. clear. apply frames_checked. vm_compute. reflexivity.
Defined.
End sample_net.
