(* ===== verification/Inet.v ===== *)
(** * Network headers (xdp/ebpf/src/inet)

    The headers that the kernel program reads, as the byte layouts of the source:
    integers in network order, the bit fields of IPv4 and IPv6, Ethernet, IP and
    UDP headers.  The theorems: the integers keep their value on either kind of
    machine, the fields of a word can be set independently of each other, and a
    header is its bytes. *)
From S2P Require Import Prelude Bytes.
Open Scope Z_scope.

(** ** Integers in network order (zerocopy.rs)

    [little_endian] is the byte order of the machine.  A value of [U16], [U32], ...
    is the list of its bytes; [n] is their number. *)
Class Endian := little_endian : bool.

(** The [zerocopy] crate: [byteorder::U16::<NetworkEndian>::new] and its siblings. *)
Class Zerocopy := {
  byteorder_new : nat → Z → list Z;
  byteorder_new_spec n v : byteorder_new n v = be_bytes n v;
}.

Program Definition zerocopy_reference : Zerocopy := {| byteorder_new := be_bytes |}.
Solve Obligations with done.

Section network_integer.
Context {En : Endian} {Zc : Zerocopy}.

Definition from_ne_bytes (l : list Z) : Z := if little_endian then le_value l else be_value l.
Definition to_ne_bytes (n : nat) (v : Z) : list Z := if little_endian then le_bytes n v else be_bytes n v.
Definition to_be (n : nat) (v : Z) : Z := if little_endian then be_value (le_bytes n v) else v.

Definition net_get_be (x : list Z) : Z := from_ne_bytes x.
Definition net_get (n : nat) (x : list Z) : Z := to_be n (net_get_be x).
Definition net_set (n : nat) (v : Z) : list Z := be_bytes n v.
Definition net_set_be (n : nat) (v : Z) : list Z := to_ne_bytes n v.
Definition net_from (n : nat) (v : Z) : list Z := byteorder_new n v.

(** [Ord::cmp] compares the raw words, [PartialOrd<u16>] the values. *)
Definition net_cmp (x y : list Z) : comparison := net_get_be x ?= net_get_be y.
Definition net_eq (x y : list Z) : bool := match net_cmp x y with Eq => true | _ => false end.
Definition net_cmp_native (n : nat) (x : list Z) (v : Z) : comparison := net_get n x ?= v.
Definition net_eq_native (n : nat) (x : list Z) (v : Z) : bool :=
  match net_cmp_native n x v with Eq => true | _ => false end.

(** An integer of [n] bytes. *)
Definition net_ok (n : nat) (x : list Z) : Prop := length x = n ∧ bytes_ok x.

Lemma net_get_value n x : net_ok n x → net_get n x = be_value x.
Proof.
  intros [<- Hx]. unfold net_get, to_be, net_get_be, from_ne_bytes. destruct little_endian; [|done].
  by rewrite le_bytes_value.
Qed.

Lemma pow256 n : 256 ^ Z.of_nat n = 2 ^ (8 * Z.of_nat n).
Proof. change 256 with (2 ^ 8). rewrite <-Z.pow_mul_r by lia. done. Qed.

Lemma net_set_ok n v : net_ok n (net_set n v).
Proof. split; [apply length_be_bytes|apply be_bytes_ok]. Qed.

Lemma net_get_set n v : uint (8 * Z.of_nat n) v → net_get n (net_set n v) = v.
Proof.
  intros Hv. rewrite net_get_value by apply net_set_ok. unfold net_set.
  rewrite be_value_bytes, pow256. by apply Z.mod_small.
Qed.

Lemma net_get_uint n x : net_ok n x → uint (8 * Z.of_nat n) (net_get n x).
Proof.
  intros Hx. rewrite net_get_value by done. destruct Hx as [<- Hx].
  unfold uint. rewrite <-pow256. by apply be_value_bound.
Qed.

Lemma from_ne_bytes_inj n x y : net_ok n x → net_ok n y → from_ne_bytes x = from_ne_bytes y → x = y.
Proof.
  intros [Hx Hbx] [Hy Hby]. unfold from_ne_bytes. destruct little_endian; intros H.
  - rewrite <-(le_bytes_value x), <-(le_bytes_value y) by done. congruence.
  - rewrite <-(be_bytes_value x), <-(be_bytes_value y) by done. congruence.
Qed.

(** The integers of the headers keep their values: whatever the byte order of
    the machine, what was stored is read back, its bytes are those of the wire, and
    equality is equality of the values. *)
Theorem network_integer_exact n v w x :
  uint (8 * Z.of_nat n) v → uint (8 * Z.of_nat n) w → net_ok n x →
  net_get n (net_from n v) = v ∧ net_get n (net_set n v) = v ∧
  net_get_be (net_set_be n v) = v ∧ net_get n x = be_value x ∧ net_set n (net_get n x) = x ∧
  net_eq (net_from n v) (net_from n w) = bool_decide (v = w) ∧
  net_eq_native n x v = bool_decide (net_get n x = v).
Proof.
  intros Hv Hw Hx.
  assert (net_from n v = net_set n v ∧ net_from n w = net_set n w) as [-> ->]
    by (unfold net_from, net_set; by rewrite !byteorder_new_spec).
  split_and!.
  - by apply net_get_set.
  - by apply net_get_set.
  - unfold net_get_be, net_set_be, from_ne_bytes, to_ne_bytes. unfold uint in Hv. rewrite <-pow256 in Hv.
    destruct little_endian; rewrite ?le_value_bytes, ?be_value_bytes; by apply Z.mod_small.
  - by apply net_get_value.
  - rewrite net_get_value by done. destruct Hx as [<- Hx]. by apply be_bytes_value.
  - unfold net_eq, net_cmp, net_get_be. case_bool_decide as Hvw.
    + subst. by rewrite Z.compare_refl.
    + destruct (Z.compare_spec (from_ne_bytes (net_set n v)) (from_ne_bytes (net_set n w))) as [Heq| |]; [|done..].
      exfalso. apply Hvw. apply (from_ne_bytes_inj n) in Heq; [|apply net_set_ok..].
      by rewrite <-(net_get_set n v), <-(net_get_set n w), Heq.
  - unfold net_eq_native, net_cmp_native. destruct (Z.compare_spec (net_get n x) v) as [->| |].
    + by rewrite bool_decide_true.
    + rewrite bool_decide_false; [done|lia].
    + rewrite bool_decide_false; [done|lia].
Qed.

(** The order of two network integers is not the order of their values on a
    little-endian machine: [Ord] compares the raw words. *)
Theorem network_order_raw :
  little_endian = true →
  net_cmp (net_from 2 1) (net_from 2 256) = Gt ∧ net_cmp_native 2 (net_from 2 1) 256 = Lt.
Proof.
  intros He. unfold net_cmp_native, net_cmp, net_get, net_get_be, from_ne_bytes, to_be, net_from.
  rewrite !byteorder_new_spec, He. done.
Qed.
End network_integer.

(** ** Explicit congestion notification (ecn.rs) *)
Inductive ExplicitCongestionNotification := NotEct | Ect1 | Ect0 | Ce.

Global Instance ecn_eq_dec : EqDecision ExplicitCongestionNotification.
Proof. solve_decision. Defined.

Definition ecn_as_u8 (e : ExplicitCongestionNotification) : Z :=
  match e with NotEct => 0 | Ect1 => 1 | Ect0 => 2 | Ce => 3 end.

Definition ecn_default : ExplicitCongestionNotification := NotEct.

Definition ecn_new {E} (ecn_field : Z) : outcome E ExplicitCongestionNotification :=
  match Z.land ecn_field 3 with
  | 0 => Ok NotEct
  | 1 => Ok Ect1
  | 2 => Ok Ect0
  | 3 => Ok Ce
  | _ => Panic
  end.

Definition congestion_experienced (e : ExplicitCongestionNotification) : bool := bool_decide (e = Ce).
Definition using_ecn (e : ExplicitCongestionNotification) : bool := bool_decide (e ≠ NotEct).

(** ** Bit fields of IPv4 (ipv4.rs) *)

(** [x << k] on [u8], and [!x]. *)
Definition shl8 (x k : Z) : Z := wrap 8 (Z.shiftl x k).
Definition not8 (x : Z) : Z := Z.lxor x 255.
Definition not16 (x : Z) : Z := Z.lxor x 65535.

(** [Vihl] and [Tos] are a byte. *)
Definition Vihl_version (v : Z) : Z := Z.shiftr v 4.
Definition Vihl_set_version (value v : Z) : Z := Z.lor (shl8 value 4) (Z.land v 15).
Definition Vihl_header_len (v : Z) : Z := Z.land v 15.
Definition Vihl_set_header_len (value v : Z) : Z := Z.lor (Z.land v 240) (Z.land value 15).

Definition Tos_dscp (v : Z) : Z := Z.shiftr v 2.
Definition Tos_set_dscp (value v : Z) : Z := Z.lor (shl8 value 2) (Z.land v 3).
Definition Tos_ecn {E} (v : Z) : outcome E ExplicitCongestionNotification := ecn_new (Z.land v 3).
Definition Tos_set_ecn (ecn : ExplicitCongestionNotification) (v : Z) : Z :=
  Z.lor (Z.land v (not8 3)) (ecn_as_u8 ecn).

(** [FlagFragment] is a [U16]. *)
Definition FRAGMENT_MASK : Z := 8191.

Section flag_fragment.
Context {En : Endian}.

Definition FlagFragment_get (x : list Z) (mask : Z) : bool := Z.land (net_get 2 x) mask =? mask.

Definition FlagFragment_set (mask : Z) (enabled : bool) (x : list Z) : list Z :=
  let value := net_get 2 x in
  net_set 2 (if enabled then Z.lor value mask else Z.land value (not16 mask)).

Definition reserved (x : list Z) : bool := FlagFragment_get x (2 ^ 15).
Definition set_reserved (enabled : bool) : list Z → list Z := FlagFragment_set (2 ^ 15) enabled.
Definition dont_fragment (x : list Z) : bool := FlagFragment_get x (2 ^ 14).
Definition set_dont_fragment (enabled : bool) : list Z → list Z := FlagFragment_set (2 ^ 14) enabled.
Definition more_fragments (x : list Z) : bool := FlagFragment_get x (2 ^ 13).
Definition set_more_fragments (enabled : bool) : list Z → list Z := FlagFragment_set (2 ^ 13) enabled.
Definition fragment_offset (x : list Z) : Z := Z.land (net_get 2 x) FRAGMENT_MASK.
Definition set_fragment_offset (offset : Z) (x : list Z) : list Z :=
  net_set 2 (Z.lor (Z.land (net_get 2 x) (not16 FRAGMENT_MASK)) (Z.land offset FRAGMENT_MASK)).
End flag_fragment.

(** ** Bit fields of IPv6 (ipv6.rs) *)

(** [Vtcfl]: version, traffic class and flow label, in four octets. *)
Record Vtcfl := mkVtcfl { octet0 : Z; octet1 : Z; octet2 : Z; octet3 : Z }.

Definition Vtcfl_version (v : Vtcfl) : Z := Z.shiftr (octet0 v) 4.
Definition Vtcfl_set_version (version : Z) (v : Vtcfl) : Vtcfl :=
  mkVtcfl (Z.lor (shl8 version 4) (Z.land (octet0 v) 15)) (octet1 v) (octet2 v) (octet3 v).
Definition Vtcfl_dscp (v : Vtcfl) : Z :=
  Z.shiftr (Z.lor (shl8 (octet0 v) 4) (Z.shiftr (octet1 v) 4)) 2.
Definition Vtcfl_set_dscp (value : Z) (v : Vtcfl) : Vtcfl :=
  let value := shl8 value 2 in
  mkVtcfl (Z.lor (Z.land (octet0 v) 240) (Z.shiftr value 4))
    (Z.lor (shl8 value 4) (Z.land (octet1 v) 63)) (octet2 v) (octet3 v).
Definition Vtcfl_ecn {E} (v : Vtcfl) : outcome E ExplicitCongestionNotification :=
  ecn_new (Z.land (Z.shiftr (octet1 v) 4) 3).
Definition Vtcfl_set_ecn (ecn : ExplicitCongestionNotification) (v : Vtcfl) : Vtcfl :=
  mkVtcfl (octet0 v) (Z.lor (Z.land (octet1 v) (not8 (shl8 3 4))) (shl8 (ecn_as_u8 ecn) 4)) (octet2 v) (octet3 v).
Definition Vtcfl_flow_label (v : Vtcfl) : Z :=
  be_value [0; Z.land (octet1 v) 15; octet2 v; octet3 v].
Definition Vtcfl_set_flow_label (flow_label : Z) (v : Vtcfl) : Vtcfl :=
  let bytes := be_bytes 4 flow_label in
  mkVtcfl (octet0 v) (Z.lor (Z.land (octet1 v) 240) (Z.land (bytes !!! 1%nat) 15)) (bytes !!! 2%nat) (bytes !!! 3%nat).

Definition Vtcfl_ok (v : Vtcfl) : Prop :=
  is_byte (octet0 v) ∧ is_byte (octet1 v) ∧ is_byte (octet2 v) ∧ is_byte (octet3 v).

(** ** The fields of a word are independent *)

Lemma testbit_above n x i : uint n x → 0 ≤ n ≤ i → Z.testbit x i = false.
Proof.
  intros [H0 H1] Hi. rewrite <-(Z.mod_small x (2 ^ n)) by done. apply Z.mod_pow2_bits_high. lia.
Qed.

Lemma shl8_bits x k i : 0 ≤ i → Z.testbit (shl8 x k) i = if decide (i < 8) then Z.testbit x (i - k) else false.
Proof.
  intros Hi. unfold shl8, wrap. case_decide.
  - rewrite Z.mod_pow2_bits_low by lia. by apply Z.shiftl_spec.
  - apply Z.mod_pow2_bits_high. lia.
Qed.

Lemma mod_bits x k i : 0 ≤ i → 0 ≤ k → Z.testbit (x mod 2 ^ k) i = if decide (i < k) then Z.testbit x i else false.
Proof. intros Hi Hk. case_decide; [apply Z.mod_pow2_bits_low|apply Z.mod_pow2_bits_high]; lia. Qed.

(** Numbers are equal when their first eight bits are and they have no others. *)
Lemma bits8_eq a b :
  (∀ i, 8 ≤ i → Z.testbit a i = Z.testbit b i) →
  Z.testbit a 0 = Z.testbit b 0 → Z.testbit a 1 = Z.testbit b 1 → Z.testbit a 2 = Z.testbit b 2 →
  Z.testbit a 3 = Z.testbit b 3 → Z.testbit a 4 = Z.testbit b 4 → Z.testbit a 5 = Z.testbit b 5 →
  Z.testbit a 6 = Z.testbit b 6 → Z.testbit a 7 = Z.testbit b 7 → a = b.
Proof.
  intros. apply Z.bits_inj'. intros i Hi. destruct (decide (8 ≤ i)); [auto|].
  assert (i = 0 ∨ i = 1 ∨ i = 2 ∨ i = 3 ∨ i = 4 ∨ i = 5 ∨ i = 6 ∨ i = 7) as Hc by lia.
  repeat destruct Hc as [-> |Hc]; by subst.
Qed.

(** Equality of two bytes made from others by masks and shifts. *)
Ltac bits_step :=
  match goal with
  | |- context [Z.testbit ?c (Z0 - Zpos ?k)] => rewrite (Z.testbit_neg_r c (Z0 - Zpos k)) by lia
  | |- context [Z.testbit ?c (Zpos ?j - Zpos ?k)] => rewrite (Z.testbit_neg_r c (Zpos j - Zpos k)) by lia
  | |- context [Z.testbit (Z.lor _ _) _] => rewrite Z.lor_spec
  | |- context [Z.testbit (Z.land _ _) _] => rewrite Z.land_spec
  | |- context [Z.testbit (Z.shiftr _ _) _] => rewrite Z.shiftr_spec by lia
  | |- context [Z.testbit (shl8 _ _) _] => rewrite shl8_bits by lia; first [rewrite decide_True by lia|rewrite decide_False by lia]
  | |- context [Z.testbit (_ mod _) _] => rewrite mod_bits by lia; first [rewrite decide_True by lia|rewrite decide_False by lia]
  end.

Ltac bits_constants :=
  repeat match goal with
  | |- context [Z.testbit ?c ?i] =>
      let i' := eval vm_compute in i in
      lazymatch c with
      | Z0 => change (Z.testbit c i) with false
      | Zpos _ => let b := eval vm_compute in (Z.testbit c i) in change (Z.testbit c i) with b
      | _ =>
          lazymatch i' with
          | Zneg _ => rewrite (Z.testbit_neg_r c i) by lia
          | _ => first [rewrite (testbit_above 8 c i) by first [assumption|lia]
                       |progress change (Z.testbit c i) with (Z.testbit c i')]
          end
      end
  end.

Ltac bits8 :=
  apply bits8_eq;
  [ let i := fresh "i" in intros i ?; repeat bits_step;
    repeat match goal with
    | |- context [Z.testbit ?x ?j] => rewrite (testbit_above 8 x j) by first [assumption|(unfold uint; lia)|lia]
    end; rewrite ?andb_false_r, ?andb_false_l, ?orb_false_r; reflexivity
  | repeat bits_step; bits_constants;
    rewrite ?andb_false_r, ?andb_true_r, ?orb_false_r, ?andb_false_l, ?orb_false_l; reflexivity .. ].

Definition ecn_code (m : outcome Empty_set ExplicitCongestionNotification) : Z :=
  match m with Ok e => ecn_as_u8 e | _ => -1 end.

Lemma ecn_code_inj (m : outcome Empty_set ExplicitCongestionNotification) e :
  ecn_code m = ecn_as_u8 e → m = Ok e.
Proof. destruct m as [e'|[]|]; [|by destruct e]. by destruct e', e. Qed.

Lemma ecn_new_code (v : Z) : ecn_code (ecn_new v) = Z.land v 3.
Proof.
  unfold ecn_new. change 3 with (Z.ones 2) at 2. rewrite Z.land_ones by lia.
  change 3 with (Z.ones 2). rewrite Z.land_ones by lia. change (2 ^ 2) with 4.
  pose proof (Z.mod_pos_bound v 4). assert (v mod 4 = 0 ∨ v mod 4 = 1 ∨ v mod 4 = 2 ∨ v mod 4 = 3) as Hc by lia.
  by destruct Hc as [-> | [-> | [-> | ->]]].
Qed.

(** The fields of the first two octets of an IPv4 header can be set one by one:
    each takes the value given (cut to its width) and leaves the other as it was. *)
Theorem ipv4_fields_independent v x e :
  is_byte v → is_byte x →
  Vihl_version (Vihl_set_version x v) = x mod 16 ∧ Vihl_header_len (Vihl_set_version x v) = Vihl_header_len v ∧
  Vihl_header_len (Vihl_set_header_len x v) = x mod 16 ∧ Vihl_version (Vihl_set_header_len x v) = Vihl_version v ∧
  Tos_dscp (Tos_set_dscp x v) = x mod 64 ∧ Tos_ecn (E:=Empty_set) (Tos_set_dscp x v) = Tos_ecn v ∧
  Tos_ecn (E:=Empty_set) (Tos_set_ecn e v) = Ok e ∧ Tos_dscp (Tos_set_ecn e v) = Tos_dscp v.
Proof.
  intros Hv Hx. change 16 with (2 ^ 4). change 64 with (2 ^ 6). split_and!.
  - unfold Vihl_version, Vihl_set_version. bits8.
  - unfold Vihl_header_len, Vihl_set_version. bits8.
  - unfold Vihl_header_len, Vihl_set_header_len. bits8.
  - unfold Vihl_version, Vihl_set_header_len. bits8.
  - unfold Tos_dscp, Tos_set_dscp. bits8.
  - unfold Tos_ecn, Tos_set_dscp. f_equal. bits8.
  - apply ecn_code_inj. unfold Tos_ecn, Tos_set_ecn, not8. rewrite ecn_new_code. destruct e; cbn [ecn_as_u8]; bits8.
  - unfold Tos_dscp, Tos_set_ecn, not8. destruct e; cbn [ecn_as_u8]; bits8.
Qed.

Section flag_fragment_spec.
Context {En : Endian}.

(** The flag of a mask with one bit is that bit. *)
Lemma FlagFragment_get_bit x k : 0 ≤ k → FlagFragment_get x (2 ^ k) = Z.testbit (net_get 2 x) k.
Proof.
  intros Hk. unfold FlagFragment_get. generalize (net_get 2 x). intros v.
  assert (Z.land v (2 ^ k) = if Z.testbit v k then 2 ^ k else 0) as ->.
  { apply Z.bits_inj'. intros i Hi. rewrite Z.land_spec.
    destruct (decide (i = k)) as [->|Hne].
    - rewrite Z.pow2_bits_true by lia. rewrite andb_true_r. destruct (Z.testbit v k) eqn:E.
      + by rewrite Z.pow2_bits_true.
      + by rewrite Z.bits_0.
    - rewrite Z.pow2_bits_false by lia. rewrite andb_false_r. destruct (Z.testbit v k).
      + by rewrite Z.pow2_bits_false by lia.
      + by rewrite Z.bits_0. }
  destruct (Z.testbit v k); [apply Z.eqb_refl|]. apply Z.eqb_neq. pose proof (Z.pow_pos_nonneg 2 k). lia.
Qed.

Lemma uint_of_bits n x : 0 ≤ n → 0 ≤ x → (∀ i, n ≤ i → Z.testbit x i = false) → uint n x.
Proof.
  intros Hn Hx Hb. split; [done|]. assert (x = x mod 2 ^ n) as ->; [|apply Z.mod_pos_bound; lia].
  apply Z.bits_inj'. intros i Hi. destruct (decide (i < n)).
  - by rewrite Z.mod_pow2_bits_low by lia.
  - rewrite Z.mod_pow2_bits_high by lia. apply Hb. lia.
Qed.

(** What is stored, bit by bit. *)
Lemma FlagFragment_set_bits x k e i :
  net_ok 2 x → 0 ≤ k < 16 → 0 ≤ i →
  Z.testbit (net_get 2 (FlagFragment_set (2 ^ k) e x)) i = if decide (i = k) then e else Z.testbit (net_get 2 x) i.
Proof.
  intros Hx Hk Hi. pose proof (net_get_uint 2 x Hx) as Hv. change (8 * Z.of_nat 2) with 16 in Hv.
  unfold FlagFragment_set. set (v := net_get 2 x) in *.
  assert (∀ j, 0 ≤ j → Z.testbit (if e then Z.lor v (2 ^ k) else Z.land v (not16 (2 ^ k))) j =
    if decide (j = k) then e else Z.testbit v j) as Hbits.
  { intros j Hj. destruct e.
    - rewrite Z.lor_spec. case_decide as Hd.
      + subst. rewrite Z.pow2_bits_true by lia. apply orb_true_r.
      + rewrite Z.pow2_bits_false by lia. apply orb_false_r.
    - unfold not16. rewrite Z.land_spec, Z.lxor_spec. change 65535 with (Z.ones 16). rewrite Z.testbit_ones by lia.
      case_decide as Hd.
      + subst. rewrite Z.pow2_bits_true by lia. rewrite (proj2 (Z.leb_le _ _)), (proj2 (Z.ltb_lt _ _)) by lia. apply andb_false_r.
      + rewrite Z.pow2_bits_false by lia. rewrite (proj2 (Z.leb_le 0 j)) by lia. cbn.
        destruct (Z.ltb_spec j 16); [apply andb_true_r|]. by rewrite (testbit_above 16 v j) by (done || lia). }
  rewrite net_get_set; [by apply Hbits|]. apply uint_of_bits; [lia| |].
  - destruct Hv. destruct e; [apply Z.lor_nonneg|apply Z.land_nonneg]; lia.
  - intros j Hj. rewrite Hbits by lia. rewrite decide_False by lia. apply (testbit_above 16); [done|lia].
Qed.

Lemma set_fragment_offset_bits x off i :
  net_ok 2 x → uint 16 off → 0 ≤ i →
  Z.testbit (net_get 2 (set_fragment_offset off x)) i =
    if decide (i < 13) then Z.testbit off i else Z.testbit (net_get 2 x) i.
Proof.
  intros Hx Ho Hi. pose proof (net_get_uint 2 x Hx) as Hv. change (8 * Z.of_nat 2) with 16 in Hv.
  unfold set_fragment_offset. set (v := net_get 2 x) in *.
  assert (∀ j, 0 ≤ j → Z.testbit (Z.lor (Z.land v (not16 FRAGMENT_MASK)) (Z.land off FRAGMENT_MASK)) j =
    if decide (j < 13) then Z.testbit off j else Z.testbit v j) as Hbits.
  { intros j Hj. unfold not16, FRAGMENT_MASK. change 65535 with (Z.ones 16). change 8191 with (Z.ones 13).
    rewrite Z.lor_spec, !Z.land_spec, Z.lxor_spec, !Z.testbit_ones by lia.
    rewrite (proj2 (Z.leb_le 0 j)) by lia. cbn [andb]. case_decide as Hd.
    - rewrite (proj2 (Z.ltb_lt j 13)), (proj2 (Z.ltb_lt j 16)) by lia. cbn. by rewrite andb_false_r, andb_true_r.
    - rewrite (proj2 (Z.ltb_ge j 13)) by lia. cbn. rewrite andb_false_r, orb_false_r.
      destruct (Z.ltb_spec j 16); [apply andb_true_r|]. by rewrite (testbit_above 16 v j) by (done || lia). }
  rewrite net_get_set; [by apply Hbits|]. apply uint_of_bits; [lia| |].
  - unfold FRAGMENT_MASK. rewrite Z.lor_nonneg, !Z.land_nonneg. split; right; vm_compute; done.
  - intros j Hj. rewrite Hbits by lia. rewrite decide_False by lia. apply (testbit_above 16); [done|lia].
Qed.

Lemma fragment_offset_ext x y :
  (∀ i, 0 ≤ i < 13 → Z.testbit (net_get 2 x) i = Z.testbit y i) → fragment_offset x = Z.land y FRAGMENT_MASK.
Proof.
  intros H. unfold fragment_offset, FRAGMENT_MASK. change 8191 with (Z.ones 13).
  apply Z.bits_inj'. intros i Hi. rewrite !Z.land_spec, !Z.testbit_ones by lia.
  rewrite (proj2 (Z.leb_le 0 i)) by lia. cbn [andb].
  destruct (Z.ltb_spec i 13); [|by rewrite !andb_false_r]. by rewrite H by lia.
Qed.

(** The three flags and the offset of a fragment share a word and can be set
    one by one. *)
Theorem FlagFragment_fields_independent x k e off :
  net_ok 2 x → 13 ≤ k < 16 → uint 16 off →
  FlagFragment_get (FlagFragment_set (2 ^ k) e x) (2 ^ k) = e ∧
  (∀ j, 13 ≤ j < 16 → j ≠ k → FlagFragment_get (FlagFragment_set (2 ^ k) e x) (2 ^ j) = FlagFragment_get x (2 ^ j)) ∧
  fragment_offset (FlagFragment_set (2 ^ k) e x) = fragment_offset x ∧
  fragment_offset (set_fragment_offset off x) = off mod 2 ^ 13 ∧
  FlagFragment_get (set_fragment_offset off x) (2 ^ k) = FlagFragment_get x (2 ^ k).
Proof.
  intros Hx Hk Ho. split_and!.
  - rewrite FlagFragment_get_bit, FlagFragment_set_bits by (done || lia). by rewrite decide_True.
  - intros j Hj Hne. rewrite !FlagFragment_get_bit, FlagFragment_set_bits by (done || lia). by rewrite decide_False.
  - apply fragment_offset_ext. intros i Hi. rewrite FlagFragment_set_bits by (done || lia). rewrite decide_False by lia. done.
  - rewrite (fragment_offset_ext _ off).
    + unfold FRAGMENT_MASK. change 8191 with (Z.ones 13). by rewrite Z.land_ones by lia.
    + intros i Hi. rewrite set_fragment_offset_bits by (done || lia). by rewrite decide_True by lia.
  - rewrite !FlagFragment_get_bit, set_fragment_offset_bits by (done || lia). by rewrite decide_False by lia.
Qed.
End flag_fragment_spec.

Lemma vtcfl_laws o x :
  is_byte o → is_byte x →
  Z.shiftr (Z.lor (shl8 x 4) (Z.land o 15)) 4 = x mod 16 ∧
  shl8 (Z.lor (shl8 x 4) (Z.land o 15)) 4 = shl8 o 4 ∧
  Z.shiftr (shl8 (Z.lor (Z.land o 240) (Z.shiftr (shl8 x 2) 4)) 4) 2 = Z.land x 60 ∧
  Z.shiftr (Z.lor (Z.land o 240) (Z.shiftr (shl8 x 2) 4)) 4 = Z.shiftr o 4 ∧
  Z.shiftr (Z.shiftr (Z.lor (shl8 (shl8 x 2) 4) (Z.land o 63)) 4) 2 = Z.land x 3 ∧
  Z.land (Z.shiftr (Z.lor (shl8 (shl8 x 2) 4) (Z.land o 63)) 4) 3 = Z.land (Z.shiftr o 4) 3 ∧
  Z.land (Z.lor (shl8 (shl8 x 2) 4) (Z.land o 63)) 15 = Z.land o 15 ∧
  Z.lor (Z.land x 60) (Z.land x 3) = x mod 64 ∧
  Z.shiftr (Z.lor (Z.land o 240) (Z.land x 15)) 4 = Z.shiftr o 4 ∧
  Z.land (Z.lor (Z.land o 240) (Z.land x 15)) 15 = Z.land x 15 ∧
  ∀ e, let o' := Z.lor (Z.land o (not8 (shl8 3 4))) (shl8 (ecn_as_u8 e) 4) in
    Z.land (Z.shiftr o' 4) 3 = ecn_as_u8 e ∧ Z.shiftr (Z.shiftr o' 4) 2 = Z.shiftr (Z.shiftr o 4) 2 ∧
    Z.land o' 15 = Z.land o 15.
Proof.
  intros Ho Hx. change 16 with (2 ^ 4). change 64 with (2 ^ 6). split_and!; try bits8.
  intros e. cbn zeta. change (not8 (shl8 3 4)) with 207. destruct e; cbn [ecn_as_u8]; split_and!; bits8.
Qed.

Lemma Vtcfl_dscp_parts v :
  Vtcfl_dscp v = Z.lor (Z.shiftr (shl8 (octet0 v) 4) 2) (Z.shiftr (Z.shiftr (octet1 v) 4) 2).
Proof. apply Z.shiftr_lor. Qed.

Lemma be_value_4 a b c d : be_value [a; b; c; d] = ((a * 256 + b) * 256 + c) * 256 + d.
Proof. unfold be_value. change (reverse [a; b; c; d]) with [d; c; b; a]. cbv [le_value]. lia. Qed.

Lemma be_bytes_4 x : be_bytes 4 x = [x / 2 ^ 24 mod 256; x / 2 ^ 16 mod 256; x / 2 ^ 8 mod 256; x mod 256].
Proof.
  unfold be_bytes. cbv [le_bytes]. rewrite !Z.div_div by lia. done.
Qed.

(** Version, code point, congestion bits and flow label of an IPv6 header overlap
    the octets of the header, and can be set one by one. *)
Theorem Vtcfl_fields_independent v x e label :
  Vtcfl_ok v → is_byte x → uint 32 label →
  (Vtcfl_version (Vtcfl_set_version x v) = x mod 16 ∧ Vtcfl_dscp (Vtcfl_set_version x v) = Vtcfl_dscp v ∧
   Vtcfl_ecn (E:=Empty_set) (Vtcfl_set_version x v) = Vtcfl_ecn v ∧
   Vtcfl_flow_label (Vtcfl_set_version x v) = Vtcfl_flow_label v) ∧
  (Vtcfl_dscp (Vtcfl_set_dscp x v) = x mod 64 ∧ Vtcfl_version (Vtcfl_set_dscp x v) = Vtcfl_version v ∧
   Vtcfl_ecn (E:=Empty_set) (Vtcfl_set_dscp x v) = Vtcfl_ecn v ∧
   Vtcfl_flow_label (Vtcfl_set_dscp x v) = Vtcfl_flow_label v) ∧
  (Vtcfl_ecn (E:=Empty_set) (Vtcfl_set_ecn e v) = Ok e ∧ Vtcfl_version (Vtcfl_set_ecn e v) = Vtcfl_version v ∧
   Vtcfl_dscp (Vtcfl_set_ecn e v) = Vtcfl_dscp v ∧ Vtcfl_flow_label (Vtcfl_set_ecn e v) = Vtcfl_flow_label v) ∧
  (Vtcfl_flow_label (Vtcfl_set_flow_label label v) = label mod 2 ^ 20 ∧
   Vtcfl_version (Vtcfl_set_flow_label label v) = Vtcfl_version v ∧
   Vtcfl_dscp (Vtcfl_set_flow_label label v) = Vtcfl_dscp v ∧
   Vtcfl_ecn (E:=Empty_set) (Vtcfl_set_flow_label label v) = Vtcfl_ecn v).
Proof.
  intros (H0 & H1 & _ & _) Hx Hl.
  destruct (vtcfl_laws (octet0 v) x H0 Hx) as (A1 & A2 & A3 & A4 & _ & _ & _ & A8 & _).
  destruct (vtcfl_laws (octet1 v) x H1 Hx) as (_ & _ & _ & _ & B5 & B6 & B7 & _).
  destruct (vtcfl_laws (octet1 v) (be_bytes 4 label !!! 1%nat) H1) as (_ & _ & _ & _ & _ & _ & _ & _ & C9 & C10 & _).
  { pose proof (be_bytes_ok 4 label) as Hb. rewrite Forall_lookup in Hb. apply (Hb 1%nat).
    apply list_lookup_lookup_total_lt. rewrite length_be_bytes. lia. }
  destruct (vtcfl_laws (octet1 v) x H1 Hx) as (_ & _ & _ & _ & _ & _ & _ & _ & _ & _ & D).
  destruct (D e) as (D1 & D2 & D3). cbn zeta in *.
  rewrite !Vtcfl_dscp_parts. unfold Vtcfl_version, Vtcfl_ecn, Vtcfl_flow_label, Vtcfl_set_version, Vtcfl_set_dscp,
    Vtcfl_set_ecn, Vtcfl_set_flow_label. cbn [octet0 octet1 octet2 octet3].
  split_and!; try congruence.
  - apply ecn_code_inj. rewrite ecn_new_code, D1. by destruct e.
  - rewrite C10, be_value_4, be_bytes_4. cbn [lookup_total list_lookup_total]. change 15 with (Z.ones 4).
    rewrite Z.land_ones by lia. zlia.
Qed.

Lemma Vtcfl_fields_independent_witness :
  let v := mkVtcfl 107 205 1 2 in
  Vtcfl_ok v ∧
  Vtcfl_dscp (Vtcfl_set_dscp 46 v) = 46 ∧ Vtcfl_version (Vtcfl_set_dscp 46 v) = 6 ∧
  Vtcfl_flow_label (Vtcfl_set_flow_label 74565 v) = 74565.
Proof.
  intros v. assert (Vtcfl_ok v) as Hv by (split_and!; by vm_compute). split; [done|].
  destruct (Vtcfl_fields_independent v 46 Ce 74565 Hv) as (_ & (H1 & H2 & _) & _ & (H3 & _)); [by vm_compute..|].
  split_and!; [exact H1|exact H2|exact H3].
Defined.
