(* ===== verification/Xdp.v ===== *)
(** * The kernel program (xdp/ebpf/src)

    The XDP program looks at every packet of the network card and hands the
    datagrams of the RakNet ports to a socket of their own.  Packets are byte lists,
    a buffer is a piece of the packet with its address; the two maps that the program
    shares with user space are an interface.  The theorem: the program redirects
    exactly the packets that carry a datagram for a known port. *)
From S2P Require Import Prelude Bytes Inet.
Open Scope Z_scope.

(** ** Buffers (buffer.rs) *)

Inductive DecoderError :=
| UnexpectedEof (len : nat)
| InvariantViolation (what : string).

Record DecodeBuffer := mkDecodeBuffer {
  db_ptr : Z;
  db_bytes : list Z;
  db_end : Z;
}.

(** [new]: the bytes of the memory between the two pointers. *)
Definition DecodeBuffer_new (start : Z) (memory : list Z) : DecodeBuffer :=
  mkDecodeBuffer start memory (start + Z.of_nat (length memory)).

Definition DecodeBuffer_new_checked (ptr : Z) (bytes : list Z) (end_ : Z) : outcome DecoderError DecodeBuffer :=
  if end_ <? ptr then Err (UnexpectedEof 0) else Ok (mkDecodeBuffer ptr bytes end_).

Definition ensure_len (len : nat) (b : DecodeBuffer) : outcome DecoderError unit :=
  if decide (length (db_bytes b) < len)%nat then Err (UnexpectedEof len) else Ok tt.

(** [split_at_mut] panics when the count is beyond the end. *)
Definition decode_slice (count : nat) (b : DecodeBuffer) : outcome DecoderError (DecodeBuffer * DecodeBuffer) :=
  ensure_len count b;;
  if decide (length (db_bytes b) < count)%nat then Panic
  else
    slice ← DecodeBuffer_new_checked (db_ptr b) (take count (db_bytes b)) (db_end b);
    remaining ← DecodeBuffer_new_checked (db_ptr b + Z.of_nat count) (drop count (db_bytes b)) (db_end b);
    mret (slice, remaining).

Definition DecodeBuffer_is_empty (b : DecodeBuffer) : bool := bool_decide (db_bytes b = []).

(** [decode] of [define_inet_type]: the bytes of the header are the header. *)
Definition inet_decode {A} (size : nat) (of_bytes : list Z → A) (b : DecodeBuffer) :
    outcome DecoderError (A * DecodeBuffer) :=
  '(value, b) ← decode_slice size b;
  mret (of_bytes (db_bytes value), b).

(** ** Headers

    The fields of a header in the order of the struct, which is [repr(C)] and has
    no padding. *)

Record EthHeader := mkEthHeader {
  eth_destination : list Z;
  eth_source : list Z;
  eth_type : list Z;
}.

Definition EthHeader_as_bytes (h : EthHeader) : list Z := eth_destination h ++ eth_source h ++ eth_type h.
Definition EthHeader_of_bytes (l : list Z) : EthHeader := mkEthHeader (take 6 l) (take 6 (drop 6 l)) (drop 12 l).
Definition EthHeader_swap (h : EthHeader) : EthHeader := mkEthHeader (eth_source h) (eth_destination h) (eth_type h).
Definition EthHeader_decode := inet_decode 14 EthHeader_of_bytes.

Definition EtherType_IPV4 : list Z := [8; 0].
Definition EtherType_ARP : list Z := [8; 6].
Definition EtherType_IPV6 : list Z := [134; 221].
Definition EtherType_PPP : list Z := [136; 11].
Definition EtherType_VLAN : list Z := [136; 168].

(** [ip::Protocol] *)
Definition Protocol_HOPOPT : Z := 0.
Definition Protocol_ICMP : Z := 1.
Definition Protocol_IPV4 : Z := 4.
Definition Protocol_TCP : Z := 6.
Definition Protocol_UDP : Z := 17.
Definition Protocol_IPV6 : Z := 41.
Definition Protocol_IPV6_ROUTE : Z := 43.
Definition Protocol_IPV6_FRAG : Z := 44.
Definition Protocol_IPV6_ICMP : Z := 58.
Definition Protocol_IPV6_NO_NXT : Z := 59.
Definition Protocol_IPV6_OPTS : Z := 60.
Definition Protocol_UDPLITE : Z := 136.

Record Ipv4Header := mkIpv4Header {
  ip4_vihl : Z;
  ip4_tos : Z;
  ip4_total_len : list Z;
  ip4_id : list Z;
  ip4_flag_fragment : list Z;
  ip4_ttl : Z;
  ip4_protocol : Z;
  ip4_checksum : list Z;
  ip4_source : list Z;
  ip4_destination : list Z;
}.

Definition Ipv4Header_as_bytes (h : Ipv4Header) : list Z :=
  [ip4_vihl h; ip4_tos h] ++ ip4_total_len h ++ ip4_id h ++ ip4_flag_fragment h ++
  [ip4_ttl h; ip4_protocol h] ++ ip4_checksum h ++ ip4_source h ++ ip4_destination h.
Definition Ipv4Header_of_bytes (l : list Z) : Ipv4Header :=
  mkIpv4Header (l !!! 0%nat) (l !!! 1%nat) (take 2 (drop 2 l)) (take 2 (drop 4 l)) (take 2 (drop 6 l))
    (l !!! 8%nat) (l !!! 9%nat) (take 2 (drop 10 l)) (take 4 (drop 12 l)) (drop 16 l).
Definition Ipv4Header_swap (h : Ipv4Header) : Ipv4Header :=
  mkIpv4Header (ip4_vihl h) (ip4_tos h) (ip4_total_len h) (ip4_id h) (ip4_flag_fragment h) (ip4_ttl h)
    (ip4_protocol h) (ip4_checksum h) (ip4_destination h) (ip4_source h).
Definition Ipv4Header_decode := inet_decode 20 Ipv4Header_of_bytes.

Record Ipv6Header := mkIpv6Header {
  ip6_vtcfl : Vtcfl;
  ip6_payload_len : list Z;
  ip6_next_header : Z;
  ip6_hop_limit : Z;
  ip6_source : list Z;
  ip6_destination : list Z;
}.

Definition Vtcfl_as_bytes (v : Vtcfl) : list Z := [octet0 v; octet1 v; octet2 v; octet3 v].

Definition Ipv6Header_as_bytes (h : Ipv6Header) : list Z :=
  Vtcfl_as_bytes (ip6_vtcfl h) ++ ip6_payload_len h ++ [ip6_next_header h; ip6_hop_limit h] ++
  ip6_source h ++ ip6_destination h.
Definition Ipv6Header_of_bytes (l : list Z) : Ipv6Header :=
  mkIpv6Header (mkVtcfl (l !!! 0%nat) (l !!! 1%nat) (l !!! 2%nat) (l !!! 3%nat)) (take 2 (drop 4 l))
    (l !!! 6%nat) (l !!! 7%nat) (take 16 (drop 8 l)) (drop 24 l).
Definition Ipv6Header_swap (h : Ipv6Header) : Ipv6Header :=
  mkIpv6Header (ip6_vtcfl h) (ip6_payload_len h) (ip6_next_header h) (ip6_hop_limit h)
    (ip6_destination h) (ip6_source h).
Definition Ipv6Header_decode := inet_decode 40 Ipv6Header_of_bytes.

Record UdpHeader := mkUdpHeader {
  udp_source : list Z;
  udp_destination : list Z;
  udp_len : list Z;
  udp_checksum : list Z;
}.

Definition UdpHeader_as_bytes (h : UdpHeader) : list Z :=
  udp_source h ++ udp_destination h ++ udp_len h ++ udp_checksum h.
Definition UdpHeader_of_bytes (l : list Z) : UdpHeader :=
  mkUdpHeader (take 2 l) (take 2 (drop 2 l)) (take 2 (drop 4 l)) (drop 6 l).
Definition UdpHeader_swap (h : UdpHeader) : UdpHeader :=
  mkUdpHeader (udp_destination h) (udp_source h) (udp_len h) (udp_checksum h).
Definition UdpHeader_decode := inet_decode 8 UdpHeader_of_bytes.

(** ** The program (main.rs) *)

(** The maps of the program: the known ports, and the sockets of the queues, of
    which [redirect] answers with an action or an error ([inl]). *)
Class XdpMaps := {
  ports_get_ptr : Z → option Z;
  sockets_redirect : Z → Z → Z + Z;
}.

Definition XDP_ABORTED : Z := 0.
Definition XDP_DROP : Z := 1.
Definition XDP_PASS : Z := 2.
Definition XDP_REDIRECT : Z := 4.

Record XdpContext := mkXdpContext {
  ctx_data : Z;
  ctx_memory : list Z;
  rx_queue_index : Z;
}.

Section program.
Context {En : Endian} {M : XdpMaps}.

Definition parse_udp (b : DecodeBuffer) : outcome DecoderError (option DecodeBuffer) :=
  '(header, b) ← UdpHeader_decode b;
  match ports_get_ptr (net_get 2 (udp_destination header)) with
  | None => mret None
  | Some _ =>
      let total_len := net_get 2 (udp_len header) in
      payload_len ← (if total_len <? 8 then Err (InvariantViolation "invalid UDP length") else Ok (total_len - 8));
      '(udp_payload, _) ← decode_slice (Z.to_nat payload_len) b;
      mret (Some udp_payload)
  end.

Definition parse_ip_protocol (protocol : Z) (b : DecodeBuffer) : outcome DecoderError (option DecodeBuffer) :=
  if (protocol =? Protocol_UDP) || (protocol =? Protocol_UDPLITE) then parse_udp b else mret None.

Definition decode_ipv4 (b : DecodeBuffer) : outcome DecoderError (option DecodeBuffer) :=
  '(header, b) ← Ipv4Header_decode b;
  let protocol := ip4_protocol header in
  let len := Vihl_header_len (ip4_vihl header) in
  count_without_header ←
    (if len <? 5 then Err (InvariantViolation "invalid IPv4 IHL value") else Ok (len - 5));
  let options_len := count_without_header * (32 / 8) in
  '(_, b) ← decode_slice (Z.to_nat options_len) b;
  parse_ip_protocol protocol b.

Definition decode_ipv6 (b : DecodeBuffer) : outcome DecoderError (option DecodeBuffer) :=
  '(header, b) ← Ipv6Header_decode b;
  parse_ip_protocol (ip6_next_header header) b.

Definition decode (b : DecodeBuffer) : outcome DecoderError (option DecodeBuffer) :=
  '(header, b) ← EthHeader_decode b;
  if bool_decide (eth_type header = EtherType_IPV4) then decode_ipv4 b
  else if bool_decide (eth_type header = EtherType_IPV6) then decode_ipv6 b
  else mret None.

(** A panic of the program would be undefined behaviour. *)
Definition redirect_udp (ctx : XdpContext) : outcome Empty_set Z :=
  match decode (DecodeBuffer_new (ctx_data ctx) (ctx_memory ctx)) with
  | Ok (Some payload) =>
      if DecodeBuffer_is_empty payload then mret XDP_DROP
      else mret (match sockets_redirect (rx_queue_index ctx) 0 with inr a => a | inl _ => XDP_PASS end)
  | Ok None => mret XDP_PASS
  | Err _ => mret XDP_ABORTED
  | Panic => Panic
  end.

Definition raknet_xdp (ctx : XdpContext) : outcome Empty_set Z := redirect_udp ctx.
End program.

(** ** Headers and their bytes *)

Definition EthHeader_ok (h : EthHeader) : Prop :=
  length (eth_destination h) = 6%nat ∧ length (eth_source h) = 6%nat ∧ length (eth_type h) = 2%nat.

Definition Ipv4Header_ok (h : Ipv4Header) : Prop :=
  length (ip4_total_len h) = 2%nat ∧ length (ip4_id h) = 2%nat ∧ length (ip4_flag_fragment h) = 2%nat ∧
  length (ip4_checksum h) = 2%nat ∧ length (ip4_source h) = 4%nat ∧ length (ip4_destination h) = 4%nat.

Definition Ipv6Header_ok (h : Ipv6Header) : Prop :=
  length (ip6_payload_len h) = 2%nat ∧ length (ip6_source h) = 16%nat ∧ length (ip6_destination h) = 16%nat.

Definition UdpHeader_ok (h : UdpHeader) : Prop :=
  length (udp_source h) = 2%nat ∧ length (udp_destination h) = 2%nat ∧
  length (udp_len h) = 2%nat ∧ length (udp_checksum h) = 2%nat.

(** A list of known length, element by element. *)
Ltac list_cases :=
  repeat match goal with
  | H : length ?l = S _ |- _ => destruct l; [discriminate H|]; cbn in H; injection H as H
  | H : length ?l = O |- _ => apply nil_length_inv in H; subst l
  end.

Lemma EthHeader_of_as h : EthHeader_ok h → EthHeader_of_bytes (EthHeader_as_bytes h) = h.
Proof. destruct h. intros (? & ? & ?). cbn in *. by list_cases. Qed.

Lemma EthHeader_as_of l : length l = 14%nat → EthHeader_as_bytes (EthHeader_of_bytes l) = l ∧ EthHeader_ok (EthHeader_of_bytes l).
Proof. intros H. by list_cases. Qed.

Lemma Ipv4Header_of_as h : Ipv4Header_ok h → Ipv4Header_of_bytes (Ipv4Header_as_bytes h) = h.
Proof. destruct h. intros (? & ? & ? & ? & ? & ?). cbn in *. by list_cases. Qed.

Lemma Ipv4Header_as_of l : length l = 20%nat → Ipv4Header_as_bytes (Ipv4Header_of_bytes l) = l ∧ Ipv4Header_ok (Ipv4Header_of_bytes l).
Proof. intros H. by list_cases. Qed.

Lemma Ipv6Header_of_as h : Ipv6Header_ok h → Ipv6Header_of_bytes (Ipv6Header_as_bytes h) = h.
Proof. destruct h as [[]]. intros (? & ? & ?). cbn in *. by list_cases. Qed.

Lemma Ipv6Header_as_of l : length l = 40%nat → Ipv6Header_as_bytes (Ipv6Header_of_bytes l) = l ∧ Ipv6Header_ok (Ipv6Header_of_bytes l).
Proof. intros H. by list_cases. Qed.

Lemma UdpHeader_of_as h : UdpHeader_ok h → UdpHeader_of_bytes (UdpHeader_as_bytes h) = h.
Proof. destruct h. intros (? & ? & ? & ?). cbn in *. by list_cases. Qed.

Lemma UdpHeader_as_of l : length l = 8%nat → UdpHeader_as_bytes (UdpHeader_of_bytes l) = l ∧ UdpHeader_ok (UdpHeader_of_bytes l).
Proof. intros H. by list_cases. Qed.

(** ** What the program redirects *)

Section redirect.
Context {En : Endian} {M : XdpMaps}.

(** The bytes of a packet from its UDP header on, for a known port. *)
Definition udp_carries (l payload : list Z) : Prop :=
  ∃ udp trailer, UdpHeader_ok udp ∧ l = UdpHeader_as_bytes udp ++ payload ++ trailer ∧
    is_Some (ports_get_ptr (be_value (udp_destination udp))) ∧
    be_value (udp_len udp) = 8 + Z.of_nat (length payload).

Definition is_udp (protocol : Z) : Prop := protocol = Protocol_UDP ∨ protocol = Protocol_UDPLITE.

(** What the program reads: it takes any packet with the protocol UDP or UDP-Lite
    after an IPv4 or IPv6 header for a datagram. *)
Inductive read_as : list Z → list Z → Prop :=
| read_as_ipv4 eth ip options rest payload :
    EthHeader_ok eth → eth_type eth = EtherType_IPV4 →
    Ipv4Header_ok ip → 5 ≤ Vihl_header_len (ip4_vihl ip) →
    Z.of_nat (length options) = (Vihl_header_len (ip4_vihl ip) - 5) * 4 →
    is_udp (ip4_protocol ip) → udp_carries rest payload →
    read_as (EthHeader_as_bytes eth ++ Ipv4Header_as_bytes ip ++ options ++ rest) payload
| read_as_ipv6 eth ip rest payload :
    EthHeader_ok eth → eth_type eth = EtherType_IPV6 →
    Ipv6Header_ok ip → is_udp (ip6_next_header ip) → udp_carries rest payload →
    read_as (EthHeader_as_bytes eth ++ Ipv6Header_as_bytes ip ++ rest) payload.

(** The buffer lies in the packet. *)
Definition buffer_ok (b : DecodeBuffer) : Prop :=
  db_ptr b + Z.of_nat (length (db_bytes b)) ≤ db_end b ∧ bytes_ok (db_bytes b).

Lemma decode_slice_spec n b :
  buffer_ok b →
  (decode_slice n b = Err (UnexpectedEof n) ∧ (length (db_bytes b) < n)%nat) ∨
  (∃ b1 b2, decode_slice n b = Ok (b1, b2) ∧ db_bytes b = db_bytes b1 ++ db_bytes b2 ∧
    length (db_bytes b1) = n ∧ buffer_ok b1 ∧ buffer_ok b2).
Proof.
  intros [Hp Hb]. unfold decode_slice, ensure_len. destruct (decide (length (db_bytes b) < n)%nat) as [Hlt|Hge].
  - left. done.
  - right. cbn [mbind outcome_bind]. unfold DecodeBuffer_new_checked.
    rewrite !(proj2 (Z.ltb_ge _ _)) by lia. cbn. eexists _, _. split; [done|]. cbn.
    rewrite take_drop, length_take. split_and!; [done|lia|..]; split; cbn; rewrite ?length_take, ?length_drop; try lia.
    + by apply Forall_take.
    + by apply Forall_drop.
Qed.

(** A header is decoded when the buffer starts with it. *)
Lemma inet_decode_spec {A} n (of_bytes : list Z → A) b :
  buffer_ok b →
  (∃ e, inet_decode n of_bytes b = Err e ∧ (length (db_bytes b) < n)%nat) ∨
  (∃ l b', inet_decode n of_bytes b = Ok (of_bytes l, b') ∧ db_bytes b = l ++ db_bytes b' ∧
    length l = n ∧ bytes_ok l ∧ buffer_ok b').
Proof.
  intros Hb. unfold inet_decode. destruct (decode_slice_spec n b Hb) as [[-> Hl]|(b1 & b2 & -> & H1 & H2 & [_ H3] & H4)].
  - left. by eexists.
  - right. by exists (db_bytes b1), b2.
Qed.

(** No answer of the parser but a payload that the bytes carry. *)
Definition exact (r : outcome DecoderError (option DecodeBuffer)) (P : list Z → Prop) : Prop :=
  r ≠ Panic ∧ ∀ p, P p ↔ ∃ b, r = Ok (Some b) ∧ db_bytes b = p.

Lemma exact_none r P : r ≠ Panic → (∀ b, r ≠ Ok (Some b)) → (∀ p, ¬ P p) → exact r P.
Proof. intros H1 H2 H3. split; [done|]. intros p. split; [by intros ?%H3|]. intros (b & Hr & _). by apply H2 in Hr. Qed.

Lemma parse_udp_exact b : buffer_ok b → exact (parse_udp b) (udp_carries (db_bytes b)).
Proof.
  intros Hb. unfold parse_udp, UdpHeader_decode.
  assert (∀ u, UdpHeader_ok u → length (UdpHeader_as_bytes u) = 8%nat) as Hlen8.
  { intros u (? & ? & ? & ?). unfold UdpHeader_as_bytes. rewrite !length_app. lia. }
  destruct (inet_decode_spec 8 UdpHeader_of_bytes b Hb) as [(e & -> & Hl)|(l & b1 & -> & Hl & Hlen & Hok & Hb1)];
    cbn [mbind outcome_bind].
  { apply exact_none; [done|done|]. intros p (u & t & Hu & Heq & _). rewrite Heq, length_app, Hlen8 in Hl by done. lia. }
  destruct (UdpHeader_as_of l Hlen) as [Hl1 Hl2]. set (h := UdpHeader_of_bytes l) in *.
  assert (∀ x, length x = 2%nat → (∃ y z, l = y ++ x ++ z) → net_get 2 x = be_value x) as Hnet.
  { intros x Hx (y & z & Heq). apply net_get_value. split; [done|].
    rewrite Heq, !Forall_app in Hok. apply Hok. }
  destruct Hl2 as (L1 & L2 & L3 & L4). unfold UdpHeader_as_bytes in Hl1.
  rewrite (Hnet (udp_destination h)) by (done || (rewrite <-Hl1; by eexists (udp_source h), _)).
  rewrite (Hnet (udp_len h)) by (done || (rewrite <-Hl1; exists (udp_source h ++ udp_destination h); eexists; by rewrite <-app_assoc)).
  assert (∀ u t p, UdpHeader_ok u → db_bytes b = UdpHeader_as_bytes u ++ p ++ t → u = h ∧ db_bytes b1 = p ++ t) as Hinv.
  { intros u t p Hu Heq. rewrite Hl in Heq. apply app_inj_1 in Heq as [Heq1 Heq2]; [|by rewrite Hlen, Hlen8].
    subst h. rewrite Heq1. by rewrite UdpHeader_of_as. }
  destruct (ports_get_ptr (be_value (udp_destination h))) as [v|] eqn:Hport.
  2: { apply exact_none; [done|done|]. intros p (u & t & Hu & Heq & [x Hx] & _).
       apply Hinv in Heq as [-> _]; [|done]. by rewrite Hport in Hx. }
  destruct (Z.ltb_spec (be_value (udp_len h)) 8) as [Hlt|Hge]; cbn [mbind outcome_bind].
  { apply exact_none; [done|done|]. intros p (u & t & Hu & Heq & _ & Hlen'). apply Hinv in Heq as [-> _]; [lia|done]. }
  destruct (decode_slice_spec (Z.to_nat (be_value (udp_len h) - 8)) b1 Hb1)
    as [[-> Hs]|(b2 & b3 & -> & Hs & Hs2 & _)]; cbn [mbind outcome_bind].
  - apply exact_none; [done|done|]. intros p (u & t & Hu & Heq & _ & Hlen').
    apply Hinv in Heq as [-> Heq]; [|done]. rewrite Heq, length_app in Hs. lia.
  - split; [done|]. intros p. split.
    + intros (u & t & Hu & Heq & _ & Hlen'). apply Hinv in Heq as [-> Heq]; [|done].
      exists b2. split; [done|]. rewrite Hs in Heq. apply app_inj_1 in Heq as [? _]; [done|lia].
    + intros (b' & [= <-] & <-). exists h, (db_bytes b3). split_and!; [done| |by rewrite Hport|lia].
      rewrite Hl, <-Hl1, Hs. unfold UdpHeader_as_bytes. done.
Qed.

Lemma parse_ip_protocol_exact protocol b :
  buffer_ok b → exact (parse_ip_protocol protocol b) (λ p, is_udp protocol ∧ udp_carries (db_bytes b) p).
Proof.
  intros Hb. unfold parse_ip_protocol, is_udp. destruct (parse_udp_exact b Hb) as [H1 H2].
  destruct (Z.eqb_spec protocol Protocol_UDP) as [->|Hn]; cbn [orb].
  { split; [done|]. intros p. rewrite <-H2. naive_solver. }
  destruct (Z.eqb_spec protocol Protocol_UDPLITE) as [->|Hn']; cbn [orb].
  { split; [done|]. intros p. rewrite <-H2. naive_solver. }
  apply exact_none; [done|done|]. naive_solver.
Qed.

(** A parser that reads a header and goes on with the rest. *)
Lemma header_exact {A} n (of_bytes : list Z → A) (as_bytes : A → list Z) (ok : A → Prop) b
    (f : A * DecodeBuffer → outcome DecoderError (option DecodeBuffer)) (P : A → list Z → list Z → Prop) :
  (∀ h, ok h → of_bytes (as_bytes h) = h ∧ length (as_bytes h) = n) →
  (∀ l, length l = n → as_bytes (of_bytes l) = l ∧ ok (of_bytes l)) →
  buffer_ok b →
  (∀ h b', ok h → buffer_ok b' → exact (f (h, b')) (P h (db_bytes b'))) →
  exact (inet_decode n of_bytes b ≫= f) (λ p, ∃ h rest, ok h ∧ db_bytes b = as_bytes h ++ rest ∧ P h rest p).
Proof.
  intros Has Hof Hb Hf.
  destruct (inet_decode_spec n of_bytes b Hb) as [(e & -> & Hl)|(l & b1 & -> & Hl & Hlen & _ & Hb1)];
    cbn [mbind outcome_bind].
  - apply exact_none; [done|done|]. intros p (h & rest & Hh & Heq & _). destruct (Has h Hh) as [_ Hhl].
    rewrite Heq, length_app in Hl. lia.
  - destruct (Hof l Hlen) as [Hal Hok]. destruct (Hf _ b1 Hok Hb1) as [H1 H2]. split; [done|].
    intros p. rewrite <-H2. split.
    + intros (h & rest & Hh & Heq & HP). destruct (Has h Hh) as [Hof' Hhl].
      rewrite Hl in Heq. apply app_inj_1 in Heq as [-> ->]; [|congruence]. by rewrite Hof'.
    + intros HP. exists (of_bytes l), (db_bytes b1). by rewrite Hal.
Qed.

Lemma exact_ext r P Q : (∀ p, P p ↔ Q p) → exact r P → exact r Q.
Proof. intros HPQ [H1 H2]. split; [done|]. intros p. by rewrite <-HPQ. Qed.

(** The options of an IPv4 header, then its payload. *)
Definition ipv4_carries (l p : list Z) : Prop :=
  ∃ ip rest, Ipv4Header_ok ip ∧ l = Ipv4Header_as_bytes ip ++ rest ∧ 5 ≤ Vihl_header_len (ip4_vihl ip) ∧
    ∃ options rest', rest = options ++ rest' ∧
      Z.of_nat (length options) = (Vihl_header_len (ip4_vihl ip) - 5) * 4 ∧
      is_udp (ip4_protocol ip) ∧ udp_carries rest' p.

Lemma decode_ipv4_exact b : buffer_ok b → exact (decode_ipv4 b) (ipv4_carries (db_bytes b)).
Proof.
  intros Hb. unfold decode_ipv4, Ipv4Header_decode.
  eapply exact_ext; [|eapply (header_exact 20 Ipv4Header_of_bytes Ipv4Header_as_bytes Ipv4Header_ok b _
    (λ ip rest p, 5 ≤ Vihl_header_len (ip4_vihl ip) ∧ ∃ options rest', rest = options ++ rest' ∧
      Z.of_nat (length options) = (Vihl_header_len (ip4_vihl ip) - 5) * 4 ∧
      is_udp (ip4_protocol ip) ∧ udp_carries rest' p))].
  - done.
  - intros h Hh. split; [by apply Ipv4Header_of_as|]. destruct Hh as (? & ? & ? & ? & ? & ?).
    unfold Ipv4Header_as_bytes. rewrite !length_app. cbn. lia.
  - apply Ipv4Header_as_of.
  - done.
  - intros h b' Hh Hb'. cbn beta iota.
    destruct (Z.ltb_spec (Vihl_header_len (ip4_vihl h)) 5) as [Hlt|Hge]; cbn [mbind outcome_bind].
    { apply exact_none; [done|done|]. intros p [? _]. lia. }
    set (len := Vihl_header_len (ip4_vihl h)) in *. change (32 / 8) with 4.
    destruct (decode_slice_spec (Z.to_nat ((len - 5) * 4)) b' Hb')
      as [[-> Hs]|(b2 & b3 & -> & Hs & Hs2 & _ & Hb3)]; cbn [mbind outcome_bind].
    { apply exact_none; [done|done|]. intros p (_ & o & r & Heq & Hl & _). rewrite Heq, length_app in Hs. lia. }
    eapply exact_ext; [|by apply parse_ip_protocol_exact]. intros p. cbn beta. split.
    + intros [Hu Hc]. split; [done|]. exists (db_bytes b2), (db_bytes b3). split_and!; [done|lia|done|done].
    + intros (_ & o & r & Heq & Hl & Hu & Hc). rewrite Hs in Heq. apply app_inj_1 in Heq as [_ ->]; [done|lia].
Qed.

Lemma decode_ipv6_exact b :
  buffer_ok b → exact (decode_ipv6 b) (λ p, ∃ ip rest, Ipv6Header_ok ip ∧
    db_bytes b = Ipv6Header_as_bytes ip ++ rest ∧ is_udp (ip6_next_header ip) ∧ udp_carries rest p).
Proof.
  intros Hb. unfold decode_ipv6, Ipv6Header_decode.
  apply (header_exact 40 Ipv6Header_of_bytes Ipv6Header_as_bytes Ipv6Header_ok b _
    (λ ip rest p, is_udp (ip6_next_header ip) ∧ udp_carries rest p)).
  - intros h Hh. split; [by apply Ipv6Header_of_as|]. destruct Hh as (? & ? & ?).
    unfold Ipv6Header_as_bytes, Vtcfl_as_bytes. rewrite !length_app. cbn. lia.
  - apply Ipv6Header_as_of.
  - done.
  - intros h b' _ Hb'. by apply parse_ip_protocol_exact.
Qed.

Lemma decode_exact b : buffer_ok b → exact (decode b) (read_as (db_bytes b)).
Proof.
  intros Hb. unfold decode, EthHeader_decode.
  eapply exact_ext; [|eapply (header_exact 14 EthHeader_of_bytes EthHeader_as_bytes EthHeader_ok b _
    (λ eth rest p, (eth_type eth = EtherType_IPV4 ∧ ipv4_carries rest p) ∨
      (eth_type eth = EtherType_IPV6 ∧ ∃ ip rest', Ipv6Header_ok ip ∧ rest = Ipv6Header_as_bytes ip ++ rest' ∧
        is_udp (ip6_next_header ip) ∧ udp_carries rest' p)))].
  - intros p. split.
    + intros (eth & rest & He & -> & [(Ht & ip & r1 & Hip & -> & H5 & o & r2 & -> & Ho & Hu & Hc)|(Ht & ip & r1 & Hip & -> & Hu & Hc)]).
      * by apply read_as_ipv4.
      * by apply read_as_ipv6.
    + intros Hc. remember (db_bytes b) as l eqn:Hl. destruct Hc as [eth ip o r p He Ht Hip H5 Ho Hu Hc|eth ip r p He Ht Hip Hu Hc].
      * exists eth, (Ipv4Header_as_bytes ip ++ o ++ r). split_and!; [done|done|]. left. split; [done|].
        exists ip, (o ++ r). split_and!; [done|done|done|]. by exists o, r.
      * exists eth, (Ipv6Header_as_bytes ip ++ r). split_and!; [done|done|]. right. split; [done|]. by exists ip, r.
  - intros h Hh. split; [by apply EthHeader_of_as|]. destruct Hh as (? & ? & ?).
    unfold EthHeader_as_bytes. rewrite !length_app. lia.
  - apply EthHeader_as_of.
  - done.
  - intros h b' _ Hb'. cbn beta iota. case_bool_decide as H4.
    { eapply exact_ext; [|by apply decode_ipv4_exact]. intros p. cbn beta. rewrite H4. split; [by left|].
      intros [[_ ?]|[? _]]; done. }
    case_bool_decide as H6.
    { eapply exact_ext; [|by apply decode_ipv6_exact]. intros p. cbn beta. rewrite H6. split; [by right|].
      intros [[? _]|[_ ?]]; done. }
    apply exact_none; [done|done|]. intros p [[? _]|[? _]]; done.
Qed.

(** What the program does, in terms of what it reads. *)
Lemma raknet_xdp_reads ctx :
  bytes_ok (ctx_memory ctx) →
  ∃ action, raknet_xdp ctx = Ok action ∧
    ((∃ payload, payload ≠ [] ∧ read_as (ctx_memory ctx) payload ∧
        action = match sockets_redirect (rx_queue_index ctx) 0 with inr a => a | inl _ => XDP_PASS end) ∨
     (read_as (ctx_memory ctx) [] ∧ action = XDP_DROP) ∨
     ((∀ payload, ¬ read_as (ctx_memory ctx) payload) ∧ (action = XDP_PASS ∨ action = XDP_ABORTED))).
Proof.
  intros Hm. unfold raknet_xdp, redirect_udp.
  destruct (decode_exact (DecodeBuffer_new (ctx_data ctx) (ctx_memory ctx))) as [Hp He]; [split; cbn; [lia|done]|].
  cbn [db_bytes DecodeBuffer_new] in He.
  destruct (decode _) as [[payload|]|e|]; [| | |done].
  - assert (read_as (ctx_memory ctx) (db_bytes payload)) as Hc by (apply He; by exists payload).
    unfold DecodeBuffer_is_empty. case_bool_decide as Hn.
    + exists XDP_DROP. split; [done|]. right. left. by rewrite <-Hn.
    + eexists. split; [done|]. left. by exists (db_bytes payload).
  - exists XDP_PASS. split; [done|]. do 2 right. split; [|by left]. intros p (b & Hb & _)%He. done.
  - exists XDP_ABORTED. split; [done|]. do 2 right. split; [|by right]. intros p (b & Hb & _)%He. done.
Qed.

(** ** UDP datagrams *)

(** The IPv4 packet is a whole datagram: neither is there a fragment behind it nor
    one before it (RFC 791: the more-fragments flag and the fragment offset are the
    low 14 bits of their field). *)
Definition whole_ipv4 (ip : Ipv4Header) : Prop := be_value (ip4_flag_fragment ip) mod 2 ^ 14 = 0.

(** A packet that carries a UDP datagram for a known port, whole, with this payload. *)
Inductive carries : list Z → list Z → Prop :=
| carries_ipv4 eth ip options rest payload :
    EthHeader_ok eth → eth_type eth = EtherType_IPV4 →
    Ipv4Header_ok ip → 5 ≤ Vihl_header_len (ip4_vihl ip) →
    Z.of_nat (length options) = (Vihl_header_len (ip4_vihl ip) - 5) * 4 →
    whole_ipv4 ip → ip4_protocol ip = Protocol_UDP → udp_carries rest payload →
    carries (EthHeader_as_bytes eth ++ Ipv4Header_as_bytes ip ++ options ++ rest) payload
| carries_ipv6 eth ip rest payload :
    EthHeader_ok eth → eth_type eth = EtherType_IPV6 →
    Ipv6Header_ok ip → ip6_next_header ip = Protocol_UDP → udp_carries rest payload →
    carries (EthHeader_as_bytes eth ++ Ipv6Header_as_bytes ip ++ rest) payload.

(** The packets that the program mistakes for such datagrams: fragments of IPv4
    packets, and UDP-Lite. *)
Definition ipv4_fragment (l : list Z) : Prop :=
  ∃ eth ip rest, EthHeader_ok eth ∧ eth_type eth = EtherType_IPV4 ∧ Ipv4Header_ok ip ∧ ¬ whole_ipv4 ip ∧
    l = EthHeader_as_bytes eth ++ Ipv4Header_as_bytes ip ++ rest.

Definition udp_lite (l : list Z) : Prop :=
  ∃ eth rest, EthHeader_ok eth ∧ l = EthHeader_as_bytes eth ++ rest ∧
    ((∃ ip rest', eth_type eth = EtherType_IPV4 ∧ Ipv4Header_ok ip ∧ ip4_protocol ip = Protocol_UDPLITE ∧
        rest = Ipv4Header_as_bytes ip ++ rest') ∨
     (∃ ip rest', eth_type eth = EtherType_IPV6 ∧ Ipv6Header_ok ip ∧ ip6_next_header ip = Protocol_UDPLITE ∧
        rest = Ipv6Header_as_bytes ip ++ rest')).

Lemma carries_read l p : ¬ ipv4_fragment l → ¬ udp_lite l → carries l p ↔ read_as l p.
Proof.
  intros Hf Hl. split.
  - destruct 1; [apply read_as_ipv4|apply read_as_ipv6]; try done; by left.
  - destruct 1 as [eth ip options rest payload He Ht Hi H5 Ho Hu Hp|eth ip rest payload He Ht Hi Hu Hp].
    + apply carries_ipv4; try done.
      * unfold whole_ipv4. destruct (decide (be_value (ip4_flag_fragment ip) mod 2 ^ 14 = 0)) as [|Hne]; [done|].
        exfalso. apply Hf. by exists eth, ip, (options ++ rest).
      * destruct Hu as [|Hu]; [done|]. exfalso. apply Hl. eexists eth, _. split_and!; [done|done|]. left. by eexists ip, _.
    + apply carries_ipv6; try done. destruct Hu as [|Hu]; [done|]. exfalso. apply Hl.
      eexists eth, _. split_and!; [done|done|]. right. by eexists ip, _.
Qed.

(** C27. The kernel program redirects the datagrams of the known ports: whatever the
    packet, the program returns an action; and for a packet that is neither a
    fragment of an IPv4 packet nor UDP-Lite, it hands the packet to the socket of
    the queue if and only if the packet carries a whole, non-empty UDP datagram for
    a known port (over IPv4 with or without options, or IPv6), drops it if the
    datagram is empty, and in every other case leaves it to the operating system or
    aborts.  Fragments and UDP-Lite packets it treats as if they were UDP datagrams
    ([raknet_xdp_reads], [first_fragment_aborted], [later_fragment_redirected]).
    The version, the total length and the checksums of a packet play no role. *)
Theorem raknet_xdp_exact ctx :
  bytes_ok (ctx_memory ctx) →
  ∃ action, raknet_xdp ctx = Ok action ∧
    (¬ ipv4_fragment (ctx_memory ctx) → ¬ udp_lite (ctx_memory ctx) →
     (∃ payload, payload ≠ [] ∧ carries (ctx_memory ctx) payload ∧
        action = match sockets_redirect (rx_queue_index ctx) 0 with inr a => a | inl _ => XDP_PASS end) ∨
     (carries (ctx_memory ctx) [] ∧ action = XDP_DROP) ∨
     ((∀ payload, ¬ carries (ctx_memory ctx) payload) ∧ (action = XDP_PASS ∨ action = XDP_ABORTED))).
Proof.
  intros Hm. destruct (raknet_xdp_reads ctx Hm) as (action & Ha & H). exists action. split; [done|]. intros Hf Hl.
  setoid_rewrite (carries_read _ _ Hf Hl). exact H.
Qed.
End redirect.

(** ** Samples *)

Definition sample_maps : XdpMaps := {|
  ports_get_ptr p := if p =? 19132 then Some 1 else None;
  sockets_redirect _ _ := inr XDP_REDIRECT;
|}.

(** A datagram of [len] bytes to the RakNet port, with one word of options. *)
Definition sample_packet (fragment : list Z) (len : Z) (payload : list Z) : list Z :=
  EthHeader_as_bytes (mkEthHeader [1; 2; 3; 4; 5; 6] [6; 5; 4; 3; 2; 1] EtherType_IPV4) ++
  Ipv4Header_as_bytes (mkIpv4Header 70 0 [0; 34] [0; 1] fragment 64 Protocol_UDP [0; 0] [10; 0; 0; 1] [10; 0; 0; 2]) ++
  [1; 1; 1; 0] ++
  UdpHeader_as_bytes (mkUdpHeader [200; 0] [74; 188] (be_bytes 2 len) [0; 0]) ++ payload.

Definition sample_ctx (packet : list Z) : XdpContext := mkXdpContext 4096 packet 3.

(** The sample is neither a fragment nor UDP-Lite. *)
Lemma sample_packet_whole :
  let l := ctx_memory (sample_ctx (sample_packet [64; 0] 10 [254; 1])) in ¬ ipv4_fragment l ∧ ¬ udp_lite l.
Proof.
  intros l. split.
  - intros (eth & ip & rest & (H1 & H2 & H3) & _ & (I1 & I2 & I3 & I4 & I5 & I6) & Hw & Hl).
    destruct eth, ip. cbn in *. list_cases. cbn in Hl. injection Hl as <-. subst. apply Hw. reflexivity.
  - intros (eth & rest & (H1 & H2 & H3) & Hl & [(ip & rest' & _ & (I1 & I2 & I3 & I4 & I5 & I6) & Hp & ->)|(ip & rest' & Ht & _)]);
      destruct eth; cbn in *; list_cases; [destruct ip; cbn in *; list_cases|]; cbn in Hl; injection Hl as <-; subst; discriminate.
Qed.

Lemma raknet_xdp_exact_witness :
  let ctx := sample_ctx (sample_packet [64; 0] 10 [254; 1]) in
  ∃ action, raknet_xdp (En:=true) (M:=sample_maps) ctx = Ok action ∧
    ((∃ payload, payload ≠ [] ∧ carries (M:=sample_maps) (ctx_memory ctx) payload ∧
        action = match sockets_redirect (XdpMaps:=sample_maps) (rx_queue_index ctx) 0 with inr a => a | inl _ => XDP_PASS end) ∨
     (carries (M:=sample_maps) (ctx_memory ctx) [] ∧ action = XDP_DROP) ∨
     ((∀ payload, ¬ carries (M:=sample_maps) (ctx_memory ctx) payload) ∧ (action = XDP_PASS ∨ action = XDP_ABORTED))).
Proof.
  intros ctx. destruct (raknet_xdp_exact (En:=true) (M:=sample_maps) ctx) as (action & H1 & H2).
  - vm_compute. repeat (apply Forall_cons; split; [done|]). constructor.
  - exists action. split; [exact H1|]. exact (H2 (proj1 sample_packet_whole) (proj2 sample_packet_whole)).
Defined.

(** The datagram is redirected; to another port it would not be. *)
Example sample_redirected :
  raknet_xdp (En:=true) (M:=sample_maps) (sample_ctx (sample_packet [64; 0] 10 [254; 1])) = Ok XDP_REDIRECT.
Proof. vm_compute. reflexivity. Qed.

(** Fragments of an IPv4 packet are not recognised: the first fragment of a large
    datagram ([more_fragments] is set) is aborted instead of being left to the
    operating system, and a later one is read as if it had a UDP header. *)
Example first_fragment_aborted :
  raknet_xdp (En:=true) (M:=sample_maps) (sample_ctx (sample_packet [32; 0] 4000 [254; 1])) = Ok XDP_ABORTED.
Proof. vm_compute. reflexivity. Qed.

Example later_fragment_redirected :
  raknet_xdp (En:=true) (M:=sample_maps) (sample_ctx (sample_packet [0; 185] 10 [254; 1])) = Ok XDP_REDIRECT.
Proof. vm_compute. reflexivity. Qed.
