(* ===== verification/HeaderFields.v ===== *)
(** * The accessors of the network headers (xdp/ebpf/src/inet)

    A header of a packet is read and written in place: [field()] gives a reference
    to a field and [field_mut()] one through which it is written.  Each accessor
    reads and writes exactly its bytes of the packet. *)
From S2P Require Import Prelude Bytes Inet Xdp.
Open Scope Z_scope.

(** [*header.field()] and [*header.field_mut() = value]. *)
Record accessor (H A : Type) := mkAccessor {
  ac_get : H → A;
  ac_set : A → H → H;
}.
Arguments mkAccessor {H A} _ _.
Arguments ac_get {H A} _ _.
Arguments ac_set {H A} _ _ _.

(** ** Ethernet *)

Definition Eth_destination : accessor EthHeader (list Z) :=
  mkAccessor eth_destination (λ v h, mkEthHeader v (eth_source h) (eth_type h)).
Definition Eth_source : accessor EthHeader (list Z) :=
  mkAccessor eth_source (λ v h, mkEthHeader (eth_destination h) v (eth_type h)).
Definition Eth_ethertype : accessor EthHeader (list Z) :=
  mkAccessor eth_type (λ v h, mkEthHeader (eth_destination h) (eth_source h) v).

(** The predicates of [EtherType], one for each constant. *)
Definition EtherType_is (cap t : list Z) : bool := bool_decide (t = cap).

(** ** IPv4 *)

Definition Ipv4_vihl : accessor Ipv4Header Z :=
  mkAccessor ip4_vihl (λ v h, mkIpv4Header v (ip4_tos h) (ip4_total_len h) (ip4_id h) (ip4_flag_fragment h) (ip4_ttl h)
    (ip4_protocol h) (ip4_checksum h) (ip4_source h) (ip4_destination h)).
Definition Ipv4_tos : accessor Ipv4Header Z :=
  mkAccessor ip4_tos (λ v h, mkIpv4Header (ip4_vihl h) v (ip4_total_len h) (ip4_id h) (ip4_flag_fragment h) (ip4_ttl h)
    (ip4_protocol h) (ip4_checksum h) (ip4_source h) (ip4_destination h)).
Definition Ipv4_total_len : accessor Ipv4Header (list Z) :=
  mkAccessor ip4_total_len (λ v h, mkIpv4Header (ip4_vihl h) (ip4_tos h) v (ip4_id h) (ip4_flag_fragment h) (ip4_ttl h)
    (ip4_protocol h) (ip4_checksum h) (ip4_source h) (ip4_destination h)).
Definition Ipv4_id : accessor Ipv4Header (list Z) :=
  mkAccessor ip4_id (λ v h, mkIpv4Header (ip4_vihl h) (ip4_tos h) (ip4_total_len h) v (ip4_flag_fragment h) (ip4_ttl h)
    (ip4_protocol h) (ip4_checksum h) (ip4_source h) (ip4_destination h)).
Definition Ipv4_flag_fragment : accessor Ipv4Header (list Z) :=
  mkAccessor ip4_flag_fragment (λ v h, mkIpv4Header (ip4_vihl h) (ip4_tos h) (ip4_total_len h) (ip4_id h) v (ip4_ttl h)
    (ip4_protocol h) (ip4_checksum h) (ip4_source h) (ip4_destination h)).
Definition Ipv4_ttl : accessor Ipv4Header Z :=
  mkAccessor ip4_ttl (λ v h, mkIpv4Header (ip4_vihl h) (ip4_tos h) (ip4_total_len h) (ip4_id h) (ip4_flag_fragment h) v
    (ip4_protocol h) (ip4_checksum h) (ip4_source h) (ip4_destination h)).
Definition Ipv4_protocol : accessor Ipv4Header Z :=
  mkAccessor ip4_protocol (λ v h, mkIpv4Header (ip4_vihl h) (ip4_tos h) (ip4_total_len h) (ip4_id h) (ip4_flag_fragment h)
    (ip4_ttl h) v (ip4_checksum h) (ip4_source h) (ip4_destination h)).
Definition Ipv4_checksum : accessor Ipv4Header (list Z) :=
  mkAccessor ip4_checksum (λ v h, mkIpv4Header (ip4_vihl h) (ip4_tos h) (ip4_total_len h) (ip4_id h) (ip4_flag_fragment h)
    (ip4_ttl h) (ip4_protocol h) v (ip4_source h) (ip4_destination h)).
Definition Ipv4_source : accessor Ipv4Header (list Z) :=
  mkAccessor ip4_source (λ v h, mkIpv4Header (ip4_vihl h) (ip4_tos h) (ip4_total_len h) (ip4_id h) (ip4_flag_fragment h)
    (ip4_ttl h) (ip4_protocol h) (ip4_checksum h) v (ip4_destination h)).
Definition Ipv4_destination : accessor Ipv4Header (list Z) :=
  mkAccessor ip4_destination (λ v h, mkIpv4Header (ip4_vihl h) (ip4_tos h) (ip4_total_len h) (ip4_id h) (ip4_flag_fragment h)
    (ip4_ttl h) (ip4_protocol h) (ip4_checksum h) (ip4_source h) v).

(** [update_checksum] does nothing yet. *)
Definition Ipv4_update_checksum (h : Ipv4Header) : Ipv4Header := h.

(** The predicates of [ip::Protocol]. *)
Definition Protocol_is (cap t : Z) : bool := t =? cap.

(** ** IPv6 *)

Definition Ipv6_vtcfl : accessor Ipv6Header Vtcfl :=
  mkAccessor ip6_vtcfl (λ v h, mkIpv6Header v (ip6_payload_len h) (ip6_next_header h) (ip6_hop_limit h) (ip6_source h) (ip6_destination h)).
Definition Ipv6_payload_len : accessor Ipv6Header (list Z) :=
  mkAccessor ip6_payload_len (λ v h, mkIpv6Header (ip6_vtcfl h) v (ip6_next_header h) (ip6_hop_limit h) (ip6_source h) (ip6_destination h)).
Definition Ipv6_next_header : accessor Ipv6Header Z :=
  mkAccessor ip6_next_header (λ v h, mkIpv6Header (ip6_vtcfl h) (ip6_payload_len h) v (ip6_hop_limit h) (ip6_source h) (ip6_destination h)).
Definition Ipv6_hop_limit : accessor Ipv6Header Z :=
  mkAccessor ip6_hop_limit (λ v h, mkIpv6Header (ip6_vtcfl h) (ip6_payload_len h) (ip6_next_header h) v (ip6_source h) (ip6_destination h)).
Definition Ipv6_source : accessor Ipv6Header (list Z) :=
  mkAccessor ip6_source (λ v h, mkIpv6Header (ip6_vtcfl h) (ip6_payload_len h) (ip6_next_header h) (ip6_hop_limit h) v (ip6_destination h)).
Definition Ipv6_destination : accessor Ipv6Header (list Z) :=
  mkAccessor ip6_destination (λ v h, mkIpv6Header (ip6_vtcfl h) (ip6_payload_len h) (ip6_next_header h) (ip6_hop_limit h) (ip6_source h) v).

(** ** UDP *)

Definition Udp_source : accessor UdpHeader (list Z) :=
  mkAccessor udp_source (λ v h, mkUdpHeader v (udp_destination h) (udp_len h) (udp_checksum h)).
Definition Udp_destination : accessor UdpHeader (list Z) :=
  mkAccessor udp_destination (λ v h, mkUdpHeader (udp_source h) v (udp_len h) (udp_checksum h)).
Definition Udp_len : accessor UdpHeader (list Z) :=
  mkAccessor udp_len (λ v h, mkUdpHeader (udp_source h) (udp_destination h) v (udp_checksum h)).
Definition Udp_checksum : accessor UdpHeader (list Z) :=
  mkAccessor udp_checksum (λ v h, mkUdpHeader (udp_source h) (udp_destination h) (udp_len h) v).

(** ** Bytes *)

(** The accessor is for the [len] bytes at [off]: it reads them, and writing it
    replaces them and keeps the header well formed. *)
Definition located {H A} (ok : H → Prop) (as_bytes : H → list Z) (bytes_of : A → list Z) (off len : nat)
    (f : accessor H A) : Prop :=
  ∀ h, ok h →
    bytes_of (ac_get f h) = take len (drop off (as_bytes h)) ∧
    ∀ v, length (bytes_of v) = len → ok (ac_set f v h) ∧ as_bytes (ac_set f v h) = splice off (bytes_of v) (as_bytes h) ∧
      ac_get f (ac_set f v h) = v.

Definition one_byte (z : Z) : list Z := [z].

Ltac accessor_bytes :=
  intros h Hok; destruct h; cbn in Hok; destruct_and? Hok; cbn in *; list_cases; split; [reflexivity|];
  intros v Hv; cbn in *; list_cases; split_and!; reflexivity.

Lemma eth_accessors :
  located EthHeader_ok EthHeader_as_bytes id 0 6 Eth_destination ∧
  located EthHeader_ok EthHeader_as_bytes id 6 6 Eth_source ∧
  located EthHeader_ok EthHeader_as_bytes id 12 2 Eth_ethertype.
Proof. split_and!; unfold located, EthHeader_ok, id; accessor_bytes. Qed.

Lemma ipv4_accessors :
  located Ipv4Header_ok Ipv4Header_as_bytes one_byte 0 1 Ipv4_vihl ∧
  located Ipv4Header_ok Ipv4Header_as_bytes one_byte 1 1 Ipv4_tos ∧
  located Ipv4Header_ok Ipv4Header_as_bytes id 2 2 Ipv4_total_len ∧
  located Ipv4Header_ok Ipv4Header_as_bytes id 4 2 Ipv4_id ∧
  located Ipv4Header_ok Ipv4Header_as_bytes id 6 2 Ipv4_flag_fragment ∧
  located Ipv4Header_ok Ipv4Header_as_bytes one_byte 8 1 Ipv4_ttl ∧
  located Ipv4Header_ok Ipv4Header_as_bytes one_byte 9 1 Ipv4_protocol ∧
  located Ipv4Header_ok Ipv4Header_as_bytes id 10 2 Ipv4_checksum ∧
  located Ipv4Header_ok Ipv4Header_as_bytes id 12 4 Ipv4_source ∧
  located Ipv4Header_ok Ipv4Header_as_bytes id 16 4 Ipv4_destination.
Proof. split_and!; unfold located, Ipv4Header_ok, one_byte, id; accessor_bytes. Qed.

Lemma ipv6_accessors :
  located Ipv6Header_ok Ipv6Header_as_bytes Vtcfl_as_bytes 0 4 Ipv6_vtcfl ∧
  located Ipv6Header_ok Ipv6Header_as_bytes id 4 2 Ipv6_payload_len ∧
  located Ipv6Header_ok Ipv6Header_as_bytes one_byte 6 1 Ipv6_next_header ∧
  located Ipv6Header_ok Ipv6Header_as_bytes one_byte 7 1 Ipv6_hop_limit ∧
  located Ipv6Header_ok Ipv6Header_as_bytes id 8 16 Ipv6_source ∧
  located Ipv6Header_ok Ipv6Header_as_bytes id 24 16 Ipv6_destination.
Proof. split_and!; unfold located, Ipv6Header_ok, one_byte, id; accessor_bytes. Qed.

Lemma udp_accessors :
  located UdpHeader_ok UdpHeader_as_bytes id 0 2 Udp_source ∧
  located UdpHeader_ok UdpHeader_as_bytes id 2 2 Udp_destination ∧
  located UdpHeader_ok UdpHeader_as_bytes id 4 2 Udp_len ∧
  located UdpHeader_ok UdpHeader_as_bytes id 6 2 Udp_checksum.
Proof. split_and!; unfold located, UdpHeader_ok, id; accessor_bytes. Qed.

(** Fields at places that do not overlap are independent, whatever the header and the
    types of the fields: each is read as before after the other was written, and the
    order of writes does not matter for the bytes of the packet. *)
Theorem fields_independent {H A A'} (ok : H → Prop) (as_bytes : H → list Z) (bytes_of : A → list Z) (bytes_of' : A' → list Z)
    off len off' len' (f : accessor H A) (g : accessor H A') h v w :
  located ok as_bytes bytes_of off len f → located ok as_bytes bytes_of' off' len' g → ok h →
  (off + len ≤ off' ∨ off' + len' ≤ off)%nat → (off + len ≤ length (as_bytes h))%nat → (off' + len' ≤ length (as_bytes h))%nat →
  length (bytes_of v) = len → length (bytes_of' w) = len' →
  bytes_of (ac_get f (ac_set g w h)) = bytes_of (ac_get f h) ∧
  as_bytes (ac_set f v (ac_set g w h)) = as_bytes (ac_set g w (ac_set f v h)).
Proof.
  intros Hf Hg Hok Hd Hl Hl' Hv Hw.
  destruct (Hg h Hok) as [_ Hg1]. destruct (Hg1 w Hw) as (Hokg & Hbg & _).
  destruct (Hf h Hok) as [Hfh Hf1]. destruct (Hf1 v Hv) as (Hokf & Hbf & _).
  destruct (Hf _ Hokg) as [Hfg Hf2]. destruct (Hf2 v Hv) as (_ & Hbfg & _).
  destruct (Hg _ Hokf) as [_ Hg2]. destruct (Hg2 w Hw) as (_ & Hbgf & _). split.
  - rewrite Hfh, Hfg, Hbg. apply splice_slice; lia.
  - rewrite Hbfg, Hbgf, Hbg, Hbf. apply splice_comm; lia.
Qed.

(** The lengths of the headers are those of their types. *)
Lemma header_lengths :
  (∀ h, EthHeader_ok h → length (EthHeader_as_bytes h) = 14%nat) ∧
  (∀ h, Ipv4Header_ok h → length (Ipv4Header_as_bytes h) = 20%nat) ∧
  (∀ h, Ipv6Header_ok h → length (Ipv6Header_as_bytes h) = 40%nat) ∧
  (∀ h, UdpHeader_ok h → length (UdpHeader_as_bytes h) = 8%nat).
Proof.
  split_and!; intros h Hok; destruct h; cbn in Hok; unfold EthHeader_ok, Ipv4Header_ok, Ipv6Header_ok, UdpHeader_ok in Hok;
    destruct_and? Hok; cbn in *; list_cases; reflexivity.
Qed.

(** Swapping the direction of a header is writing each address to the place of the
    other, and twice is nothing. *)
Lemma swaps_exact :
  (∀ h, EthHeader_swap h = ac_set Eth_source (eth_destination h) (ac_set Eth_destination (eth_source h) h) ∧
    EthHeader_swap (EthHeader_swap h) = h) ∧
  (∀ h, Ipv4Header_swap h = ac_set Ipv4_source (ip4_destination h) (ac_set Ipv4_destination (ip4_source h) h) ∧
    Ipv4Header_swap (Ipv4Header_swap h) = h) ∧
  (∀ h, Ipv6Header_swap h = ac_set Ipv6_source (ip6_destination h) (ac_set Ipv6_destination (ip6_source h) h) ∧
    Ipv6Header_swap (Ipv6Header_swap h) = h) ∧
  (∀ h, UdpHeader_swap h = ac_set Udp_source (udp_destination h) (ac_set Udp_destination (udp_source h) h) ∧
    UdpHeader_swap (UdpHeader_swap h) = h).
Proof. split_and!; by intros []. Qed.
