(* ===== verification/Umem.v ===== *)
(** * Packet memory of the XDP socket (xdp/raknet-xdp/src)

    The memory that is shared with the kernel, cut into frames (umem.rs, mmap.rs),
    and the layout of the rings, which older kernels report without the flags
    (if_xdp.rs, syscall.rs).  System calls are an interface: a call gives a result
    and an error number.  The theorems: the frames are disjoint, in bounds and cover
    the memory, and the offsets of either kind of kernel are read correctly. *)
From S2P Require Import Prelude Bytes Errors.
Open Scope Z_scope.

(** ** System calls (syscall.rs) *)

(** The calls that the source makes and the constants of the [libc] crate it uses.
    A result is the return value and [errno]; [getsockopt] also gives the words it
    wrote and the new length. *)
Class Libc := {
  MAP_SHARED : Z; MAP_POPULATE : Z; MAP_PRIVATE : Z; MAP_ANONYMOUS : Z; MAP_HUGETLB : Z;
  MAP_FAILED : Z; ENOPROTOOPT : Z; AF_XDP : Z; AF_LOCAL : Z; SOCK_RAW : Z; SOCK_DGRAM : Z; SOL_XDP : Z; SOL_SOCKET : Z;
  PF_XDP : Z; MSG_DONTWAIT : Z;
  sys_socket : Z → Z → Z → Z * Z;
  sys_mmap : Z → Z → Z → Z → Z * Z;
  sys_getsockopt : Z → Z → Z → Z → Z * Z * list Z * Z;
  sys_setsockopt : Z → Z → Z → list Z → Z * Z;
  sys_bind : Z → list Z → Z * Z;
  sys_sendto : Z → Z → Z * Z;
  sys_recvmsg : Z → Z → Z * Z;
  sys_if_nametoindex : string → Z * Z;
  sys_ethtool_channels : Z → string → (Z * Z) * (Z * Z * Z);
  sys_read_dir : string → option (list string);
}.

Definition last_os_error (errno : Z) : io_error := IoError (OsError errno) "".

(** The [libc!] macro. *)
Definition libc_call (r : Z * Z) : outcome io_error Z :=
  if r.1 <? 0 then Err (last_os_error r.2) else Ok r.1.

(** ** Types of the kernel interface (if_xdp.rs) *)

Record RingOffsetV1 := mkRingOffsetV1 { v1_producer : Z; v1_consumer : Z; v1_desc : Z }.
Record RingOffsetV2 := mkRingOffsetV2 { producer : Z; consumer : Z; desc : Z; ring_flags : Z }.

Record MmapOffsets (O : Type) := mkMmapOffsets { off_rx : O; off_tx : O; off_fill : O; off_completion : O }.
Arguments mkMmapOffsets {O} _ _ _ _.
Arguments off_rx {O} _.
Arguments off_tx {O} _.
Arguments off_fill {O} _.
Arguments off_completion {O} _.

Inductive SocketOptions :=
| OptMmapOffsets | RxRing | TxRing | OptUmemReg | UmemFillRing | UmemCompletionRing | OptStatistics | OptOptions.

Definition SocketOptions_as_i32 (o : SocketOptions) : Z :=
  match o with
  | OptMmapOffsets => 1 | RxRing => 2 | TxRing => 3 | OptUmemReg => 4
  | UmemFillRing => 5 | UmemCompletionRing => 6 | OptStatistics => 7 | OptOptions => 8
  end.

Record UmemDescriptor := mkUmemDescriptor { umem_address : Z }.
Record RxTxDescriptor := mkRxTxDescriptor { rx_address : Z; rx_len : Z; rx_options : Z }.

Definition with_len (d : UmemDescriptor) (len : Z) : RxTxDescriptor := mkRxTxDescriptor (umem_address d) len 0.
Definition UmemDescriptor_from (d : RxTxDescriptor) : UmemDescriptor := mkUmemDescriptor (rx_address d).

(** The words of the structs, which are [repr(C)]: as the kernel writes them. *)
Definition RingOffsetV2_of_words (l : list Z) : RingOffsetV2 :=
  mkRingOffsetV2 (l !!! 0%nat) (l !!! 1%nat) (l !!! 2%nat) (l !!! 3%nat).
Definition RingOffsetV1_of_words (l : list Z) : RingOffsetV1 :=
  mkRingOffsetV1 (l !!! 0%nat) (l !!! 1%nat) (l !!! 2%nat).
Definition MmapOffsets_of_words {O} (size : nat) (of_words : list Z → O) (l : list Z) : MmapOffsets O :=
  mkMmapOffsets (of_words l) (of_words (drop size l)) (of_words (drop (2 * size) l)) (of_words (drop (3 * size) l)).
Definition RingOffsetV2_words (o : RingOffsetV2) : list Z := [producer o; consumer o; desc o; ring_flags o].
Definition MmapOffsets_words (o : MmapOffsets RingOffsetV2) : list Z :=
  RingOffsetV2_words (off_rx o) ++ RingOffsetV2_words (off_tx o) ++ RingOffsetV2_words (off_fill o) ++
  RingOffsetV2_words (off_completion o).

Section umem.
Context {B : Build} {L : Libc}.

Definition set_v1 {E} (v1 : RingOffsetV1) : outcome E RingOffsetV2 :=
  flags ← uadd 64 (v1_consumer v1) 4;
  mret (mkRingOffsetV2 (v1_producer v1) (v1_consumer v1) (v1_desc v1) flags).

(** [as_v1] reads its own memory as the older struct. *)
Definition as_v1 {E} (o : MmapOffsets RingOffsetV2) : outcome E (MmapOffsets RingOffsetV2) :=
  let v1 := MmapOffsets_of_words 3 RingOffsetV1_of_words (MmapOffsets_words o) in
  rx ← set_v1 (off_rx v1);
  tx ← set_v1 (off_tx v1);
  fill ← set_v1 (off_fill v1);
  completion ← set_v1 (off_completion v1);
  mret (mkMmapOffsets rx tx fill completion).

Definition RingOffsetV2_default : RingOffsetV2 := mkRingOffsetV2 0 0 0 0.
Definition MmapOffsets_default : MmapOffsets RingOffsetV2 :=
  mkMmapOffsets RingOffsetV2_default RingOffsetV2_default RingOffsetV2_default RingOffsetV2_default.

(** [get_xdp_option]: the call overwrites the words of the value. *)
Definition get_xdp_option (fd : Z) (opt : SocketOptions) (value : list Z) : outcome io_error (list Z * Z) :=
  let '(r, written, optlen) := sys_getsockopt fd SOL_XDP (SocketOptions_as_i32 opt) (8 * Z.of_nat (length value)) in
  libc_call r;;
  mret (written ++ drop (length written) value, optlen).

Definition offsets (fd : Z) : outcome io_error (MmapOffsets RingOffsetV2) :=
  '(words, optlen) ← get_xdp_option fd OptMmapOffsets (MmapOffsets_words MmapOffsets_default);
  let o := MmapOffsets_of_words 4 RingOffsetV2_of_words words in
  if optlen =? 128 then mret o
  else if optlen =? 96 then as_v1 o
  else Err (IoError Other ("invalid mmap offset size: " +:+ pretty optlen)).

Definition set_xdp_option (fd : Z) (opt : SocketOptions) (value : list Z) : outcome io_error unit :=
  libc_call (sys_setsockopt fd SOL_XDP (SocketOptions_as_i32 opt) value);; mret tt.

Definition xdp_open : outcome io_error Z := libc_call (sys_socket AF_XDP SOCK_RAW 0).

Record Statistics := mkStatistics {
  rx_dropped : Z;
  rx_invalid_descriptors : Z;
  tx_invalid_descriptors : Z;
  rx_ring_full : Z;
  rx_fill_ring_empty_descriptors : Z;
  tx_ring_empty_descriptors : Z;
}.

Definition statistics (fd : Z) : outcome io_error Statistics :=
  '(w, _) ← get_xdp_option fd OptStatistics [0; 0; 0; 0; 0; 0];
  mret (mkStatistics (w !!! 0%nat) (w !!! 1%nat) (w !!! 2%nat) (w !!! 3%nat) (w !!! 4%nat) (w !!! 5%nat)).

Definition SO_NETNS_COOKIE : Z := 71.

(** [netns_cookie]: kernels without the option have the cookie 1. *)
Definition netns_cookie (fd : Z) : outcome io_error Z :=
  let '((ret, errno), written, _) := sys_getsockopt fd SOL_SOCKET SO_NETNS_COOKIE 8 in
  if ret =? 0 then Ok ((written ++ drop (length written) [0]) !!! 0%nat)
  else if errno =? ENOPROTOOPT then Ok 1
  else Err (last_os_error errno).

Definition set_fill_ring_size (fd len : Z) := set_xdp_option fd UmemFillRing [len].
Definition set_completion_ring_size (fd len : Z) := set_xdp_option fd UmemCompletionRing [len].
Definition set_rx_ring_size (fd len : Z) := set_xdp_option fd RxRing [len].
Definition set_tx_ring_size (fd len : Z) := set_xdp_option fd TxRing [len].

(** The address of a socket. *)
Record Address := mkAddress {
  family : Z;
  addr_flags : Z;
  ifindex : Z;
  queue_id : Z;
  shared_umem_fd : Z;
}.

Definition Address_default : Address := mkAddress PF_XDP 0 0 0 0.
Definition SHARED_UMEM : Z := 1.

Definition if_nametoindex (name : string) : outcome io_error Z :=
  let '(ifindex, errno) := sys_if_nametoindex name in
  if ifindex =? 0 then Err (last_os_error errno) else Ok ifindex.

Definition set_if_name (name : string) (a : Address) : outcome io_error Address :=
  i ← if_nametoindex name; mret (mkAddress (family a) (addr_flags a) i (queue_id a) (shared_umem_fd a)).

Definition set_shared_umem (fd : Z) (a : Address) : Address :=
  mkAddress (family a) SHARED_UMEM (ifindex a) (queue_id a) (wrap 32 fd).

Definition xdp_bind (fd : Z) (a : Address) : outcome io_error unit :=
  libc_call (sys_bind fd [family a; addr_flags a; ifindex a; queue_id a; shared_umem_fd a]);; mret tt.

Definition wake_tx (fd : Z) : outcome io_error unit := libc_call (sys_sendto fd MSG_DONTWAIT);; mret tt.

Definition busy_poll (fd : Z) : outcome io_error Z :=
  count ← libc_call (sys_recvmsg fd MSG_DONTWAIT); mret (wrap 32 count).

(** [mmap] *)
Definition mmap (len offset : Z) (fd : option Z) (huge : bool) : outcome io_error Z :=
  let flags := if fd is Some _ then Z.lor MAP_SHARED MAP_POPULATE else Z.lor MAP_PRIVATE MAP_ANONYMOUS in
  let flags := if huge then Z.lor flags MAP_HUGETLB else flags in
  let '(addr, errno) := sys_mmap len flags (default (-1) fd) offset in
  if addr =? MAP_FAILED then Err (last_os_error errno)
  else if addr =? 0 then Err (IoError Other "mmap returned null pointer")
  else Ok addr.

(** [ethtool_queues]: the name must fit into the 16 bytes of [ifr_name]. *)
Definition ethtool_queues {E} (ifname : string) : outcome E (option Z) :=
  match libc_call (sys_socket AF_LOCAL SOCK_DGRAM 0) with
  | Ok fd =>
      assert_ (bool_decide (String.length ifname < 16)%nat);;
      let '(r, (max_rx, max_tx, max_combined)) := sys_ethtool_channels fd ifname in
      match libc_call r with
      | Ok _ => mret (Some (Z.max (Z.max max_rx max_tx) max_combined))
      | _ => mret None
      end
  | _ => mret None
  end.

(** [sysfs_queues]: the entries of the directory by their prefix. *)
Definition count_prefix (p : string) (l : list string) : Z := Z.of_nat (length (filter (λ s, String.prefix p s = true) l)).

Definition sysfs_queues (ifname : string) : option Z :=
  match sys_read_dir ifname with
  | None => None
  | Some entries => Some (Z.max (Z.max (count_prefix "rx" entries) (count_prefix "tx" entries)) 1)
  end.

Definition positive (o : option Z) : option Z := v ← o; if 0 <? v then Some v else None.

Definition max_queues {E} (ifname : string) : outcome E Z :=
  q ← ethtool_queues ifname;
  match positive q with
  | Some queues => mret queues
  | None => match positive (sysfs_queues ifname) with Some queues => mret queues | None => mret 1 end
  end.

(** ** Memory (mmap.rs, umem.rs) *)

Record Mmap := mkMmap { mmap_addr : Z; mmap_len : Z }.

Inductive MmapOptions := Huge | MmapFd (fd : Z).

Definition Mmap_new (len offset : Z) (flags : option MmapOptions) : outcome io_error Mmap :=
  addr ←
    match flags with
    | Some Huge => mmap len offset None true
    | Some (MmapFd fd) => mmap len offset (Some fd) false
    | None => mmap len offset None false
    end;
  mret (mkMmap addr len).

Record UmemBuilder := mkUmemBuilder {
  b_frame_size : Z;
  b_frame_count : Z;
  b_frame_headroom : Z;
  b_flags : Z;
  b_hugepage : bool;
}.

Definition DEFAULT_FRAME_SIZE : Z := 4096.
Definition UmemBuilder_default : UmemBuilder := mkUmemBuilder DEFAULT_FRAME_SIZE 1024 0 0 false.

Record Umem := mkUmem {
  area : Mmap;
  mem : Z;
  frame_size : Z;
  frame_count : Z;
  frame_headroom : Z;
  umem_flags : Z;
}.

(** [a * b] on [w]-bit unsigned integers. *)
Definition umul {E} (w a b : Z) : outcome E Z :=
  if a * b <? 2 ^ w then Ok (a * b) else if debug_assertions then Panic else Ok (wrap w (a * b)).

Definition UmemBuilder_build (b : UmemBuilder) : outcome io_error Umem :=
  len ← umul 64 (b_frame_size b) (b_frame_count b);
  let options := if b_hugepage b then Some Huge else None in
  area ← Mmap_new len 0 options;
  mret (mkUmem area (mmap_addr area) (b_frame_size b) (b_frame_count b) (b_frame_headroom b) (b_flags b)).

(** [(0..frame_count).map(|idx| idx * size)] *)
Fixpoint frames_loop {E} (idxs : list Z) (size : Z) : outcome E (list UmemDescriptor) :=
  match idxs with
  | [] => mret []
  | idx :: idxs =>
      address ← umul 64 idx size;
      ds ← frames_loop idxs size;
      mret (mkUmemDescriptor address :: ds)
  end.

Definition Umem_frames {E} (u : Umem) : outcome E (list UmemDescriptor) :=
  frames_loop (seqZ 0 (frame_count u)) (frame_size u).

(** The descriptors are checked in a debug build; a slice is its address and
    length. *)
Definition validate_rx_tx_descriptor {E} (u : Umem) (d : RxTxDescriptor) : outcome E Z :=
  debug_assert (rx_len d <=? frame_size u);;
  (if debug_assertions then e ← uadd 64 (rx_address d) (rx_len d); assert_ (e <=? mmap_len (area u)) else mret tt);;
  mret (mem u + rx_address d).

Definition validate_umem_descriptor {E} (u : Umem) (d : UmemDescriptor) : outcome E Z :=
  (if debug_assertions then e ← uadd 64 (umem_address d) (frame_size u); assert_ (e <=? mmap_len (area u)) else mret tt);;
  mret (mem u + umem_address d).

Definition index_rx {E} (u : Umem) (d : RxTxDescriptor) : outcome E (Z * Z) :=
  ptr ← validate_rx_tx_descriptor u d; mret (ptr, rx_len d).
Definition index_umem {E} (u : Umem) (d : UmemDescriptor) : outcome E (Z * Z) :=
  ptr ← validate_umem_descriptor u d; mret (ptr, frame_size u).

(** [attach]: what the kernel is told about the memory. *)
Record UmemReg := mkUmemReg { reg_addr : Z; reg_len : Z; reg_chunk_size : Z; reg_headroom : Z; reg_flags : Z }.

Definition attach (u : Umem) (fd : Z) : outcome io_error unit :=
  let reg := mkUmemReg (mmap_addr (area u)) (mmap_len (area u)) (frame_size u) (frame_headroom u) (umem_flags u) in
  set_xdp_option fd OptUmemReg [reg_addr reg; reg_len reg; reg_chunk_size reg; reg_headroom reg; reg_flags reg].

(** ** Frames *)

Lemma umul_Ok {E} w a b : a * b < 2 ^ w → umul (E:=E) w a b = Ok (a * b).
Proof. intros H. unfold umul. by rewrite (proj2 (Z.ltb_lt _ _)). Qed.

Lemma frames_loop_Ok {E} idxs size :
  Forall (λ i, i * size < 2 ^ 64) idxs →
  frames_loop (E:=E) idxs size = Ok ((λ i, mkUmemDescriptor (i * size)) <$> idxs).
Proof.
  induction 1 as [|i idxs Hi _ IH]; cbn; [done|]. rewrite umul_Ok by done. cbn. rewrite IH. done.
Qed.

(** The frames of a memory: one after the other. *)
Lemma Umem_frames_Ok {E} u :
  uint 32 (frame_size u) → uint 32 (frame_count u) →
  Umem_frames (E:=E) u = Ok ((λ i, mkUmemDescriptor (i * frame_size u)) <$> seqZ 0 (frame_count u)).
Proof.
  intros Hs Hc. apply frames_loop_Ok. apply Forall_forall. intros i Hi%elem_of_seqZ.
  unfold uint in *. assert (2 ^ 64 = 2 ^ 32 * 2 ^ 32) as -> by done. nia.
Qed.

(** The memory was laid out by the builder. *)
Definition Umem_ok (u : Umem) : Prop :=
  uint 32 (frame_size u) ∧ uint 32 (frame_count u) ∧ mmap_len (area u) = frame_size u * frame_count u ∧
  mem u = mmap_addr (area u).

Lemma UmemBuilder_build_ok b u :
  uint 32 (b_frame_size b) → uint 32 (b_frame_count b) → UmemBuilder_build b = Ok u →
  Umem_ok u ∧ frame_size u = b_frame_size b ∧ frame_count u = b_frame_count b.
Proof.
  intros Hs Hc. unfold UmemBuilder_build, Mmap_new. rewrite umul_Ok; cbn.
  - intros Hb. bind_inv. subst u. destruct (b_hugepage b); cbn in Hm; bind_inv; by subst.
  - unfold uint in *. assert (2 ^ 64 = 2 ^ 32 * 2 ^ 32) as -> by done. nia.
Qed.

(** A frame, and any packet in it, can be accessed in a debug build too. *)
Lemma index_Ok {E} u i len :
  Umem_ok u → 0 ≤ i < frame_count u → 0 ≤ len ≤ frame_size u →
  index_umem (E:=E) u (mkUmemDescriptor (i * frame_size u)) = Ok (mem u + i * frame_size u, frame_size u) ∧
  index_rx (E:=E) u (with_len (mkUmemDescriptor (i * frame_size u)) len) = Ok (mem u + i * frame_size u, len).
Proof.
  intros (Hs & Hc & Hl & _) Hi Hlen. unfold uint in *.
  assert (i * frame_size u + frame_size u ≤ mmap_len (area u)) as Hin by (rewrite Hl; nia).
  assert (mmap_len (area u) < 2 ^ 64) as H64.
  { rewrite Hl. assert (2 ^ 64 = 2 ^ 32 * 2 ^ 32) as -> by done. nia. }
  unfold index_umem, validate_umem_descriptor, index_rx, validate_rx_tx_descriptor, with_len, debug_assert.
  cbn [umem_address rx_address rx_len]. rewrite !uadd_Ok by lia.
  rewrite (proj2 (Z.leb_le len _)) by lia. cbn.
  rewrite !(proj2 (Z.leb_le _ (mmap_len _))) by lia. by destruct debug_assertions.
Qed.

(** C28. The packet memory is cut into frames without overlap or waste: for a memory
    made by the builder, the iterator gives one descriptor per frame; each of them
    (and a packet of any length up to the frame size in it) indexes a region of the
    mapping without tripping an assertion, different frames do not overlap, and every
    byte of the mapping belongs to a frame. *)
Theorem Umem_frames_partition {E} b u :
  uint 32 (b_frame_size b) → uint 32 (b_frame_count b) → UmemBuilder_build b = Ok u →
  ∃ ds, Umem_frames (E:=E) u = Ok ds ∧ Z.of_nat (length ds) = b_frame_count b ∧
    (∀ d len, d ∈ ds → 0 ≤ len ≤ frame_size u →
      ∃ ptr, index_umem (E:=E) u d = Ok (ptr, frame_size u) ∧ index_rx (E:=E) u (with_len d len) = Ok (ptr, len) ∧
        mmap_addr (area u) ≤ ptr ∧ ptr + frame_size u ≤ mmap_addr (area u) + mmap_len (area u)) ∧
    (∀ i j d e, ds !! i = Some d → ds !! j = Some e → i ≠ j →
      umem_address d + frame_size u ≤ umem_address e ∨ umem_address e + frame_size u ≤ umem_address d) ∧
    (∀ x, 0 ≤ x < mmap_len (area u) →
      ∃ d, d ∈ ds ∧ umem_address d ≤ x < umem_address d + frame_size u).
Proof.
  intros Hbs Hbc Hb. destruct (UmemBuilder_build_ok b u Hbs Hbc Hb) as (Hok & Hs & Hc).
  pose proof Hok as (Us & Uc & Ul & Um). eexists. split; [by apply Umem_frames_Ok|].
  unfold uint in *. split_and!.
  - rewrite length_fmap, length_seqZ. lia.
  - intros d len (i & -> & Hi%elem_of_seqZ)%list_elem_of_fmap Hlen.
    destruct (index_Ok (E:=E) u i len Hok) as [H1 H2]; [lia|lia|].
    eexists. split_and!; [done|done|nia|]. rewrite Um, Ul. nia.
  - intros i j d e Hd He Hne. apply list_lookup_fmap_Some in Hd as (x & -> & Hx), He as (y & -> & Hy).
    apply lookup_seqZ in Hx as [-> Hx], Hy as [-> Hy]. cbn. nia.
  - intros x Hx. rewrite Ul in Hx. exists (mkUmemDescriptor (x / frame_size u * frame_size u)). split.
    + apply list_elem_of_fmap. exists (x / frame_size u). split; [done|]. apply elem_of_seqZ.
      split; [apply Z.div_pos; nia|]. rewrite Z.add_0_l. apply Z.div_lt_upper_bound; nia.
    + cbn. pose proof (Z.div_mod x (frame_size u)). pose proof (Z.mod_pos_bound x (frame_size u)). nia.
Qed.

(** ** Offsets *)

Definition v1_ring (words : list Z) (k : nat) : RingOffsetV2 :=
  mkRingOffsetV2 (words !!! (3 * k)%nat) (words !!! (3 * k + 1)%nat) (words !!! (3 * k + 2)%nat)
    (words !!! (3 * k + 1)%nat + 4).

(** The layout of the rings is read from kernels of either kind: a kernel that
    reports sixteen words gives the offsets as they are; one that reports twelve, which
    has no flags, gives the same rings with the flags behind the consumer; anything
    else is an error. *)
Theorem offsets_exact fd r words optlen :
  sys_getsockopt fd SOL_XDP 1 128 = (r, words, optlen) → 0 ≤ r.1 → Forall (λ w, 0 ≤ w < 2 ^ 64 - 4) words →
  (length words = 16%nat → optlen = 128 →
    ∃ o, offsets fd = Ok o ∧ MmapOffsets_words o = words) ∧
  (length words = 12%nat → optlen = 96 →
    offsets fd = Ok (mkMmapOffsets (v1_ring words 0) (v1_ring words 1) (v1_ring words 2) (v1_ring words 3))) ∧
  (optlen ≠ 128 → optlen ≠ 96 → ∃ e, offsets fd = Err e).
Proof.
  intros Hsys Hr Hw.
  assert (∀ v, length v = 16%nat → get_xdp_option fd OptMmapOffsets v = Ok (words ++ drop (length words) v, optlen)) as Hget.
  { intros v Hv. unfold get_xdp_option. rewrite Hv. change (8 * Z.of_nat 16) with 128. cbn [SocketOptions_as_i32].
    rewrite Hsys. unfold libc_call. by rewrite (proj2 (Z.ltb_ge _ _)). }
  unfold offsets. rewrite Hget by done. cbn [mbind outcome_bind]. split_and!.
  - intros Hl ->. cbn. eexists. split; [done|].
    do 16 (destruct words as [|? words]; [discriminate Hl|]). destruct words; [|discriminate Hl]. done.
  - intros Hl ->. rewrite (proj2 (Z.eqb_neq 96 128)) by lia. rewrite Z.eqb_refl.
    do 12 (destruct words as [|? words]; [discriminate Hl|]). destruct words; [|discriminate Hl].
    repeat match goal with H : Forall _ (_ :: _) |- _ => apply Forall_cons in H as [? H] end.
    cbn [app drop length MmapOffsets_of_words]. unfold as_v1, set_v1. cbn.
    rewrite !uadd_Ok by lia. done.
  - intros H1 H2. rewrite (proj2 (Z.eqb_neq optlen 128)), (proj2 (Z.eqb_neq optlen 96)) by done. by eexists.
Qed.

(** ** Queues *)

(** A device has at least one queue, whatever the kernel says about it; a name
    that does not fit into the kernel's struct is not an error but a panic, when a
    socket can be opened at all. *)
Theorem max_queues_positive {E} ifname :
  ((String.length ifname < 16)%nat → ∃ q, max_queues (E:=E) ifname = Ok q ∧ 1 ≤ q) ∧
  ((16 ≤ String.length ifname)%nat → 0 ≤ (sys_socket AF_LOCAL SOCK_DGRAM 0).1 → max_queues (E:=E) ifname = Panic).
Proof.
  unfold max_queues, ethtool_queues, libc_call.
  assert (∀ o v, positive o = Some v → 1 ≤ v) as Hpos.
  { intros [x|] v; [|done]. cbn. destruct (Z.ltb_spec 0 x); intros; simplify_eq; lia. }
  split.
  - intros Hlen. rewrite bool_decide_true by done.
    destruct ((sys_socket AF_LOCAL SOCK_DGRAM 0).1 <? 0); cbn [mbind outcome_bind assert_].
    all: try (destruct (sys_ethtool_channels _ ifname) as [r [[a b] c]]; destruct (r.1 <? 0));
      cbn [mbind outcome_bind mret outcome_ret].
    all: repeat case_match; eexists; (split; [done|]); first [by eapply Hpos|done].
  - intros Hlen Hs. rewrite (proj2 (Z.ltb_ge _ _)) by done. by rewrite bool_decide_false by lia.
Qed.
End umem.

(** A kernel of the older kind that maps memory at an address of its choice. *)
Definition sample_libc : Libc := {|
  MAP_SHARED := 1; MAP_POPULATE := 32768; MAP_PRIVATE := 2; MAP_ANONYMOUS := 32; MAP_HUGETLB := 262144;
  MAP_FAILED := 2 ^ 64 - 1; ENOPROTOOPT := 92; AF_XDP := 44; AF_LOCAL := 1; SOCK_RAW := 3; SOCK_DGRAM := 2;
  SOL_XDP := 283; SOL_SOCKET := 1; PF_XDP := 44; MSG_DONTWAIT := 64;
  sys_socket _ _ _ := (3, 0);
  sys_mmap _ _ _ _ := (65536, 0);
  sys_getsockopt _ _ _ _ := ((0, 0), seqZ 100 12, 96);
  sys_setsockopt _ _ _ _ := (0, 0);
  sys_bind _ _ := (0, 0);
  sys_sendto _ _ := (0, 0);
  sys_recvmsg _ _ := (0, 0);
  sys_if_nametoindex _ := (0, 19);
  sys_ethtool_channels _ _ := ((-1, 95), (0, 0, 0));
  sys_read_dir _ := Some ["rx-0"; "rx-1"; "tx-0"];
|}%string.

Definition sample_umem : Umem := mkUmem (mkMmap 65536 (4096 * 1024)) 65536 4096 1024 0 0.

Lemma Umem_frames_partition_witness :
  UmemBuilder_build (B:=true) (L:=sample_libc) UmemBuilder_default = Ok sample_umem ∧
  ∃ ds, Umem_frames (B:=true) (E:=io_error) sample_umem = Ok ds ∧ Z.of_nat (length ds) = 1024 ∧
    (∀ d len, d ∈ ds → 0 ≤ len ≤ 4096 →
      ∃ ptr, index_umem (B:=true) (E:=io_error) sample_umem d = Ok (ptr, 4096) ∧
        index_rx (B:=true) (E:=io_error) sample_umem (with_len d len) = Ok (ptr, len) ∧
        65536 ≤ ptr ∧ ptr + 4096 ≤ 65536 + 4096 * 1024) ∧
    (∀ i j d e, ds !! i = Some d → ds !! j = Some e → i ≠ j →
      umem_address d + 4096 ≤ umem_address e ∨ umem_address e + 4096 ≤ umem_address d) ∧
    (∀ x, 0 ≤ x < 4096 * 1024 → ∃ d, d ∈ ds ∧ umem_address d ≤ x < umem_address d + 4096).
Proof.
  split; [reflexivity|].
  apply (Umem_frames_partition (B:=true) (L:=sample_libc) (E:=io_error) UmemBuilder_default sample_umem);
    [by vm_compute|by vm_compute|reflexivity].
Defined.

(** The sample kernel reports twelve words. *)
Example sample_offsets :
  offsets (B:=true) (L:=sample_libc) 3 =
    Ok (mkMmapOffsets (mkRingOffsetV2 100 101 102 105) (mkRingOffsetV2 103 104 105 108)
          (mkRingOffsetV2 106 107 108 111) (mkRingOffsetV2 109 110 111 114)).
Proof. reflexivity. Qed.

Example sample_queues : max_queues (L:=sample_libc) (E:=io_error) "eth0" = Ok 2.
Proof. reflexivity. Qed.
