(* ===== verification/UmemMem.v ===== *)
(** * The contents of the packet memory (xdp/raknet-xdp/src/umem.rs)

    [get] and [get_mut] give slices of the memory for the descriptor of a frame or of
    a packet.  The memory is the list of its bytes; a raw slice beyond it is
    undefined behaviour.  The theorems: frames are separate memories, and the tests
    of the crate pass. *)
From S2P Require Import Prelude Errors Umem.
Open Scope Z_scope.

(** What must not happen: a raw slice that leaves the mapping. *)
Inductive undefined := OutOfBounds.

Section memory.
Context {B : Build} {L : Libc}.

(** The trait [UnsafeIndex] and its two implementations. *)
Class UnsafeIndex (T : Type) := {
  ui_index : Umem → T → outcome undefined (Z * Z);
}.

Global Instance UnsafeIndex_rx : UnsafeIndex RxTxDescriptor := { ui_index := index_rx }.
Global Instance UnsafeIndex_umem : UnsafeIndex UmemDescriptor := { ui_index := index_umem }.

Definition Umem_len (u : Umem) : Z := mmap_len (area u).
Definition Umem_as_ptr (u : Umem) : Z := mem u.
Definition Umem_is_empty (u : Umem) : bool := mmap_len (area u) =? 0.

(** [slice::from_raw_parts] of the memory [m] that is mapped at [base]. *)
Definition from_raw_parts (base : Z) (m : list Z) (ptr len : Z) : outcome undefined (list Z) :=
  if (base <=? ptr) && (ptr + len <=? base + Z.of_nat (length m)) && (0 <=? len)
  then Ok (take (Z.to_nat len) (drop (Z.to_nat (ptr - base)) m))
  else Err OutOfBounds.

(** [get] *)
Definition Umem_get {T} `{!UnsafeIndex T} (u : Umem) (m : list Z) (idx : T) : outcome undefined (list Z) :=
  '(ptr, len) ← ui_index u idx; from_raw_parts (mmap_addr (area u)) m ptr len.

(** [get_mut], and the bytes [v] written to the start of the slice: the new memory. *)
Definition Umem_get_mut {T} `{!UnsafeIndex T} (u : Umem) (m : list Z) (idx : T) (v : list Z) : outcome undefined (list Z) :=
  '(ptr, len) ← ui_index u idx;
  slice ← from_raw_parts (mmap_addr (area u)) m ptr len;
  if decide (length v ≤ length slice)%nat then mret (splice (Z.to_nat (ptr - mmap_addr (area u))) v m) else Panic.

(** ** Tests of the crate *)

(** The loop of [index_test]. *)
Fixpoint index_loop (u : Umem) (m : list Z) (ds : list UmemDescriptor) : outcome undefined (list Z) :=
  match ds with
  | [] => mret m
  | descriptor :: ds =>
      Umem_get u m descriptor;;
      m ← Umem_get_mut u m descriptor [];
      let rx := mkRxTxDescriptor (umem_address descriptor) 1 0 in
      Umem_get u m rx;;
      m ← Umem_get_mut u m rx [];
      index_loop u m ds
  end.

(** [index_test]; [fill] is what the kernel puts into new memory, and the result of
    [build] is unwrapped. *)
Definition index_test (fill : Z → list Z) : outcome undefined unit :=
  match UmemBuilder_build UmemBuilder_default with
  | Ok u => ds ← Umem_frames u; index_loop u (fill (Umem_len u)) ds;; mret tt
  | _ => Panic
  end.

Definition max_queues_test {E} : outcome E unit := n ← max_queues "lo"; assert_ (1 <=? n).

Definition mmap_test (fill : Z → list Z) : outcome undefined unit :=
  match Mmap_new 32 0 None with
  | Ok a =>
      assert_ (mmap_len a =? 32);;
      from_raw_parts (mmap_addr a) (fill (mmap_len a)) (mmap_addr a) (mmap_len a);;
      from_raw_parts (mmap_addr a) (fill (mmap_len a)) (mmap_addr a) (mmap_len a);; mret tt
  | _ => Panic
  end.

(** [unwrap] of a [Result] of a system call. *)
Definition expect {A} (m : outcome io_error A) : outcome Empty_set A :=
  match m with Ok a => Ok a | _ => Panic end.

(** [syscall_test]; [enabled] is whether the environment says that sockets can be
    opened. *)
Definition syscall_test (enabled : bool) : outcome Empty_set unit :=
  match xdp_open with
  | Ok fd =>
      let ring_size := 32 in
      let frame_size := 4096 in
      let frame_count := ring_size * 4 in
      expect (set_fill_ring_size fd ring_size);;
      expect (set_completion_ring_size fd ring_size);;
      expect (set_rx_ring_size fd ring_size);;
      expect (set_tx_ring_size fd ring_size);;
      let umem_len := frame_size * frame_count in
      umem ← expect (Mmap_new umem_len 0 None);
      expect (set_xdp_option fd OptUmemReg [mmap_addr umem; umem_len; frame_size; 0; 0]);;
      expect (offsets fd);;
      expect (statistics fd);;
      expect (netns_cookie fd);;
      match set_if_name "lo" Address_default with
      | Ok addr =>
          match xdp_bind fd addr with
          | Ok _ => expect (wake_tx fd);; expect (busy_poll fd);; mret tt
          | _ => mret tt
          end
      | _ => mret tt
      end
  | _ => assert_ (negb enabled)
  end.

(** What the test asks of the kernel for a socket that it opened. *)
Record kernel_ok (fd : Z) : Prop := {
  ko_set : ∀ level opt value, 0 ≤ (sys_setsockopt fd level opt value).1;
  ko_mmap : ∀ len flags off, (sys_mmap len flags (-1) off).1 ≠ MAP_FAILED ∧ (sys_mmap len flags (-1) off).1 ≠ 0;
  ko_get : ∀ level opt len, (sys_getsockopt fd level opt len).1.1.1 = 0;
  ko_offsets : ∃ o, offsets fd = Ok o;
  ko_io : 0 ≤ (sys_sendto fd MSG_DONTWAIT).1 ∧ 0 ≤ (sys_recvmsg fd MSG_DONTWAIT).1;
}.

(** ** Lemmas *)

Lemma libc_call_Ok r : 0 ≤ r.1 → libc_call r = Ok r.1.
Proof. intros H. unfold libc_call. by rewrite (proj2 (Z.ltb_ge _ _)). Qed.

Lemma set_option_Ok fd opt value : kernel_ok fd → expect (set_xdp_option fd opt value) = Ok tt.
Proof. intros Hk. unfold set_xdp_option. rewrite libc_call_Ok by apply Hk. done. Qed.

(** The test of the system calls fails only where the kernel refuses: it passes when no
    socket can be opened and nothing else is expected, and when the socket that is opened
    takes the options and can map memory, whatever the loopback device does. *)
Lemma syscall_test_passes enabled :
  match xdp_open with
  | Ok fd => kernel_ok fd → syscall_test enabled = Ok tt
  | Err _ => syscall_test enabled = assert_ (negb enabled)
  | Panic => True
  end.
Proof.
  unfold syscall_test. destruct xdp_open as [fd| |]; [|done|done]. intros Hk.
  unfold set_fill_ring_size, set_completion_ring_size, set_rx_ring_size, set_tx_ring_size.
  rewrite !(set_option_Ok fd) by done. cbn [mbind outcome_bind].
  assert (∃ a, expect (Mmap_new (4096 * (32 * 4)) 0 None) = Ok a) as [a ->].
  { unfold Mmap_new, mmap. cbn [default].
    pose proof (ko_mmap fd Hk (4096 * (32 * 4)) (Z.lor MAP_PRIVATE MAP_ANONYMOUS) 0) as [H1 H2].
    destruct (sys_mmap _ _ _ _) as [addr errno]. cbn [fst] in *.
    rewrite (proj2 (Z.eqb_neq _ _) H1), (proj2 (Z.eqb_neq _ _) H2). by eexists. }
  cbn [mbind outcome_bind]. rewrite (set_option_Ok fd) by done. cbn [mbind outcome_bind].
  destruct (ko_offsets fd Hk) as [o ->]. cbn [expect mbind outcome_bind].
  assert (∃ x, expect (statistics fd) = Ok x) as [x ->].
  { unfold statistics, get_xdp_option. pose proof (ko_get fd Hk SOL_XDP (SocketOptions_as_i32 OptStatistics) (8 * Z.of_nat (length [0; 0; 0; 0; 0; 0]))) as H.
    destruct (sys_getsockopt _ _ _ _) as [[r w] l]. cbn [fst] in H. rewrite libc_call_Ok by lia. by eexists. }
  cbn [mbind outcome_bind].
  assert (∃ x, expect (netns_cookie fd) = Ok x) as [y ->].
  { unfold netns_cookie. pose proof (ko_get fd Hk SOL_SOCKET SO_NETNS_COOKIE 8) as H.
    destruct (sys_getsockopt _ _ _ _) as [[[r e] w] l]. cbn [fst] in H. subst r. by eexists. }
  cbn [mbind outcome_bind]. destruct (set_if_name _ _) as [addr| |]; [|done|done]. destruct (xdp_bind _ _); [|done|done].
  destruct (ko_io fd Hk) as [H1 H2]. unfold wake_tx, busy_poll. rewrite !libc_call_Ok by done. done.
Qed.

(** The [i]-th frame of the memory. *)
Definition frame_at (u : Umem) (i : Z) : UmemDescriptor := mkUmemDescriptor (i * frame_size u).
Definition frame_bytes (u : Umem) (m : list Z) (i : Z) : list Z :=
  take (Z.to_nat (frame_size u)) (drop (Z.to_nat (i * frame_size u)) m).

Lemma from_raw_parts_Ok base m off len :
  0 ≤ off → 0 ≤ len → off + len ≤ Z.of_nat (length m) →
  from_raw_parts base m (base + off) len = Ok (take (Z.to_nat len) (drop (Z.to_nat off) m)).
Proof.
  intros. unfold from_raw_parts. replace (base + off - base) with off by lia.
  rewrite !(proj2 (Z.leb_le _ _)) by lia. done.
Qed.

Section frames.
Context (u : Umem) (m : list Z) (Hu : Umem_ok u) (Hm : Z.of_nat (length m) = mmap_len (area u)).
Context (i : Z) (Hi : 0 ≤ i < frame_count u).

Lemma frame_fits : 0 ≤ i * frame_size u ∧ i * frame_size u + frame_size u ≤ Z.of_nat (length m) ∧ 0 ≤ frame_size u.
Proof using All. destruct Hu as (Hs & Hc & Hl & _). unfold uint in *. rewrite Hm, Hl. nia. Qed.

Lemma get_frame : Umem_get u m (frame_at u i) = Ok (frame_bytes u m i).
Proof using All.
  pose proof frame_fits. destruct (index_Ok (E:=undefined) u i 0 Hu Hi ltac:(lia)) as [H1 _].
  unfold Umem_get. cbn [ui_index UnsafeIndex_umem]. unfold frame_at. rewrite H1. cbn [mbind outcome_bind].
  destruct Hu as (_ & _ & _ & ->). apply from_raw_parts_Ok; lia.
Qed.

Lemma get_packet len : 0 ≤ len ≤ frame_size u → Umem_get u m (with_len (frame_at u i) len) = Ok (take (Z.to_nat len) (frame_bytes u m i)).
Proof using All.
  intros Hlen. pose proof frame_fits. destruct (index_Ok (E:=undefined) u i len Hu Hi Hlen) as [_ H1].
  unfold Umem_get. cbn [ui_index UnsafeIndex_rx]. unfold frame_at. rewrite H1. cbn [mbind outcome_bind].
  destruct Hu as (_ & _ & _ & ->). rewrite from_raw_parts_Ok by lia. unfold frame_bytes. rewrite take_take. f_equal. f_equal. lia.
Qed.

Lemma get_mut_packet v len : Z.of_nat (length v) ≤ len ≤ frame_size u →
  Umem_get_mut u m (with_len (frame_at u i) len) v = Ok (splice (Z.to_nat (i * frame_size u)) v m).
Proof using All.
  intros Hlen. pose proof frame_fits. destruct (index_Ok (E:=undefined) u i len Hu Hi ltac:(lia)) as [_ H1].
  unfold Umem_get_mut. cbn [ui_index UnsafeIndex_rx]. unfold frame_at. rewrite H1. cbn [mbind outcome_bind].
  destruct Hu as (_ & _ & _ & ->). rewrite from_raw_parts_Ok by lia. cbn [mbind outcome_bind].
  rewrite decide_True by (rewrite length_take, length_drop; lia). cbn. do 2 f_equal. lia.
Qed.

Lemma get_mut_frame v : Z.of_nat (length v) ≤ frame_size u →
  Umem_get_mut u m (frame_at u i) v = Ok (splice (Z.to_nat (i * frame_size u)) v m).
Proof using All.
  intros Hlen. pose proof frame_fits. destruct (index_Ok (E:=undefined) u i 0 Hu Hi ltac:(lia)) as [H1 _].
  unfold Umem_get_mut. cbn [ui_index UnsafeIndex_umem]. unfold frame_at. rewrite H1. cbn [mbind outcome_bind].
  destruct Hu as (_ & _ & _ & ->). rewrite from_raw_parts_Ok by lia. cbn [mbind outcome_bind].
  rewrite decide_True by (rewrite length_take, length_drop; lia). cbn. do 2 f_equal. lia.
Qed.
End frames.

Lemma splice_nil {A} n (l : list A) : splice n [] l = l.
Proof. unfold splice. cbn. rewrite Nat.add_0_r. apply take_drop. Qed.

Lemma index_loop_Ok u m is_ :
  Umem_ok u → Z.of_nat (length m) = mmap_len (area u) → 1 ≤ frame_size u →
  Forall (λ i, 0 ≤ i < frame_count u) is_ → index_loop u m (frame_at u <$> is_) = Ok m.
Proof.
  intros Hu Hm Hs. induction 1 as [|i is_ Hi _ IH]; [done|]. rewrite fmap_cons. cbn [index_loop].
  rewrite (get_frame u m Hu Hm i Hi). cbn [mbind outcome_bind].
  rewrite (get_mut_frame u m Hu Hm i Hi []) by (cbn; lia). cbn [mbind outcome_bind]. rewrite splice_nil.
  change (mkRxTxDescriptor (umem_address (frame_at u i)) 1 0) with (with_len (frame_at u i) 1).
  rewrite (get_packet u m Hu Hm i Hi) by lia. cbn [mbind outcome_bind].
  rewrite (get_mut_packet u m Hu Hm i Hi []) by (cbn; lia). cbn [mbind outcome_bind]. by rewrite splice_nil.
Qed.

(** The tests of the packet memory pass whenever the kernel maps the memory, and the
    one of the queues always, in debug and in release builds. *)
Lemma umem_tests_pass fill :
  (∀ n, 0 ≤ n → Z.of_nat (length (fill n)) = n) →
  (∀ u, UmemBuilder_build UmemBuilder_default = Ok u → index_test fill = Ok tt) ∧
  (∀ a, Mmap_new 32 0 None = Ok a → mmap_test fill = Ok tt) ∧
  max_queues_test (E:=undefined) = Ok tt.
Proof.
  intros Hfill. split_and!.
  - intros u Hb. destruct (UmemBuilder_build_ok UmemBuilder_default u) as (Hu & Hs & Hc); [by vm_compute|by vm_compute|done|].
    unfold index_test. rewrite Hb. pose proof Hu as (Us & Uc & Ul & _). rewrite (Umem_frames_Ok (E:=undefined) u) by done.
    cbn [mbind outcome_bind]. change (λ i, mkUmemDescriptor (i * frame_size u)) with (frame_at u).
    rewrite index_loop_Ok; [done|done| | |].
    + apply Hfill. unfold Umem_len. rewrite Ul. unfold uint in *. nia.
    + rewrite Hs. by vm_compute.
    + apply Forall_forall. intros i Hi%elem_of_seqZ. lia.
  - intros a Ha. unfold mmap_test. rewrite Ha. unfold Mmap_new in Ha. bind_inv. subst a. cbn [mmap_len mmap_addr].
    pose proof (from_raw_parts_Ok v (fill 32) 0 32 ltac:(lia) ltac:(lia) ltac:(rewrite Hfill; lia)) as Hr.
    rewrite Z.add_0_r in Hr. cbn [mbind outcome_bind assert_ Z.eqb Pos.eqb]. by rewrite Hr.
  - unfold max_queues_test. destruct (proj1 (max_queues_positive (E:=undefined) "lo")) as (q & -> & Hq); [cbn; lia|].
    cbn. by rewrite (proj2 (Z.leb_le _ _)).
Qed.
End memory.

(** C40. Frames are separate memories.  In the memory that a builder mapped, bytes that
    are written through the descriptor of a packet that has room for them and that fits
    its frame are what is read through it, every other frame keeps its bytes, and no
    access leaves the mapping, in debug and in release builds. *)
Theorem umem_frames_separate {B : Build} {L : Libc} b u m i j v len :
  uint 32 (b_frame_size b) → uint 32 (b_frame_count b) → UmemBuilder_build b = Ok u →
  Z.of_nat (length m) = Umem_len u → 0 ≤ i < b_frame_count b → 0 ≤ j < b_frame_count b → i ≠ j →
  Z.of_nat (length v) ≤ len ≤ b_frame_size b →
  ∃ m' old, Umem_get_mut u m (with_len (frame_at u i) len) v = Ok m' ∧ length m' = length m ∧
    Umem_get u m' (with_len (frame_at u i) (Z.of_nat (length v))) = Ok v ∧
    Umem_get u m (frame_at u j) = Ok old ∧ Umem_get u m' (frame_at u j) = Ok old.
Proof.
  intros Hs Hc Hb Hm Hi Hj Hij Hlen. destruct (UmemBuilder_build_ok b u Hs Hc Hb) as (Hu & Es & Ec).
  rewrite <-Ec in Hi, Hj. rewrite <-Es in Hlen. pose proof (frame_fits u m Hu Hm i Hi). pose proof (frame_fits u m Hu Hm j Hj).
  set (m' := splice (Z.to_nat (i * frame_size u)) v m).
  assert (length m' = length m) as Hl' by (apply splice_length; lia).
  exists m', (frame_bytes u m j). split_and!; [by apply get_mut_packet|done| |by apply get_frame|].
  - rewrite get_packet; [|done|by rewrite Hl'|done|lia]. unfold frame_bytes. rewrite take_take, Nat2Z.id.
    rewrite Nat.min_l by lia. unfold m'. by rewrite slice_splice by lia.
  - rewrite get_frame; [|done|by rewrite Hl'|done]. unfold frame_bytes, m'. f_equal. apply splice_slice; [|lia].
    destruct Hu as (Us & _). unfold uint in Us. destruct (Z.lt_total i j) as [Hlt|[->|Hlt]]; [left; nia|done|right; nia].
Qed.

(** A memory of eight frames of 64 bytes. *)
Definition small_builder : UmemBuilder := mkUmemBuilder 64 8 0 0 false.
Definition small_umem : Umem := mkUmem (mkMmap 65536 512) 65536 64 8 0 0.

Section sample.
Local Instance memory_build : Build := true.

Lemma umem_frames_separate_witness :
  UmemBuilder_build (B:=true) (L:=sample_libc) small_builder = Ok small_umem ∧
  ∃ m' old, Umem_get_mut small_umem (replicate 512 7) (with_len (frame_at small_umem 3) 10) [1; 2; 3] = Ok m' ∧
    Umem_get small_umem m' (with_len (frame_at small_umem 3) 3) = Ok [1; 2; 3] ∧
    Umem_get small_umem (replicate 512 7) (frame_at small_umem 4) = Ok old ∧
    Umem_get small_umem m' (frame_at small_umem 4) = Ok old.
Proof.
  split; [reflexivity|].
  destruct (umem_frames_separate (B:=true) (L:=sample_libc) small_builder small_umem (replicate 512 7) 3 4 [1; 2; 3] 10)
    as (m' & old & H1 & _ & H2 & H3 & H4); [by vm_compute|by vm_compute|reflexivity|reflexivity|cbn; lia|cbn; lia|lia|cbn; lia|].
  exists m', old. split_and!; [exact H1|exact H2|exact H3|exact H4].
Defined.

(** The sample kernel accepts everything. *)
Example sample_syscall_test : syscall_test (L:=sample_libc) true = Ok tt.
Proof. vm_compute. reflexivity. Qed.
End sample.
