(* ===== verification/XdpSocket.v ===== *)
(** * Handles of the XDP socket and its memory (xdp/raknet-xdp/src/socket.rs, mmap.rs)

    [Fd] and [Umem] are reference counted; the last handle closes the descriptor or
    unmaps the region.  The kernel's side is the set of open descriptors and of
    mapped regions, the memory that is registered for each socket, and a record of
    the [close] and [munmap] calls with their success.  The theorem: in every state
    that the operations reach, what is open in the kernel is exactly what the
    handles that exist stand for, and no [close] or [munmap] has failed. *)
From stdpp Require Import gmultiset.
From S2P Require Import Prelude Bytes Errors Umem.
Open Scope Z_scope.

(** ** Reference counting *)

(** The allocations of [Arc<A>] with their counts, and the handles that exist. *)
Record Shared (A : Type) := mkShared {
  sh_arcs : gmap nat (nat * A);
  sh_handles : gmultiset nat;
}.
Arguments mkShared {A} _ _.
Arguments sh_arcs {A} _.
Arguments sh_handles {A} _.

Section arc.
Context {A : Type}.

Definition no_shared : Shared A := mkShared ∅ ∅.

(** [Arc::new] *)
Definition arc_new (v : A) (s : Shared A) : nat * Shared A :=
  let i := fresh (dom (sh_arcs s)) in
  (i, mkShared (<[i := (1%nat, v)]> (sh_arcs s)) ({[+ i +]} ⊎ sh_handles s)).

(** [Arc::clone] *)
Definition arc_clone (i : nat) (s : Shared A) : Shared A :=
  mkShared (alter (prod_map S id) i (sh_arcs s)) ({[+ i +]} ⊎ sh_handles s).

(** [Arc::drop]: the last handle gives the value up. *)
Definition arc_drop (i : nat) (s : Shared A) : option A * Shared A :=
  match sh_arcs s !! i with
  | Some (S (S n), v) => (None, mkShared (<[i := (S n, v)]> (sh_arcs s)) (sh_handles s ∖ {[+ i +]}))
  | Some (_, v) => (Some v, mkShared (delete i (sh_arcs s)) (sh_handles s ∖ {[+ i +]}))
  | None => (None, s)
  end.

Definition arc_deref (i : nat) (s : Shared A) : option A := snd <$> sh_arcs s !! i.
End arc.

(** ** The operations *)

Record XdpWorld := mkXdpWorld {
  xw_fds : gset Z;               (* open descriptors *)
  xw_raw : gset Z;               (* those of [syscall::open] that no [Fd] has *)
  xw_socks : Shared Z;           (* the [Inner]s and the [Fd]s *)
  xw_regions : gset (Z * Z);     (* mapped regions *)
  xw_umems : Shared Umem;        (* the areas with the [Umem]s that share them *)
  xw_attached : gset (Z * (Z * Z)); (* the regions that are registered for sockets *)
  xw_calls : list bool;          (* the [close] and [munmap] calls: which succeeded *)
}.

Definition xdp_idle : XdpWorld := mkXdpWorld ∅ ∅ no_shared ∅ no_shared ∅ [].

Definition set_socks (fds raw : gset Z) (s : Shared Z) (w : XdpWorld) : XdpWorld :=
  mkXdpWorld fds raw s (xw_regions w) (xw_umems w) (xw_attached w) (xw_calls w).
Definition set_umems (regions : gset (Z * Z)) (s : Shared Umem) (w : XdpWorld) : XdpWorld :=
  mkXdpWorld (xw_fds w) (xw_raw w) (xw_socks w) regions s (xw_attached w) (xw_calls w).
Definition set_kernel (attached : gset (Z * (Z * Z))) (calls : list bool) (w : XdpWorld) : XdpWorld :=
  mkXdpWorld (xw_fds w) (xw_raw w) (xw_socks w) (xw_regions w) (xw_umems w) attached calls.

(** [close]: an open descriptor is closed, and what was registered for it is
    forgotten; another one is an error ([EBADF]). *)
Definition kernel_close (fd : Z) (w : XdpWorld) : XdpWorld :=
  if bool_decide (fd ∈ xw_fds w) then
    set_kernel (filter (λ x, x.1 ≠ fd) (xw_attached w)) (xw_calls w ++ [true])
      (set_socks (xw_fds w ∖ {[fd]}) (xw_raw w) (xw_socks w) w)
  else set_kernel (xw_attached w) (xw_calls w ++ [false]) w.

(** [munmap] of a whole region; nothing is mapped at another one.  The kernel does
    not object when the region is registered for a socket. *)
Definition kernel_munmap (r : Z * Z) (w : XdpWorld) : XdpWorld :=
  if bool_decide (r ∈ xw_regions w) then
    set_kernel (xw_attached w) (xw_calls w ++ [true]) (set_umems (xw_regions w ∖ {[r]}) (xw_umems w) w)
  else set_kernel (xw_attached w) (xw_calls w ++ [false]) w.

Definition region (u : Umem) : Z * Z := (mmap_addr (area u), mmap_len (area u)).

Section operations.
Context {B : Build}.

(** [Fd::open], with the answers of this call's kernel *)
Definition Fd_open (L : Libc) (w : XdpWorld) : outcome io_error (nat * XdpWorld) :=
  fd ← xdp_open;
  let '(i, s) := arc_new fd (xw_socks w) in
  mret (i, set_socks ({[fd]} ∪ xw_fds w) (xw_raw w) s w).

(** [syscall::open] on its own *)
Definition raw_open (L : Libc) (w : XdpWorld) : outcome io_error (Z * XdpWorld) :=
  fd ← xdp_open;
  mret (fd, set_socks ({[fd]} ∪ xw_fds w) ({[fd]} ∪ xw_raw w) (xw_socks w) w).

(** [Fd::from_raw]: the descriptor gets an owner. *)
Definition from_raw (value : Z) (w : XdpWorld) : nat * XdpWorld :=
  let '(i, s) := arc_new value (xw_socks w) in
  (i, set_socks (xw_fds w) (xw_raw w ∖ {[value]}) s w).

Definition as_raw_fd (i : nat) (w : XdpWorld) : option Z := arc_deref i (xw_socks w).

(** [Drop for Inner]: [close], with its result ignored *)
Definition Inner_drop (fd : Z) (w : XdpWorld) : XdpWorld := kernel_close fd w.

Definition Fd_clone (i : nat) (w : XdpWorld) : XdpWorld :=
  set_socks (xw_fds w) (xw_raw w) (arc_clone i (xw_socks w)) w.

Definition Fd_drop (i : nat) (w : XdpWorld) : XdpWorld :=
  let '(o, s) := arc_drop i (xw_socks w) in
  let w := set_socks (xw_fds w) (xw_raw w) s w in
  match o with Some fd => Inner_drop fd w | None => w end.

(** [Fd::attach_umem]: the kernel registers the region for the socket; the [Fd] does
    not keep the memory. *)
Definition attach_umem (L : Libc) (i j : nat) (w : XdpWorld) : option (outcome io_error XdpWorld) :=
  fd ← as_raw_fd i w;
  u ← arc_deref j (xw_umems w);
  Some (_ ← attach u fd; mret (set_kernel ({[(fd, region u)]} ∪ xw_attached w) (xw_calls w) w)).

(** [Builder::build] *)
Definition Umem_create (L : Libc) (b : UmemBuilder) (w : XdpWorld) : outcome io_error (nat * XdpWorld) :=
  u ← UmemBuilder_build b;
  let '(i, s) := arc_new u (xw_umems w) in
  mret (i, set_umems ({[region u]} ∪ xw_regions w) s w).

(** [Drop for Mmap]: [munmap] with the length of the creation, and its result ignored *)
Definition Mmap_drop (m : Mmap) (w : XdpWorld) : XdpWorld := kernel_munmap (mmap_addr m, mmap_len m) w.

Definition Umem_clone (i : nat) (w : XdpWorld) : XdpWorld := set_umems (xw_regions w) (arc_clone i (xw_umems w)) w.

Definition Umem_drop (i : nat) (w : XdpWorld) : XdpWorld :=
  let '(o, s) := arc_drop i (xw_umems w) in
  let w := set_umems (xw_regions w) s w in
  match o with Some u => Mmap_drop (area u) w | None => w end.

(** A program clones, drops and attaches the handles it has.  The kernel gives
    descriptors and regions that are not in use.  [from_raw], which is private to the
    crate, is called with a descriptor that was just opened, as in [ethtool_queues]
    and in the tests of the system calls. *)
Inductive xdp_step (w : XdpWorld) : XdpWorld → Prop :=
| step_open L i w' fd : Fd_open L w = Ok (i, w') → as_raw_fd i w' = Some fd → fd ∉ xw_fds w → xdp_step w w'
| step_raw_open L fd w' : raw_open L w = Ok (fd, w') → fd ∉ xw_fds w → xdp_step w w'
| step_from_raw value : value ∈ xw_raw w → xdp_step w (from_raw value w).2
| step_clone i : i ∈ sh_handles (xw_socks w) → xdp_step w (Fd_clone i w)
| step_drop i : i ∈ sh_handles (xw_socks w) → xdp_step w (Fd_drop i w)
| step_attach L i j w' : i ∈ sh_handles (xw_socks w) → j ∈ sh_handles (xw_umems w) →
    attach_umem L i j w = Some (Ok w') → xdp_step w w'
| step_create L b i w' u : Umem_create L b w = Ok (i, w') → arc_deref i (xw_umems w') = Some u →
    region u ∉ xw_regions w → xdp_step w w'
| step_umem_clone i : i ∈ sh_handles (xw_umems w) → xdp_step w (Umem_clone i w)
| step_umem_drop i : i ∈ sh_handles (xw_umems w) → xdp_step w (Umem_drop i w).

Definition xdp_reaches : XdpWorld → Prop := rtc xdp_step xdp_idle.
End operations.

(** ** Counts *)

Lemma handles_more i j (X : gmultiset nat) :
  multiplicity i ({[+ j +]} ⊎ X) = ((if decide (i = j) then 1 else 0) + multiplicity i X)%nat.
Proof. by rewrite multiplicity_disj_union, multiplicity_singleton. Qed.

Lemma handles_less i j (X : gmultiset nat) :
  multiplicity i (X ∖ {[+ j +]}) = (multiplicity i X - (if decide (i = j) then 1 else 0))%nat.
Proof. by rewrite multiplicity_difference, multiplicity_singleton. Qed.

Ltac count_handles :=
  rewrite ?handles_more, ?handles_less;
  first [rewrite decide_True by done | rewrite decide_False by done]; cbn [from_option fst prod_map id] in *; lia.

Section counts.
Context {A : Type}.

(** Every allocation is counted right, and every handle has one. *)
Definition shared_ok (s : Shared A) : Prop :=
  ∀ i, multiplicity i (sh_handles s) = from_option fst 0%nat (sh_arcs s !! i) ∧
    (∀ n v, sh_arcs s !! i = Some (n, v) → (0 < n)%nat).

Lemma shared_ok_handle s i : shared_ok s → i ∈ sh_handles s → ∃ n v, sh_arcs s !! i = Some (S n, v).
Proof.
  intros Hok Hi. destruct (Hok i) as [Hm Hpos]. rewrite elem_of_multiplicity in Hi.
  destruct (sh_arcs s !! i) as [[n v]|]; cbn [from_option fst] in Hm; [|lia].
  specialize (Hpos n v eq_refl). destruct n as [|n]; [lia|]. eauto.
Qed.

Lemma shared_ok_live s i n v : shared_ok s → sh_arcs s !! i = Some (n, v) → i ∈ sh_handles s.
Proof.
  intros Hok Hi. destruct (Hok i) as [Hm Hpos]. rewrite Hi in Hm. specialize (Hpos n v Hi).
  rewrite elem_of_multiplicity. cbn [from_option fst] in Hm. lia.
Qed.

Lemma arc_fresh (s : Shared A) : sh_arcs s !! fresh (dom (sh_arcs s)) = None.
Proof. apply not_elem_of_dom, is_fresh. Qed.

Lemma arc_new_ok v s : shared_ok s → shared_ok (arc_new v s).2.
Proof.
  intros Hok i. pose proof (arc_fresh s) as Hf. unfold arc_new. cbn [snd sh_arcs sh_handles].
  set (j := fresh _) in *. destruct (decide (i = j)) as [->|Hij].
  - rewrite lookup_insert_eq. cbn [from_option fst]. destruct (Hok j) as [Hm _]. rewrite Hf in Hm.
    cbn [from_option] in Hm. split; [count_handles|]. intros n v' [= <- <-]. lia.
  - rewrite lookup_insert_ne by done. destruct (Hok i) as [Hm Hpos]. split; [|done]. count_handles.
Qed.

Lemma arc_clone_ok i s : i ∈ sh_handles s → shared_ok s → shared_ok (arc_clone i s).
Proof.
  intros Hi Hok j. destruct (shared_ok_handle s i Hok Hi) as (n & v & Hv).
  unfold arc_clone. cbn [sh_arcs sh_handles]. destruct (decide (j = i)) as [->|Hij].
  - rewrite lookup_alter_eq, Hv. destruct (Hok i) as [Hm _]. rewrite Hv in Hm. cbn [from_option fst prod_map id] in *.
    cbn [fmap option_fmap option_map prod_map id from_option fst] in *.
    split; [count_handles|]. intros ?? [= <- <-]. lia.
  - rewrite lookup_alter_ne by done. destruct (Hok j) as [Hm Hpos]. split; [|done]. count_handles.
Qed.

(** What a drop does to the allocations: the last handle frees, another one counts down. *)
Lemma arc_drop_spec i s : i ∈ sh_handles s → shared_ok s →
  ∃ v, arc_deref i s = Some v ∧ shared_ok (arc_drop i s).2 ∧
    (((arc_drop i s).1 = Some v ∧ sh_arcs (arc_drop i s).2 = delete i (sh_arcs s)) ∨
     (∃ n, (arc_drop i s).1 = None ∧ sh_arcs (arc_drop i s).2 = <[i := (n, v)]> (sh_arcs s))).
Proof.
  intros Hi Hok. destruct (shared_ok_handle s i Hok Hi) as (n & v & Hv). exists v. unfold arc_deref, arc_drop.
  destruct (Hok i) as [Hmi _]. rewrite Hv in Hmi |- *. cbn [from_option fst] in Hmi. split; [done|].
  destruct n as [|n]; cbn [fst snd]; (split; [|by eauto]); intros j; cbn [sh_arcs sh_handles]; destruct (Hok j) as [Hm Hpos].
  - destruct (decide (j = i)) as [->|Hij]; [rewrite lookup_delete_eq; split; [|done]; count_handles|].
    rewrite lookup_delete_ne by done. split; [|done]. count_handles.
  - destruct (decide (j = i)) as [->|Hij].
    + rewrite lookup_insert_eq. split; [count_handles|]. intros ?? [= <- <-]. lia.
    + rewrite lookup_insert_ne by done. split; [|done]. count_handles.
Qed.
End counts.

(** ** What the kernel has open *)

Section backing.
Context {A R : Type} `{Countable R} (res : A → R).

(** The resources are those of the allocations and the [raw] ones, each of one owner. *)
Definition backed (open raw : gset R) (s : Shared A) : Prop :=
  (∀ r, r ∈ open ↔ r ∈ raw ∨ ∃ i v, arc_deref i s = Some v ∧ res v = r) ∧
  (∀ i v, arc_deref i s = Some v → res v ∉ raw) ∧
  (∀ i j v v', arc_deref i s = Some v → arc_deref j s = Some v' → res v = res v' → i = j).

Lemma arc_deref_new v s j :
  arc_deref j (arc_new v s).2 = if decide (j = (arc_new v s).1) then Some v else arc_deref (A:=A) j s.
Proof.
  unfold arc_deref, arc_new. cbn [fst snd sh_arcs]. set (i := fresh _). case_decide as Hj.
  - subst j. by rewrite lookup_insert_eq.
  - by rewrite lookup_insert_ne by done.
Qed.

Lemma arc_deref_new_eq (v : A) s w : arc_deref (arc_new v s).1 (arc_new v s).2 = Some w → w = v.
Proof. rewrite arc_deref_new, decide_True by done. by intros [= ->]. Qed.

Lemma arc_deref_fresh v s : arc_deref (arc_new v s).1 s = (None : option A).
Proof. unfold arc_deref, arc_new. cbn [fst]. by rewrite arc_fresh. Qed.

Lemma arc_deref_clone i j s : arc_deref j (arc_clone i s) = (arc_deref j s : option A).
Proof.
  unfold arc_deref, arc_clone. cbn [sh_arcs]. destruct (decide (j = i)) as [->|Hj].
  - rewrite lookup_alter_eq. by destruct (sh_arcs s !! i) as [[]|].
  - by rewrite lookup_alter_ne by done.
Qed.

(** A new owner, of a new resource or of a raw one. *)
Lemma backed_owner open raw open' raw' v s :
  backed open raw s → res v ∈ open' → (∀ i w, arc_deref i s = Some w → res w ≠ res v) →
  (∀ r, r ≠ res v → r ∈ open' ↔ r ∈ open) → (∀ r, r ∈ raw' ↔ r ∈ raw ∧ r ≠ res v) →
  backed open' raw' (arc_new v s).2.
Proof.
  intros (Ho & Hr & Hinj) Hv Hnew Hopen Hraw. pose proof (arc_deref_fresh v s) as Hf.
  split_and!.
  - intros r. destruct (decide (r = res v)) as [->|Hne].
    + split; [|done]. intros _. right. exists (arc_new v s).1, v. by rewrite arc_deref_new, decide_True.
    + rewrite Hopen, Ho, Hraw by done. split.
      * intros [Hin|(i & w & Hi & Hw)]; [by left|]. right. exists i, w. rewrite arc_deref_new.
        case_decide as Hi'; [by rewrite Hi', Hf in Hi|done].
      * intros [[Hin _]|(i & w & Hi & Hw)]; [by left|]. right. exists i, w. rewrite arc_deref_new in Hi.
        case_decide; [by injection Hi as ->|done].
  - intros i w Hi. rewrite arc_deref_new in Hi. rewrite Hraw. case_decide.
    + injection Hi as ->. by intros [_ ?].
    + intros [Hin _]. by eapply Hr.
  - intros i j w w' Hi Hj Hw. rewrite arc_deref_new in Hi, Hj. do 2 case_decide; simplify_eq; [done| | |by eapply Hinj].
    all: exfalso; naive_solver.
Qed.

Lemma backed_new open raw v s :
  backed open raw s → res v ∉ open → backed ({[res v]} ∪ open) raw (arc_new v s).2.
Proof.
  intros Hb Hv. assert (Hb' := Hb). destruct Hb' as (Ho & _ & _). apply (backed_owner open raw); [done|set_solver| | |].
  - intros i w Hi Hw. apply Hv, Ho. right. eauto.
  - set_solver.
  - intros r. split; [|tauto]. intros Hr. split; [done|]. intros ->. apply Hv, Ho. by left.
Qed.

Lemma backed_adopt open raw v s :
  backed open raw s → res v ∈ raw → backed open (raw ∖ {[res v]}) (arc_new v s).2.
Proof.
  intros Hb Hv. assert (Hb' := Hb). destruct Hb' as (Ho & Hr & _). apply (backed_owner open raw); [done| | |done|set_solver].
  - apply Ho. by left.
  - intros i w Hi Hw. apply (Hr i w Hi). by rewrite Hw.
Qed.

Lemma backed_raw open raw r s : backed open raw s → r ∉ open → backed ({[r]} ∪ open) ({[r]} ∪ raw) s.
Proof.
  intros (Ho & Hr & Hinj) Hn. split_and!; [|intros i v Hi|done].
  - intros r'. rewrite !elem_of_union, Ho. tauto.
  - rewrite not_elem_of_union. split; [|by eapply Hr]. intros Heq%elem_of_singleton. apply Hn, Ho. right. eauto.
Qed.

Lemma backed_clone open raw i s : backed open raw s → backed open raw (arc_clone i s).
Proof.
  intros (Ho & Hr & Hinj). split_and!.
  - intros r. rewrite Ho. by setoid_rewrite arc_deref_clone.
  - intros j v. rewrite arc_deref_clone. apply Hr.
  - intros j k v v'. rewrite !arc_deref_clone. apply Hinj.
Qed.

(** The last handle takes the resource with it. *)
Lemma backed_drop open raw i s :
  shared_ok s → i ∈ sh_handles s → backed open raw s →
  backed (match (arc_drop i s).1 with Some v => open ∖ {[res v]} | None => open end) raw (arc_drop i s).2.
Proof.
  intros Hok Hi (Ho & Hr & Hinj).
  destruct (arc_drop_spec i s Hi Hok) as (v & Hv & _ & [[-> Hs]|(n & -> & Hs)]).
  - assert (∀ j, arc_deref j (arc_drop i s).2 = if decide (j = i) then None else arc_deref j s) as Hd.
    { intros j. unfold arc_deref. rewrite Hs. case_decide as Hj; [subst j; by rewrite lookup_delete_eq|].
      by rewrite lookup_delete_ne by done. }
    split_and!.
    + intros r. rewrite elem_of_difference, not_elem_of_singleton, Ho. split.
      * intros [[Hin|(j & w & Hj & Hw)] Hne]; [by left|]. right. exists j, w. rewrite Hd.
        case_decide as Hji; [subst j|done]. congruence.
      * intros [Hin|(j & w & Hj & Hw)].
        -- split; [by left|]. intros ->. by eapply Hr.
        -- rewrite Hd in Hj. case_decide as Hji; [done|]. split; [right; eauto|]. intros ->. by eapply Hji, Hinj.
    + intros j w. rewrite Hd. case_decide; [done|]. apply Hr.
    + intros j k w w'. rewrite !Hd. do 2 (case_decide; [done|]). apply Hinj.
  - assert (∀ j, arc_deref j (arc_drop i s).2 = arc_deref j s) as Hd.
    { intros j. unfold arc_deref in *. rewrite Hs. destruct (decide (j = i)) as [->|]; [by rewrite lookup_insert_eq|].
      by rewrite lookup_insert_ne by done. }
    split_and!.
    + intros r. rewrite Ho. by setoid_rewrite Hd.
    + intros j w. rewrite Hd. apply Hr.
    + intros j k w w'. rewrite !Hd. apply Hinj.
Qed.
End backing.

(** ** Resources *)

Section resources.
Context {B : Build}.

Record xdp_ok (w : XdpWorld) : Prop := {
  xo_socks : shared_ok (xw_socks w) ∧ backed id (xw_fds w) (xw_raw w) (xw_socks w);
  xo_umems : shared_ok (xw_umems w) ∧ backed region (xw_regions w) ∅ (xw_umems w);
  xo_attached : ∀ x, x ∈ xw_attached w → x.1 ∈ xw_fds w;
  xo_calls : Forall (λ c, c = true) (xw_calls w);
}.

Lemma xdp_idle_ok : xdp_ok xdp_idle.
Proof.
  split; [| |set_solver|constructor];
    (split; [intros i; cbn [xdp_idle xw_socks xw_umems no_shared sh_arcs sh_handles]|split_and!]).
  1, 5: rewrite lookup_empty, multiplicity_empty; done.
  all: unfold arc_deref; cbn [xdp_idle xw_socks xw_umems xw_fds xw_raw xw_regions no_shared sh_arcs].
  all: setoid_rewrite lookup_empty; try done.
  all: intros r; split; [set_solver|]; intros [?|(? & ? & ? & ?)]; done.
Qed.

(** The owner of a resource that it gives up still has it open. *)
Lemma backed_open {A R} `{Countable R} (res : A → R) open raw i v s :
  backed res open raw s → arc_deref i s = Some v → res v ∈ open.
Proof. intros (Ho & _ & _) Hi. apply Ho. right. eauto. Qed.

Lemma Fd_drop_ok i w : i ∈ sh_handles (xw_socks w) → xdp_ok w → xdp_ok (Fd_drop i w).
Proof.
  intros Hi [[Hs Hbs] Hu Ha Hc]. unfold Fd_drop, Inner_drop.
  pose proof (backed_drop id _ _ i _ Hs Hi Hbs) as H. destruct (arc_drop_spec i _ Hi Hs) as (fd & Hfd & Hok & Hcase).
  pose proof (backed_open id _ _ _ _ _ Hbs Hfd) as Hin. cbn in Hin.
  destruct (arc_drop i (xw_socks w)) as [o s]. cbn [fst snd] in *.
  destruct Hcase as [[-> _]|(n & -> & _)]; [|by split].
  unfold kernel_close. cbn [xw_fds set_socks]. rewrite bool_decide_true by done. split; cbn; [done|done| |].
  - intros x [Hne Hx]%elem_of_filter. apply Ha in Hx. set_solver.
  - apply Forall_app. split; [done|]. by repeat constructor.
Qed.

Lemma Umem_drop_ok i w : i ∈ sh_handles (xw_umems w) → xdp_ok w → xdp_ok (Umem_drop i w).
Proof.
  intros Hi [Hs [Hu Hbu] Ha Hc]. unfold Umem_drop, Mmap_drop.
  pose proof (backed_drop region _ _ i _ Hu Hi Hbu) as H. destruct (arc_drop_spec i _ Hi Hu) as (u & Hd & Hok & Hcase).
  pose proof (backed_open region _ _ _ _ _ Hbu Hd) as Hin.
  destruct (arc_drop i (xw_umems w)) as [o s]. cbn [fst snd] in *.
  destruct Hcase as [[-> _]|(n & -> & _)]; [|by split].
  unfold kernel_munmap. change (mmap_addr (area u), mmap_len (area u)) with (region u).
  cbn [xw_regions set_umems]. rewrite bool_decide_true by done. split; cbn; [done|done|done|].
  apply Forall_app. split; [done|]. by repeat constructor.
Qed.

Lemma xdp_step_ok w w' : xdp_step w w' → xdp_ok w → xdp_ok w'.
Proof.
  intros Hstep Hok. pose proof Hok as [[Hs Hbs] [Hu Hbu] Ha Hc].
  destruct Hstep as [L i w' fd Ho Hfd Hn|L fd w' Ho Hn|v Hv|i Hi|i Hi|L i j w' Hi Hj Hat|L b i w' u Ho Hfd Hn|i Hi|i Hi].
  - unfold Fd_open in Ho. destruct xdp_open as [fd'|e|]; [|done..]. injection Ho as <- <-.
    unfold as_raw_fd in Hfd. cbn [xw_socks set_socks] in Hfd.
    apply (arc_deref_new_eq fd') in Hfd as ->.
    split; cbn; [|done|set_solver|done]. split; [by apply (arc_new_ok fd')|by apply (backed_new id)].
  - unfold raw_open in Ho. destruct xdp_open as [fd'|e|]; [|done..]. injection Ho as <- <-.
    split; cbn; [|done|set_solver|done]. split; [done|by apply backed_raw].
  - split; cbn; [|done..]. split; [by apply (arc_new_ok v)|by apply (backed_adopt id)].
  - split; cbn; [|done..]. split; [by apply arc_clone_ok|by apply backed_clone].
  - by apply Fd_drop_ok.
  - unfold attach_umem, as_raw_fd in Hat. destruct (arc_deref i (xw_socks w)) as [fd|] eqn:Hfd; [|done].
    destruct (arc_deref j (xw_umems w)) as [u|]; [|done]. cbn in Hat. destruct (attach u fd); [|done..].
    cbn in Hat. injection Hat as <-. split; cbn; try done. intros x [->%elem_of_singleton|Hx]%elem_of_union; [|by apply Ha].
    exact (backed_open id _ _ _ _ _ Hbs Hfd).
  - unfold Umem_create in Ho. destruct UmemBuilder_build as [u'|e|]; [|done..]. injection Ho as <- <-.
    cbn [xw_umems set_umems] in Hfd.
    apply (arc_deref_new_eq u') in Hfd as ->.
    split; cbn; [done| |done|done]. split; [by apply (arc_new_ok u')|by apply (backed_new region)].
  - split; cbn; [done| |done|done]. split; [by apply arc_clone_ok|by apply backed_clone].
  - by apply Umem_drop_ok.
Qed.

Lemma xdp_reaches_ok w : xdp_reaches w → xdp_ok w.
Proof.
  intros Hw. unfold xdp_reaches in Hw. remember xdp_idle as w0 eqn:E0. assert (xdp_ok w0) as Hok by (subst; apply xdp_idle_ok).
  clear E0. induction Hw as [|w1 w2 w3 Hstep _ IH]; [done|]. by eapply IH, xdp_step_ok.
Qed.

(** The allocations are those that a handle refers to. *)
Lemma live_handles {A} (s : Shared A) i v : shared_ok s → arc_deref i s = Some v → i ∈ sh_handles s.
Proof.
  intros Hok Hi. unfold arc_deref in Hi. destruct (sh_arcs s !! i) as [[n v']|] eqn:E; [|done]. by eapply shared_ok_live.
Qed.

Lemma handle_live {A} (s : Shared A) i : shared_ok s → i ∈ sh_handles s → ∃ v, arc_deref i s = Some v.
Proof. intros Hok Hi. destruct (shared_ok_handle s i Hok Hi) as (n & v & E). exists v. unfold arc_deref. by rewrite E. Qed.

End resources.

(** A socket and its memory: both are opened, the memory is attached, the socket is
    cloned, and the first handle and the memory are dropped. *)
Definition sample_world : XdpWorld :=
  let w := set_umems {[region sample_umem]} (arc_new sample_umem no_shared).2
    (set_socks {[3]} ∅ (arc_new 3 no_shared).2 xdp_idle) in
  Umem_drop 0 (Fd_drop 0 (Fd_clone 0 (set_kernel {[(3, region sample_umem)]} [] w))).

Lemma sample_world_reached : xdp_reaches (B:=true) sample_world.
Proof.
  eapply rtc_l; [eapply (step_open _ sample_libc); [reflexivity|reflexivity|set_solver]|].
  eapply rtc_l; [eapply (step_create _ sample_libc UmemBuilder_default); [reflexivity|reflexivity|set_solver]|].
  eapply rtc_l; [eapply (step_attach _ sample_libc 0 0); [apply Nat.ltb_lt; vm_compute; reflexivity..|reflexivity]|].
  eapply rtc_l; [apply (step_clone _ 0); apply Nat.ltb_lt; vm_compute; reflexivity|].
  eapply rtc_l; [apply (step_drop _ 0); apply Nat.ltb_lt; vm_compute; reflexivity|].
  eapply rtc_l; [apply (step_umem_drop _ 0); apply Nat.ltb_lt; vm_compute; reflexivity|].
  match goal with |- rtc _ ?a ?b => replace a with b by (vm_compute; reflexivity) end. apply rtc_refl.
Qed.


(** The memory of the open socket is registered, but no longer mapped. *)
Example attached_memory_unmapped :
  xdp_reaches (B:=true) sample_world ∧ xw_fds sample_world = {[3]} ∧
  xw_attached sample_world = {[(3, region sample_umem)]} ∧ xw_regions sample_world = ∅.
Proof. split; [apply sample_world_reached|]. split_and!; vm_compute; reflexivity. Qed.

(** A descriptor that is taken over twice would be closed twice. *)
Example adopted_twice :
  let w := (from_raw 3 (from_raw 3 (set_socks {[3]} {[3]} no_shared xdp_idle)).2).2 in
  xw_calls (Fd_drop 1 (Fd_drop 0 w)) = [true; false].
Proof. vm_compute. reflexivity. Qed.
